(* ===== verification/_CoqProject ===== *)
-Q . S2P
Prelude.v
NavJs.v
ArithUint256.v
StrEncodings.v
Amount.v
Uint256.v
Merkle.v
Chain.v
MedianTime.v
Params.v
Versionbits.v
Pow.v
Tx.v
LockTime.v
Script.v
Hashes.v
Scrypt.v
Serialize.v
CheckTx.v
Coins.v
TxInputs.v
Interpreter.v
SoftFork.v
ScriptSafety.v
Spending.v
SigHash.v
LockOpcodes.v
Undo.v
Supply.v
AuxPow.v
ConnectBlock.v
Headers.v
BlockContext.v
Compressor.v
MerkleBlock.v
Candidates.v
Activate.v
BestChain.v
TipCoins.v
ReceivedBlock.v
