(* ===== verification/Prelude.v ===== *)
(** * A verification development for Dogecoin Core Pro

    The repository holds a node of the Dogecoin network in C++ ([src/src]), its
    graphical interfaces, and HTML documentation with one script.  The files
    with the extension [ts] are translation catalogues of Qt Linguist (XML);
    the only JavaScript or TypeScript program is [html/docs/assets/nav.js].
    This library models that script and the consensus core of the node, from
    256-bit arithmetic and the hash functions to the script interpreter, the
    acceptance of headers, the connection of a block and the choice of the
    active chain.

    ** Parts

    - [NavJs]: the sidebar of the documentation ([html/docs/assets/nav.js]),
      line by line, on the part of the page it reads and writes.
    - [ArithUint256]: [arith_uint256.{h,cpp}], eight 32-bit words.
    - [StrEncodings]: [utilstrencodings.cpp]; [Amount]: [amount.{h,cpp}] and
      [utilmoneystr.cpp]; [Uint256]: [uint256.{h,cpp}].
    - [Merkle]: [consensus/merkle.cpp], for any hash of two nodes.
    - [Chain]: [chain.{h,cpp}] and [AddToBlockIndex]; the block index is a map
      from addresses to entries, so pointers are keys.  [MedianTime]:
      [GetMedianTimePast].
    - [Params]: [consensus/params.h] and the three networks of
      [chainparams.cpp].  [Versionbits]: [versionbits.cpp].  [Pow]: [pow.cpp],
      [dogecoin.cpp] and [GetBlockProofEquivalentTime].
    - [Tx]: [primitives/transaction.h].  [LockTime]: [IsFinalTx] and the
      sequence locks of [validation.cpp].  [Script]: [script/script.{h,cpp}].
      [Serialize]: [serialize.h] and the wire format of transactions.
    - [Hashes]: SHA-256, SHA-1 and RIPEMD-160 of [crypto/] and the double
      hashes of [hash.h].  [Scrypt]: [crypto/scrypt.cpp] and
      [crypto/hmac_sha256.cpp].
    - [CheckTx]: [consensus/validation.h] and [CheckTransaction].
    - [Coins]: [coins.{h,cpp}] and the coin database of [txdb.cpp].  The class
      [CoinsViewOps] is the interface of [CCoinsView], and [CoinsView] its
      laws, met by the database and by a cache over any view.
    - [TxInputs]: the signature operation costs and [CheckTxInputs].
    - [Interpreter]: [script/interpreter.{h,cpp}], [EvalScript] with every
      opcode and [VerifyScript]; [SigHash]: [SignatureHash] in both versions
      and [TransactionSignatureChecker].  Theorems about scripts are in
      [SoftFork], [ScriptSafety], [Spending] and [LockOpcodes].
    - [Undo]: [undo.h], [UpdateCoins], [ApplyTxInUndo] and [DisconnectBlock].
      [Supply]: the value of all unspent outputs.
    - [AuxPow]: [primitives/pureheader.{h,cpp}], [primitives/block.{h,cpp}],
      [auxpow.{h,cpp}], [CheckAuxPowProofOfWork] and the genesis blocks.
    - [ConnectBlock]: [CheckBlock], [CheckInputs] and [ConnectBlock].
    - [Headers]: [AcceptBlockHeader], [ContextualCheckBlockHeader] and
      [checkpoints.cpp].  [BlockContext]: [ContextualCheckBlock] and the
      functions that write the witness commitment.
    - [Compressor]: [compressor.{h,cpp}] and the stored form of coins.
    - [MerkleBlock]: [merkleblock.{h,cpp}], partial Merkle trees.
    - [Candidates]: the globals around the block index (record [Node]), the
      order of chains and [FindMostWorkChain].  [Activate]: [ConnectTip],
      [DisconnectTip], [ActivateBestChainStep] and [ActivateBestChain]; what a
      block does to the coins, the memory pool and the files is behind the
      class [TipOps], and [TipLaws] says what the choice of the chain relies
      on.  [BestChain]: the theorem on [ActivateBestChain].  [TipCoins]:
      [ConnectBlock] and [DisconnectBlock] on a cache over [pcoinsTip] as an
      instance of [TipOps] that keeps [TipLaws].  [ReceivedBlock]:
      [ReceivedBlockTransactions].

    They build on each other: [ConnectBlock] reads the block index ([Chain],
    [MedianTime], [Versionbits], [Params]), runs [CheckTx], [LockTime],
    [TxInputs], [Undo] and the interpreter on a cache of [Coins], and pays the
    subsidy of [Pow]; [Headers] and [BlockContext] decide what enters the
    index it reads; [Activate] decides which blocks are connected, and
    [ReceivedBlock] what it chooses from; [Compressor] and [Serialize] are how coins and
    transactions are stored.  The hash of a transaction or a header, the
    Merkle root and the proof of work are computed with [Hashes] and
    [Scrypt].

    ** Conventions

    Integers are [Z] with the wrap of their C++ type written out ([u32 x],
    [i64 x]).  Signed overflow is taken to wrap.  Byte strings and scripts are
    lists of [Z].  [outcome] is a result or [Abort]: a failed assertion, an
    uncaught exception, a bad pointer, or a loop that ran out of fuel.  [run]
    of [CheckTx] adds early returns.  Reading a coins cache fills it, so the
    reading operations return the cache.  The hash functions are opaque
    outside [Hashes], so that proofs do not compute them.

    ** Theorems

    - The sidebar: its links lead to the pages wherever the documentation is
      installed, one link is active, a second run changes nothing; and a
      counterexample, an installation below a directory named pages.
    - Refinement: the word arithmetic implements [Z] modulo [2^256]; a coins
      cache implements a map of unspent outputs; the cached computation of
      deployment states implements BIP 9; an accepted block is applied as the
      sequence of its transactions to that map.
    - Safety of blocks: no block creates more than its subsidy; every spent
      output was unlocked by its script; equal Merkle roots mean equal lists,
      short of a collision or a reported mutation; BIP 34 makes coinbases
      unique; the required work is a valid target; merged mining commits to
      one block; what a partial Merkle tree proves is in the block.
    - Scripts: the interpreter returns within its limits, flags only restrict,
      the streaming signature hash is the original one, and the usual scripts
      ask for what they are meant to ask.
    - Headers: what the index of a node holds, in every state it can reach.
    - The active chain: [FindMostWorkChain] finds the best chain that can be
      used; [ActivateBestChain] returns and leaves the chain with the most work
      active among those that are complete and follow the rules; receiving
      blocks in any order keeps all such chains among the candidates; and a
      counterexample, a fork below a snapshot without its block, where
      [ActivateBestChain] does not return.
    - Equivalence: SHA-256 and FIPS 180-4, scrypt and RFC 7914, skip list and
      walk, constant-space and recursive Merkle root, sequence locks and
      BIP 68.
    - Exact acceptance: [CheckTransaction], [CheckTxInputs],
      [CheckProofOfWork], [AcceptBlockHeader], [ContextualCheckBlock] and the
      parsers accept what their specifications say and report an error on
      everything else.
    - Round trips: texts, compact targets, script numbers, transactions,
      blocks, Merkle blocks, coins, and connecting a block followed by
      disconnecting it.

    ** Fuel

    Loops that are not structural take fuel: the walk of [GetAncestor] the
    difference of heights, which each step lowers; script readers and the
    interpreter the length of the script, of which each instruction takes a
    byte; [GetStateFor] the height of the block plus two; the Merkle loops the
    32 levels of the algorithm; [FindMostWorkChain] the number of candidates,
    of which each round removes one; the loops of [ActivateBestChainStep] the
    number of blocks they disconnect or connect; [ReceivedBlockTransactions]
    the number of blocks that wait.  The theorems on these operations show
    that the outcome is [Ret], so the fuel is enough.  The loop of
    [ActivateBestChain] has no bound of its own: its fuel is an argument, and
    the theorems say that from some amount on the result is there.

    ** Not modelled

    The elliptic curve (whether a signature verifies and whether it is low),
    the decompression of keys, the Mersenne twister and file writes are
    arguments of the definitions that use them, with at most their documented
    range assumed.  Left out are the memory pool, block files and pruning, the
    commands that invalidate, reconsider or prefer a block, snapshots beyond
    the tests for them, mining, the network, the databases below the coin
    records, RPC, the wallet, the graphical interfaces and process start-up:
    they are input and output or concurrency around the modelled checks.
    [ActivateBestChain] runs without other threads between its steps; that a
    block once accepted is not refused later is a hypothesis of its theorem,
    since it depends on the coins on disk.  The self-check [CheckBlockIndex],
    fork warnings, logging, timing, locks and notifications are left out of the
    functions that are modelled. *)

From Stdlib Require Export ZArith Lia.
From stdpp Require Export base tactics option list numbers.
From Stdlib Require Ascii String.
Export Ascii.AsciiSyntax String.StringSyntax.

#[global] Open Scope Z_scope.

(** ** Machine integers

    An unsigned [w]-bit C++ integer is a [Z] in [0, 2^w); every arithmetic
    result the source stores in such a type goes through the wrap of that
    type.  A signed integer goes through the two's complement wrap (the
    behaviour of every compiler the project supports for conversions). *)

Definition wrapU (w z : Z) : Z := z mod 2 ^ w.
Definition wrapS (w z : Z) : Z := (z + 2 ^ (w - 1)) mod 2 ^ w - 2 ^ (w - 1).

Declare Scope cpp_scope.
Delimit Scope cpp_scope with cpp.
Notation "'u8' x" := (wrapU 8 x) (at level 9, x at level 9) : cpp_scope.
Notation "'u32' x" := (wrapU 32 x) (at level 9, x at level 9) : cpp_scope.
Notation "'u64' x" := (wrapU 64 x) (at level 9, x at level 9) : cpp_scope.
Notation "'i32' x" := (wrapS 32 x) (at level 9, x at level 9) : cpp_scope.
Notation "'i64' x" := (wrapS 64 x) (at level 9, x at level 9) : cpp_scope.
#[global] Open Scope cpp_scope.

Definition inU (w z : Z) : Prop := 0 <= z < 2 ^ w.
Definition inS (w z : Z) : Prop := - 2 ^ (w - 1) <= z < 2 ^ (w - 1).

(** ** Counted loops

    [for_range lo hi body st] is
    [for (i = lo; i < hi; i++) st = body(i, st)]. *)

Definition for_range {A} (lo hi : nat) (body : nat -> A -> A) (st : A) : A :=
  fold_left (fun st i => body i st) (seq lo (hi - lo)) st.

(** ** Arrays

    [l.[i]] reads an array of integers.  The source never reads out of range
    where this is used; the value there is irrelevant and taken to be [0]. *)

Definition get (l : list Z) (i : nat) : Z := default 0 (l !! i).
Notation "l .[ i ]" := (get l i%nat) (at level 1, i at level 200, left associativity, format "l .[ i ]") : cpp_scope.

(** ** Bytes and strings

    A byte string, [std::string] or [std::vector<unsigned char>], is a list of
    byte values; [str] and [chr] embed the literals of the source. *)

Definition is_bytes (l : list Z) : Prop := Forall (inU 8) l.
Definition chr (c : Ascii.ascii) : Z := Z.of_N (Ascii.N_of_ascii c).
Definition str (s : String.string) : list Z := map chr (String.list_ascii_of_string s).
Arguments chr c%_char_scope.
Arguments str s%_string_scope.

(** [isspace] of the C locale. *)
Definition isspace (c : Z) : bool := (c =? 32) || ((9 <=? c) && (c <=? 13)).
Definition isdigit (c : Z) : bool := (chr "0" <=? c) && (c <=? chr "9").

(** ** Outcomes

    [Abort] is a run that produces no result: a failed [assert], a null or
    dangling pointer dereferenced, or a loop that did not finish within the
    fuel of its model.  Every such model comes with a theorem that the
    outcome is [Ret] on the states the program reaches. *)

Inductive outcome (A : Type) : Type :=
| Ret (a : A)
| Abort.
Arguments Ret {A} a.
Arguments Abort {A}.

#[export] Instance outcome_ret : MRet outcome := fun _ => Ret.
#[export] Instance outcome_bind : MBind outcome :=
  fun _ _ f x => match x with Ret a => f a | Abort => Abort end.

(** Reading through a pointer, asserting. *)
Definition deref {A} (o : option A) : outcome A := match o with Some a => Ret a | None => Abort end.
Definition assert_ (b : bool) : outcome unit := if b then Ret tt else Abort.

(** ** Automation *)

Create HintDb cpp.

Ltac pow2_cbv :=
  repeat match goal with
  | |- context [2 ^ ?n] => progress (let v := eval vm_compute in (2 ^ n) in change (2 ^ n) with v)
  | H : context [2 ^ ?n] |- _ => progress (let v := eval vm_compute in (2 ^ n) in change (2 ^ n) with v in H)
  end.

(** Case split on every boolean comparison of the goal and hypotheses. *)
Ltac zbool :=
  repeat match goal with
  | |- context [Z.eqb ?a ?b] => destruct (Z.eqb_spec a b)
  | |- context [Z.ltb ?a ?b] => destruct (Z.ltb_spec a b)
  | |- context [Z.leb ?a ?b] => destruct (Z.leb_spec a b)
  | H : context [Z.eqb ?a ?b] |- _ => destruct (Z.eqb_spec a b)
  | H : context [Z.ltb ?a ?b] |- _ => destruct (Z.ltb_spec a b)
  | H : context [Z.leb ?a ?b] |- _ => destruct (Z.leb_spec a b)
  end.

(** Linear arithmetic with division and remainder by constants. *)
Ltac divlia := Z.to_euclidean_division_equations; lia.

(** ** Generic lemmas *)

Lemma wrapU_range w z : 0 <= w -> inU w (wrapU w z).
Proof. intros. apply Z.mod_pos_bound. lia. Qed.

Lemma wrapU_small w z : inU w z -> wrapU w z = z.
Proof. apply Z.mod_small. Qed.

Lemma wrapS_range w z : 0 < w -> inS w (wrapS w z).
Proof.
  intros. unfold inS, wrapS.
  replace (2 ^ w) with (2 * 2 ^ (w - 1)) by (rewrite <- Z.pow_succ_r by lia; f_equal; lia).
  pose proof (Z.mod_pos_bound (z + 2 ^ (w - 1)) (2 * 2 ^ (w - 1)) ltac:(lia)). lia.
Qed.

Lemma wrapS_small w z : 0 < w -> inS w z -> wrapS w z = z.
Proof.
  unfold inS, wrapS. intros Hw Hz.
  rewrite Z.mod_small; [lia|].
  replace (2 ^ w) with (2 * 2 ^ (w - 1)) by (rewrite <- Z.pow_succ_r by lia; f_equal; lia).
  lia.
Qed.

Lemma wrapU_add_l w a b : wrapU w (wrapU w a + b) = wrapU w (a + b).
Proof. apply Zplus_mod_idemp_l. Qed.

Lemma wrapU_mul_l w a b : wrapU w (wrapU w a * b) = wrapU w (a * b).
Proof. apply Zmult_mod_idemp_l. Qed.

Lemma wrapS_wrapU w z : wrapS w (wrapU w z) = wrapS w z.
Proof. unfold wrapS, wrapU. by rewrite Zplus_mod_idemp_l. Qed.

#[export] Hint Resolve wrapU_range wrapS_range : cpp.

Lemma for_range_ge {A} lo hi body (st : A) : (hi <= lo)%nat -> for_range lo hi body st = st.
Proof. intros. unfold for_range. by replace (hi - lo)%nat with 0%nat by lia. Qed.

Lemma for_range_S_r {A} lo hi body (st : A) :
  (lo <= hi)%nat -> for_range lo (S hi) body st = body hi (for_range lo hi body st).
Proof.
  intros. unfold for_range. replace (S hi - lo)%nat with (S (hi - lo)) by lia.
  rewrite seq_S, fold_left_app. simpl. f_equal. lia.
Qed.

(** The loop rule: an invariant that holds at [lo] and is kept by each
    iteration holds at [hi]. *)
Lemma for_range_ind {A} (I : nat -> A -> Prop) lo hi body st :
  (lo <= hi)%nat -> I lo st ->
  (forall i s, (lo <= i < hi)%nat -> I i s -> I (S i) (body i s)) ->
  I hi (for_range lo hi body st).
Proof.
  intros Hle H0 Hs. induction hi as [|hi IH].
  - assert (lo = 0%nat) as -> by lia. by rewrite for_range_ge.
  - destruct (decide (lo = S hi)) as [->|]; [by rewrite for_range_ge|].
    rewrite for_range_S_r by lia. apply Hs; [lia|]. apply IH; [lia|].
    intros i s ?. apply Hs. lia.
Qed.

Lemma get_cons_0 x l : (x :: l).[0] = x.
Proof. reflexivity. Qed.

Lemma get_cons_S x l i : (x :: l).[S i] = l.[i].
Proof. reflexivity. Qed.

Lemma get_lookup l i x : l !! i = Some x -> l.[i] = x.
Proof. unfold get. by intros ->. Qed.

Lemma lookup_get l i : (i < length l)%nat -> l !! i = Some l.[i].
Proof. intros. unfold get. by destruct (lookup_lt_is_Some_2 l i) as [x ->]. Qed.

Lemma get_ge l i : (length l <= i)%nat -> l.[i] = 0.
Proof. intros. unfold get. by rewrite lookup_ge_None_2. Qed.

Lemma get_insert_eq l i x : (i < length l)%nat -> (<[i := x]> l).[i] = x.
Proof. intros. unfold get. by rewrite list_lookup_insert_eq. Qed.

Lemma get_insert_ne l i j x : i <> j -> (<[i := x]> l).[j] = l.[j].
Proof. intros. unfold get. by rewrite list_lookup_insert_ne. Qed.

Lemma get_replicate0 n i : (replicate n 0).[i] = 0.
Proof.
  unfold get. destruct (replicate n 0 !! i) eqn:E; [|done]. simpl.
  by apply lookup_replicate in E as [].
Qed.

Lemma Forall_get (P : Z -> Prop) l i : P 0 -> Forall P l -> P l.[i].
Proof.
  intros H0 Hf. unfold get. destruct (l !! i) eqn:E; [|done].
  by apply (Forall_lookup_1 _ _ _ _ Hf E).
Qed.

(** Disjoint bitwise or is addition. *)
Lemma lor_disjoint_add a b s : 0 <= s -> 0 <= a < 2 ^ s -> Z.lor a (Z.shiftl b s) = a + b * 2 ^ s.
Proof.
  intros Hs Ha. rewrite <- Z.shiftl_mul_pow2 by lia.
  assert (Z.land a (Z.shiftl b s) = 0) as Hd.
  { apply Z.bits_inj'; intros n Hn; rewrite Z.land_spec, Z.bits_0.
    destruct (Z.ltb_spec n s).
    - rewrite (Z.shiftl_spec_low b) by lia. apply andb_false_r.
    - rewrite (proj2 (Z.testbit_false a n ltac:(lia))); [reflexivity|].
      rewrite Z.div_small; [reflexivity|].
      assert (2 ^ s <= 2 ^ n) by (apply Z.pow_le_mono_r; lia). lia. }
  by rewrite Z.add_nocarry_lxor, Z.lxor_lor.
Qed.

Lemma land_ones_mod z w : 0 <= w -> Z.land z (2 ^ w - 1) = z mod 2 ^ w.
Proof. intros. rewrite <- Z.land_ones, Z.ones_equiv, <- Z.sub_1_r by lia. reflexivity. Qed.

Lemma lor_inU w a b : 0 <= w -> inU w a -> inU w b -> inU w (Z.lor a b).
Proof.
  unfold inU. intros Hw Ha Hb.
  replace (Z.lor a b) with (Z.lor a b mod 2 ^ w); [apply Z.mod_pos_bound; lia|].
  rewrite <- !Z.land_ones, Z.land_lor_distr_l, !Z.land_ones by lia.
  by rewrite !Z.mod_small by lia.
Qed.

Lemma shiftr_inU w a n : 0 <= n -> inU w a -> inU w (Z.shiftr a n).
Proof.
  unfold inU. intros Hn Ha. rewrite Z.shiftr_div_pow2 by lia.
  split; [apply Z.div_pos; lia|]. apply Z.div_lt_upper_bound; [lia|]. nia.
Qed.

#[export] Hint Resolve lor_inU shiftr_inU : cpp.

Lemma lor_pow2_add x j : 0 <= j -> Z.testbit x j = false -> Z.lor x (2 ^ j) = x + 2 ^ j.
Proof.
  intros Hj Ht. symmetry.
  assert (Z.land x (2 ^ j) = 0) as Hd.
  { apply Z.bits_inj'. intros n Hn. rewrite Z.land_spec, Z.bits_0.
    destruct (Z.eqb_spec n j) as [->|]; [by rewrite Ht|].
    rewrite Z.pow2_bits_false by lia. apply andb_false_r. }
  by rewrite Z.add_nocarry_lxor, Z.lxor_lor.
Qed.

Lemma land_pow2_eqb x n : 0 <= n -> (Z.land x (2 ^ n) =? 0) = negb (Z.testbit x n).
Proof.
  intros Hn. destruct (Z.testbit x n) eqn:E.
  - apply Z.eqb_neq. intros H0. apply (f_equal (fun z => Z.testbit z n)) in H0.
    by rewrite Z.land_spec, E, Z.pow2_bits_true, Z.bits_0 in H0 by lia.
  - apply Z.eqb_eq, Z.bits_inj'. intros m Hm. rewrite Z.land_spec, Z.bits_0.
    destruct (Z.eqb_spec m n) as [->|]; [by rewrite E|].
    rewrite Z.pow2_bits_false by lia. apply andb_false_r.
Qed.

Lemma testbit_top x n : 0 <= n -> 0 <= x < 2 ^ (n + 1) -> Z.testbit x n = (2 ^ n <=? x).
Proof.
  intros Hn Hx. rewrite Z.pow_add_r in Hx by lia. destruct (Z.leb_spec (2 ^ n) x).
  - apply Z.testbit_true; [lia|].
    replace (x / 2 ^ n) with 1; [done|]. apply (Z.div_unique_pos _ _ _ (x - 2 ^ n)); lia.
  - apply Z.testbit_false; [lia|]. by rewrite Z.div_small by lia.
Qed.

Lemma log2_add_shift a w m : 0 <= m -> 0 <= a < 2 ^ m -> 0 < w ->
  Z.log2 (a + 2 ^ m * w) = m + Z.log2 w.
Proof.
  intros Hm Ha Hw. pose proof (Z.log2_spec w Hw). pose proof (Z.log2_nonneg w).
  apply Z.log2_unique; [lia|]. rewrite <- Z.add_succ_r, !Z.pow_add_r by lia. nia.
Qed.

Lemma land_le_r a b : 0 <= b -> 0 <= Z.land a b <= b.
Proof.
  intros Hb. apply Z.ldiff_le; [done|]. apply Z.bits_inj'. intros n Hn.
  rewrite Z.ldiff_spec, Z.land_spec, Z.bits_0. by destruct (Z.testbit a n), (Z.testbit b n).
Qed.

(** A shifted field and a smaller one are added by [|]. *)
Lemma lor_mul_l a b s : 0 <= s -> 0 <= b < 2 ^ s -> Z.lor (a * 2 ^ s) b = a * 2 ^ s + b.
Proof. intros. rewrite Z.lor_comm, <- Z.shiftl_mul_pow2, lor_disjoint_add, Z.shiftl_mul_pow2 by lia. lia. Qed.

(** The bit operations of the source as arithmetic, for [divlia]: masks
    [2^k - 1], shifts by constants. *)
Lemma land_mask z m w : 0 <= w -> m = 2 ^ w - 1 -> Z.land z m = z mod 2 ^ w.
Proof. intros ? ->. by apply land_ones_mod. Qed.
