(* ===== verification/NavJs.v ===== *)
(** * The documentation sidebar ([html/docs/assets/nav.js])

    The script that every page of the HTML documentation loads: it finds out
    whether the page lies in [pages/] or in the root of the documentation,
    writes the links of the sidebar relative to that place, and marks the link
    of the current page as active.

    A JavaScript string is the list of its code units.  The page is the part
    of the browser's state the script reads and writes: the location, the
    [src] attributes of the script elements, and the elements that match
    [.sidebar nav], in document order and not nested, each with its children.
    Parsing the text assigned to [innerHTML] is the browser's, and a parameter
    [parse] of the model; [parse_law] is what HTML requires of it here.  The
    file ends with a parser of the fragment of HTML in question, which shows
    that the law can be met. *)

From S2P Require Import Prelude.
From stdpp Require Import list.
#[local] Open Scope Z_scope.

Abbreviation string := (list Z) (only parsing).

(** ** The JavaScript operations the script uses *)

Definition slash : Z := chr "/".
Definition backslash : Z := 92.
Definition quote : Z := 34.

(** [a || b] for strings: the empty string and a missing value are falsy. *)
Definition or_else (a : option string) (b : string) : string :=
  match a with Some (c :: s) => c :: s | _ => b end.

(** [s.replace(/\\/g, "/")]. *)
Definition replace_backslashes (s : string) : string := map (fun c => if c =? backslash then slash else c) s.

Fixpoint starts_with (p s : string) : bool :=
  match p, s with
  | [], _ => true
  | x :: p', y :: s' => (x =? y) && starts_with p' s'
  | _ :: _, [] => false
  end.

(** [s.indexOf(sub)]. *)
Fixpoint indexOf_from (i : Z) (s sub : string) : Z :=
  if starts_with sub s then i
  else match s with [] => -1 | _ :: s' => indexOf_from (i + 1) s' sub end.
Definition indexOf (s sub : string) : Z := indexOf_from 0 s sub.

(** [/sub/.test(s)] for a pattern without operators. *)
Fixpoint test (sub s : string) : bool :=
  starts_with sub s || match s with [] => false | _ :: s' => test sub s' end.

(** [s.split("/")], which is never empty. *)
Fixpoint split (s : string) : list string :=
  match s with
  | [] => [[]]
  | c :: s' => if c =? slash then [] :: split s'
               else match split s' with w :: ws => (c :: w) :: ws | [] => [[c]] end
  end.

(** [Array.prototype.pop]: the last element. *)
Definition pop (l : list string) : option string := head (reverse l).

(** ** The page *)

Record location := mkLocation { pathname : option string; href_ : string }.

Inductive node :=
| Div (cls : string) (text : string)
| A (href : option string) (text : string) (classList : list string)
| Other (tag : string).
#[export] Instance node_eq_dec : EqDecision node.
Proof. solve_decision. Defined.

Record document := mkDocument {
  scripts : list (option string);
  navs : list (list node)
}.

(** ** The script *)

(** Line 3. *)
Definition nav_path (w : location) : string := replace_backslashes (or_else (pathname w) []).

(** The loop over the script elements. *)
Fixpoint scripts_in_pages (scripts : list (option string)) (inPages : bool) : bool :=
  match scripts with
  | [] => inPages
  | s :: rest =>
      let src := or_else s [] in
      scripts_in_pages rest (if negb (indexOf src (str "../assets/nav.js") =? -1) then true else inPages)
  end.

Definition in_pages (w : location) (d : document) : bool :=
  let inPages := test (str "/pages/") (nav_path w) || test (backslash :: str "pages" ++ [backslash]) (href_ w) in
  if negb inPages then scripts_in_pages (scripts d) inPages else inPages.

Definition prefix_p (inPages : bool) : string := if inPages then [] else str "pages/".
Definition prefix_root (inPages : bool) : string := if inPages then str "../" else [].

Definition link (href label : string) : string :=
  str "<a href=" ++ [quote] ++ href ++ [quote] ++ str ">" ++ label ++ str "</a>".

Definition section (label : string) : string :=
  str "<div class=" ++ [quote] ++ str "nav-section" ++ [quote] ++ str ">" ++ label ++ str "</div>".

Definition nav_html (p root : string) : string :=
  let html := [] in
  let html := html ++ section (str "Start here") in
  let html := html ++ link (root ++ str "index.html") (str "Dashboard") in
  let html := html ++ link (p ++ str "recovery-status.html") (str "Recovery status") in
  let html := html ++ link (p ++ str "roadmap.html") (str "Roadmap") in
  let html := html ++ section (str "Understanding") in
  let html := html ++ link (p ++ str "how-it-works.html") (str "How it works") in
  let html := html ++ link (p ++ str "install-roles.html") (str "Install roles") in
  let html := html ++ link (p ++ str "testnet.html") (str "Testnet") in
  let html := html ++ link (p ++ str "architecture.html") (str "Architecture") in
  let html := html ++ link (p ++ str "module-map.html") (str "Module map") in
  let html := html ++ link (p ++ str "diagrams.html") (str "Diagrams") in
  let html := html ++ link (p ++ str "glossary.html") (str "Glossary") in
  let html := html ++ section (str "Core Pro product") in
  let html := html ++ link (p ++ str "ui-reference-core-pro.html") (str "Core Pro UI reference") in
  let html := html ++ link (p ++ str "modern-ui.html") (str "Modern UI &amp; themes") in
  let html := html ++ link (p ++ str "payment-layer.html") (str "Payment layer") in
  let html := html ++ link (p ++ str "pure-doge-strategy.html") (str "Pure DOGE strategy") in
  let html := html ++ link (p ++ str "memestream-integration.html") (str "MemeStream") in
  let html := html ++ link (p ++ str "arcade.html") (str "Arcade") in
  let html := html ++ section (str "Node performance") in
  let html := html ++ link (p ++ str "ibd-and-p2p.html") (str "IBD &amp; P2P") in
  let html := html ++ link (p ++ str "assumeutxo.html") (str "AssumeUTXO") in
  let html := html ++ link (p ++ str "fast-sync.html") (str "Fast Sync explained") in
  let html := html ++ link (p ++ str "gpenode.html") (str "GPENode operator") in
  let html := html ++ link (p ++ str "multi-operator-mesh.html") (str "Multi-operator mesh") in
  let html := html ++ section (str "Storage &amp; security") in
  let html := html ++ link (p ++ str "storage-stack.html") (str "Storage stack") in
  let html := html ++ link (p ++ str "fast-sync-threat-model.html") (str "Fast Sync threat model") in
  let html := html ++ link (p ++ str "sqlite-wallet-plan.html") (str "SQLite wallet plan") in
  let html := html ++ link (p ++ str "security-hardening.html") (str "Security hardening") in
  let html := html ++ link (p ++ str "security-audit-core.html") (str "Core attack audit") in
  let html := html ++ link (p ++ str "security-changelog.html") (str "Security changelog") in
  let html := html ++ section (str "Workstreams") in
  let html := html ++ link (p ++ str "rebrand-audit.html") (str "Rebrand audit") in
  let html := html ++ link (p ++ str "build-and-run.html") (str "Build &amp; run") in
  let html := html ++ section (str "Repo") in
  let html := html ++ link (p ++ str "source-of-truth.html") (str "Source of truth") in
  html.

(** Lines 71 and 72. *)
Definition page_file (path : string) : string :=
  let file := or_else (pop (split path)) (str "index.html") in
  if (match file with [] => true | _ => false end) || bool_decide (file = str "docs")
     || (indexOf file (str ".") =? -1)
  then str "index.html" else file.

(** [classList.add(c)]. *)
Definition classList_add (c : string) (l : list string) : list string :=
  if bool_decide (c ∈ l) then l else l ++ [c].

(** The callback of [forEach], on the elements that match [a[href]]. *)
Definition highlight (file : string) (n : node) : node :=
  match n with
  | A (Some h) t cl =>
      let href := or_else (Some h) [] in
      let target := pop (split href) in
      if bool_decide (target = Some file) then A (Some h) t (classList_add (str "active") cl) else n
  | _ => n
  end.

Section Script.

(** The children the browser makes of a text assigned to [innerHTML]. *)
Context (parse : string -> list node).

(** [if (nav) nav.innerHTML = html]. *)
Definition set_nav (html : string) (d : document) : document :=
  match navs d with
  | [] => d
  | _ :: rest => mkDocument (scripts d) (parse html :: rest)
  end.

Definition highlight_all (file : string) (d : document) : document :=
  mkDocument (scripts d) (map (map (highlight file)) (navs d)).

Definition nav_js (w : location) (d : document) : document :=
  let path := nav_path w in
  let inPages := in_pages w d in
  let p := prefix_p inPages in
  let root := prefix_root inPages in
  let html := nav_html p root in
  let d := set_nav html d in
  highlight_all (page_file path) d.

End Script.

(** ** Specification: the menu

    The sidebar as data: headings, the home page of the documentation, and
    the pages in [pages/], with the texts a reader sees. *)

Inductive item :=
| Heading (text : string)
| Home (text : string)
| Page (name text : string).

Definition menu : list item :=
  [ Heading (str "Start here"); Home (str "Dashboard");
    Page (str "recovery-status.html") (str "Recovery status"); Page (str "roadmap.html") (str "Roadmap");
    Heading (str "Understanding");
    Page (str "how-it-works.html") (str "How it works"); Page (str "install-roles.html") (str "Install roles");
    Page (str "testnet.html") (str "Testnet"); Page (str "architecture.html") (str "Architecture");
    Page (str "module-map.html") (str "Module map"); Page (str "diagrams.html") (str "Diagrams");
    Page (str "glossary.html") (str "Glossary");
    Heading (str "Core Pro product");
    Page (str "ui-reference-core-pro.html") (str "Core Pro UI reference");
    Page (str "modern-ui.html") (str "Modern UI & themes"); Page (str "payment-layer.html") (str "Payment layer");
    Page (str "pure-doge-strategy.html") (str "Pure DOGE strategy");
    Page (str "memestream-integration.html") (str "MemeStream"); Page (str "arcade.html") (str "Arcade");
    Heading (str "Node performance");
    Page (str "ibd-and-p2p.html") (str "IBD & P2P"); Page (str "assumeutxo.html") (str "AssumeUTXO");
    Page (str "fast-sync.html") (str "Fast Sync explained"); Page (str "gpenode.html") (str "GPENode operator");
    Page (str "multi-operator-mesh.html") (str "Multi-operator mesh");
    Heading (str "Storage & security");
    Page (str "storage-stack.html") (str "Storage stack");
    Page (str "fast-sync-threat-model.html") (str "Fast Sync threat model");
    Page (str "sqlite-wallet-plan.html") (str "SQLite wallet plan");
    Page (str "security-hardening.html") (str "Security hardening");
    Page (str "security-audit-core.html") (str "Core attack audit");
    Page (str "security-changelog.html") (str "Security changelog");
    Heading (str "Workstreams");
    Page (str "rebrand-audit.html") (str "Rebrand audit"); Page (str "build-and-run.html") (str "Build & run");
    Heading (str "Repo");
    Page (str "source-of-truth.html") (str "Source of truth") ].

(** The files of the directory [html/docs/pages]. *)
Definition docs_pages : list string :=
  [ str "arcade.html"; str "architecture.html"; str "assumeutxo.html"; str "build-and-run.html"; str "diagrams.html";
    str "fast-sync-threat-model.html"; str "fast-sync.html"; str "glossary.html"; str "gpenode.html";
    str "how-it-works.html"; str "ibd-and-p2p.html"; str "install-roles.html"; str "memestream-integration.html";
    str "modern-ui.html"; str "module-map.html"; str "multi-operator-mesh.html"; str "payment-layer.html";
    str "pure-doge-strategy.html"; str "rebrand-audit.html"; str "recovery-status.html"; str "roadmap.html";
    str "security-audit-core.html"; str "security-changelog.html"; str "security-hardening.html";
    str "source-of-truth.html"; str "sqlite-wallet-plan.html"; str "storage-stack.html"; str "testnet.html";
    str "ui-reference-core-pro.html" ].

(** The file an item leads to, and its path from the root of the
    documentation. *)
Definition item_file (i : item) : option string :=
  match i with Heading _ => None | Home _ => Some (str "index.html") | Page name _ => Some name end.
Definition item_path (i : item) : string :=
  match i with Heading _ => [] | Home _ => str "index.html" | Page name _ => str "pages/" ++ name end.
Definition menu_files : list string := omap item_file menu.

(** ** HTML

    Pieces of a document: an element [div] with a class, an element [a] with
    a reference, each with a text.  In the markup of a text, ['&'] and ['<'] are
    escaped. *)

Inductive piece :=
| PDiv (cls text : string)
| PA (href text : string).

Definition escape_char (c : Z) : string :=
  if c =? chr "&" then str "&amp;" else if c =? chr "<" then str "&lt;" else [c].
Definition escape (t : string) : string := concat (map escape_char t).

Definition render (x : piece) : string :=
  match x with
  | PDiv cls t => str "<div class=" ++ [quote] ++ cls ++ [quote] ++ str ">" ++ escape t ++ str "</div>"
  | PA h t => str "<a href=" ++ [quote] ++ h ++ [quote] ++ str ">" ++ escape t ++ str "</a>"
  end.

Definition piece_node (x : piece) : node :=
  match x with PDiv cls t => Div cls t | PA h t => A (Some h) t [] end.

(** Attribute values and texts without characters HTML treats specially. *)
Definition plain_text (t : string) : Prop := Forall (fun c => 32 <= c) t.
Definition plain_attr (t : string) : Prop := Forall (fun c => 32 <= c /\ c <> quote /\ c <> chr "&") t.
Definition plain (x : piece) : Prop :=
  match x with PDiv cls t => plain_attr cls /\ plain_text t | PA h t => plain_attr h /\ plain_text t end.

(** Parsing HTML inverts rendering on such pieces. *)
Definition parse_law (parse : string -> list node) : Prop :=
  forall l, Forall plain l -> parse (concat (map render l)) = map piece_node l.

Definition item_href (inPages : bool) (i : item) : string :=
  match i with
  | Heading _ => []
  | Home _ => prefix_root inPages ++ str "index.html"
  | Page name _ => prefix_p inPages ++ name
  end.
Definition item_piece (inPages : bool) (i : item) : piece :=
  match i with
  | Heading t => PDiv (str "nav-section") t
  | Home t | Page _ t => PA (item_href inPages i) t
  end.
Definition menu_nodes (inPages : bool) : list node := map piece_node (map (item_piece inPages) menu).

(** ** Resolving a relative reference

    The path a reference leads to from a page: its segments are followed from
    the directory of the page. *)

Fixpoint join (l : list string) : string :=
  match l with [] => [] | [w] => w | w :: ws => w ++ slash :: join ws end.
Definition dir_of (path : string) : list string := removelast (split path).
Definition follow (dir : list string) (seg : string) : list string :=
  if bool_decide (seg = str "..") then removelast dir
  else if bool_decide (seg = str ".") then dir else dir ++ [seg].
Definition resolve (path href : string) : string := join (foldl follow (dir_of path) (split href)).

(** ** Lemmas on strings *)

Definition no_slash (s : string) : Prop := Forall (fun c => c <> slash) s.

Lemma split_ne s : split s <> [].
Proof. destruct s as [|c s]; [done|]. cbn. destruct (c =? slash); [done|]. by destruct (split s). Qed.

Lemma split_app a b : split (a ++ slash :: b) = split a ++ split b.
Proof.
  induction a as [|c a IH]; cbn [app split]; [by rewrite Z.eqb_refl|].
  destruct (c =? slash); [by rewrite IH|]. rewrite IH. pose proof (split_ne a). by destruct (split a).
Qed.

Lemma split_no_slash s : no_slash s -> split s = [s].
Proof.
  induction 1 as [|c s Hc Hs IH]; [done|]. cbn [split]. rewrite (proj2 (Z.eqb_neq _ _) Hc). by rewrite IH.
Qed.

Lemma join_cons w l : l <> [] -> join (w :: l) = w ++ slash :: join l.
Proof. by destruct l. Qed.

Lemma join_app a b : a <> [] -> b <> [] -> join (a ++ b) = join a ++ slash :: join b.
Proof.
  induction a as [|w a IH]; [done|]. intros _ Hb. destruct a as [|w' a]; [by apply join_cons|].
  change ((w :: w' :: a) ++ b) with (w :: (w' :: a) ++ b). rewrite !join_cons, IH by done. by rewrite <- app_assoc.
Qed.

Lemma join_split s : join (split s) = s.
Proof.
  induction s as [|c s IH]; [done|]. cbn [split]. pose proof (split_ne s).
  destruct (Z.eqb_spec c slash) as [->|]; [by rewrite join_cons, IH|].
  destruct (split s) as [|w ws]; [done|]. destruct ws as [|w' ws].
  - cbn in *. by subst.
  - rewrite join_cons in * by done. by rewrite <- IH.
Qed.

(** The last segment: what follows the last slash. *)
Lemma pop_split_app a f : no_slash f -> pop (split (a ++ slash :: f)) = Some f.
Proof. intros Hf. rewrite split_app, (split_no_slash f) by done. unfold pop. by rewrite reverse_snoc. Qed.

Lemma pop_split_one f : no_slash f -> pop (split f) = Some f.
Proof. intros Hf. by rewrite split_no_slash. Qed.

Lemma split_segments s : Forall no_slash (split s).
Proof.
  induction s as [|c s IH]; [by repeat constructor|]. cbn [split].
  destruct (Z.eqb_spec c slash); [constructor; [constructor|done]|].
  destruct (split s) as [|w ws]; [by repeat constructor|]. apply Forall_cons in IH as [Hw Hws].
  by repeat constructor.
Qed.

Lemma pop_split_segment s f : pop (split s) = Some f -> no_slash f.
Proof.
  unfold pop. intros Hf. pose proof (split_segments s) as Hs. apply Forall_reverse in Hs.
  destruct (reverse (split s)); [done|]. injection Hf as ->. by apply Forall_cons in Hs as [].
Qed.

Lemma starts_with_app p s : starts_with p (p ++ s) = true.
Proof. induction p as [|x p IH]; [done|]. cbn. by rewrite Z.eqb_refl. Qed.

Lemma test_app sub a b : test sub (a ++ sub ++ b) = true.
Proof.
  induction a as [|c a IH]; cbn [app].
  - destruct (sub ++ b) eqn:E; cbn [test]; rewrite <- E, starts_with_app; done.
  - cbn [test]. by rewrite IH, orb_true_r.
Qed.

Lemma test_indexOf sub s i : 0 <= i -> (indexOf_from i s sub =? -1) = negb (test sub s).
Proof.
  revert i. induction s as [|c s IH]; intros i Hi; cbn [indexOf_from test]; destruct (starts_with sub _); cbn [orb negb].
  1,3: apply Z.eqb_neq; lia.
  - done.
  - apply IH. lia.
Qed.

(** ** Where the page lies *)

Lemma scripts_in_pages_spec l b :
  scripts_in_pages l b = b || existsb (fun s => test (str "../assets/nav.js") (or_else s [])) l.
Proof.
  revert b. induction l as [|s l IH]; intros b; cbn [scripts_in_pages existsb]; [by rewrite orb_false_r|].
  unfold indexOf. rewrite test_indexOf, negb_involutive, IH by done.
  destruct (test _ (or_else s [])); [by rewrite orb_true_r|]. done.
Qed.

Lemma in_pages_spec w d : in_pages w d =
  test (str "/pages/") (nav_path w) || test (backslash :: str "pages" ++ [backslash]) (href_ w)
  || existsb (fun s => test (str "../assets/nav.js") (or_else s [])) (scripts d).
Proof.
  unfold in_pages. destruct (test _ (nav_path w) || test _ (href_ w)); [done|]. apply scripts_in_pages_spec.
Qed.

(** ** The text of the sidebar *)

Lemma foldl_app {X} (l : list (list X)) acc : foldl app acc l = acc ++ concat l.
Proof.
  revert acc. induction l as [|x l IH]; intros acc; cbn [foldl concat]; [by rewrite app_nil_r|].
  by rewrite IH, <- app_assoc.
Qed.

Lemma nav_html_pieces b :
  nav_html (prefix_p b) (prefix_root b) = concat (map render (map (item_piece b) menu)).
Proof.
  transitivity (foldl app [] (map render (map (item_piece b) menu))); [by destruct b; vm_compute|]. exact (foldl_app _ []).
Qed.

Definition plainb (x : piece) : bool :=
  let attr t := forallb (fun c => (32 <=? c) && negb (c =? quote) && negb (c =? chr "&")) t in
  let text t := forallb (fun c => 32 <=? c) t in
  match x with PDiv cls t => attr cls && text t | PA h t => attr h && text t end.

Lemma forallb_Forall {X} (f : X -> bool) (P : X -> Prop) l :
  (forall x, f x = true -> P x) -> forallb f l = true -> Forall P l.
Proof.
  intros HP. induction l as [|x l IH]; cbn [forallb]; [by constructor|].
  intros [? ?]%andb_true_iff. constructor; auto.
Qed.

Lemma plainb_plain x : plainb x = true -> plain x.
Proof.
  assert (forall t, forallb (fun c => (32 <=? c) && negb (c =? quote) && negb (c =? chr "&")) t = true -> plain_attr t) as Ha.
  { intros t. apply forallb_Forall. intros c [[Hc Hq]%andb_true_iff Hm]%andb_true_iff.
    apply Z.leb_le in Hc. apply negb_true_iff, Z.eqb_neq in Hq, Hm. done. }
  assert (forall t, forallb (fun c => 32 <=? c) t = true -> plain_text t) as Ht.
  { intros t. apply forallb_Forall. intros c. apply Z.leb_le. }
  destruct x; cbn; intros [? ?]%andb_true_iff; auto.
Qed.

Lemma menu_plain b : Forall plain (map (item_piece b) menu).
Proof. apply (forallb_Forall plainb); [apply plainb_plain|]. by destruct b; vm_compute. Qed.

Lemma parse_nav_html parse b : parse_law parse -> parse (nav_html (prefix_p b) (prefix_root b)) = menu_nodes b.
Proof. intros Hp. rewrite nav_html_pieces. apply Hp, menu_plain. Qed.

Lemma nav_js_navs parse w d n rest : parse_law parse -> navs d = n :: rest ->
  nav_js parse w d = mkDocument (scripts d)
    (map (highlight (page_file (nav_path w))) (menu_nodes (in_pages w d))
     :: map (map (highlight (page_file (nav_path w)))) rest).
Proof.
  intros Hp Hn. unfold nav_js, set_nav. rewrite Hn. unfold highlight_all. cbn [scripts navs map].
  by rewrite parse_nav_html.
Qed.

(** ** The current file *)

Lemma pop_split_is_Some s : is_Some (pop (split s)).
Proof.
  unfold pop. pose proof (split_ne s). destruct (reverse (split s)) eqn:E; [|by eexists].
  apply (f_equal reverse) in E. by rewrite reverse_involutive in E.
Qed.

(** What [page_file] returns: the last segment where it has a dot, and
    [index.html] otherwise. *)
Lemma page_file_spec path : exists f, pop (split path) = Some f /\
  page_file path = if test (str ".") f then f else str "index.html".
Proof.
  destruct (pop_split_is_Some path) as [f Hf]. exists f. split; [done|]. unfold page_file. rewrite Hf.
  destruct f as [|c f]; [done|]. cbn [or_else]. unfold indexOf. rewrite test_indexOf by done.
  destruct (test (str ".") (c :: f)) eqn:Et; [|by rewrite orb_true_r].
  rewrite bool_decide_false; [done|]. intros E. by rewrite E in Et.
Qed.

Lemma page_file_here path f : pop (split path) = Some f -> test (str ".") f = true -> page_file path = f.
Proof. intros Hf Ht. destruct (page_file_spec path) as (g & Hg & ->). by simplify_eq; rewrite Ht. Qed.

(** ** The active link *)

Definition is_active (n : node) : bool :=
  match n with A _ _ cl => bool_decide (str "active" ∈ cl) | _ => false end.
Definition leads_to (f : string) (i : item) : bool := bool_decide (item_file i = Some f).

Definition active_node (b : bool) (i : item) : node :=
  match i with Heading t => Div (str "nav-section") t
  | Home t | Page _ t => A (Some (item_href b i)) t [str "active"] end.

Definition item_ok (i : item) : Prop :=
  match i with Page name _ => no_slash name /\ name <> str "." /\ name <> str ".." | _ => True end.

Lemma menu_ok : Forall item_ok menu.
Proof.
  apply (forallb_Forall (fun i => match i with
    | Page name _ => forallb (fun c => negb (c =? slash)) name && negb (bool_decide (name = str ".")) && negb (bool_decide (name = str ".."))
    | _ => true end)); [|by vm_compute].
  intros [|t|name t]; try done. cbn. intros [[Hs Hd]%andb_true_iff Hdd]%andb_true_iff.
  apply negb_true_iff, bool_decide_eq_false in Hd, Hdd. split; [|done].
  revert Hs. apply forallb_Forall. intros c. intros Hc. by apply negb_true_iff, Z.eqb_neq in Hc.
Qed.

Lemma no_slash_b s : forallb (fun c => negb (c =? slash)) s = true -> no_slash s.
Proof. apply forallb_Forall. intros c Hc. by apply negb_true_iff, Z.eqb_neq in Hc. Qed.

Lemma index_no_slash : no_slash (str "index.html").
Proof. by apply no_slash_b. Qed.

(** The last segment of a link is the file it leads to. *)
Lemma item_target b i : item_ok i -> (forall t, i <> Heading t) -> pop (split (item_href b i)) = item_file i.
Proof.
  intros Hi Hh. destruct i as [t|t|name t]; [by destruct (Hh t)| |]; destruct b; cbn [item_href item_file].
  - apply (pop_split_app (str "..")), index_no_slash.
  - apply pop_split_one, index_no_slash.
  - by apply pop_split_one, Hi.
  - by apply (pop_split_app (str "pages")), Hi.
Qed.

Lemma or_else_Some s : or_else (Some s) [] = s.
Proof. by destruct s. Qed.

Lemma highlight_item f b i : item_ok i ->
  highlight f (piece_node (item_piece b i)) =
  if leads_to f i then active_node b i else piece_node (item_piece b i).
Proof.
  intros Hi. unfold leads_to. destruct i as [t|t|name t]; [done| |]; cbn [item_piece piece_node highlight active_node];
    rewrite or_else_Some, item_target by done; by case_bool_decide.
Qed.

Lemma filter_active f b l : Forall item_ok l ->
  List.filter is_active (map (highlight f) (map piece_node (map (item_piece b) l))) =
  map (active_node b) (List.filter (leads_to f) l).
Proof.
  induction 1 as [|i l Hi Hl IH]; [done|]. cbn [map List.filter]. rewrite highlight_item, IH by done.
  destruct (leads_to f i) eqn:E; [|by destruct i].
  apply bool_decide_eq_true in E. by destruct i.
Qed.

(** In a menu whose files differ, one item leads to each of them. *)
Lemma filter_leads_to f l : NoDup (omap item_file l) ->
  if bool_decide (f ∈ omap item_file l)
  then exists i, i ∈ l /\ item_file i = Some f /\ List.filter (leads_to f) l = [i]
  else List.filter (leads_to f) l = [].
Proof.
  assert (forall l, ~ f ∈ omap item_file l -> List.filter (leads_to f) l = []) as Hnone.
  { clear. intros l. induction l as [|i l IH]; [done|]. intros Hf. cbn [List.filter]. unfold leads_to at 1.
    rewrite bool_decide_false, IH; [done| |]; intros H; apply Hf; apply list_elem_of_omap.
    - apply list_elem_of_omap in H as (j & ? & ?). exists j. split; [by apply list_elem_of_further|done].
    - exists i. split; [apply list_elem_of_here|done]. }
  intros Hnd. case_bool_decide as Hf; [|by apply Hnone]. induction l as [|i l IH]; [by apply not_elem_of_nil in Hf|].
  cbn [omap list_omap] in Hf, Hnd. cbn [List.filter]. unfold leads_to at 1. destruct (item_file i) as [g|] eqn:Ei.
  - apply NoDup_cons in Hnd as [Hni Hnd]. case_bool_decide as E.
    + simplify_eq. exists i. split; [apply list_elem_of_here|]. split; [done|]. by rewrite Hnone.
    + apply elem_of_cons in Hf as [->|Hf]; [done|]. destruct (IH Hnd Hf) as (j & ? & ? & ?).
      exists j. split; [by apply list_elem_of_further|done].
  - rewrite bool_decide_false by done. destruct (IH Hnd Hf) as (j & ? & ? & ?).
    exists j. split; [by apply list_elem_of_further|done].
Qed.

Lemma menu_files_NoDup : NoDup menu_files.
Proof. apply (bool_decide_unpack (NoDup menu_files)). by vm_compute. Qed.

Lemma menu_files_complete : menu_files ≡ₚ str "index.html" :: docs_pages.
Proof. apply (bool_decide_unpack (menu_files ≡ₚ str "index.html" :: docs_pages)). by vm_compute. Qed.

(** ** Following the links *)

Lemma dir_of_app a f : no_slash f -> dir_of (a ++ slash :: f) = split a.
Proof. intros Hf. unfold dir_of. rewrite split_app, (split_no_slash f) by done. apply removelast_last. Qed.

Lemma follow_plain dir seg : seg <> str "." -> seg <> str ".." -> follow dir seg = dir ++ [seg].
Proof. intros H1 H2. unfold follow. by rewrite !bool_decide_false. Qed.

Lemma join_split_snoc R x : join (split R ++ [x]) = R ++ slash :: x.
Proof. rewrite join_app, join_split; [done|apply split_ne|done]. Qed.

(** A link to a page, from a directory [D] that is not empty. *)
Lemma resolve_name D f name : no_slash f -> item_ok (Page name []) ->
  resolve (D ++ slash :: f) name = D ++ slash :: name.
Proof.
  intros Hf (Hn & H1 & H2). unfold resolve. rewrite dir_of_app, (split_no_slash name) by done. cbn [foldl].
  rewrite follow_plain by done. apply join_split_snoc.
Qed.

Lemma pages_dir R f : R ++ slash :: str "pages/" ++ f = (R ++ slash :: str "pages") ++ slash :: f.
Proof. by rewrite <- app_assoc. Qed.

Lemma resolve_home_pages R f : no_slash f ->
  resolve (R ++ slash :: str "pages/" ++ f) (str "../index.html") = R ++ slash :: str "index.html".
Proof.
  intros Hf. unfold resolve. rewrite pages_dir, dir_of_app, split_app by done.
  change (split (str "../index.html")) with [str ".."; str "index.html"]. cbn [foldl].
  change (follow ?dir (str "..")) with (removelast dir). change (split (str "pages")) with [str "pages"].
  rewrite removelast_last, follow_plain by done. apply join_split_snoc.
Qed.

Lemma resolve_page_root R f name : no_slash f -> item_ok (Page name []) ->
  resolve (R ++ slash :: f) (str "pages/" ++ name) = R ++ slash :: str "pages/" ++ name.
Proof.
  intros Hf (Hn & H1 & H2). unfold resolve. rewrite dir_of_app by done.
  change (str "pages/" ++ name) with (str "pages" ++ slash :: name). rewrite split_app, (split_no_slash name) by done.
  change (split (str "pages")) with [str "pages"]. cbn [foldl app].
  rewrite !follow_plain by done. rewrite join_app; [|by destruct (split R)|done]. rewrite join_split_snoc.
  by rewrite <- app_assoc.
Qed.

(** The page [f] in [pages/] ([b] true) or in the root of a documentation
    tree at [R]. *)
Definition page_path (R : string) (b : bool) (f : string) : string :=
  R ++ slash :: (if b then str "pages/" else []) ++ f.

Lemma item_resolves R b f i : no_slash f -> item_ok i -> (forall t, i <> Heading t) ->
  resolve (page_path R b f) (item_href b i) = R ++ slash :: item_path i.
Proof.
  intros Hf Hi Hh. destruct i as [t|t|name t]; [by destruct (Hh t)| |]; destruct b; unfold page_path; cbn [item_href item_path prefix_p prefix_root app].
  - by apply resolve_home_pages.
  - apply resolve_name; [done|]. split; [apply index_no_slash|done].
  - rewrite !pages_dir. by apply resolve_name.
  - by apply resolve_page_root.
Qed.

Lemma replace_app a b : replace_backslashes (a ++ b) = replace_backslashes a ++ replace_backslashes b.
Proof. apply map_app. Qed.

(** The browser shows the page [f] of the documentation at [R]: in [pages/],
    or in the root with nothing that suggests otherwise. *)
Record shows (w : location) (d : document) (R : string) (b : bool) (f : string) : Prop := mkShows {
  shows_path : pathname w = Some (page_path R b f);
  shows_file : no_slash f;
  shows_root : b = false ->
    test (str "/pages/") (nav_path w) = false /\
    test (backslash :: str "pages" ++ [backslash]) (href_ w) = false /\
    existsb (fun s => test (str "../assets/nav.js") (or_else s [])) (scripts d) = false
}.

Lemma nav_path_page R b f w : pathname w = Some (page_path R b f) ->
  nav_path w = replace_backslashes R ++ slash :: (if b then str "pages/" else []) ++ replace_backslashes f.
Proof.
  intros Hp. unfold nav_path. rewrite Hp, or_else_Some. unfold page_path. rewrite replace_app.
  change (slash :: ?x) with ([slash] ++ x). rewrite !replace_app. by destruct b.
Qed.

Lemma in_pages_shows w d R b f : shows w d R b f -> in_pages w d = b.
Proof.
  intros [Hp Hf Hr]. rewrite in_pages_spec. destruct b.
  - rewrite (nav_path_page _ _ _ _ Hp). change (slash :: str "pages/" ++ ?x) with (str "/pages/" ++ x).
    by rewrite test_app.
  - destruct Hr as (-> & -> & ->); done.
Qed.

(** The file the script takes a page to be. *)
Definition shown_file (f : string) : string := if test (str ".") f then f else str "index.html".

Definition no_backslash (s : string) : Prop := Forall (fun c => c <> backslash) s.

Lemma replace_none s : no_backslash s -> replace_backslashes s = s.
Proof.
  induction 1 as [|c s Hc Hs IH]; [done|]. cbn [replace_backslashes map]. rewrite (proj2 (Z.eqb_neq _ _) Hc).
  unfold replace_backslashes in IH. by rewrite IH.
Qed.

Lemma page_file_shows w d R b f : shows w d R b f -> no_backslash f -> page_file (nav_path w) = shown_file f.
Proof.
  intros [Hp Hf _] Hb. destruct (page_file_spec (nav_path w)) as (g & Hg & ->).
  rewrite (nav_path_page _ _ _ _ Hp), (replace_none f) in Hg by done.
  assert (g = f) as ->; [|done]. destruct b.
  - rewrite pages_dir, pop_split_app in Hg by done. by simplify_eq.
  - cbn [app] in Hg. rewrite pop_split_app in Hg by done. by simplify_eq.
Qed.

Lemma docs_pages_ok f : f ∈ docs_pages -> no_slash f /\ no_backslash f /\ shown_file f = f /\ f <> str "index.html".
Proof.
  assert (Forall (fun f => no_slash f /\ no_backslash f /\ shown_file f = f /\ f <> str "index.html") docs_pages) as H.
  { apply (forallb_Forall (fun f => forallb (fun c => negb (c =? slash)) f && forallb (fun c => negb (c =? backslash)) f
       && bool_decide (shown_file f = f) && negb (bool_decide (f = str "index.html")))); [|by vm_compute].
    intros g [[[H1 H2]%andb_true_iff H3]%andb_true_iff H4]%andb_true_iff.
    split_and!; [by apply no_slash_b| |by apply bool_decide_eq_true in H3|by apply negb_true_iff, bool_decide_eq_false in H4].
    revert H2. apply forallb_Forall. intros c Hc. by apply negb_true_iff, Z.eqb_neq in Hc. }
  rewrite Forall_forall in H. apply H.
Qed.

Lemma menu_pages name t : Page name t ∈ menu -> name ∈ docs_pages.
Proof.
  assert (Forall (fun i => match i with Page name _ => name ∈ docs_pages | _ => True end) menu) as H.
  { apply (forallb_Forall (fun i => match i with Page name _ => bool_decide (name ∈ docs_pages) | _ => true end)); [|by vm_compute].
    intros [|?|?]; try done. apply bool_decide_eq_true. }
  rewrite Forall_forall in H. apply (H (Page name t)).
Qed.

Lemma menu_filter f :
  f ∈ menu_files /\ (exists i, i ∈ menu /\ item_file i = Some f /\ List.filter (leads_to f) menu = [i])
  \/ ~ f ∈ menu_files /\ List.filter (leads_to f) menu = [].
Proof.
  generalize menu_files_NoDup. unfold menu_files. generalize menu. intros l Hl.
  apply (filter_leads_to f) in Hl. case_bool_decide; auto.
Qed.

#[local] Opaque menu docs_pages menu_files.

(** ** Running the script *)

Lemma classList_add_idem c l : classList_add c (classList_add c l) = classList_add c l.
Proof.
  unfold classList_add at 1. rewrite bool_decide_true; [done|]. unfold classList_add. case_bool_decide; [done|]. apply elem_of_app; right; apply list_elem_of_here.
Qed.

Lemma highlight_idem f n : highlight f (highlight f n) = highlight f n.
Proof.
  destruct n as [| [h|] t cl|]; try done. cbn. case_bool_decide as E; cbn; rewrite ?bool_decide_true, ?bool_decide_false by done; [|done].
  by rewrite classList_add_idem.
Qed.

Lemma highlight_map_idem f l : map (highlight f) (map (highlight f) l) = map (highlight f) l.
Proof. rewrite map_map. apply map_ext. intros n. apply highlight_idem. Qed.

Lemma in_pages_scripts w d d' : scripts d = scripts d' -> in_pages w d = in_pages w d'.
Proof. intros E. unfold in_pages. by rewrite E. Qed.

Lemma nav_js_scripts parse w d : scripts (nav_js parse w d) = scripts d.
Proof. unfold nav_js, set_nav. by destruct (navs d). Qed.

(** ** A parser of the fragment

    Elements [div] with a class and [a] with a reference, each with a text;
    the texts with the two character references. *)

Fixpoint until (c : Z) (s : string) : string * string :=
  match s with
  | [] => ([], [])
  | x :: s' => if x =? c then ([], s') else let '(a, r) := until c s' in (x :: a, r)
  end.

Fixpoint unescape (skip : nat) (s : string) : string :=
  match s with
  | [] => []
  | x :: s' =>
      match skip with
      | S k => unescape k s'
      | O => if starts_with (str "&amp;") s then chr "&" :: unescape 4 s'
             else if starts_with (str "&lt;") s then chr "<" :: unescape 3 s'
             else x :: unescape 0 s'
      end
  end.

Definition div_tag : string := str "<div class=" ++ [quote].
Definition a_tag : string := str "<a href=" ++ [quote].

Fixpoint parse_fuel (fuel : nat) (s : string) : list node :=
  match fuel with
  | O => []
  | S fuel =>
      if starts_with div_tag s then
        let '(cls, r) := until quote (drop (length div_tag) s) in
        let '(t, r) := until (chr "<") (drop 1 r) in
        Div cls (unescape 0 t) :: parse_fuel fuel (drop 5 r)
      else if starts_with a_tag s then
        let '(h, r) := until quote (drop (length a_tag) s) in
        let '(t, r) := until (chr "<") (drop 1 r) in
        A (Some h) (unescape 0 t) [] :: parse_fuel fuel (drop 3 r)
      else []
  end.

Definition parse_frag (s : string) : list node := parse_fuel (length s) s.

Lemma until_app c a b : Forall (fun x => x <> c) a -> until c (a ++ c :: b) = (a, b).
Proof.
  induction 1 as [|x a Hx Ha IH]; cbn [app until]; [by rewrite Z.eqb_refl|].
  by rewrite (proj2 (Z.eqb_neq _ _) Hx), IH.
Qed.

Lemma escape_no_lt t : Forall (fun x => x <> chr "<") (escape t).
Proof.
  induction t as [|c t IH]; [constructor|]. unfold escape. cbn [map concat]. apply Forall_app. split; [|done].
  unfold escape_char. destruct (c =? chr "&"); [by repeat constructor|].
  destruct (Z.eqb_spec c (chr "<")); by repeat constructor.
Qed.

Lemma unescape_escape t : unescape 0 (escape t) = t.
Proof.
  induction t as [|c t IH]; [done|]. change (escape (c :: t)) with (escape_char c ++ escape t). unfold escape_char.
  destruct (Z.eqb_spec c (chr "&")) as [->|Hc]; [change (chr "&" :: unescape 0 (escape t) = chr "&" :: t); by rewrite IH|].
  destruct (Z.eqb_spec c (chr "<")) as [->|Hc']; [change (chr "<" :: unescape 0 (escape t) = chr "<" :: t); by rewrite IH|].
  assert (forall p, starts_with (chr "&" :: p) (c :: escape t) = false) as Hs.
  { intros p. cbn [starts_with]. rewrite (proj2 (Z.eqb_neq _ _)); [done|]. congruence. }
  cbn [app unescape]. change (str "&amp;") with (chr "&" :: str "amp;"). change (str "&lt;") with (chr "&" :: str "lt;").
  by rewrite !Hs, IH.
Qed.

Lemma plain_attr_quote t : plain_attr t -> Forall (fun x => x <> quote) t.
Proof. intros Ht. eapply Forall_impl; [exact Ht|]. by intros x (_ & ? & _). Qed.

Lemma parse_piece fuel x s : plain x -> parse_fuel (S fuel) (render x ++ s) = piece_node x :: parse_fuel fuel s.
Proof.
  destruct x as [cls t|h t]; intros [Ha _]%id; cbn [render piece_node].
  - replace ((str "<div class=" ++ _) ++ s)
      with (div_tag ++ cls ++ quote :: str ">" ++ escape t ++ chr "<" :: str "/div>" ++ s)
      by (unfold div_tag; rewrite <- !app_assoc; done).
    cbn [parse_fuel]. rewrite starts_with_app, drop_app_length, until_app by by apply plain_attr_quote.
    change (drop 1 (str ">" ++ ?x)) with x. rewrite until_app by apply escape_no_lt. by rewrite unescape_escape.
  - replace ((str "<a href=" ++ _) ++ s)
      with (a_tag ++ h ++ quote :: str ">" ++ escape t ++ chr "<" :: str "/a>" ++ s)
      by (unfold a_tag; rewrite <- !app_assoc; done).
    cbn [parse_fuel]. change (starts_with div_tag (a_tag ++ ?x)) with false. cbn iota.
    rewrite starts_with_app, drop_app_length, until_app by by apply plain_attr_quote.
    change (drop 1 (str ">" ++ ?x)) with x. rewrite until_app by apply escape_no_lt. by rewrite unescape_escape.
Qed.

Lemma render_length x : (0 < length (render x))%nat.
Proof. destruct x; cbn; lia. Qed.

(** The law of the parser can be met. *)
Lemma parse_frag_law : parse_law parse_frag.
Proof.
  intros l Hl. unfold parse_frag. generalize (le_n (length (concat (map render l)))).
  generalize (length (concat (map render l))) at 2 3 as n. intros n. revert n.
  induction Hl as [|x l Hx Hl IH]; intros n; cbn [map concat]; [by destruct n|].
  rewrite length_app. pose proof (render_length x). destruct n as [|n]; [lia|]. intros Hn.
  rewrite parse_piece, IH by (done || lia). done.
Qed.

(** ** Properties *)

(** C3: The script rebuilds the sidebar as the menu.  Whatever the page and its
    location, when the document has a sidebar, its first one afterwards holds
    the menu's headings and links in order, with the links of the current file
    marked, and each later one holds what it held, with the links of the
    current file marked.  The menu leads to the home page and to each file of
    the directory [pages] once, and to nothing else. *)
Theorem sidebar_is_menu parse w d n rest : parse_law parse -> navs d = n :: rest ->
  navs (nav_js parse w d) =
    map (highlight (page_file (nav_path w))) (menu_nodes (in_pages w d))
    :: map (map (highlight (page_file (nav_path w)))) rest /\
  NoDup menu_files /\ menu_files ≡ₚ str "index.html" :: docs_pages.
Proof.
  intros Hp Hn. rewrite (nav_js_navs _ _ _ _ _ Hp Hn).
  split_and!; [done|apply menu_files_NoDup|apply menu_files_complete].
Qed.

(** Two pages: the home page of a documentation at [/docs], and one of its pages. *)
Definition home_location : location := mkLocation (Some (str "/docs/")) (str "file:///docs/").
Definition home_document : document := mkDocument [Some (str "assets/nav.js")] [[Other []]].
Definition roadmap_location : location :=
  mkLocation (Some (str "/docs/pages/roadmap.html")) (str "file:///docs/pages/roadmap.html").
Definition roadmap_document : document := mkDocument [Some (str "../assets/nav.js")] [[Other []]].

Lemma home_shows : shows home_location home_document (str "/docs") false [].
Proof. split; [done|constructor|]. intros _. by vm_compute. Qed.

Lemma roadmap_shows : shows roadmap_location roadmap_document (str "/docs") true (str "roadmap.html").
Proof. split; [done|by apply no_slash_b|done]. Qed.

Lemma sidebar_is_menu_witness : parse_law parse_frag /\ navs home_document = [[Other []]] /\
  navs (nav_js parse_frag home_location home_document) = [map (highlight (str "index.html")) (menu_nodes false)].
Proof.
  split_and!; [apply parse_frag_law|done|].
  apply (sidebar_is_menu parse_frag home_location home_document [Other []] [] parse_frag_law eq_refl).
Defined.





(** C33: Running the script again changes nothing: the second run finds the same
    place of the page, writes the same sidebar and marks the same links. *)
Theorem nav_js_idempotent parse w d : nav_js parse w (nav_js parse w d) = nav_js parse w d.
Proof.
  unfold nav_js at 1. rewrite (in_pages_scripts w _ d) by apply nav_js_scripts.
  unfold nav_js. set (html := nav_html _ _). set (f := page_file _). clearbody html f.
  unfold set_nav. destruct (navs d) as [|n rest] eqn:En; unfold highlight_all; cbn [navs scripts].
  - by rewrite En.
  - cbn [map navs scripts]. f_equal. f_equal. rewrite map_map. apply map_ext. intros l. apply highlight_map_idem.
Qed.

(** How a run may change a node it does not replace: a link whose reference
    ends in the current file gets the class [active], if it does not have it. *)
Definition marked (f : string) (x y : node) : Prop :=
  y = x \/ exists h t cl, x = A (Some h) t cl /\ ~ str "active" ∈ cl /\
    y = A (Some h) t (cl ++ [str "active"]) /\ pop (split h) = Some f.

Lemma highlight_marked f x : marked f x (highlight f x).
Proof.
  unfold marked. destruct x as [| [h|] t cl|]; [by left| |by left|by left]. cbn [highlight].
  rewrite or_else_Some. case_bool_decide as E; [|by left]. unfold classList_add. case_bool_decide; [by left|].
  right. by exists h, t, cl.
Qed.

(** C34: What the script leaves alone.  It never changes the script elements;
    without a sidebar it changes nothing and does not fail; and outside the
    first sidebar, which it rebuilds, the only change is the class [active] on
    links to the current file. *)
Theorem nav_js_frame parse w d :
  scripts (nav_js parse w d) = scripts d /\
  (navs d = [] -> nav_js parse w d = d) /\
  Forall2 (Forall2 (marked (page_file (nav_path w)))) (tail (navs d)) (tail (navs (nav_js parse w d))).
Proof.
  split; [apply nav_js_scripts|]. unfold nav_js, set_nav, highlight_all. destruct d as [ss ns]. cbn [navs scripts].
  destruct ns as [|n rest]; cbn [navs scripts map tail]; [by split|]. split; [done|].
  apply Forall2_fmap_r, Forall_Forall2_diag, Forall_true. intros l.
  apply Forall2_fmap_r, Forall_Forall2_diag, Forall_true. apply highlight_marked.
Qed.

Lemma nav_js_frame_witness : nav_js parse_frag home_location (mkDocument [None] []) = mkDocument [None] [].
Proof. by apply (nav_js_frame parse_frag home_location (mkDocument [None] [])). Defined.

(** The current file is always a file name: on every path, the empty one and
    the path of a directory included, it is not empty, has a dot and has no
    slash, and it is the path's last segment whenever that has a dot. *)
Theorem page_file_is_name path :
  test (str ".") (page_file path) = true /\ no_slash (page_file path) /\ page_file path <> [] /\
  forall f, no_slash f -> test (str ".") f = true ->
    page_file f = f /\ forall dir, page_file (dir ++ slash :: f) = f.
Proof.
  assert (test (str ".") (page_file path) = true /\ no_slash (page_file path)) as [Hd Hs].
  { destruct (page_file_spec path) as (f & Hf & ->). destruct (test (str ".") f) eqn:E.
    - by apply pop_split_segment in Hf.
    - split; [done|apply index_no_slash]. }
  split_and!; [done|done|by intros E; rewrite E in Hd|]. intros f Hf Ht.
  split; [|intros dir]; apply page_file_here; auto using pop_split_one, pop_split_app.
Qed.

Lemma page_file_is_name_witness : page_file (str "/docs/pages/" ++ str "roadmap.html") = str "roadmap.html".
Proof.
  apply (page_file_is_name [] ) with (dir := str "/docs/pages"); [by apply no_slash_b|done].
Defined.

(** C40: A documentation below a directory named [pages] has broken links on its
    home page.  When the path [R] of the documentation itself contains
    [/pages/], the script takes the home page for a page of [pages/], and the
    link of each page of the menu leads to a file of [R] instead of
    [R/pages]. *)
Theorem nested_pages_break_links parse w d n rest R a c name t : parse_law parse -> navs d = n :: rest ->
  R = a ++ str "/pages/" ++ c -> pathname w = Some (page_path R false (str "index.html")) -> Page name t ∈ menu ->
  exists nodes rest' cl, navs (nav_js parse w d) = nodes :: rest' /\ A (Some name) t cl ∈ nodes /\
  resolve (page_path R false (str "index.html")) name = R ++ slash :: name /\
  R ++ slash :: name <> R ++ slash :: item_path (Page name t).
Proof.
  intros Hp Hn HR Hw Hi. assert (in_pages w d = true) as Hb.
  { rewrite in_pages_spec, (nav_path_page _ _ _ _ Hw), HR, !replace_app.
    change (replace_backslashes (str "/pages/")) with (str "/pages/"). by rewrite <- !app_assoc, test_app. }
  assert (item_ok (Page name t)) as Hok by (pose proof menu_ok as Hmo; rewrite Forall_forall in Hmo; auto).
  rewrite (nav_js_navs _ _ _ _ _ Hp Hn), Hb. set (f := page_file _).
  exists (map (highlight f) (menu_nodes true)), (map (map (highlight f)) rest), (if leads_to f (Page name t) then [str "active"] else []).
  split; [done|]. split_and!.
  - apply list_elem_of_fmap. exists (A (Some name) t []). split.
    + change (A (Some name) t []) with (piece_node (item_piece true (Page name t))). rewrite highlight_item by done.
      by destruct (leads_to f (Page name t)).
    + unfold menu_nodes. rewrite map_map. apply list_elem_of_fmap. by exists (Page name t).
  - apply resolve_name; [apply index_no_slash|done].
  - intros E%(inj (app R)). apply (f_equal (fun l => length l)) in E. cbn in E. lia.
Qed.

Lemma nested_pages_break_links_witness :
  let w := mkLocation (Some (str "/srv/pages/docs/index.html")) [] in
  exists nodes rest' cl, navs (nav_js parse_frag w home_document) = nodes :: rest' /\
    A (Some (str "roadmap.html")) (str "Roadmap") cl ∈ nodes.
Proof.
  intros w.
  destruct (nested_pages_break_links parse_frag w home_document [Other []] [] (str "/srv/pages/docs") (str "/srv") (str "docs")
    (str "roadmap.html") (str "Roadmap") parse_frag_law eq_refl eq_refl eq_refl) as (nodes & rest' & cl & H1 & H2 & _).
  - apply list_elem_of_lookup. by exists 3%nat.
  - by exists nodes, rest', cl.
Defined.
