(* ===== verification/ArithUint256.v ===== *)
(** * 256-bit unsigned arithmetic ([src/arith_uint256.h], [src/arith_uint256.cpp])

    [base_uint<256>] is an array [pn] of eight 32-bit words, least
    significant word first.  Each operator is the loop of the source over
    that array; the theorems show that the array operators implement
    arithmetic modulo [2^256] on the number the array denotes ([eval]), so
    the rest of the development can reason about integers.  The compact
    ("nBits") encoding of difficulty targets and the conversions from and
    to the opaque [uint256] blob are at the end. *)

From S2P Require Import Prelude.

Definition WIDTH : nat := 8.
Abbreviation base_uint := (list Z) (only parsing).

(** The number an array of words denotes. *)
Fixpoint eval (pn : base_uint) : Z :=
  match pn with
  | [] => 0
  | w :: r => w + 2 ^ 32 * eval r
  end.

Definition wf (pn : base_uint) : Prop := length pn = WIDTH /\ Forall (inU 32) pn.

(** ** Operators *)

Definition base_uint_default : base_uint := replicate WIDTH 0.

Definition base_uint_of_u64 (b : Z) : base_uint :=
  u32 b :: u32 (Z.shiftr b 32) :: replicate (WIDTH - 2) 0.

Definition op_not (pn : base_uint) : bool := forallb (Z.eqb 0) pn.

Definition op_compl (pn : base_uint) : base_uint := map (fun w => u32 (Z.lnot w)) pn.

Fixpoint op_preinc (pn : base_uint) : base_uint :=
  match pn with
  | [] => []
  | w :: r => let w' := u32 (w + 1) in
              if w' =? 0 then w' :: op_preinc r else w' :: r
  end.

Fixpoint op_predec (pn : base_uint) : base_uint :=
  match pn with
  | [] => []
  | w :: r => let w' := u32 (w - 1) in
              if w' =? u32 (-1) then w' :: op_predec r else w' :: r
  end.

Definition op_neg (pn : base_uint) : base_uint := op_preinc (op_compl pn).

Definition op_xor (a b : base_uint) : base_uint := zip_with Z.lxor a b.
Definition op_and (a b : base_uint) : base_uint := zip_with Z.land a b.
Definition op_or (a b : base_uint) : base_uint := zip_with Z.lor a b.

Fixpoint add_loop (carry : Z) (pn b : base_uint) : base_uint :=
  match pn, b with
  | p :: pn', q :: b' =>
      let n := u64 (carry + p + q) in
      Z.land n 0xffffffff :: add_loop (Z.shiftr n 32) pn' b'
  | _, _ => pn
  end.

Definition op_add (pn b : base_uint) : base_uint := add_loop 0 pn b.
Definition op_sub (pn b : base_uint) : base_uint := op_add pn (op_neg b).
Definition op_add_u64 (pn : base_uint) (b64 : Z) : base_uint := op_add pn (base_uint_of_u64 b64).
Definition op_sub_u64 (pn : base_uint) (b64 : Z) : base_uint :=
  op_add pn (op_neg (base_uint_of_u64 b64)).

Fixpoint mul_u32_loop (b32 carry : Z) (pn : base_uint) : base_uint :=
  match pn with
  | [] => []
  | p :: pn' =>
      let n := u64 (carry + b32 * p) in
      Z.land n 0xffffffff :: mul_u32_loop b32 (Z.shiftr n 32) pn'
  end.

Definition op_mul_u32 (pn : base_uint) (b32 : Z) : base_uint := mul_u32_loop b32 0 pn.

Definition mul_inner (aj : Z) (b : base_uint) (j i : nat) (st : base_uint * Z) : base_uint * Z :=
  let '(pn, carry) := st in
  let n := u64 (carry + pn.[i + j] + aj * (b.[i])) in
  (<[(i + j)%nat := Z.land n 0xffffffff]> pn, Z.shiftr n 32).

Definition op_mul (a b : base_uint) : base_uint :=
  for_range 0 WIDTH
    (fun j pn => (for_range 0 (WIDTH - j) (mul_inner (a.[j]) b j) (pn, 0)).1)
    base_uint_default.

Definition shl_step (a : base_uint) (k : nat) (s : Z) (i : nat) (pn : base_uint) : base_uint :=
  let pn := if (i + k + 1 <? WIDTH)%nat && negb (s =? 0)
            then <[(i + k + 1)%nat := Z.lor (pn.[i + k + 1]) (Z.shiftr (a.[i]) (32 - s))]> pn
            else pn in
  if (i + k <? WIDTH)%nat
  then <[(i + k)%nat := Z.lor (pn.[i + k]) (u32 (Z.shiftl (a.[i]) s))]> pn
  else pn.

Definition op_shl (a : base_uint) (shift : Z) : base_uint :=
  for_range 0 WIDTH (shl_step a (Z.to_nat (shift / 32)) (shift mod 32)) base_uint_default.

Definition shr_step (a : base_uint) (k : nat) (s : Z) (i : nat) (pn : base_uint) : base_uint :=
  let pn := if (k + 1 <=? i)%nat && negb (s =? 0)
            then <[(i - k - 1)%nat := Z.lor (pn.[i - k - 1]) (u32 (Z.shiftl (a.[i]) (32 - s)))]> pn
            else pn in
  if (k <=? i)%nat
  then <[(i - k)%nat := Z.lor (pn.[i - k]) (Z.shiftr (a.[i]) s)]> pn
  else pn.

Definition op_shr (a : base_uint) (shift : Z) : base_uint :=
  for_range 0 WIDTH (shr_step a (Z.to_nat (shift / 32)) (shift mod 32)) base_uint_default.

Fixpoint compare_loop (n : nat) (a b : base_uint) : Z :=
  match n with
  | O => 0
  | S i => if a.[i] <? b.[i] then -1
           else if b.[i] <? a.[i] then 1
           else compare_loop i a b
  end.

Definition CompareTo (a b : base_uint) : Z := compare_loop WIDTH a b.

Definition op_gt (a b : base_uint) : bool := 0 <? CompareTo a b.
Definition op_lt (a b : base_uint) : bool := CompareTo a b <? 0.
Definition op_ge (a b : base_uint) : bool := 0 <=? CompareTo a b.
Definition op_le (a b : base_uint) : bool := CompareTo a b <=? 0.

Definition EqualTo (pn : base_uint) (b : Z) : bool :=
  if negb (forallb (Z.eqb 0) (drop 2 pn)) then false
  else if negb (pn.[1] =? Z.shiftr b 32) then false
  else if negb (pn.[0] =? Z.land b 0xffffffff) then false
  else true.

(** The inner loop of [bits], [for (bits = 31; bits > 0; bits--)]. *)
Fixpoint bits_word (n : nat) (w : Z) (pos : nat) : Z :=
  match n with
  | O => 32 * Z.of_nat pos + 1
  | S n' => if negb (Z.land w (u32 (Z.shiftl 1 (Z.of_nat n))) =? 0)
            then 32 * Z.of_nat pos + Z.of_nat n + 1
            else bits_word n' w pos
  end.

Fixpoint bits_loop (n : nat) (pn : base_uint) : Z :=
  match n with
  | O => 0
  | S pos => if negb (pn.[pos] =? 0) then bits_word 31 (pn.[pos]) pos
             else bits_loop pos pn
  end.

Definition bits (pn : base_uint) : Z := bits_loop WIDTH pn.

(** [while (shift >= 0) ...] of [operator/=], [shift + 1 = n]. *)
Fixpoint div_loop (n : nat) (num div q : base_uint) : base_uint :=
  match n with
  | O => q
  | S shift =>
      let i := (shift / 32)%nat in
      let '(num, q) :=
        if op_ge num div
        then (op_sub num div,
              <[i := Z.lor (q.[i]) (u32 (Z.shiftl 1 (Z.land (Z.of_nat shift) 31)))]> q)
        else (num, q) in
      div_loop shift num (op_shr div 1) q
  end.

(** [None] is the exception [uint_error("Division by zero")]. *)
Definition op_div (num b : base_uint) : option base_uint :=
  let num_bits := bits num in
  let div_bits := bits b in
  if div_bits =? 0 then None
  else if num_bits <? div_bits then Some base_uint_default
  else let shift := num_bits - div_bits in
       Some (div_loop (Z.to_nat (shift + 1)) num (op_shl b shift) base_uint_default).

Definition GetLow64 (pn : base_uint) : Z :=
  Z.lor (pn.[0]) (Z.shiftl (pn.[1]) 32).

(** ** The compact representation *)

Record compact := Compact {
  cValue : base_uint;
  fNegative : bool;
  fOverflow : bool
}.

Definition SetCompact (nCompact : Z) : compact :=
  let nSize := Z.shiftr nCompact 24 in
  let nWord0 := Z.land nCompact 0x007fffff in
  let '(nWord, v) :=
    if nSize <=? 3
    then let nWord := Z.shiftr nWord0 (8 * (3 - nSize)) in
         (nWord, base_uint_of_u64 nWord)
    else (nWord0, op_shl (base_uint_of_u64 nWord0) (8 * (nSize - 3))) in
  {| cValue := v;
     fNegative := negb (nWord =? 0) && negb (Z.land nCompact 0x00800000 =? 0);
     fOverflow := negb (nWord =? 0) &&
                  ((34 <? nSize) || ((0xff <? nWord) && (33 <? nSize))
                   || ((0xffff <? nWord) && (32 <? nSize))) |}.

(** [None] stands for a failed [assert]. *)
Definition GetCompact (pn : base_uint) (fNeg : bool) : option Z :=
  let nSize := (bits pn + 7) / 8 in
  let nCompact := if nSize <=? 3 then u32 (u64 (Z.shiftl (GetLow64 pn) (8 * (3 - nSize))))
                  else u32 (GetLow64 (op_shr pn (8 * (nSize - 3)))) in
  let '(nCompact, nSize) := if negb (Z.land nCompact 0x00800000 =? 0)
                            then (Z.shiftr nCompact 8, nSize + 1)
                            else (nCompact, nSize) in
  if negb (Z.land nCompact (u32 (Z.lnot 0x007fffff)) =? 0) then None
  else if negb (nSize <? 256) then None
  else
    let nCompact := Z.lor nCompact (u32 (Z.shiftl nSize 24)) in
    Some (Z.lor nCompact
            (if fNeg && negb (Z.land nCompact 0x007fffff =? 0) then 0x00800000 else 0)).

(** ** Conversion from and to the opaque blob *)

(** A [uint256] is its array of 32 bytes. *)
Abbreviation uint256 := (list Z) (only parsing).

Definition WriteLE32 (x : Z) : list Z :=
  [u8 x; u8 (Z.shiftr x 8); u8 (Z.shiftr x 16); u8 (Z.shiftr x 24)].

Definition ReadLE32 (ptr : list Z) : Z :=
  Z.lor (ptr.[0]) (Z.lor (Z.shiftl (ptr.[1]) 8)
    (Z.lor (Z.shiftl (ptr.[2]) 16) (Z.shiftl (ptr.[3]) 24))).

Definition ArithToUint256 (a : base_uint) : uint256 := mjoin (map WriteLE32 a).

Definition UintToArith256 (a : uint256) : base_uint :=
  map (fun x => ReadLE32 (drop (x * 4) a)) (seq 0 WIDTH).

(** The number an opaque blob denotes (bytes, least significant first). *)
Fixpoint le_bytes (bs : list Z) : Z :=
  match bs with
  | [] => 0
  | b :: r => b + 2 ^ 8 * le_bytes r
  end.

Definition wf_uint256 (bs : uint256) : Prop := length bs = 32%nat /\ Forall (inU 8) bs.

(** ** Lemmas on the denoted number *)

Definition weight (i : nat) : Z := 2 ^ (32 * Z.of_nat i).

Lemma weight_0 : weight 0 = 1.
Proof. reflexivity. Qed.

Lemma weight_S i : weight (S i) = 2 ^ 32 * weight i.
Proof. unfold weight. rewrite <- Z.pow_add_r by lia. f_equal. lia. Qed.

Lemma weight_add i j : weight (i + j) = weight i * weight j.
Proof. unfold weight. rewrite <- Z.pow_add_r by lia. f_equal. lia. Qed.

Lemma weight_pos i : 0 < weight i.
Proof. unfold weight. lia. Qed.

#[export] Hint Resolve weight_pos : cpp.

Lemma eval_app a b : eval (a ++ b) = eval a + weight (length a) * eval b.
Proof.
  induction a as [|w a IH]; simpl length; [rewrite weight_0; simpl; lia|].
  rewrite weight_S. cbn [app eval]. rewrite IH. ring.
Qed.

Lemma eval_bound pn : Forall (inU 32) pn -> 0 <= eval pn < weight (length pn).
Proof.
  induction 1 as [|w r Hw Hr IH]; cbn [eval length]; [rewrite weight_0; lia|].
  rewrite weight_S. unfold inU in Hw. nia.
Qed.

Lemma eval_wf pn : wf pn -> 0 <= eval pn < 2 ^ 256.
Proof. intros [Hl Hf]. pose proof (eval_bound _ Hf) as H. by rewrite Hl in H. Qed.

Lemma eval_replicate0 n : eval (replicate n 0) = 0.
Proof. induction n; cbn [replicate eval]; lia. Qed.

Lemma eval_default : eval base_uint_default = 0.
Proof. apply eval_replicate0. Qed.

Lemma eval_insert i v (pn : base_uint) :
  (i < length pn)%nat -> eval (<[i := v]> pn) = eval pn + (v - pn.[i]) * weight i.
Proof.
  revert i. induction pn as [|w pn IH]; intros [|i] Hi; simpl in Hi; try lia.
  - rewrite get_cons_0, weight_0. simpl. ring.
  - rewrite get_cons_S. cbn [insert list_insert eval]. rewrite IH, weight_S by lia. ring.
Qed.

Lemma eval_take_S i (pn : base_uint) :
  (i < length pn)%nat -> eval (take (S i) pn) = eval (take i pn) + weight i * pn.[i].
Proof.
  intros Hi. rewrite (take_S_r _ _ _ (lookup_get _ _ Hi)), eval_app, length_take_le by lia.
  simpl. ring.
Qed.

Lemma wf_default : wf base_uint_default.
Proof. split; [reflexivity|]. apply Forall_replicate. unfold inU; lia. Qed.

Lemma wf_insert i v (pn : base_uint) : wf pn -> inU 32 v -> wf (<[i := v]> pn).
Proof. intros [Hl Hf] Hv. split; [by rewrite length_insert|]. by apply Forall_insert. Qed.

Lemma wf_lookup i (pn : base_uint) : wf pn -> inU 32 pn.[i].
Proof. intros [Hl Hf]. apply Forall_get; [unfold inU; lia|done]. Qed.

Lemma wf_length (pn : base_uint) : wf pn -> length pn = WIDTH.
Proof. by intros []. Qed.

#[export] Hint Resolve wf_default wf_insert wf_lookup wf_length : cpp.

Lemma mask32 n : Z.land n 0xffffffff = n mod 2 ^ 32.
Proof. exact (land_ones_mod n 32 ltac:(lia)). Qed.

Lemma inU32_mask n : inU 32 (Z.land n 0xffffffff).
Proof. rewrite mask32. apply Z.mod_pos_bound. lia. Qed.

#[export] Hint Resolve inU32_mask : cpp.

(** One step of a carry loop: the low word and the carry represent [n]. *)
Lemma carry_split n : n = Z.land n 0xffffffff + 2 ^ 32 * Z.shiftr n 32.
Proof. rewrite mask32, Z.shiftr_div_pow2 by lia. rewrite Z.add_comm. apply Z.div_mod. lia. Qed.

Lemma carry_bound n m : 0 <= n < 2 ^ 32 * m -> 0 <= Z.shiftr n 32 < m.
Proof.
  intros. rewrite Z.shiftr_div_pow2 by lia. split; [apply Z.div_pos; lia|].
  apply Z.div_lt_upper_bound; lia.
Qed.

(** *** Addition *)

Lemma add_loop_length c a b : length (add_loop c a b) = length a.
Proof. revert c b; induction a; intros c [|]; simpl; auto. Qed.

Lemma add_loop_words c a b : length a = length b -> Forall (inU 32) (add_loop c a b).
Proof.
  revert c b; induction a; intros c [|] Hl; simpl in *; try constructor; try lia; auto with cpp.
Qed.

Lemma add_loop_eval c a b :
  length a = length b -> Forall (inU 32) a -> Forall (inU 32) b -> 0 <= c <= 1 ->
  exists c', 0 <= c' <= 1 /\
    eval (add_loop c a b) + weight (length a) * c' = eval a + eval b + c.
Proof.
  revert c b; induction a as [|x a IH]; intros c [|y b] Hl Ha Hb Hc; try discriminate.
  - exists c. simpl. rewrite weight_0. lia.
  - apply Forall_cons_iff in Ha as [Hx Ha]. apply Forall_cons_iff in Hb as [Hy Hb].
    unfold inU in Hx, Hy. cbn [add_loop length eval]. rewrite weight_S.
    rewrite wrapU_small by (unfold inU; lia).
    pose proof (carry_split (c + x + y)). pose proof (carry_bound (c + x + y) 2 ltac:(lia)).
    destruct (IH (Z.shiftr (c + x + y) 32) b) as (c' & Hc' & E); auto; [lia|].
    exists c'. split; [lia|]. nia.
Qed.

Lemma op_add_wf a b : wf a -> wf b -> wf (op_add a b).
Proof.
  intros [Hl Ha] [Hl' Hb]. split; [by unfold op_add; rewrite add_loop_length|].
  apply add_loop_words. congruence.
Qed.

Lemma op_add_eval a b : wf a -> wf b -> eval (op_add a b) = (eval a + eval b) mod 2 ^ 256.
Proof.
  intros Ha Hb. pose proof (eval_wf _ (op_add_wf _ _ Ha Hb)).
  destruct Ha as [Hl Ha], Hb as [Hl' Hb].
  destruct (add_loop_eval 0 a b) as (c' & Hc' & E); auto; try congruence; try lia.
  rewrite Hl in E. change (weight WIDTH) with (2 ^ 256) in E. fold (op_add a b) in E.
  apply (Z.mod_unique_pos _ _ c'); lia.
Qed.

(** *** Complement, increment, decrement, negation, subtraction *)

Lemma compl_word w : inU 32 w -> u32 (Z.lnot w) = 2 ^ 32 - 1 - w.
Proof.
  unfold inU, Z.lnot. intros. symmetry. apply (Z.mod_unique_pos _ _ (-1)); lia.
Qed.

Lemma op_compl_wf a : wf a -> wf (op_compl a).
Proof.
  intros [Hl Ha]. split; [by unfold op_compl; rewrite length_map|].
  apply Forall_map, Forall_true. intros. apply wrapU_range. lia.
Qed.

Lemma op_compl_eval a : wf a -> eval (op_compl a) = 2 ^ 256 - 1 - eval a.
Proof.
  intros [Hl Ha]. change (2 ^ 256) with (weight WIDTH). rewrite <- Hl. clear Hl.
  induction Ha as [|w a Hw Ha IH]; cbn [op_compl map eval length]; [reflexivity|].
  fold (op_compl a). rewrite weight_S, compl_word, IH by done. ring.
Qed.

Lemma u32_succ w : inU 32 w -> u32 (w + 1) = if w =? 2 ^ 32 - 1 then 0 else w + 1.
Proof.
  unfold inU. intros. destruct (Z.eqb_spec w (2 ^ 32 - 1)) as [->|]; [reflexivity|].
  apply wrapU_small. unfold inU. lia.
Qed.

Lemma op_preinc_words a : Forall (inU 32) a -> Forall (inU 32) (op_preinc a).
Proof.
  induction 1 as [|w a Hw Ha IH]; cbn [op_preinc]; [constructor|].
  case_match; constructor; auto using wrapU_range with lia.
Qed.

Lemma op_preinc_length a : length (op_preinc a) = length a.
Proof. induction a; cbn [op_preinc]; [done|]. case_match; simpl; congruence. Qed.

Lemma op_preinc_wf a : wf a -> wf (op_preinc a).
Proof. intros []. split; [by rewrite op_preinc_length|by apply op_preinc_words]. Qed.

Lemma op_preinc_eval a : wf a -> eval (op_preinc a) = (eval a + 1) mod 2 ^ 256.
Proof.
  intros [Hl Ha]. change (2 ^ 256) with (weight WIDTH). rewrite <- Hl. clear Hl.
  induction Ha as [|w a Hw Ha IH]; cbn [op_preinc eval length]; [reflexivity|].
  pose proof (eval_bound _ Ha). pose proof (weight_pos (length a)).
  rewrite weight_S, u32_succ by done. unfold inU in Hw.
  destruct (Z.eqb_spec w (2 ^ 32 - 1)) as [->|].
  - simpl Z.eqb. cbn [eval]. rewrite IH, Z.add_0_l.
    replace (2 ^ 32 - 1 + 2 ^ 32 * eval a + 1) with (2 ^ 32 * (eval a + 1)) by lia.
    rewrite Z.mul_mod_distr_l by lia. reflexivity.
  - destruct (Z.eqb_spec (w + 1) 0); [lia|]. cbn [eval]. rewrite Z.mod_small; nia.
Qed.

Lemma op_neg_wf a : wf a -> wf (op_neg a).
Proof. intros. by apply op_preinc_wf, op_compl_wf. Qed.

Lemma op_neg_eval a : wf a -> eval (op_neg a) = (- eval a) mod 2 ^ 256.
Proof.
  intros Ha. unfold op_neg. rewrite op_preinc_eval, op_compl_eval by auto using op_compl_wf.
  replace (2 ^ 256 - 1 - eval a + 1) with (- eval a + 1 * 2 ^ 256) by ring.
  apply Z.mod_add. lia.
Qed.

Lemma op_sub_wf a b : wf a -> wf b -> wf (op_sub a b).
Proof. intros. apply op_add_wf; auto using op_neg_wf. Qed.

Lemma op_sub_eval a b : wf a -> wf b -> eval (op_sub a b) = (eval a - eval b) mod 2 ^ 256.
Proof.
  intros. unfold op_sub. rewrite op_add_eval, op_neg_eval, Zplus_mod_idemp_r by auto using op_neg_wf.
  reflexivity.
Qed.

Lemma u32_pred w : inU 32 w -> u32 (w - 1) = if w =? 0 then 2 ^ 32 - 1 else w - 1.
Proof.
  unfold inU. intros. destruct (Z.eqb_spec w 0) as [->|]; [reflexivity|].
  apply wrapU_small. unfold inU. lia.
Qed.

Lemma op_predec_eval a : wf a -> eval (op_predec a) = (eval a - 1) mod 2 ^ 256.
Proof.
  intros [Hl Ha]. change (2 ^ 256) with (weight WIDTH). rewrite <- Hl. clear Hl.
  induction Ha as [|w a Hw Ha IH]; cbn [op_predec eval length]; [reflexivity|].
  pose proof (eval_bound _ Ha). pose proof (weight_pos (length a)).
  rewrite weight_S, u32_pred by done. unfold inU in Hw. change (u32 (-1)) with (2 ^ 32 - 1).
  destruct (Z.eqb_spec w 0) as [->|].
  - rewrite Z.eqb_refl. cbn [eval]. rewrite IH.
    replace (0 + 2 ^ 32 * eval a - 1) with (2 ^ 32 - 1 + 2 ^ 32 * (eval a - 1)) by lia.
    rewrite (Z.rem_mul_r _ (2 ^ 32) (weight (length a))) by lia.
    rewrite (Z.mul_comm (2 ^ 32) (eval a - 1)), Z.mod_add, Z.div_add by lia.
    reflexivity.
  - destruct (Z.eqb_spec (w - 1) (2 ^ 32 - 1)); [lia|]. cbn [eval]. rewrite Z.mod_small; nia.
Qed.

(** *** 64-bit constants *)

Lemma of_u64_wf b : wf (base_uint_of_u64 b).
Proof.
  split; [reflexivity|]. unfold base_uint_of_u64.
  repeat (constructor; [apply wrapU_range; lia|]). apply Forall_replicate. unfold inU; lia.
Qed.

Lemma of_u64_eval b : inU 64 b -> eval (base_uint_of_u64 b) = b.
Proof.
  unfold inU. intros. unfold base_uint_of_u64. cbn [eval]. rewrite eval_replicate0.
  rewrite (wrapU_small 32 (Z.shiftr b 32)) by (apply carry_bound; lia).
  pose proof (carry_split b) as E. rewrite mask32 in E. unfold wrapU. lia.
Qed.

#[export] Hint Resolve op_add_wf op_compl_wf op_preinc_wf op_neg_wf op_sub_wf of_u64_wf : cpp.

(** *** Multiplication *)

Lemma mul_u32_loop_eval b c a :
  inU 32 b -> Forall (inU 32) a -> inU 32 c ->
  Forall (inU 32) (mul_u32_loop b c a) /\ length (mul_u32_loop b c a) = length a /\
  exists c', inU 32 c' /\
    eval (mul_u32_loop b c a) + weight (length a) * c' = b * eval a + c.
Proof.
  intros Hb Ha. revert c. induction Ha as [|x a Hx Ha IH]; intros c Hc.
  - split; [constructor|]. split; [done|]. exists c. simpl. rewrite weight_0. unfold inU in *. lia.
  - unfold inU in *. cbn [mul_u32_loop length eval]. rewrite weight_S.
    assert (0 <= c + b * x < 2 ^ 64) by nia.
    rewrite wrapU_small by (unfold inU; lia).
    pose proof (carry_split (c + b * x)).
    pose proof (carry_bound (c + b * x) (2 ^ 32) ltac:(lia)) as Hcb.
    destruct (IH _ Hcb) as (Hw & Hlen & c' & Hc' & E).
    split; [constructor; [apply inU32_mask|done]|]. split; [congruence|].
    exists c'. split; [lia|]. nia.
Qed.

Lemma op_mul_u32_wf a b : wf a -> inU 32 b -> wf (op_mul_u32 a b).
Proof.
  intros [Hl Ha] Hb. destruct (mul_u32_loop_eval b 0 a Hb Ha) as (Hw & Hlen & _).
  { unfold inU; lia. }
  split; [by rewrite <- Hl|done].
Qed.

Lemma op_mul_u32_eval a b :
  wf a -> inU 32 b -> eval (op_mul_u32 a b) = (eval a * b) mod 2 ^ 256.
Proof.
  intros Ha Hb. pose proof (eval_wf _ (op_mul_u32_wf _ _ Ha Hb)). destruct Ha as [Hl Ha].
  destruct (mul_u32_loop_eval b 0 a Hb Ha) as (Hw & Hlen & c' & Hc' & E); [unfold inU; lia|].
  rewrite Hl in E. change (weight WIDTH) with (2 ^ 256) in E. fold (op_mul_u32 a b) in E.
  apply (Z.mod_unique_pos _ _ c'); lia.
Qed.

(** Invariant of the inner loop of [operator*=]: after [i] iterations the
    array and the carry hold [p0 + aj * b[0..i) * 2^(32j)], and the words the
    loop has not reached are those of [p0]. *)
Lemma mul_inner_inv aj b j p0 :
  inU 32 aj -> wf b -> wf p0 -> (j <= WIDTH)%nat ->
  let '(pn, carry) := for_range 0 (WIDTH - j) (mul_inner aj b j) (p0, 0) in
  wf pn /\ inU 32 carry /\
  eval pn + carry * weight WIDTH = eval p0 + aj * eval (take (WIDTH - j) b) * weight j.
Proof.
  intros Haj Hb Hp Hj.
  pose (I := fun (i : nat) (st : base_uint * Z) => wf st.1 /\ inU 32 st.2 /\
     (forall m, (i + j <= m)%nat -> st.1.[m] = p0.[m]) /\
     eval st.1 + st.2 * weight (i + j) = eval p0 + aj * eval (take i b) * weight j).
  assert (I (WIDTH - j)%nat (for_range 0 (WIDTH - j) (mul_inner aj b j) (p0, 0))) as H.
  { apply for_range_ind; [lia| |].
    - unfold I. rewrite take_0. cbn [fst snd eval]. repeat split; try apply Hp; lia.
    - intros i [pn c] Hi (Hw & Hc & Hrest & E). cbn [fst snd] in *. unfold I, mul_inner. cbn [fst snd].
      pose proof (wf_lookup (i + j) pn Hw) as Hx. pose proof (wf_lookup i b Hb) as Hy.
      unfold inU in *. set (x := pn.[i + j]) in *. set (y := b.[i]) in *.
      assert (0 <= c + x + aj * y < 2 ^ 64) by nia. rewrite wrapU_small by (unfold inU; lia).
      pose proof (carry_split (c + x + aj * y)) as Es.
      pose proof (carry_bound (c + x + aj * y) (2 ^ 32) ltac:(lia)).
      split; [auto with cpp|]. split; [lia|]. split.
      + intros m Hm. rewrite get_insert_ne by lia. apply Hrest. lia.
      + rewrite eval_insert by (rewrite (wf_length _ Hw); lia).
        rewrite eval_take_S by (rewrite (wf_length _ Hb); lia). fold x y.
        change (S i + j)%nat with (S (i + j)). rewrite weight_S, weight_add in *. nia. }
  destruct (for_range _ _ _ _) as [pn c]. destruct H as (Hw & Hc & _ & E).
  split; [done|]. split; [done|]. replace (WIDTH - j + j)%nat with WIDTH in E by lia. exact E.
Qed.

(** Dropping high words of a factor changes a product by a multiple of [2^256]. *)
Lemma eval_take_weight (b : base_uint) j :
  wf b -> (j <= WIDTH)%nat ->
  exists q, eval b * weight j = eval (take (WIDTH - j) b) * weight j + q * weight WIDTH.
Proof.
  intros Hb Hj. exists (eval (drop (WIDTH - j) b)).
  rewrite <- (take_drop (WIDTH - j) b) at 1.
  rewrite eval_app, length_take_le by (rewrite (wf_length _ Hb); lia).
  replace (weight WIDTH) with (weight (WIDTH - j) * weight j)
    by (rewrite <- weight_add; f_equal; lia).
  ring.
Qed.

Lemma op_mul_spec a b :
  wf a -> wf b -> wf (op_mul a b) /\ eval (op_mul a b) = (eval a * eval b) mod 2 ^ 256.
Proof.
  intros Ha Hb.
  pose (I := fun (j : nat) (pn : base_uint) => wf pn /\
     exists q, eval pn + q * weight WIDTH = eval (take j a) * eval b).
  assert (I WIDTH (op_mul a b)) as (Hw & q & E).
  { unfold op_mul. apply for_range_ind; [lia| |].
    - split; [auto with cpp|]. exists 0. rewrite eval_default. simpl. lia.
    - intros j pn Hj (Hw & q & E). unfold I.
      pose proof (mul_inner_inv (a.[j]) b j pn (wf_lookup j a Ha) Hb Hw ltac:(lia)) as H.
      cbv beta. destruct (for_range 0 (WIDTH - j) _ _) as [pn' c].
      destruct H as (Hw' & _ & E'). cbn [fst].
      split; [done|]. destruct (eval_take_weight b j Hb ltac:(lia)) as [q' Eq'].
      exists (q + c + (a.[j]) * q').
      rewrite eval_take_S by (rewrite (wf_length _ Ha); lia).
      rewrite (Z.mul_add_distr_r (eval (take j a))), <- E.
      replace (weight j * a.[j] * eval b) with (a.[j] * (eval b * weight j)) by ring.
      rewrite Eq'. lia. }
  split; [done|]. rewrite take_ge in E by (rewrite (wf_length _ Ha); lia).
  pose proof (eval_wf _ Hw). change (weight WIDTH) with (2 ^ 256) in E.
  apply (Z.mod_unique_pos _ _ q); lia.
Qed.

(** *** Shifts *)

Lemma shl_word w s : inU 32 w -> 0 <= s < 32 ->
  w * 2 ^ s = u32 (Z.shiftl w s) + 2 ^ 32 * Z.shiftr w (32 - s) /\
  (exists h, u32 (Z.shiftl w s) = Z.shiftl h s /\ 0 <= h) /\ 0 <= Z.shiftr w (32 - s) < 2 ^ s.
Proof.
  unfold inU. intros Hw Hs.
  assert (2 ^ 32 = 2 ^ (32 - s) * 2 ^ s) as Ep by (rewrite <- Z.pow_add_r by lia; f_equal; lia).
  assert (u32 (Z.shiftl w s) = w mod 2 ^ (32 - s) * 2 ^ s) as El.
  { unfold wrapU. rewrite Z.shiftl_mul_pow2 by lia. rewrite Ep. apply Z.mul_mod_distr_r; lia. }
  rewrite El, Z.shiftr_div_pow2 by lia. split; [|split].
  - rewrite (Z.div_mod w (2 ^ (32 - s))) at 1 by lia. rewrite Ep. ring.
  - exists (w mod 2 ^ (32 - s)). rewrite Z.shiftl_mul_pow2 by lia. split; [done|].
    apply Z.mod_pos_bound. lia.
  - split; [apply Z.div_pos; lia|]. apply Z.div_lt_upper_bound; lia.
Qed.

Lemma lookup_total_default i : base_uint_default.[i] = 0.
Proof. apply get_replicate0. Qed.

Definition shl_inv (a : base_uint) (k : nat) (s : Z) (i : nat) (pn : base_uint) : Prop :=
  wf pn /\ (forall m, (i + k < m)%nat -> pn.[m] = 0) /\ pn.[i + k] < 2 ^ s /\
  exists q, eval pn + q * weight WIDTH = eval (take i a) * (weight k * 2 ^ s).

(** Without a shift within the words nothing is carried up. *)
Lemma shl_high (pn : base_uint) m w s : wf pn -> inU 32 w -> (m < WIDTH)%nat -> pn.[m] = 0 ->
  (if negb (s =? 0) then <[m := Z.shiftr w (32 - s)]> pn else pn) = <[m := Z.shiftr w (32 - s)]> pn.
Proof.
  intros Hw Hwd Hm Hz. destruct (Z.eqb_spec s 0) as [->|]; [|done]. cbn [negb].
  replace (Z.shiftr w (32 - 0)) with 0 by (rewrite Z.shiftr_div_pow2 by lia; symmetry; apply Z.div_small; exact Hwd).
  rewrite list_insert_id; [done|]. rewrite lookup_get, Hz by (rewrite ?(wf_length _ Hw); lia). done.
Qed.

Lemma shl_step_inv a k s i pn :
  wf a -> 0 <= s < 32 -> (i < WIDTH)%nat -> shl_inv a k s i pn -> shl_inv a k s (S i) (shl_step a k s i pn).
Proof.
  intros Ha Hs Hi (Hw & Hz & Hx & q & E). pose proof (wf_lookup i a Ha) as Hwd.
  destruct (shl_word _ s Hwd Hs) as (Esplit & (h & Eh & Hh) & Hhi).
  set (w := a.[i]) in *. set (x := pn.[i + k]) in *.
  assert (eval (take (S i) a) * (weight k * 2 ^ s) = eval (take i a) * (weight k * 2 ^ s)
          + (u32 (Z.shiftl w s) + 2 ^ 32 * Z.shiftr w (32 - s)) * weight (i + k)) as ET.
  { rewrite eval_take_S by (rewrite (wf_length _ Ha); lia). fold w.
    rewrite <- Esplit, weight_add. ring. }
  pose proof (wf_lookup (i + k) pn Hw) as Hxu. fold x in Hxu.
  assert (Z.lor x (u32 (Z.shiftl w s)) = x + u32 (Z.shiftl w s)) as Elor.
  { rewrite Eh, Z.shiftl_mul_pow2 by lia. rewrite <- Z.shiftl_mul_pow2 at 1 by lia.
    apply lor_disjoint_add; unfold inU in *; lia. }
  assert (inU 32 (u32 (Z.shiftl w s))) as Hlo by (apply wrapU_range; lia).
  assert (inU 32 (Z.shiftr w (32 - s))) as Hhi' by (apply shiftr_inU; [lia|done]).
  unfold shl_inv. rewrite ET. change (S i + k)%nat with (S (i + k)). unfold shl_step. fold w.
  replace (i + k + 1)%nat with (S (i + k)) by lia.
  rewrite (Hz (S (i + k))) by lia. rewrite Z.lor_0_l.
  destruct (Nat.ltb_spec (S (i + k)) WIDTH) as [H1|H1].
  - cbn [andb]. rewrite shl_high by (auto; apply Hz; lia).
    destruct (Nat.ltb_spec (i + k) WIDTH) as [_|]; [|lia].
    rewrite get_insert_ne by lia. fold x. rewrite Elor.
    assert (wf (<[S (i + k) := Z.shiftr w (32 - s)]> pn)) as Hw1 by auto with cpp.
    split; [apply wf_insert; [done|]; rewrite <- Elor; apply lor_inU; auto; lia|].
    split; [intros m Hm; rewrite !get_insert_ne by lia; apply Hz; lia|].
    split. { rewrite get_insert_ne, get_insert_eq; [lia| |lia].
             by rewrite (wf_length _ Hw). }
    exists q. rewrite !eval_insert by (rewrite ?length_insert, (wf_length _ Hw); lia).
    rewrite get_insert_ne by lia. fold x. rewrite (Hz (S (i + k))), weight_S by lia. lia.
  - cbn [andb].
    destruct (Nat.ltb_spec (i + k) WIDTH) as [H2|H2].
    + fold x. rewrite Elor.
      split; [apply wf_insert; [done|]; rewrite <- Elor; apply lor_inU; auto; lia|].
      split; [intros m Hm; rewrite !get_insert_ne by lia; apply Hz; lia|].
      split; [rewrite get_insert_ne, Hz by lia; lia|].
      exists (q + Z.shiftr w (32 - s)). rewrite eval_insert by (rewrite (wf_length _ Hw); lia).
      fold x. replace (i + k)%nat with (WIDTH - 1)%nat in * by lia.
      change (weight WIDTH) with (weight (S (WIDTH - 1))) in *. rewrite weight_S in *. lia.
    + split; [done|]. split; [intros; apply Hz; lia|]. split; [rewrite Hz by lia; lia|].
      exists (q + (w * 2 ^ s) * weight (i + k - WIDTH)). rewrite Esplit.
      replace (weight (i + k)) with (weight (i + k - WIDTH) * weight WIDTH)
        by (rewrite <- weight_add; f_equal; lia). lia.
Qed.

Lemma shift_split shift : 0 <= shift ->
  2 ^ shift = weight (Z.to_nat (shift / 32)) * 2 ^ (shift mod 32).
Proof.
  intros. unfold weight. rewrite Z2Nat.id by (apply Z.div_pos; lia).
  rewrite <- Z.pow_add_r by (try apply Z.mod_pos_bound; try (pose proof (Z.div_pos shift 32)); lia).
  f_equal. apply Z.div_mod. lia.
Qed.

Lemma op_shl_spec a shift : wf a -> 0 <= shift ->
  wf (op_shl a shift) /\ eval (op_shl a shift) = (eval a * 2 ^ shift) mod 2 ^ 256.
Proof.
  intros Ha Hs. pose proof (Z.mod_pos_bound shift 32 ltac:(lia)).
  assert (shl_inv a (Z.to_nat (shift / 32)) (shift mod 32) WIDTH (op_shl a shift))
    as (Hw & _ & _ & q & E).
  { unfold op_shl. apply for_range_ind; [lia| |].
    - split; [apply wf_default|]. split; [intros; apply lookup_total_default|].
      rewrite lookup_total_default. split; [lia|]. exists 0. by rewrite eval_default.
    - intros. apply shl_step_inv; auto; lia. }
  split; [done|]. rewrite take_ge, <- shift_split in E by (try rewrite (wf_length _ Ha); lia).
  pose proof (eval_wf _ Hw). change (weight WIDTH) with (2 ^ 256) in E.
  apply (Z.mod_unique_pos _ _ q); lia.
Qed.

Definition shr_inv (a : base_uint) (k : nat) (s : Z) (i : nat) (pn : base_uint) : Prop :=
  wf pn /\ (forall m, (i <= m + k)%nat -> pn.[m] = 0) /\
  ((k < i)%nat -> pn.[i - k - 1] < 2 ^ (32 - s)) /\
  eval pn = eval (take i a) / (weight k * 2 ^ s).

Lemma eval_take_bound i (a : base_uint) : wf a -> 0 <= eval (take i a) < weight i.
Proof.
  intros [Hl Ha]. pose proof (eval_bound (take i a) (Forall_take _ i a Ha)) as H.
  rewrite length_take in H. split; [lia|].
  apply Z.lt_le_trans with (weight (i `min` length a)); [lia|].
  unfold weight. apply Z.pow_le_mono_r; lia.
Qed.

(** What word [i] adds to the shifted number, in the three positions it can
    have relative to the shift. *)
Lemma shr_take_above (a : base_uint) k s i :
  wf a -> 0 <= s < 32 -> (k < i)%nat -> (i < WIDTH)%nat ->
  eval (take (S i) a) / (weight k * 2 ^ s) =
  eval (take i a) / (weight k * 2 ^ s) + a.[i] * 2 ^ (32 - s) * weight (i - k - 1).
Proof.
  intros Ha Hs Hk Hi. rewrite eval_take_S by (rewrite (wf_length _ Ha); lia).
  replace (weight i) with (2 ^ (32 - s) * weight (i - k - 1) * (weight k * 2 ^ s)).
  2: { replace i with (S (i - k - 1) + k)%nat at 2 by lia. rewrite weight_add, weight_S.
       replace (2 ^ 32) with (2 ^ (32 - s) * 2 ^ s) by (rewrite <- Z.pow_add_r by lia; f_equal; lia).
       ring. }
  rewrite <- Z.div_add by (pose proof (weight_pos k); lia). f_equal. ring.
Qed.

Lemma shr_take_at (a : base_uint) s i :
  wf a -> 0 <= s < 32 -> (i < WIDTH)%nat ->
  eval (take (S i) a) / (weight i * 2 ^ s) = Z.shiftr a.[i] s.
Proof.
  intros Ha Hs Hi. rewrite eval_take_S by (rewrite (wf_length _ Ha); lia).
  pose proof (weight_pos i). pose proof (eval_take_bound i a Ha).
  rewrite <- Z.div_div, Z.shiftr_div_pow2, (Z.mul_comm (weight i)), Z.div_add by lia.
  by rewrite (Z.div_small (eval (take i a))) by lia.
Qed.

Lemma shr_take_below (a : base_uint) k s i :
  wf a -> 0 <= s -> (i <= k)%nat -> eval (take i a) / (weight k * 2 ^ s) = 0.
Proof.
  intros Ha Hs Hk. pose proof (eval_take_bound i a Ha). apply Z.div_small.
  assert (weight i <= weight k) by (unfold weight; apply Z.pow_le_mono_r; lia). nia.
Qed.

(** The bits word [w] leaves in the word below. *)
Lemma shr_low (pn : base_uint) j w s : wf pn -> inU 32 w -> 0 <= s < 32 -> (j < WIDTH)%nat -> pn.[j] < 2 ^ (32 - s) ->
  exists lo, inU 32 lo /\ w * 2 ^ (32 - s) = lo + 2 ^ 32 * Z.shiftr w s /\
    (if negb (s =? 0) then <[j := Z.lor pn.[j] (u32 (Z.shiftl w (32 - s)))]> pn else pn) = <[j := pn.[j] + lo]> pn /\
    pn.[j] + lo < 2 ^ 32 /\ 0 <= lo.
Proof.
  intros Hw Hwd Hs Hj Hx. pose proof (wf_lookup j pn Hw) as Hxu. unfold inU in Hxu.
  destruct (Z.eqb_spec s 0) as [->|Hs0]; cbn [negb].
  - exists 0. rewrite Z.shiftr_0_r, Z.add_0_r, list_insert_id by (apply lookup_get; rewrite (wf_length _ Hw); lia).
    change (32 - 0) with 32. unfold inU. repeat split; lia.
  - destruct (shl_word _ (32 - s) Hwd ltac:(lia)) as (Esp & (h & Eh & Hh) & _).
    exists (u32 (Z.shiftl w (32 - s))).
    assert (inU 32 (u32 (Z.shiftl w (32 - s)))) as Hlo by (apply wrapU_range; lia).
    replace (32 - (32 - s)) with s in Esp by lia.
    assert (Z.lor pn.[j] (u32 (Z.shiftl w (32 - s))) = pn.[j] + u32 (Z.shiftl w (32 - s))) as El.
    { rewrite Eh, lor_disjoint_add, <- Z.shiftl_mul_pow2 by lia. done. }
    rewrite El. split; [done|]. split; [done|]. split; [done|].
    assert (inU 32 (Z.lor pn.[j] (u32 (Z.shiftl w (32 - s))))) as Hin by (apply lor_inU; auto with cpp; lia).
    rewrite El in Hin. unfold inU in *. lia.
Qed.

Lemma shr_step_inv a k s i pn :
  wf a -> 0 <= s < 32 -> (i < WIDTH)%nat -> shr_inv a k s i pn -> shr_inv a k s (S i) (shr_step a k s i pn).
Proof.
  intros Ha Hs Hi (Hw & Hz & Hx & E). pose proof (wf_lookup i a Ha) as Hwd.
  assert (inU 32 (Z.shiftr a.[i] s)) as Hhi by auto with cpp lia.
  unfold shr_inv, shr_step.
  destruct (Nat.leb_spec k i) as [Hk|Hk].
  2: { rewrite (proj2 (Nat.leb_gt (k + 1) i)) by lia. cbn [andb].
       split; [done|]. split; [intros; apply Hz; lia|]. split; [lia|].
       rewrite E, !shr_take_below by (auto; lia). done. }
  assert (0 <= Z.shiftr a.[i] s < 2 ^ (32 - s)) as Hhb.
  { unfold inU in Hwd. rewrite Z.shiftr_div_pow2 by lia. split; [apply Z.div_pos; lia|].
    apply Z.div_lt_upper_bound; [lia|]. rewrite <- Z.pow_add_r by lia.
    replace (s + (32 - s)) with 32 by lia. lia. }
  destruct (decide (k = i)) as [->|].
  - rewrite (proj2 (Nat.leb_gt (i + 1) i)) by lia. cbn [andb].
    replace (i - i)%nat with 0%nat by lia. rewrite (Hz 0%nat), Z.lor_0_l by lia.
    split; [auto with cpp|]. split; [intros; rewrite get_insert_ne by lia; apply Hz; lia|].
    replace (S i - i - 1)%nat with 0%nat by lia.
    split; [rewrite get_insert_eq by (rewrite (wf_length _ Hw); unfold WIDTH; lia); lia|].
    rewrite eval_insert by (rewrite (wf_length _ Hw); unfold WIDTH; lia).
    rewrite (Hz 0%nat), weight_0, E, shr_take_at, shr_take_below by (auto; lia). lia.
  - rewrite (proj2 (Nat.leb_le (k + 1) i)) by lia. cbn [andb].
    specialize (Hx ltac:(lia)). rewrite shr_take_above, <- E by (auto; lia).
    set (j := (i - k - 1)%nat) in *. replace (i - k)%nat with (S j) in * by lia.
    replace (S i - k - 1)%nat with (S j) by lia.
    pose proof (wf_lookup j pn Hw) as Hxu. unfold inU in Hxu.
    destruct (shr_low pn j (a.[i]) s Hw Hwd Hs ltac:(lia) Hx) as (lo & Hlo & Esp & -> & Hb & Hl0).
    assert (wf (<[j := pn.[j] + lo]> pn)) as Hw1 by (apply wf_insert; [done|]; unfold inU; lia).
    rewrite get_insert_ne, (Hz (S j)), Z.lor_0_l by lia.
    split; [auto with cpp|]. split; [intros; rewrite !get_insert_ne by lia; apply Hz; lia|].
    split; [intros; rewrite get_insert_eq by (rewrite length_insert, (wf_length _ Hw); lia); lia|].
    rewrite !eval_insert by (rewrite ?length_insert, (wf_length _ Hw); lia).
    rewrite get_insert_ne, (Hz (S j)), weight_S by lia. nia.
Qed.

Lemma op_shr_spec a shift : wf a -> 0 <= shift ->
  wf (op_shr a shift) /\ eval (op_shr a shift) = eval a / 2 ^ shift.
Proof.
  intros Ha Hs. pose proof (Z.mod_pos_bound shift 32 ltac:(lia)).
  assert (shr_inv a (Z.to_nat (shift / 32)) (shift mod 32) WIDTH (op_shr a shift))
    as (Hw & _ & _ & E).
  { unfold op_shr. apply for_range_ind; [lia| |].
    - split; [apply wf_default|]. split; [intros; apply lookup_total_default|]. split; [lia|].
      by rewrite take_0, eval_default, Z.div_0_l by (pose proof (weight_pos (Z.to_nat (shift / 32))); lia).
    - intros. apply shr_step_inv; auto; lia. }
  split; [done|]. by rewrite take_ge, <- shift_split in E by (try rewrite (wf_length _ Ha); lia).
Qed.

(** *** Comparison *)

Lemma compare_loop_spec n a b :
  wf a -> wf b -> (n <= WIDTH)%nat ->
  compare_loop n a b = match Z.compare (eval (take n a)) (eval (take n b)) with
                       | Lt => -1 | Eq => 0 | Gt => 1 end.
Proof.
  intros Ha Hb. induction n as [|n IH]; intros Hn; [by rewrite !take_0|].
  cbn [compare_loop].
  rewrite (eval_take_S n a), (eval_take_S n b) by (rewrite wf_length; auto; lia).
  pose proof (eval_take_bound n a Ha). pose proof (eval_take_bound n b Hb).
  pose proof (wf_lookup n a Ha) as Hx. pose proof (wf_lookup n b Hb) as Hy. unfold inU in Hx, Hy.
  destruct (Z.ltb_spec a.[n] b.[n]); [|destruct (Z.ltb_spec b.[n] a.[n])].
  - rewrite (proj2 (Z.compare_lt_iff _ _)); [done|]. nia.
  - rewrite (proj2 (Z.compare_gt_iff _ _)); [done|]. nia.
  - replace b.[n] with a.[n] by lia. rewrite IH by lia. by rewrite !(Z.add_comm _ (weight n * _)), Z.add_compare_mono_l.
Qed.

Lemma CompareTo_spec a b : wf a -> wf b ->
  CompareTo a b = match Z.compare (eval a) (eval b) with Lt => -1 | Eq => 0 | Gt => 1 end.
Proof.
  intros Ha Hb. unfold CompareTo. rewrite compare_loop_spec by (auto; lia).
  by rewrite !take_ge by (rewrite wf_length; auto).
Qed.

Lemma op_gt_spec a b : wf a -> wf b -> op_gt a b = (eval b <? eval a).
Proof. intros. unfold op_gt. rewrite CompareTo_spec by done. destruct (Z.compare_spec (eval a) (eval b)); symmetry; lia. Qed.
Lemma op_ge_spec a b : wf a -> wf b -> op_ge a b = (eval b <=? eval a).
Proof. intros. unfold op_ge. rewrite CompareTo_spec by done. destruct (Z.compare_spec (eval a) (eval b)); symmetry; lia. Qed.
Lemma op_lt_spec a b : wf a -> wf b -> op_lt a b = (eval a <? eval b).
Proof. intros. unfold op_lt. rewrite CompareTo_spec by done. destruct (Z.compare_spec (eval a) (eval b)); symmetry; lia. Qed.
Lemma op_le_spec a b : wf a -> wf b -> op_le a b = (eval a <=? eval b).
Proof. intros. unfold op_le. rewrite CompareTo_spec by done. destruct (Z.compare_spec (eval a) (eval b)); symmetry; lia. Qed.

Lemma eval_0_words a : Forall (inU 32) a -> forallb (Z.eqb 0) a = (eval a =? 0).
Proof.
  induction 1 as [|w a Hw Ha IH]; [done|]. cbn [forallb eval]. rewrite IH.
  pose proof (eval_bound _ Ha). unfold inU in Hw. zbool; try done; lia.
Qed.

Lemma EqualTo_spec a b : wf a -> inU 64 b -> EqualTo a b = (eval a =? b).
Proof.
  intros [Hl Ha] Hb. destruct a as [|x [|y a]]; try discriminate.
  apply Forall_cons_iff in Ha as [Hx Ha]. apply Forall_cons_iff in Ha as [Hy Ha].
  unfold EqualTo. change (drop 2 (x :: y :: a)) with a. rewrite eval_0_words by done. cbn [eval].
  change ((x :: y :: a).[1]) with y. change ((x :: y :: a).[0]) with x.
  pose proof (eval_bound _ Ha). pose proof (carry_split b).
  pose proof (carry_bound b (2 ^ 32) ltac:(unfold inU in Hb; lia)).
  pose proof (inU32_mask b) as Hm. unfold inU in *.
  destruct (Z.eqb_spec (eval a) 0); cbn [negb]; [|symmetry; apply Z.eqb_neq; nia].
  destruct (Z.eqb_spec y (Z.shiftr b 32)); cbn [negb]; [|symmetry; apply Z.eqb_neq; lia].
  destruct (Z.eqb_spec x (Z.land b 0xffffffff)); cbn [negb]; symmetry; [apply Z.eqb_eq|apply Z.eqb_neq]; lia.
Qed.

(** *** Bit length *)

Lemma bits_word_spec n w pos : (n < 32)%nat -> 0 < w < 2 ^ (Z.of_nat n + 1) ->
  bits_word n w pos = 32 * Z.of_nat pos + Z.log2 w + 1.
Proof.
  induction n as [|n IH]; intros Hn Hw; cbn [bits_word].
  - replace w with 1 by lia. simpl. lia.
  - rewrite (wrapU_small 32 (Z.shiftl 1 _)), Z.shiftl_1_l, land_pow2_eqb, negb_involutive, testbit_top.
    2-5: try (rewrite Z.shiftl_1_l; split; [lia|apply Z.pow_lt_mono_r]); lia.
    destruct (Z.leb_spec (2 ^ Z.of_nat (S n)) w).
    + rewrite (Z.log2_unique w (Z.of_nat (S n))); [lia|lia|].
      replace (Z.succ (Z.of_nat (S n))) with (Z.of_nat (S n) + 1) by lia. lia.
    + apply IH; [lia|]. replace (Z.of_nat n + 1) with (Z.of_nat (S n)) by lia. lia.
Qed.

Lemma bits_loop_spec n a : wf a -> (n <= WIDTH)%nat ->
  bits_loop n a = if eval (take n a) =? 0 then 0 else Z.log2 (eval (take n a)) + 1.
Proof.
  intros Ha. induction n as [|n IH]; intros Hn; [by rewrite take_0|].
  cbn [bits_loop]. rewrite (eval_take_S n a) by (rewrite wf_length; auto; lia).
  pose proof (eval_take_bound n a Ha). pose proof (wf_lookup n a Ha) as Hx. unfold inU in Hx.
  destruct (Z.eqb_spec a.[n] 0) as [->|Hne]; cbn [negb].
  - rewrite Z.mul_0_r, Z.add_0_r. apply IH. lia.
  - rewrite bits_word_spec by lia. destruct (Z.eqb_spec (eval (take n a) + weight n * a.[n]) 0); [nia|].
    unfold weight in *. rewrite log2_add_shift; lia.
Qed.

Lemma bits_spec a : wf a -> bits a = if eval a =? 0 then 0 else Z.log2 (eval a) + 1.
Proof.
  intros Ha. unfold bits. rewrite bits_loop_spec by (auto; lia).
  by rewrite take_ge by (rewrite wf_length; auto).
Qed.

(** *** Division *)

Lemma testbit_eval a i j : Forall (inU 32) a -> 0 <= j < 32 ->
  Z.testbit (eval a) (32 * Z.of_nat i + j) = Z.testbit a.[i] j.
Proof.
  intros Ha Hj. revert i. induction Ha as [|w a Hw Ha IH]; intros i.
  - rewrite get_ge by (simpl; lia). simpl. by rewrite !Z.bits_0.
  - cbn [eval]. unfold inU in Hw. rewrite (Z.mul_comm (2 ^ 32)), <- (lor_disjoint_add w (eval a) 32) by lia.
    rewrite Z.lor_spec. destruct i as [|i].
    + rewrite get_cons_0. simpl (32 * Z.of_nat 0 + j). rewrite Z.shiftl_spec_low by lia. apply orb_false_r.
    + rewrite get_cons_S, <- IH, Z.shiftl_spec by lia.
      assert (Z.testbit w (32 * Z.of_nat (S i) + j) = false) as ->.
      { apply Z.testbit_false; [lia|]. rewrite Z.div_small; [done|]. split; [lia|].
        apply Z.lt_le_trans with (2 ^ 32); [lia|]. apply Z.pow_le_mono_r; lia. }
      simpl orb. f_equal. lia.
Qed.

(** Setting bit [shift] of a quotient whose bits up to [shift] are clear. *)
Lemma set_bit_spec q shift :
  wf q -> (shift < 256)%nat -> (2 ^ Z.of_nat (S shift) | eval q) ->
  let i := (shift / 32)%nat in
  let q' := <[i := Z.lor q.[i] (u32 (Z.shiftl 1 (Z.land (Z.of_nat shift) 31)))]> q in
  wf q' /\ eval q' = eval q + 2 ^ Z.of_nat shift.
Proof.
  intros Hq Hs Hd i q'.
  assert (Z.land (Z.of_nat shift) 31 = Z.of_nat shift mod 32) as Em
    by exact (land_ones_mod (Z.of_nat shift) 5 ltac:(lia)).
  pose proof (Z.mod_pos_bound (Z.of_nat shift) 32 ltac:(lia)) as Hj.
  set (j := Z.of_nat shift mod 32) in *.
  assert (Z.of_nat shift = 32 * Z.of_nat i + j) as Es.
  { unfold i, j. rewrite Nat2Z.inj_div. apply Z.div_mod. lia. }
  assert (i < WIDTH)%nat as Hi by (unfold i, WIDTH; apply Nat.Div0.div_lt_upper_bound; lia).
  assert (u32 (Z.shiftl 1 j) = 2 ^ j) as Eu.
  { rewrite Z.shiftl_1_l. apply wrapU_small. split; [lia|]. apply Z.pow_lt_mono_r; lia. }
  assert (Z.testbit q.[i] j = false) as Ht.
  { rewrite <- (testbit_eval q i j (proj2 Hq) Hj), <- Es. destruct Hd as [m ->].
    rewrite Z.mul_pow2_bits_low by lia. done. }
  unfold q'. rewrite Em, Eu. split.
  - apply wf_insert; [done|]. apply lor_inU; [lia|auto with cpp|].
    split; [lia|]. apply Z.pow_lt_mono_r; lia.
  - rewrite eval_insert by (rewrite (wf_length _ Hq); lia). rewrite lor_pow2_add by (auto; lia).
    unfold weight. rewrite Es at 1. rewrite Z.pow_add_r by lia. ring.
Qed.

Lemma div_loop_spec D n num div q :
  0 < D -> wf num -> wf div -> wf q -> (n <= 256)%nat ->
  (n <> 0%nat -> eval div = D * 2 ^ (Z.of_nat n - 1)) ->
  eval num < D * 2 ^ Z.of_nat n -> (2 ^ Z.of_nat n | eval q) ->
  wf (div_loop n num div q) /\ eval (div_loop n num div q) = eval q + eval num / D.
Proof.
  intros HD. revert num div q. induction n as [|n IH]; intros num div q Hn Hdv Hq Hle Ediv Hlt Hdiv.
  - simpl in *. pose proof (eval_wf _ Hn). rewrite Z.div_small by lia. split; [done|lia].
  - specialize (Ediv ltac:(lia)). replace (Z.of_nat (S n) - 1) with (Z.of_nat n) in Ediv by lia.
    replace (Z.of_nat (S n)) with (Z.succ (Z.of_nat n)) in Hlt by lia. rewrite Z.pow_succ_r in Hlt by lia.
    destruct (op_shr_spec div 1 Hdv ltac:(lia)) as [Hs Es].
    assert (n <> 0%nat -> eval (op_shr div 1) = D * 2 ^ (Z.of_nat n - 1)) as Ed'.
    { intros. rewrite Es, Ediv. replace (Z.of_nat n) with (Z.succ (Z.of_nat n - 1)) at 1 by lia.
      rewrite Z.pow_succ_r by lia. rewrite Z.mul_assoc, (Z.mul_comm D 2), <- Z.mul_assoc, Z.mul_comm.
      apply Z.div_mul. lia. }
    assert (2 ^ Z.of_nat n | eval q) as Hdiv'.
    { destruct Hdiv as [m ->]. exists (m * 2). replace (Z.of_nat (S n)) with (Z.succ (Z.of_nat n)) by lia.
      rewrite Z.pow_succ_r by lia. ring. }
    cbn [div_loop]. rewrite op_ge_spec by done. pose proof (eval_wf _ Hn). pose proof (eval_wf _ Hdv).
    destruct (Z.leb_spec (eval div) (eval num)) as [Hge|Hge].
    + destruct (set_bit_spec q n Hq ltac:(lia) Hdiv) as [Hq' Eq'].
      assert (eval (op_sub num div) = eval num - eval div) as Esub
        by (rewrite op_sub_eval by done; apply Z.mod_small; lia).
      destruct (IH (op_sub num div) (op_shr div 1) _ ltac:(auto with cpp) Hs Hq' ltac:(lia) Ed')
        as [Hw E]; [lia| |].
      { rewrite Eq'. apply Z.divide_add_r; [done|apply Z.divide_refl]. }
      split; [exact Hw|]. rewrite E, Eq', Esub, Ediv.
      replace (eval num) with (eval num - D * 2 ^ Z.of_nat n + 2 ^ Z.of_nat n * D) at 2 by ring.
      rewrite Z.div_add by lia. ring.
    + apply IH; auto; lia.
Qed.

(** [operator/=] throws exactly on a zero divisor and otherwise is the
    Euclidean quotient. *)
Lemma op_div_spec a b : wf a -> wf b ->
  match op_div a b with
  | None => eval b = 0
  | Some r => eval b <> 0 /\ wf r /\ eval r = eval a / eval b
  end.
Proof.
  intros Ha Hb. unfold op_div. rewrite !bits_spec by done.
  pose proof (eval_wf _ Ha). pose proof (eval_wf _ Hb).
  destruct (Z.eqb_spec (eval b) 0) as [E0|E0]; [done|].
  pose proof (Z.log2_spec (eval b) ltac:(lia)) as Hlb. pose proof (Z.log2_nonneg (eval b)).
  destruct (Z.eqb_spec (Z.log2 (eval b) + 1) 0); [lia|].
  destruct (Z.eqb_spec (eval a) 0) as [Ea|Ea].
  - destruct (Z.ltb_spec 0 (Z.log2 (eval b) + 1)); [|lia].
    split; [done|]. split; [auto with cpp|]. by rewrite eval_default, Ea, Z.div_0_l.
  - pose proof (Z.log2_spec (eval a) ltac:(lia)) as Hla. pose proof (Z.log2_nonneg (eval a)).
    destruct (Z.ltb_spec (Z.log2 (eval a) + 1) (Z.log2 (eval b) + 1)).
    + split; [done|]. split; [auto with cpp|]. rewrite eval_default, Z.div_small; [done|].
      split; [lia|]. apply Z.lt_le_trans with (2 ^ Z.log2 (eval b)); [|lia].
      apply Z.lt_le_trans with (2 ^ Z.succ (Z.log2 (eval a))); [lia|]. apply Z.pow_le_mono_r; lia.
    + replace (Z.log2 (eval a) + 1 - (Z.log2 (eval b) + 1)) with (Z.log2 (eval a) - Z.log2 (eval b)) by lia.
      set (s := Z.log2 (eval a) - Z.log2 (eval b)).
      assert (Z.log2 (eval a) < 256) by (apply Z.log2_lt_pow2; lia).
      assert (eval b * 2 ^ s < 2 ^ Z.succ (Z.log2 (eval a))) as Hov.
      { replace (Z.succ (Z.log2 (eval a))) with (Z.succ (Z.log2 (eval b)) + s) by lia.
        rewrite Z.pow_add_r by lia. nia. }
      assert (eval b * 2 ^ s < 2 ^ 256).
      { apply Z.lt_le_trans with (1 := Hov). apply Z.pow_le_mono_r; lia. }
      destruct (op_shl_spec b s Hb ltac:(lia)) as [Hs Es]. rewrite Z.mod_small in Es by lia.
      destruct (div_loop_spec (eval b) (Z.to_nat (s + 1)) a (op_shl b s) base_uint_default) as [Hw E];
        auto with cpp; try lia.
      * intros _. rewrite Es. do 2 f_equal. lia.
      * rewrite Z2Nat.id by lia. apply Z.lt_le_trans with (2 ^ Z.succ (Z.log2 (eval a))); [lia|].
        replace (Z.succ (Z.log2 (eval a))) with (Z.log2 (eval b) + (s + 1)) by lia.
        rewrite Z.pow_add_r by lia. nia.
      * rewrite eval_default. apply Z.divide_0_r.
Qed.

(** ** The compact representation: reference definitions and correctness

    [compact_value] is the number the header comment of the class assigns to
    an encoding, [mantissa * 256^(exponent-3)]; [compact_encode] is the
    canonical encoding, whose exponent is the size in bytes of the number
    with a sign bit in front. *)

Definition compact_mantissa (c : Z) : Z := c mod 2 ^ 23.
Definition compact_exponent (c : Z) : Z := c / 2 ^ 24.

Definition compact_value (c : Z) : Z :=
  let e := compact_exponent c in
  if e <=? 3 then compact_mantissa c / 256 ^ (3 - e)
  else compact_mantissa c * 256 ^ (e - 3).

Definition compact_sign (c : Z) : bool := negb (compact_value c =? 0) && Z.testbit c 23.

Definition signed_bytes (v : Z) : Z := if v =? 0 then 0 else (Z.log2 v + 1) / 8 + 1.

Definition compact_encode (v : Z) : Z :=
  let n := signed_bytes v in
  n * 2 ^ 24 + (if n <=? 3 then v * 256 ^ (3 - n) else v / 256 ^ (n - 3)).

Lemma pow256 n : 0 <= n -> 2 ^ (8 * n) = 256 ^ n.
Proof. intros. rewrite Z.pow_mul_r by lia. reflexivity. Qed.

Lemma GetLow64_spec pn : wf pn -> GetLow64 pn = eval pn mod 2 ^ 64.
Proof.
  intros [Hl Ha]. destruct pn as [|x [|y a]]; try discriminate.
  apply Forall_cons_iff in Ha as [Hx Ha]. apply Forall_cons_iff in Ha as [Hy Ha].
  unfold inU in *. unfold GetLow64. cbn [eval].
  change ((x :: y :: a).[1]) with y. change ((x :: y :: a).[0]) with x.
  rewrite lor_disjoint_add by lia. apply (Z.mod_unique_pos _ _ (eval a)); lia.
Qed.

Lemma SetCompact_fields c : inU 32 c ->
  Z.shiftr c 24 = compact_exponent c /\ Z.land c 0x007fffff = compact_mantissa c /\
  0 <= compact_exponent c < 256 /\ 0 <= compact_mantissa c < 2 ^ 23 /\
  (Z.land c 0x00800000 =? 0) = negb (Z.testbit c 23).
Proof.
  unfold inU, compact_exponent, compact_mantissa. intros Hc.
  rewrite Z.shiftr_div_pow2 by lia. split; [done|].
  split; [exact (land_ones_mod c 23 ltac:(lia))|].
  split; [split; [apply Z.div_pos; lia|apply Z.div_lt_upper_bound; lia]|].
  split; [apply Z.mod_pos_bound; lia|]. exact (land_pow2_eqb c 23 ltac:(lia)).
Qed.

(** The overflow test of [SetCompact] is exact. *)
Lemma compact_overflow_exact m e : 0 <= m < 2 ^ 23 -> 3 < e < 256 ->
  (negb (m =? 0) && ((34 <? e) || ((0xff <? m) && (33 <? e)) || ((0xffff <? m) && (32 <? e))))
  = (2 ^ 256 <=? m * 256 ^ (e - 3)).
Proof.
  intros Hm He. change (2 ^ 256) with (256 ^ 32). symmetry.
  destruct (Z.eqb_spec m 0) as [->|]; cbn [negb andb]; [apply Z.leb_gt; lia|].
  assert (forall k, 0 <= k -> 35 <= e -> 256 ^ 32 <= m * 256 ^ (e - 3)) as Hbig.
  { intros. apply Z.le_trans with (1 * 256 ^ (e - 3)); [|nia].
    rewrite Z.mul_1_l. apply Z.pow_le_mono_r; lia. }
  destruct (Z.ltb_spec 34 e); cbn [orb]; [apply Z.leb_le, (Hbig 0); lia|].
  destruct (Z.ltb_spec 33 e); [|destruct (Z.ltb_spec 32 e)].
  - replace (e - 3) with 31 by lia. zbool; cbn [andb orb]; lia.
  - replace (e - 3) with 30 by lia. zbool; cbn [andb orb]; lia.
  - rewrite !andb_false_r. cbn [orb]. apply Z.leb_gt.
    apply Z.lt_le_trans with (256 ^ 3 * 256 ^ (e - 3)); [nia|].
    rewrite <- Z.pow_add_r by lia. apply Z.pow_le_mono_r; lia.
Qed.

Lemma SetCompact_spec c : inU 32 c ->
  let r := SetCompact c in
  wf (cValue r) /\ eval (cValue r) = compact_value c mod 2 ^ 256 /\
  fOverflow r = (2 ^ 256 <=? compact_value c) /\ fNegative r = compact_sign c.
Proof.
  intros Hc. destruct (SetCompact_fields c Hc) as (Ee & Em & He & Hm & Es).
  unfold SetCompact, compact_sign, compact_value. rewrite Ee, Em, Es, negb_involutive.
  set (e := compact_exponent c) in *. set (m := compact_mantissa c) in *.
  destruct (Z.leb_spec e 3) as [H3|H3]; cbn [cValue fNegative fOverflow].
  - rewrite Z.shiftr_div_pow2, pow256 by lia.
    assert (0 <= m / 256 ^ (3 - e) < 2 ^ 23) as Hr.
    { split; [apply Z.div_pos; lia|]. apply Z.div_lt_upper_bound; [lia|]. nia. }
    split; [auto with cpp|]. rewrite of_u64_eval by (unfold inU; lia). rewrite Z.mod_small by lia.
    split; [done|]. split; [|done].
    rewrite (proj2 (Z.ltb_ge 34 e)), (proj2 (Z.ltb_ge 33 e)), (proj2 (Z.ltb_ge 32 e)) by lia.
    rewrite !andb_false_r. symmetry. apply Z.leb_gt. lia.
  - destruct (op_shl_spec (base_uint_of_u64 m) (8 * (e - 3))) as [Hw E]; auto with cpp; [lia|].
    rewrite of_u64_eval, pow256 in E by (unfold inU; lia).
    split; [done|]. split; [done|]. split; [apply compact_overflow_exact; lia|].
    f_equal. f_equal. pose proof (Z.pow_pos_nonneg 256 (e - 3)). zbool; try done; nia.
Qed.

Lemma GetCompact_bytes v : 0 < v ->
  let n := (Z.log2 v + 1 + 7) / 8 in
  256 ^ (n - 1) <= v < 256 ^ n /\ 1 <= n /\
  signed_bytes v = if 2 ^ (8 * n - 1) <=? v then n + 1 else n.
Proof.
  intros Hv n. pose proof (Z.log2_spec v Hv) as Hl. pose proof (Z.log2_nonneg v).
  assert (8 * (n - 1) <= Z.log2 v < 8 * n) as Hn by (unfold n; divlia).
  split; [|split; [lia|]].
  - rewrite <- !pow256 by lia. split.
    + apply Z.le_trans with (2 ^ Z.log2 v); [|lia]. apply Z.pow_le_mono_r; lia.
    + apply Z.lt_le_trans with (1 := proj2 Hl). apply Z.pow_le_mono_r; lia.
  - unfold signed_bytes. destruct (Z.eqb_spec v 0); [lia|].
    destruct (Z.leb_spec (2 ^ (8 * n - 1)) v) as [Hle|Hlt].
    + apply Z.log2_le_pow2 in Hle; [|lia]. clear Hl. divlia.
    + apply Z.log2_lt_pow2 in Hlt; [|lia]. clear Hl. divlia.
Qed.

(** The mantissa before the sign-bit adjustment: the three leading bytes. *)
Definition lead3 (v n : Z) : Z := if n <=? 3 then v * 256 ^ (3 - n) else v / 256 ^ (n - 3).

Lemma lead3_bound v n : 0 <= n -> 0 <= v < 256 ^ n -> 0 <= lead3 v n < 2 ^ 24.
Proof.
  intros Hn Hv. unfold lead3. change (2 ^ 24) with (256 ^ 3). destruct (Z.leb_spec n 3).
  - pose proof (Z.pow_pos_nonneg 256 (3 - n)).
    replace 3 with (n + (3 - n)) at 3 by lia. rewrite Z.pow_add_r by lia. nia.
  - split; [apply Z.div_pos; lia|]. apply Z.div_lt_upper_bound; [lia|].
    rewrite <- Z.pow_add_r by lia. replace (n - 3 + 3) with n by lia. lia.
Qed.

Lemma lead3_top v n : 1 <= n -> 0 <= v -> (2 ^ 23 <=? lead3 v n) = (2 ^ (8 * n - 1) <=? v).
Proof.
  intros Hn Hv. unfold lead3. destruct (Z.leb_spec n 3).
  - assert (2 ^ 23 = 2 ^ (8 * n - 1) * 256 ^ (3 - n)) as ->.
    { rewrite <- pow256, <- Z.pow_add_r by lia. f_equal. lia. }
    pose proof (Z.pow_pos_nonneg 256 (3 - n)). zbool; try done; nia.
  - assert (2 ^ (8 * n - 1) = 2 ^ 23 * 256 ^ (n - 3)) as ->.
    { rewrite <- pow256, <- Z.pow_add_r by lia. f_equal. lia. }
    pose proof (Z.pow_pos_nonneg 256 (n - 3) ltac:(lia) ltac:(lia)).
    pose proof (Z.div_mod v (256 ^ (n - 3)) ltac:(lia)).
    pose proof (Z.mod_pos_bound v (256 ^ (n - 3)) ltac:(lia)). zbool; try done; nia.
Qed.

Lemma lead3_next v n : 1 <= n -> lead3 v n / 256 = lead3 v (n + 1).
Proof.
  intros Hn. unfold lead3. destruct (Z.leb_spec n 3), (Z.leb_spec (n + 1) 3); try lia.
  - replace (3 - n) with (Z.succ (3 - (n + 1))) by lia. rewrite Z.pow_succ_r by lia.
    rewrite (Z.mul_comm 256), Z.mul_assoc. apply Z.div_mul. lia.
  - replace n with 3 by lia. simpl. by rewrite Z.mul_1_r.
  - replace (n + 1 - 3) with (Z.succ (n - 3)) by lia. rewrite Z.pow_succ_r, (Z.mul_comm 256) by lia.
    apply Z.div_div; lia.
Qed.

Lemma GetCompact_lead pn : wf pn ->
  let v := eval pn in let n := (bits pn + 7) / 8 in
  (if n <=? 3 then u32 (u64 (Z.shiftl (GetLow64 pn) (8 * (3 - n))))
   else u32 (GetLow64 (op_shr pn (8 * (n - 3))))) = lead3 v n /\ 0 <= v < 256 ^ n /\ 0 <= n <= 32.
Proof.
  intros Hpn v n. pose proof (eval_wf _ Hpn) as Hv. fold v in Hv.
  assert (0 <= v < 256 ^ n /\ 0 <= n <= 32) as [Hvn Hn].
  { unfold n. rewrite bits_spec by done. fold v.
    destruct (Z.eqb_spec v 0) as [E0|]; [rewrite E0; change ((0 + 7) / 8) with 0; lia|].
    destruct (GetCompact_bytes v) as (Hb & H1 & _); [lia|].
    split; [lia|]. assert (Z.log2 v < 256) by (apply Z.log2_lt_pow2; lia). divlia. }
  split; [|done]. pose proof (lead3_bound v n ltac:(lia) Hvn) as Hb. unfold lead3 in *.
  destruct (Z.leb_spec n 3).
  - assert (v < 2 ^ 24).
    { apply Z.lt_le_trans with (1 := proj2 Hvn). change (2 ^ 24) with (256 ^ 3).
      apply Z.pow_le_mono_r; lia. }
    rewrite GetLow64_spec, Z.mod_small by (auto; lia). rewrite Z.shiftl_mul_pow2, pow256 by lia.
    fold v. rewrite !wrapU_small by (unfold inU; rewrite ?wrapU_small; unfold inU; lia). done.
  - destruct (op_shr_spec pn (8 * (n - 3)) Hpn ltac:(lia)) as [Hw E]. rewrite pow256 in E by lia.
    rewrite GetLow64_spec, E by done. fold v. rewrite Z.mod_small by lia.
    apply wrapU_small. unfold inU. lia.
Qed.

(** The final assembly of mantissa, exponent and sign. *)
Lemma compact_assemble m n neg : 0 <= m < 2 ^ 23 -> 0 <= n < 256 ->
  Z.land m (u32 (Z.lnot 0x007fffff)) = 0 /\
  (let c := Z.lor m (u32 (Z.shiftl n 24)) in
   Z.lor c (if neg && negb (Z.land c 0x007fffff =? 0) then 0x00800000 else 0))
  = n * 2 ^ 24 + m + (if neg && negb (m =? 0) then 2 ^ 23 else 0).
Proof.
  intros Hm Hn. split.
  { change (u32 (Z.lnot 0x007fffff)) with (Z.shiftl 511 23).
    apply Z.bits_inj'. intros i Hi. rewrite Z.land_spec, Z.bits_0.
    destruct (Z.ltb_spec i 23); [rewrite Z.shiftl_spec_low by lia; apply andb_false_r|].
    rewrite (proj2 (Z.testbit_false m i Hi)); [done|]. rewrite Z.div_small; [done|].
    split; [lia|]. apply Z.lt_le_trans with (2 ^ 23); [lia|]. apply Z.pow_le_mono_r; lia. }
  assert (u32 (Z.shiftl n 24) = Z.shiftl n 24) as ->.
  { rewrite Z.shiftl_mul_pow2 by lia. apply wrapU_small. unfold inU. lia. }
  cbv zeta. rewrite lor_disjoint_add by lia.
  assert (Z.land (m + n * 2 ^ 24) 0x007fffff = m) as ->.
  { transitivity ((m + n * 2 ^ 24) mod 2 ^ 23); [exact (land_ones_mod _ 23 ltac:(lia))|].
    symmetry. apply (Z.mod_unique_pos _ _ (2 * n)); lia. }
  destruct (neg && negb (m =? 0)); [|rewrite Z.lor_0_r; lia].
  change 0x00800000 with (2 ^ 23). rewrite lor_pow2_add; [lia|lia|].
  rewrite <- (lor_disjoint_add m n 24), Z.lor_spec, Z.shiftl_spec_low, orb_false_r by lia.
  rewrite testbit_top by lia. apply Z.leb_gt. lia.
Qed.

(** [GetCompact] never fails an assertion and returns the canonical encoding. *)
Lemma GetCompact_spec pn neg : wf pn ->
  GetCompact pn neg =
  Some (compact_encode (eval pn) + (if neg && negb (lead3 (eval pn) (signed_bytes (eval pn)) =? 0) then 2 ^ 23 else 0)).
Proof.
  intros Hpn. destruct (GetCompact_lead pn Hpn) as (El & Hv & Hn).
  unfold GetCompact. rewrite El. set (v := eval pn) in *. set (n := (bits pn + 7) / 8) in *.
  pose proof (lead3_bound v n ltac:(lia) Hv) as Hb.
  assert (exists m n', 0 <= m < 2 ^ 23 /\ 0 <= n' < 256 /\ n' = signed_bytes v /\ m = lead3 v n' /\
    (if negb (Z.land (lead3 v n) 0x00800000 =? 0) then (Z.shiftr (lead3 v n) 8, n + 1)
     else (lead3 v n, n)) = (m, n')) as (m & n' & Hm & Hn' & -> & -> & ->).
  { change 0x00800000 with (2 ^ 23). rewrite land_pow2_eqb, negb_involutive, testbit_top by lia.
    destruct (Z.eqb_spec v 0) as [E0|E0].
    - assert (n = 0) as -> by (unfold n; rewrite bits_spec by done; fold v; by rewrite E0).
      rewrite E0. exists 0, 0. repeat split; lia.
    - destruct (GetCompact_bytes v) as (_ & H1 & Es); [lia|].
      assert ((Z.log2 v + 1 + 7) / 8 = n) as En
        by (unfold n; rewrite bits_spec by done; fold v; by destruct (Z.eqb_spec v 0)).
      rewrite En in H1, Es. rewrite lead3_top, Es by lia.
      pose proof (lead3_top v n ltac:(lia) ltac:(lia)) as Ht.
      destruct (Z.leb_spec (2 ^ (8 * n - 1)) v).
      + exists (lead3 v (n + 1)), (n + 1). rewrite Z.shiftr_div_pow2 by lia.
        change (2 ^ 8) with 256. rewrite <- lead3_next by lia. repeat split; try lia.
        * apply Z.div_pos; lia.
        * apply Z.div_lt_upper_bound; lia.
      + exists (lead3 v n), n. repeat split; lia. }
  destruct (compact_assemble (lead3 v (signed_bytes v)) (signed_bytes v) neg Hm Hn') as [Ea Ec].
  rewrite Ea. cbn [negb Z.eqb]. rewrite (proj2 (Z.ltb_lt (signed_bytes v) 256)) by lia. cbn [negb].
  cbv zeta in Ec. rewrite Ec. reflexivity.
Qed.

Lemma signed_bytes_bound v : 0 <= v < 2 ^ 256 -> 0 <= signed_bytes v <= 33.
Proof.
  intros. unfold signed_bytes. destruct (Z.eqb_spec v 0); [lia|].
  assert (Z.log2 v < 256) by (apply Z.log2_lt_pow2; lia). pose proof (Z.log2_nonneg v). divlia.
Qed.

Lemma signed_bytes_lead v : 0 <= v -> 0 <= lead3 v (signed_bytes v) < 2 ^ 23.
Proof.
  intros Hv. destruct (Z.eqb_spec v 0) as [->|Hne]; [unfold lead3; simpl; lia|].
  destruct (GetCompact_bytes v) as (Hb & H1 & Es); [lia|]. set (n := (Z.log2 v + 1 + 7) / 8) in *.
  pose proof (lead3_bound v n ltac:(lia) ltac:(lia)).
  pose proof (lead3_top v n ltac:(lia) ltac:(lia)). rewrite Es.
  destruct (Z.leb_spec (2 ^ (8 * n - 1)) v); [|lia].
  rewrite <- lead3_next by lia. split; [apply Z.div_pos; lia|apply Z.div_lt_upper_bound; lia].
Qed.

Lemma compact_encode_fields v : 0 <= v < 2 ^ 256 ->
  compact_encode v = signed_bytes v * 2 ^ 24 + lead3 v (signed_bytes v) /\
  inU 32 (compact_encode v) /\ compact_exponent (compact_encode v) = signed_bytes v /\
  compact_mantissa (compact_encode v) = lead3 v (signed_bytes v) /\
  Z.testbit (compact_encode v) 23 = false.
Proof.
  intros Hv. pose proof (signed_bytes_bound v Hv). pose proof (signed_bytes_lead v ltac:(lia)).
  assert (compact_encode v = signed_bytes v * 2 ^ 24 + lead3 v (signed_bytes v)) as E by reflexivity.
  rewrite E. set (m := lead3 _ _) in *. set (n := signed_bytes v) in *.
  unfold inU, compact_exponent, compact_mantissa. split; [done|]. split; [lia|]. split; [|split].
  - symmetry. apply (Z.div_unique_pos _ _ _ m); lia.
  - symmetry. apply (Z.mod_unique_pos _ _ (2 * n)); lia.
  - apply Z.testbit_false; [lia|].
    replace (n * 2 ^ 24 + m) with (m + (2 * n) * 2 ^ 23) by ring.
    rewrite Z.div_add, Z.div_small by lia. rewrite Z.add_0_l, Z.mul_comm. apply Z.mod_mul. lia.
Qed.

(** The number the canonical encoding keeps: the leading bytes. *)
Definition compact_trunc (v : Z) : Z :=
  let k := Z.max 0 (signed_bytes v - 3) in v / 256 ^ k * 256 ^ k.

Lemma compact_value_encode v : 0 <= v < 2 ^ 256 -> compact_value (compact_encode v) = compact_trunc v.
Proof.
  intros Hv. destruct (compact_encode_fields v Hv) as (_ & _ & Ee & Em & _).
  unfold compact_value, compact_trunc. rewrite Ee, Em. unfold lead3.
  pose proof (signed_bytes_bound v Hv). destruct (Z.leb_spec (signed_bytes v) 3).
  - rewrite Z.max_l by lia. rewrite Z.div_mul by lia. simpl. by rewrite Z.div_1_r, Z.mul_1_r.
  - by rewrite Z.max_r by lia.
Qed.

Lemma compact_trunc_bound v : 0 <= v -> 0 <= compact_trunc v <= v.
Proof.
  intros. unfold compact_trunc. set (k := Z.max _ _).
  pose proof (Z.pow_pos_nonneg 256 k ltac:(lia) ltac:(lia)).
  pose proof (Z.div_mod v (256 ^ k) ltac:(lia)). pose proof (Z.mod_pos_bound v (256 ^ k) ltac:(lia)).
  pose proof (Z.div_pos v (256 ^ k)). nia.
Qed.

Lemma signed_bytes_trunc v : 0 <= v -> signed_bytes (compact_trunc v) = signed_bytes v.
Proof.
  intros Hv. unfold compact_trunc. destruct (Z.eqb_spec v 0) as [->|Hne]; [done|].
  set (k := Z.max 0 (signed_bytes v - 3)).
  assert (8 * k <= Z.log2 v) as Hk.
  { unfold k, signed_bytes. destruct (Z.eqb_spec v 0); [done|]. pose proof (Z.log2_nonneg v). divlia. }
  rewrite <- pow256 by lia. rewrite <- Z.shiftr_div_pow2 by lia.
  assert (0 < Z.shiftr v (8 * k)) as Hp.
  { rewrite Z.shiftr_div_pow2 by lia. apply Z.div_str_pos. split; [lia|].
    apply Z.log2_le_pow2; lia. }
  unfold signed_bytes. rewrite Z.log2_mul_pow2, Z.log2_shiftr by lia.
  destruct (Z.eqb_spec v 0); [done|].
  destruct (Z.eqb_spec (Z.shiftr v (8 * k) * 2 ^ (8 * k)) 0); [lia|].
  do 3 f_equal. lia.
Qed.

Lemma compact_encode_trunc v : 0 <= v -> compact_encode (compact_trunc v) = compact_encode v.
Proof.
  intros Hv. unfold compact_encode. rewrite signed_bytes_trunc by done. f_equal.
  unfold compact_trunc. destruct (Z.leb_spec (signed_bytes v) 3).
  - rewrite Z.max_l by lia. simpl. by rewrite Z.div_1_r, !Z.mul_1_r.
  - rewrite Z.max_r by lia. rewrite Z.div_mul by lia. done.
Qed.

(** *** Opaque blobs *)

Lemma ReadLE32_4 a b c d r : inU 8 a -> inU 8 b -> inU 8 c -> inU 8 d ->
  ReadLE32 (a :: b :: c :: d :: r) = a + 2 ^ 8 * (b + 2 ^ 8 * (c + 2 ^ 8 * d)).
Proof.
  unfold inU. intros. unfold ReadLE32.
  change ((a :: b :: c :: d :: r).[0]) with a. change ((a :: b :: c :: d :: r).[1]) with b.
  change ((a :: b :: c :: d :: r).[2]) with c. change ((a :: b :: c :: d :: r).[3]) with d.
  replace (Z.shiftl d 24) with (Z.shiftl (Z.shiftl d 8) 16) by (rewrite Z.shiftl_shiftl by lia; f_equal; lia).
  rewrite <- (Z.shiftl_lor c (Z.shiftl d 8) 16), (lor_disjoint_add c) by lia.
  replace (Z.shiftl (c + d * 2 ^ 8) 16) with (Z.shiftl (Z.shiftl (c + d * 2 ^ 8) 8) 8)
    by (rewrite Z.shiftl_shiftl by lia; f_equal; lia).
  rewrite <- Z.shiftl_lor, (lor_disjoint_add b), (lor_disjoint_add a) by lia. ring.
Qed.

Lemma LE32_roundtrip x r : inU 32 x -> ReadLE32 (WriteLE32 x ++ r) = x.
Proof.
  intros Hx. unfold WriteLE32. simpl app. rewrite ReadLE32_4 by (apply wrapU_range; lia).
  unfold wrapU, inU in *. rewrite !Z.shiftr_div_pow2 by lia. divlia.
Qed.

Lemma UintToArith_words n (bs : uint256) : length bs = (4 * n)%nat -> Forall (inU 8) bs ->
  let ws := map (fun x => ReadLE32 (drop (x * 4) bs)) (seq 0 n) in
  Forall (inU 32) ws /\ eval ws = le_bytes bs.
Proof.
  revert bs. induction n as [|n IH]; intros bs Hl Hb.
  - destruct bs; [|simpl in Hl; lia]. split; [constructor|done].
  - destruct bs as [|a [|b [|c [|d bs]]]]; simpl in Hl; try lia.
    repeat match goal with H : Forall _ (_ :: _) |- _ => apply Forall_cons_iff in H as [? H] end.
    destruct (IH bs ltac:(lia) Hb) as [Hf E]. cbn [seq map]. rewrite drop_0, ReadLE32_4 by done.
    rewrite <- seq_shift, map_map.
    change (map (fun x => ReadLE32 (drop (S x * 4) (a :: b :: c :: d :: bs))) (seq 0 n))
      with (map (fun x => ReadLE32 (drop (x * 4) bs)) (seq 0 n)).
    split.
    + constructor; [|done]. unfold inU in *. lia.
    + cbn [eval le_bytes]. rewrite E. ring.
Qed.

Lemma UintToArith256_spec bs : wf_uint256 bs ->
  wf (UintToArith256 bs) /\ eval (UintToArith256 bs) = le_bytes bs.
Proof.
  intros [Hl Hb]. destruct (UintToArith_words 8 bs Hl Hb) as [Hf E].
  split; [split; [reflexivity|exact Hf]|exact E].
Qed.

Lemma ArithToUint256_roundtrip a : wf a -> UintToArith256 (ArithToUint256 a) = a.
Proof.
  intros [Hl Ha]. unfold UintToArith256, WIDTH in *. rewrite <- Hl. clear Hl.
  induction Ha as [|w a Hw Ha IH]; [done|].
  cbn [length seq map]. unfold ArithToUint256. cbn [map]. rewrite drop_0.
  change (mjoin (WriteLE32 w :: map WriteLE32 a)) with (WriteLE32 w ++ ArithToUint256 a).
  rewrite LE32_roundtrip by done. f_equal. etransitivity; [|exact IH].
  rewrite <- seq_shift, map_map. reflexivity.
Qed.

(** *** Bitwise operators *)

Section bitwise.
Context (f : Z -> Z -> Z).
Hypothesis f_shiftr : forall a b n, Z.shiftr (f a b) n = f (Z.shiftr a n) (Z.shiftr b n).
Hypothesis f_mod : forall a b, f a b mod 2 ^ 32 = f (a mod 2 ^ 32) (b mod 2 ^ 32).
Hypothesis f_0 : f 0 0 = 0.

Lemma bitwise_word x y : inU 32 x -> inU 32 y -> inU 32 (f x y).
Proof.
  unfold inU. intros. pose proof (f_mod x y) as E. rewrite (Z.mod_small x), (Z.mod_small y) in E by lia.
  rewrite <- E. apply Z.mod_pos_bound. lia.
Qed.

Lemma bitwise_eval a b : length a = length b -> Forall (inU 32) a -> Forall (inU 32) b ->
  Forall (inU 32) (zip_with f a b) /\ eval (zip_with f a b) = f (eval a) (eval b).
Proof.
  intros Hl Ha. revert b Hl. induction Ha as [|x a Hx Ha IH]; intros [|y b] Hl Hb; try discriminate.
  - by split; [constructor|].
  - apply Forall_cons_iff in Hb as [Hy Hb]. destruct (IH b ltac:(simpl in Hl; lia) Hb) as [Hf E].
    split; [constructor; auto using bitwise_word|]. cbn [zip_with eval]. rewrite E.
    unfold inU in Hx, Hy.
    rewrite (Z.div_mod (f (x + 2 ^ 32 * eval a) (y + 2 ^ 32 * eval b)) (2 ^ 32)) by lia.
    rewrite f_mod, <- Z.shiftr_div_pow2, f_shiftr, !Z.shiftr_div_pow2 by lia.
    rewrite !(Z.mul_comm (2 ^ 32) (eval _)), !Z.mod_add, !Z.div_add by lia.
    rewrite (Z.mod_small x), (Z.mod_small y), (Z.div_small x), (Z.div_small y) by lia.
    rewrite !Z.add_0_l. ring.
Qed.
End bitwise.

Lemma lxor_mod a b : Z.lxor a b mod 2 ^ 32 = Z.lxor (a mod 2 ^ 32) (b mod 2 ^ 32).
Proof. rewrite <- !Z.land_ones by lia. apply Z.bits_inj'. intros. rewrite !Z.land_spec, !Z.lxor_spec, !Z.land_spec.
  by destruct (Z.testbit a n), (Z.testbit b n), (Z.testbit (Z.ones 32) n). Qed.
Lemma land_mod a b : Z.land a b mod 2 ^ 32 = Z.land (a mod 2 ^ 32) (b mod 2 ^ 32).
Proof. rewrite <- !Z.land_ones by lia. apply Z.bits_inj'. intros. rewrite !Z.land_spec.
  by destruct (Z.testbit a n), (Z.testbit b n), (Z.testbit (Z.ones 32) n). Qed.
Lemma lor_mod a b : Z.lor a b mod 2 ^ 32 = Z.lor (a mod 2 ^ 32) (b mod 2 ^ 32).
Proof. rewrite <- !Z.land_ones by lia. apply Z.land_lor_distr_l. Qed.

Lemma op_predec_wf a : wf a -> wf (op_predec a).
Proof.
  intros [Hl Ha]. split.
  - rewrite <- Hl. clear. induction a; cbn [op_predec]; [done|]. case_match; simpl; congruence.
  - clear Hl. induction Ha; cbn [op_predec]; [constructor|].
    case_match; constructor; auto using wrapU_range with lia.
Qed.

(** ** Properties *)

(** The ring, order and bit operators of [base_uint<256>], word by word with
    64-bit intermediate carries, implement the integers modulo [2^256]. *)
Record implements_Z256 (a b : base_uint) : Prop := {
  impl_add : wf (op_add a b) /\ eval (op_add a b) = (eval a + eval b) mod 2 ^ 256;
  impl_sub : wf (op_sub a b) /\ eval (op_sub a b) = (eval a - eval b) mod 2 ^ 256;
  impl_neg : wf (op_neg a) /\ eval (op_neg a) = (- eval a) mod 2 ^ 256;
  impl_compl : wf (op_compl a) /\ eval (op_compl a) = 2 ^ 256 - 1 - eval a;
  impl_inc : wf (op_preinc a) /\ eval (op_preinc a) = (eval a + 1) mod 2 ^ 256;
  impl_dec : wf (op_predec a) /\ eval (op_predec a) = (eval a - 1) mod 2 ^ 256;
  impl_mul : wf (op_mul a b) /\ eval (op_mul a b) = (eval a * eval b) mod 2 ^ 256;
  impl_mul32 : forall n, inU 32 n ->
    wf (op_mul_u32 a n) /\ eval (op_mul_u32 a n) = (eval a * n) mod 2 ^ 256;
  impl_shl : forall s, 0 <= s -> wf (op_shl a s) /\ eval (op_shl a s) = (eval a * 2 ^ s) mod 2 ^ 256;
  impl_shr : forall s, 0 <= s -> wf (op_shr a s) /\ eval (op_shr a s) = eval a / 2 ^ s;
  impl_xor : eval (op_xor a b) = Z.lxor (eval a) (eval b);
  impl_and : eval (op_and a b) = Z.land (eval a) (eval b);
  impl_or : eval (op_or a b) = Z.lor (eval a) (eval b);
  impl_compare : CompareTo a b = match eval a ?= eval b with Lt => -1 | Eq => 0 | Gt => 1 end;
  impl_equal64 : forall n, inU 64 n -> EqualTo a n = (eval a =? n);
  impl_bits : bits a = if eval a =? 0 then 0 else Z.log2 (eval a) + 1;
  impl_low64 : GetLow64 a = eval a mod 2 ^ 64
}.



(** [operator/=] throws [uint_error] exactly when the divisor is zero;
    otherwise the shift-and-subtract loop returns the Euclidean quotient. *)
Theorem division_correct (a b : base_uint) (Ha : wf a) (Hb : wf b) :
  (op_div a b = None <-> eval b = 0) /\
  (forall r, op_div a b = Some r -> wf r /\ eval r = eval a / eval b).
Proof.
  pose proof (op_div_spec a b Ha Hb) as H. destruct (op_div a b); split.
  - split; [done|]. tauto.
  - intros r [= <-]. tauto.
  - done.
  - done.
Qed.

Lemma division_correct_witness :
  (op_div (base_uint_of_u64 100) (base_uint_of_u64 7) = None <-> eval (base_uint_of_u64 7) = 0) /\
  (forall r, op_div (base_uint_of_u64 100) (base_uint_of_u64 7) = Some r ->
     wf r /\ eval r = eval (base_uint_of_u64 100) / eval (base_uint_of_u64 7)).
Proof. apply division_correct; apply of_u64_wf. Defined.

(** [SetCompact] decodes a 32-bit word to [mantissa * 256^(exponent-3)]
    modulo [2^256], its overflow flag is set exactly when that number does not
    fit 256 bits, and its negative flag exactly for a non-zero number with the
    sign bit. *)
Theorem SetCompact_decodes (c : Z) (Hc : inU 32 c) :
  let r := SetCompact c in
  wf (cValue r) /\
  fOverflow r = (2 ^ 256 <=? compact_value c) /\
  fNegative r = compact_sign c /\
  eval (cValue r) = compact_value c mod 2 ^ 256 /\
  (fOverflow r = false -> eval (cValue r) = compact_value c).
Proof.
  destruct (SetCompact_spec c Hc) as (Hw & E & Eo & En). cbv zeta.
  repeat split; try apply Hw; auto. rewrite E, Eo. intros H%Z.leb_gt.
  apply Z.mod_small. split; [|done].
  destruct (SetCompact_fields c Hc) as (_ & _ & He & Hm & _). unfold compact_value.
  destruct (Z.leb_spec (compact_exponent c) 3); [apply Z.div_pos; lia|]. nia.
Qed.

Lemma SetCompact_decodes_witness : fOverflow (SetCompact 0x1e0ffff0) = false /\
  eval (cValue (SetCompact 0x1e0ffff0)) = compact_value 0x1e0ffff0.
Proof.
  assert (inU 32 0x1e0ffff0) as H by (split; lia).
  split; [reflexivity|]. apply (SetCompact_decodes 0x1e0ffff0 H). reflexivity.
Defined.

(** For every 256-bit number [GetCompact] returns without failing an
    assertion; decoding its result raises neither flag and gives the number
    truncated to its leading (two or three) bytes, and encoding that again
    gives the same word: the encoding is canonical. *)
Theorem GetCompact_roundtrip (pn : base_uint) (Hpn : wf pn) :
  exists c, GetCompact pn false = Some c /\ inU 32 c /\
    fOverflow (SetCompact c) = false /\ fNegative (SetCompact c) = false /\
    eval (cValue (SetCompact c)) = compact_trunc (eval pn) /\
    GetCompact (cValue (SetCompact c)) false = Some c.
Proof.
  pose proof (eval_wf _ Hpn) as Hv. exists (compact_encode (eval pn)).
  destruct (compact_encode_fields _ Hv) as (_ & Hc & _ & _ & Ht).
  destruct (SetCompact_spec _ Hc) as (Hw & E & Eo & En).
  pose proof (compact_trunc_bound (eval pn) ltac:(lia)) as Hb.
  rewrite compact_value_encode in E, Eo by done. rewrite Z.mod_small in E by lia.
  rewrite !GetCompact_spec by done. cbn [andb]. rewrite E, compact_encode_trunc, !Z.add_0_r by lia.
  repeat split; try apply Hc; auto.
  - rewrite Eo. apply Z.leb_gt. lia.
  - rewrite En. unfold compact_sign. by rewrite Ht, andb_false_r.
Qed.

Lemma GetCompact_roundtrip_witness :
  exists c, GetCompact (base_uint_of_u64 0x12345678) false = Some c /\ inU 32 c /\
    fOverflow (SetCompact c) = false /\ fNegative (SetCompact c) = false /\
    eval (cValue (SetCompact c)) = compact_trunc (eval (base_uint_of_u64 0x12345678)) /\
    GetCompact (cValue (SetCompact c)) false = Some c.
Proof. apply GetCompact_roundtrip, of_u64_wf. Defined.
