(* ===== verification/StrEncodings.v ===== *)
(** * String encodings (utilstrencodings.h, utilstrencodings.cpp)

    Hexadecimal, base64 and base32 conversion of byte strings, as the loops of
    the source: one character or byte at a time, with the number of pending
    bits ([mode]) and the pending bits themselves ([left]). *)

From S2P Require Import Prelude.

(** ** Hexadecimal *)

Definition p_util_hexdigit : list Z :=
  [-1; -1; -1; -1; -1; -1; -1; -1; -1; -1; -1; -1; -1; -1; -1; -1; -1; -1; -1; -1; -1; -1; -1; -1; -1; -1; -1; -1; -1; -1; -1; -1;
   -1; -1; -1; -1; -1; -1; -1; -1; -1; -1; -1; -1; -1; -1; -1; -1; 0; 1; 2; 3; 4; 5; 6; 7; 8; 9; -1; -1; -1; -1; -1; -1;
   -1; 10; 11; 12; 13; 14; 15; -1; -1; -1; -1; -1; -1; -1; -1; -1; -1; -1; -1; -1; -1; -1; -1; -1; -1; -1; -1; -1; -1; -1; -1; -1;
   -1; 10; 11; 12; 13; 14; 15; -1; -1; -1; -1; -1; -1; -1; -1; -1; -1; -1; -1; -1; -1; -1; -1; -1; -1; -1; -1; -1; -1; -1; -1; -1;
   -1; -1; -1; -1; -1; -1; -1; -1; -1; -1; -1; -1; -1; -1; -1; -1; -1; -1; -1; -1; -1; -1; -1; -1; -1; -1; -1; -1; -1; -1; -1; -1;
   -1; -1; -1; -1; -1; -1; -1; -1; -1; -1; -1; -1; -1; -1; -1; -1; -1; -1; -1; -1; -1; -1; -1; -1; -1; -1; -1; -1; -1; -1; -1; -1;
   -1; -1; -1; -1; -1; -1; -1; -1; -1; -1; -1; -1; -1; -1; -1; -1; -1; -1; -1; -1; -1; -1; -1; -1; -1; -1; -1; -1; -1; -1; -1; -1;
   -1; -1; -1; -1; -1; -1; -1; -1; -1; -1; -1; -1; -1; -1; -1; -1; -1; -1; -1; -1; -1; -1; -1; -1; -1; -1; -1; -1; -1; -1; -1; -1].

Definition HexDigit (c : Z) : Z := p_util_hexdigit.[Z.to_nat (u8 c)].

Fixpoint all_hex (s : list Z) : bool :=
  match s with [] => true | c :: s' => if HexDigit c <? 0 then false else all_hex s' end.

Definition IsHex (s : list Z) : bool :=
  if (Z.of_nat (length s) <=? 0) || negb (Z.of_nat (length s) mod 2 =? 0) then false else all_hex s.

(** [ParseHex(const char* psz)]: the end of the list is the terminating NUL,
    which is no hexadecimal digit; [hi] is the pending high nibble. *)
Fixpoint ParseHex_loop (psz : list Z) (hi : option Z) (vch : list Z) : list Z :=
  match psz with
  | [] => vch
  | c :: psz' =>
      match hi with
      | None =>
          if isspace c then ParseHex_loop psz' None vch
          else if HexDigit c =? -1 then vch
          else ParseHex_loop psz' (Some (u8 (Z.shiftl (HexDigit c) 4))) vch
      | Some n =>
          if HexDigit c =? -1 then vch
          else ParseHex_loop psz' None (vch ++ [Z.lor n (HexDigit c)])
      end
  end.
Definition ParseHex (psz : list Z) : list Z := ParseHex_loop psz None [].

Definition hexmap : list Z := str "0123456789abcdef".

(** [fSpaces] puts a space before every byte but the first. *)
Fixpoint HexStr_loop (fSpaces first : bool) (v : list Z) (rv : list Z) : list Z :=
  match v with
  | [] => rv
  | val :: v' =>
      let rv := if fSpaces && negb first then rv ++ [chr " "] else rv in
      let rv := rv ++ [hexmap.[Z.to_nat (Z.shiftr val 4)]] in
      let rv := rv ++ [hexmap.[Z.to_nat (Z.land val 15)]] in
      HexStr_loop fSpaces false v' rv
  end.
Definition HexStr (v : list Z) (fSpaces : bool) : list Z := HexStr_loop fSpaces true v [].

(** ** Base64 *)

Definition pbase64 : list Z := str "ABCDEFGHIJKLMNOPQRSTUVWXYZabcdefghijklmnopqrstuvwxyz0123456789+/".
Definition b64 (i : Z) : Z := pbase64.[Z.to_nat i].

Fixpoint EncodeBase64_loop (pch : list Z) (mode left : Z) (strRet : list Z) : Z * Z * list Z :=
  match pch with
  | [] => (mode, left, strRet)
  | enc :: pch' =>
      if mode =? 0 then
        EncodeBase64_loop pch' 1 (Z.shiftl (Z.land enc 3) 4) (strRet ++ [b64 (Z.shiftr enc 2)])
      else if mode =? 1 then
        EncodeBase64_loop pch' 2 (Z.shiftl (Z.land enc 15) 2)
          (strRet ++ [b64 (Z.lor left (Z.shiftr enc 4))])
      else
        EncodeBase64_loop pch' 0 left
          (strRet ++ [b64 (Z.lor left (Z.shiftr enc 6)); b64 (Z.land enc 63)])
  end.

(** The padding after the loop. *)
Definition EncodeBase64_end (st : Z * Z * list Z) : list Z :=
  let '(mode, left_, strRet) := st in
  if mode =? 0 then strRet
  else let strRet := strRet ++ [b64 left_; chr "="] in
       if mode =? 1 then strRet ++ [chr "="] else strRet.

Definition EncodeBase64 (pch : list Z) : list Z := EncodeBase64_end (EncodeBase64_loop pch 0 0 []).

Definition decode64_table : list Z :=
  [-1; -1; -1; -1; -1; -1; -1; -1; -1; -1; -1; -1; -1; -1; -1; -1; -1; -1; -1; -1; -1; -1; -1; -1; -1; -1; -1; -1; -1; -1; -1; -1;
   -1; -1; -1; -1; -1; -1; -1; -1; -1; -1; -1; 62; -1; -1; -1; 63; 52; 53; 54; 55; 56; 57; 58; 59; 60; 61; -1; -1; -1; -1; -1; -1;
   -1; 0; 1; 2; 3; 4; 5; 6; 7; 8; 9; 10; 11; 12; 13; 14; 15; 16; 17; 18; 19; 20; 21; 22; 23; 24; 25; -1; -1; -1; -1; -1;
   -1; 26; 27; 28; 29; 30; 31; 32; 33; 34; 35; 36; 37; 38; 39; 40; 41; 42; 43; 44; 45; 46; 47; 48; 49; 50; 51; -1; -1; -1; -1; -1;
   -1; -1; -1; -1; -1; -1; -1; -1; -1; -1; -1; -1; -1; -1; -1; -1; -1; -1; -1; -1; -1; -1; -1; -1; -1; -1; -1; -1; -1; -1; -1; -1;
   -1; -1; -1; -1; -1; -1; -1; -1; -1; -1; -1; -1; -1; -1; -1; -1; -1; -1; -1; -1; -1; -1; -1; -1; -1; -1; -1; -1; -1; -1; -1; -1;
   -1; -1; -1; -1; -1; -1; -1; -1; -1; -1; -1; -1; -1; -1; -1; -1; -1; -1; -1; -1; -1; -1; -1; -1; -1; -1; -1; -1; -1; -1; -1; -1;
   -1; -1; -1; -1; -1; -1; -1; -1; -1; -1; -1; -1; -1; -1; -1; -1; -1; -1; -1; -1; -1; -1; -1; -1; -1; -1; -1; -1; -1; -1; -1; -1].

(** The loop returns the characters it did not consume. *)
Fixpoint DecodeBase64_loop (p : list Z) (mode left : Z) (vchRet : list Z) : list Z * Z * Z * list Z :=
  match p with
  | [] => ([], mode, left, vchRet)
  | c :: p' =>
      let dec := decode64_table.[Z.to_nat (u8 c)] in
      if dec =? -1 then (p, mode, left, vchRet)
      else if mode =? 0 then DecodeBase64_loop p' 1 dec vchRet
      else if mode =? 1 then
        DecodeBase64_loop p' 2 (Z.land dec 15) (vchRet ++ [u8 (Z.lor (Z.shiftl left 2) (Z.shiftr dec 4))])
      else if mode =? 2 then
        DecodeBase64_loop p' 3 (Z.land dec 3) (vchRet ++ [u8 (Z.lor (Z.shiftl left 4) (Z.shiftr dec 2))])
      else DecodeBase64_loop p' 0 left (vchRet ++ [u8 (Z.lor (Z.shiftl left 6) dec)])
  end.

(** The first [n] unread characters are ['='] and the next one is not of the
    alphabet. *)
Definition padded (table : list Z) (p : list Z) (n : nat) : bool :=
  forallb (fun i => p.[i] =? chr "=") (seq 0 n) && (table.[Z.to_nat (u8 p.[n])] =? -1).

(** The check of the end of the input. *)
Definition DecodeBase64_end (st : list Z * Z * Z * list Z) : list Z * bool :=
  let '(p, mode, left_, vchRet) := st in
  (vchRet,
   if mode =? 0 then false
   else if mode =? 1 then true
   else if mode =? 2 then negb (left_ =? 0) || negb (padded decode64_table p 2)
   else negb (left_ =? 0) || negb (padded decode64_table p 1)).

(** [DecodeBase64] returns the bytes and the flag [pfInvalid]. *)
Definition DecodeBase64 (p : list Z) : list Z * bool := DecodeBase64_end (DecodeBase64_loop p 0 0 []).

(** ** Base32 *)

Definition pbase32 : list Z := str "abcdefghijklmnopqrstuvwxyz234567".
Definition b32 (i : Z) : Z := pbase32.[Z.to_nat i].

Fixpoint EncodeBase32_loop (pch : list Z) (mode left : Z) (strRet : list Z) : Z * Z * list Z :=
  match pch with
  | [] => (mode, left, strRet)
  | enc :: pch' =>
      if mode =? 0 then
        EncodeBase32_loop pch' 1 (Z.shiftl (Z.land enc 7) 2) (strRet ++ [b32 (Z.shiftr enc 3)])
      else if mode =? 1 then
        EncodeBase32_loop pch' 2 (Z.shiftl (Z.land enc 1) 4)
          (strRet ++ [b32 (Z.lor left (Z.shiftr enc 6)); b32 (Z.land (Z.shiftr enc 1) 31)])
      else if mode =? 2 then
        EncodeBase32_loop pch' 3 (Z.shiftl (Z.land enc 15) 1)
          (strRet ++ [b32 (Z.lor left (Z.shiftr enc 4))])
      else if mode =? 3 then
        EncodeBase32_loop pch' 4 (Z.shiftl (Z.land enc 3) 3)
          (strRet ++ [b32 (Z.lor left (Z.shiftr enc 7)); b32 (Z.land (Z.shiftr enc 2) 31)])
      else
        EncodeBase32_loop pch' 0 left
          (strRet ++ [b32 (Z.lor left (Z.shiftr enc 5)); b32 (Z.land enc 31)])
  end.

Definition nPadding : list Z := [0; 6; 4; 3; 1].

Definition EncodeBase32_end (st : Z * Z * list Z) : list Z :=
  let '(mode, left_, strRet) := st in
  if mode =? 0 then strRet
  else strRet ++ [b32 left_] ++ replicate (Z.to_nat nPadding.[Z.to_nat mode]) (chr "=").

Definition EncodeBase32 (pch : list Z) : list Z := EncodeBase32_end (EncodeBase32_loop pch 0 0 []).

Definition decode32_table : list Z :=
  [-1; -1; -1; -1; -1; -1; -1; -1; -1; -1; -1; -1; -1; -1; -1; -1; -1; -1; -1; -1; -1; -1; -1; -1; -1; -1; -1; -1; -1; -1; -1; -1;
   -1; -1; -1; -1; -1; -1; -1; -1; -1; -1; -1; -1; -1; -1; -1; -1; -1; -1; 26; 27; 28; 29; 30; 31; -1; -1; -1; -1; -1; -1; -1; -1;
   -1; 0; 1; 2; 3; 4; 5; 6; 7; 8; 9; 10; 11; 12; 13; 14; 15; 16; 17; 18; 19; 20; 21; 22; 23; 24; 25; -1; -1; -1; -1; -1;
   -1; 0; 1; 2; 3; 4; 5; 6; 7; 8; 9; 10; 11; 12; 13; 14; 15; 16; 17; 18; 19; 20; 21; 22; 23; 24; 25; -1; -1; -1; -1; -1;
   -1; -1; -1; -1; -1; -1; -1; -1; -1; -1; -1; -1; -1; -1; -1; -1; -1; -1; -1; -1; -1; -1; -1; -1; -1; -1; -1; -1; -1; -1; -1; -1;
   -1; -1; -1; -1; -1; -1; -1; -1; -1; -1; -1; -1; -1; -1; -1; -1; -1; -1; -1; -1; -1; -1; -1; -1; -1; -1; -1; -1; -1; -1; -1; -1;
   -1; -1; -1; -1; -1; -1; -1; -1; -1; -1; -1; -1; -1; -1; -1; -1; -1; -1; -1; -1; -1; -1; -1; -1; -1; -1; -1; -1; -1; -1; -1; -1;
   -1; -1; -1; -1; -1; -1; -1; -1; -1; -1; -1; -1; -1; -1; -1; -1; -1; -1; -1; -1; -1; -1; -1; -1; -1; -1; -1; -1; -1; -1; -1; -1].

Fixpoint DecodeBase32_loop (p : list Z) (mode left : Z) (vchRet : list Z) : list Z * Z * Z * list Z :=
  match p with
  | [] => ([], mode, left, vchRet)
  | c :: p' =>
      let dec := decode32_table.[Z.to_nat (u8 c)] in
      let push s d := vchRet ++ [u8 (Z.lor (Z.shiftl left s) (Z.shiftr dec d))] in
      if dec =? -1 then (p, mode, left, vchRet)
      else if mode =? 0 then DecodeBase32_loop p' 1 dec vchRet
      else if mode =? 1 then DecodeBase32_loop p' 2 (Z.land dec 3) (push 3 2)
      else if mode =? 2 then DecodeBase32_loop p' 3 (Z.lor (Z.shiftl left 5) dec) vchRet
      else if mode =? 3 then DecodeBase32_loop p' 4 (Z.land dec 15) (push 1 4)
      else if mode =? 4 then DecodeBase32_loop p' 5 (Z.land dec 1) (push 4 1)
      else if mode =? 5 then DecodeBase32_loop p' 6 (Z.lor (Z.shiftl left 5) dec) vchRet
      else if mode =? 6 then DecodeBase32_loop p' 7 (Z.land dec 7) (push 2 3)
      else DecodeBase32_loop p' 0 left (push 5 0)
  end.

Definition DecodeBase32_end (st : list Z * Z * Z * list Z) : list Z * bool :=
  let '(p, mode, left_, vchRet) := st in
  (vchRet,
   if mode =? 0 then false
   else if (mode =? 1) || (mode =? 3) || (mode =? 6) then true
   else if mode =? 2 then negb (left_ =? 0) || negb (padded decode32_table p 6)
   else if mode =? 4 then negb (left_ =? 0) || negb (padded decode32_table p 4)
   else if mode =? 5 then negb (left_ =? 0) || negb (padded decode32_table p 3)
   else negb (left_ =? 0) || negb (padded decode32_table p 1)).

Definition DecodeBase32 (p : list Z) : list Z * bool := DecodeBase32_end (DecodeBase32_loop p 0 0 []).

(** ** Integers

    [strtoll] and [strtoull] of the C library in base 10, on a 64-bit
    platform ([long] is [long long]): leading blanks, an optional sign, the
    digits.  They return the value, what follows the number and whether
    [errno] was set to [ERANGE]. *)

Definition digit (c : Z) : Z := c - chr "0".
Definition val_dec (ds : list Z) : Z := fold_left (fun n c => n * 10 + digit c) ds 0.

Fixpoint skip_space (s : list Z) : list Z :=
  match s with c :: s' => if isspace c then skip_space s' else s | [] => [] end.
Fixpoint span_digits (s : list Z) : list Z * list Z :=
  match s with
  | c :: s' => if isdigit c then let '(ds, r) := span_digits s' in (c :: ds, r) else ([], s)
  | [] => ([], [])
  end.
Definition read_sign (s : list Z) : bool * list Z :=
  match s with
  | c :: s' => if c =? chr "-" then (true, s') else if c =? chr "+" then (false, s') else (false, s)
  | [] => (false, [])
  end.

Definition LONG_MAX : Z := 2 ^ 63 - 1.
Definition LONG_MIN : Z := - 2 ^ 63.
Definition ULONG_MAX : Z := 2 ^ 64 - 1.

Definition strtol10 (s : list Z) : Z * list Z * bool :=
  let '(neg, t) := read_sign (skip_space s) in
  let '(ds, r) := span_digits t in
  match ds with
  | [] => (0, s, false)
  | _ => let n := if neg : bool then - val_dec ds else val_dec ds in
         if n <? LONG_MIN then (LONG_MIN, r, true)
         else if LONG_MAX <? n then (LONG_MAX, r, true)
         else (n, r, false)
  end.

Definition strtoul10 (s : list Z) : Z * list Z * bool :=
  let '(neg, t) := read_sign (skip_space s) in
  let '(ds, r) := span_digits t in
  match ds with
  | [] => (0, s, false)
  | _ => if ULONG_MAX <? val_dec ds then (ULONG_MAX, r, true)
         else (if neg : bool then u64 (- val_dec ds) else val_dec ds, r, false)
  end.

(** The C string of a [std::string]: up to the first NUL. *)
Fixpoint c_str (s : list Z) : list Z :=
  match s with c :: s' => if c =? 0 then [] else c :: c_str s' | [] => [] end.

Definition ParsePrechecks (s : list Z) : bool :=
  if bool_decide (s = []) then false
  else if isspace s.[0] || isspace s.[length s - 1] then false
  else if negb (Z.of_nat (length s) =? Z.of_nat (length (c_str s))) then false
  else true.

(** [*endp == 0] for the rest of a C string. *)
Definition at_end (r : list Z) : bool := match r with [] => true | _ => false end.

(** The result and the value stored in [*out], if one is. *)
Definition ParseInt32 (s : list Z) : bool * option Z :=
  if negb (ParsePrechecks s) then (false, None)
  else let '(n, endp, errno) := strtol10 (c_str s) in
       (at_end endp && negb errno && (- 2 ^ 31 <=? n) && (n <=? 2 ^ 31 - 1), Some (i32 n)).

Definition ParseInt64 (s : list Z) : bool * option Z :=
  if negb (ParsePrechecks s) then (false, None)
  else let '(n, endp, errno) := strtol10 (c_str s) in
       (at_end endp && negb errno && (- 2 ^ 63 <=? n) && (n <=? 2 ^ 63 - 1), Some (i64 n)).

Definition ParseUInt32 (s : list Z) : bool * option Z :=
  if negb (ParsePrechecks s) then (false, None)
  else if s.[0] =? chr "-" then (false, None)
  else let '(n, endp, errno) := strtoul10 (c_str s) in
       (at_end endp && negb errno && (n <=? 2 ^ 32 - 1), Some (u32 n)).

Definition ParseUInt64 (s : list Z) : bool * option Z :=
  if negb (ParsePrechecks s) then (false, None)
  else if s.[0] =? chr "-" then (false, None)
  else let '(n, endp, errno) := strtoul10 (c_str s) in
       (at_end endp && negb errno && (n <=? 2 ^ 64 - 1), Some (u64 n)).

Definition atoi64 (s : list Z) : Z := let '(n, _, _) := strtol10 (c_str s) in n.

(** [strprintf("%d", n)]. *)
Fixpoint dec_digits (fuel : nat) (z : Z) (acc : list Z) : list Z :=
  let acc := (chr "0" + z mod 10) :: acc in
  match fuel with
  | O => acc
  | S fuel' => if z <? 10 then acc else dec_digits fuel' (z / 10) acc
  end.
Definition print_u (z : Z) : list Z := dec_digits (Z.to_nat (Z.log2 z)) z [].
Definition i64tostr (n : Z) : list Z := if n <? 0 then chr "-" :: print_u (- n) else print_u n.

(** ** Fixed-point numbers

    [ParseFixedPoint] reads a JSON number.  The counters [mantissa_tzeros] and
    [point_ofs] are bounded by the length of the string, an [int] in the
    source. *)

Definition UPPER_BOUND : Z := 1000000000000000000 - 1.

(** [for (i = 0; i <= mantissa_tzeros; ++i)] of [ProcessMantissaDigit]. *)
Fixpoint mantissa_shift (n : nat) (mantissa : Z) : option Z :=
  match n with
  | O => Some mantissa
  | S n' => if Z.quot UPPER_BOUND 10 <? mantissa then None else mantissa_shift n' (i64 (mantissa * 10))
  end.

Definition ProcessMantissaDigit (ch : Z) (st : Z * nat) : option (Z * nat) :=
  let '(mantissa, tzeros) := st in
  if ch =? chr "0" then Some (mantissa, S tzeros)
  else m ← mantissa_shift (S tzeros) mantissa; Some (i64 (m + (ch - chr "0")), 0%nat).

(** The digit loops: they return the rest of the string and the number of
    digits read ([point_ofs] counts them after the point). *)
Fixpoint mantissa_digits (val : list Z) (st : Z * nat) (n : nat) : option (list Z * (Z * nat) * nat) :=
  match val with
  | c :: val' =>
      if isdigit c then st' ← ProcessMantissaDigit c st; mantissa_digits val' st' (S n)
      else Some (val, st, n)
  | [] => Some ([], st, n)
  end.

Fixpoint exponent_digits (val : list Z) (exponent : Z) : option (list Z * Z) :=
  match val with
  | c :: val' =>
      if isdigit c then
        if Z.quot UPPER_BOUND 10 <? exponent then None
        else exponent_digits val' (i64 (exponent * 10 + c - chr "0"))
      else Some (val, exponent)
  | [] => Some ([], exponent)
  end.

(** [ptr < end && val[ptr] == c]. *)
Definition looking_at (c : Z) (val : list Z) : bool :=
  match val with x :: _ => x =? c | [] => false end.
Definition looking_at_digit (val : list Z) : bool :=
  match val with x :: _ => isdigit x | [] => false end.

Definition parse_integer_part (val : list Z) : option (list Z * (Z * nat)) :=
  if looking_at (chr "0") val then Some (tail val, (0, 0%nat))
  else if looking_at_digit val then
    '(val, st, _) ← mantissa_digits val (0, 0%nat) 0; Some (val, st)
  else None.

Definition parse_fraction (val : list Z) (st : Z * nat) : option (list Z * (Z * nat) * nat) :=
  if looking_at (chr ".") val then
    let val := tail val in
    if looking_at_digit val then mantissa_digits val st 0 else None
  else Some (val, st, 0%nat).

Definition parse_exponent (val : list Z) : option (list Z * (Z * bool)) :=
  if looking_at (chr "e") val || looking_at (chr "E") val then
    let val := tail val in
    let '(exponent_sign, val) :=
      if looking_at (chr "+") val then (false, tail val)
      else if looking_at (chr "-") val then (true, tail val) else (false, val) in
    if looking_at_digit val then
      '(val, exponent) ← exponent_digits val 0; Some (val, (exponent, exponent_sign))
    else None
  else Some (val, (0, false)).

(** The last loop: multiply by ten [exponent] times. *)
Fixpoint scale_result (n : nat) (mantissa : Z) : option Z :=
  match n with
  | O => Some mantissa
  | S n' =>
      if (Z.quot UPPER_BOUND 10 <? mantissa) || (mantissa <? - Z.quot UPPER_BOUND 10) then None
      else scale_result n' (i64 (mantissa * 10))
  end.

Definition ParseFixedPoint (val : list Z) (decimals : Z) : option Z :=
  let '(mantissa_sign, val) := if looking_at (chr "-") val then (true, tail val) else (false, val) in
  '(val, st) ← parse_integer_part val;
  '(val, (mantissa, mantissa_tzeros), point_ofs) ← parse_fraction val st;
  '(val, (exponent, exponent_sign)) ← parse_exponent val;
  if negb (at_end val) then None
  else
    let exponent := if exponent_sign : bool then - exponent else exponent in
    let exponent := exponent - Z.of_nat point_ofs + Z.of_nat mantissa_tzeros in
    let mantissa := if mantissa_sign : bool then - mantissa else mantissa in
    let exponent := exponent + decimals in
    if exponent <? 0 then None
    else if 18 <=? exponent then None
    else m ← scale_result (Z.to_nat exponent) mantissa;
         if (UPPER_BOUND <? m) || (m <? - UPPER_BOUND) then None else Some m.

(** ** Other helpers *)

Definition CHARS_ALPHA_NUM : list Z :=
  str "abcdefghijklmnopqrstuvwxyzABCDEFGHIJKLMNOPQRSTUVWXYZ0123456789".
Definition SAFE_CHARS (rule : Z) : list Z :=
  if rule =? 0 then CHARS_ALPHA_NUM ++ str " .,;-_/:?@()" else CHARS_ALPHA_NUM ++ str " .,;-_?@".

Definition SanitizeString (s : list Z) (rule : Z) : list Z :=
  filter (fun c => c ∈ SAFE_CHARS rule) s.

(** The accumulator is a [size_t], so the or of all byte differences. *)
Definition TimingResistantEqual (a b : list Z) : bool :=
  if Z.of_nat (length b) =? 0 then Z.of_nat (length a) =? 0
  else for_range 0 (length a)
         (fun i acc => Z.lor acc (Z.lxor a.[i] b.[i mod length b]))
         (Z.lxor (Z.of_nat (length a)) (Z.of_nat (length b))) =? 0.

(** ** Lemmas *)

(** A finite check on [0, n) decided by evaluation. *)
Lemma check_below (n : nat) (f : Z -> bool) (x : Z) :
  forallb (fun i => f (Z.of_nat i)) (seq 0 n) = true -> 0 <= x < Z.of_nat n -> f x = true.
Proof.
  intros Hf Hx. rewrite forallb_forall in Hf. rewrite <- (Z2Nat.id x) by lia.
  apply Hf, in_seq. lia.
Qed.

(** Two fields packed in one number. *)
Lemma join_shr h lo s : 0 <= s -> 0 <= lo < 2 ^ s -> Z.shiftr (Z.lor (Z.shiftl h s) lo) s = h.
Proof.
  intros. rewrite Z.shiftl_mul_pow2, lor_mul_l, Z.shiftr_div_pow2 by lia.
  by rewrite Z.div_add_l, Z.div_small, Z.add_0_r by lia.
Qed.

Lemma join_land h lo s m : 0 <= s -> 0 <= lo < 2 ^ s -> m = 2 ^ s - 1 ->
  Z.land (Z.lor (Z.shiftl h s) lo) m = lo.
Proof.
  intros ?? ->. rewrite Z.shiftl_mul_pow2, lor_mul_l, land_ones_mod by lia.
  by rewrite Z.add_comm, Z.mod_add, Z.mod_small by lia.
Qed.

Lemma join_bound h lo s b : 0 <= s -> 0 <= lo < 2 ^ s -> 0 <= h < b ->
  0 <= Z.lor (Z.shiftl h s) lo < b * 2 ^ s.
Proof. intros. rewrite Z.shiftl_mul_pow2, lor_mul_l by lia. nia. Qed.

(** An equation or a bound about one byte, decided on the 256 values. *)
Ltac byte :=
  match goal with
  | |- 0 <= ?e < ?n =>
      let Hb := fresh in
      enough (((0 <=? e) && (e <? n)) = true) as Hb
        by (apply andb_true_iff in Hb as [?%Z.leb_le ?%Z.ltb_lt]; split; assumption)
  | |- _ = _ => apply Z.eqb_eq
  end;
  match goal with
  | H : inU 8 ?x |- ?e = true =>
      match eval pattern x in e with
      | ?f _ =>
          assert_fails (idtac; match goal with _ : inU 8 ?y |- _ => match f with context [y] => idtac end end);
          change (f x = true); refine (check_below 256 f x _ H); vm_compute; reflexivity
      end
  end.

(** Reading a field of a packed number; the bound of a packed number. *)
Ltac fields :=
  repeat match goal with
  | |- context [Z.shiftr (Z.lor (Z.shiftl ?h ?s) ?lo) ?s] => rewrite (join_shr h lo s) by (lia || byte)
  | |- context [Z.land (Z.lor (Z.shiftl ?h ?s) ?lo) ?m] =>
      rewrite (join_land h lo s m) by (lia || byte || reflexivity)
  end.
Ltac char_bound :=
  match goal with
  | |- 0 <= Z.lor (Z.shiftl ?h ?s) ?lo < ?n =>
      let b := eval vm_compute in (n / 2 ^ s) in
      change n with (b * 2 ^ s); apply (join_bound h lo s b); [lia|byte|byte]
  | _ => byte
  end.

Lemma HexDigit_hexmap i : 0 <= i < 16 -> HexDigit hexmap.[Z.to_nat i] = i.
Proof. intros. apply Z.eqb_eq. by apply (check_below 16 (fun i => HexDigit hexmap.[Z.to_nat i] =? i)). Qed.

Lemma isspace_hexmap i : 0 <= i < 16 -> isspace hexmap.[Z.to_nat i] = false.
Proof.
  intros. apply negb_true_iff.
  by apply (check_below 16 (fun i => negb (isspace hexmap.[Z.to_nat i]))).
Qed.

Lemma HexStr_loop_acc fs first v rv : HexStr_loop fs first v rv = rv ++ HexStr_loop fs first v [].
Proof.
  revert first rv. induction v as [|x v IH]; intros first rv; simpl; [by rewrite app_nil_r|].
  rewrite IH. symmetry. rewrite IH. rewrite !app_assoc. f_equal.
  destruct (fs && negb first); by rewrite <- !app_assoc.
Qed.

Lemma ParseHex_HexStr_loop fs first v vch :
  is_bytes v -> ParseHex_loop (HexStr_loop fs first v []) None vch = vch ++ v.
Proof.
  intros Hv. revert first vch. induction Hv as [|x v Hx Hv IH]; intros first vch; [by rewrite app_nil_r|].
  assert (forall psz, ParseHex_loop (hexmap.[Z.to_nat (Z.shiftr x 4)] :: hexmap.[Z.to_nat (Z.land x 15)] :: psz)
            None vch = ParseHex_loop psz None (vch ++ [x])) as Hstep.
  { intros psz. assert (0 <= Z.shiftr x 4 < 16 /\ 0 <= Z.land x 15 < 16) as [? ?]
      by (split; byte).
    cbn [ParseHex_loop]. rewrite isspace_hexmap, !HexDigit_hexmap by done.
    rewrite !(proj2 (Z.eqb_neq _ _)) by lia. do 3 f_equal.
    byte. }
  cbn [HexStr_loop]. rewrite HexStr_loop_acc.
  destruct (fs && negb first); rewrite <- ?app_assoc; cbn [app];
    [change (ParseHex_loop (chr " " :: ?psz) None ?a) with (ParseHex_loop psz None a)|];
    rewrite Hstep, IH, <- app_assoc; reflexivity.
Qed.

Lemma dec64_b64 i : 0 <= i < 64 -> decode64_table.[Z.to_nat (u8 (b64 i))] = i.
Proof.
  intros. apply Z.eqb_eq.
  by apply (check_below 64 (fun i => decode64_table.[Z.to_nat (u8 (b64 i))] =? i)).
Qed.

Lemma dec32_b32 i : 0 <= i < 32 -> decode32_table.[Z.to_nat (u8 (b32 i))] = i.
Proof.
  intros. apply Z.eqb_eq.
  by apply (check_below 32 (fun i => decode32_table.[Z.to_nat (u8 (b32 i))] =? i)).
Qed.

Lemma EncodeBase64_loop_acc pch mode l acc :
  EncodeBase64_loop pch mode l acc =
  let '(m, l', s) := EncodeBase64_loop pch mode l [] in (m, l', acc ++ s).
Proof.
  revert mode l acc. induction pch as [|e pch IH]; intros mode l acc; simpl; [by rewrite app_nil_r|].
  destruct (mode =? 0), (mode =? 1); rewrite IH; symmetry; rewrite IH;
    destruct (EncodeBase64_loop _ _ _ []) as [[? ?] ?]; by rewrite app_assoc.
Qed.

Lemma EncodeBase32_loop_acc pch mode l acc :
  EncodeBase32_loop pch mode l acc =
  let '(m, l', s) := EncodeBase32_loop pch mode l [] in (m, l', acc ++ s).
Proof.
  revert mode l acc. induction pch as [|e pch IH]; intros mode l acc; simpl; [by rewrite app_nil_r|].
  destruct (mode =? 0), (mode =? 1), (mode =? 2), (mode =? 3); rewrite IH; symmetry; rewrite IH;
    destruct (EncodeBase32_loop _ _ _ []) as [[? ?] ?]; by rewrite app_assoc.
Qed.

(** Whole groups: three bytes are four characters of base64, five bytes are
    eight characters of base32. *)
Lemma EncodeBase64_group a b c v l :
  EncodeBase64_end (EncodeBase64_loop (a :: b :: c :: v) 0 l []) =
  [b64 (Z.shiftr a 2); b64 (Z.lor (Z.shiftl (Z.land a 3) 4) (Z.shiftr b 4));
   b64 (Z.lor (Z.shiftl (Z.land b 15) 2) (Z.shiftr c 6)); b64 (Z.land c 63)] ++
  EncodeBase64_end (EncodeBase64_loop v 0 l []).
Proof.
  cbn [EncodeBase64_loop Z.eqb Pos.eqb]. rewrite EncodeBase64_loop_acc.
  replace (EncodeBase64_end (EncodeBase64_loop v 0 l [])) with
    (EncodeBase64_end (EncodeBase64_loop v 0 (Z.shiftl (Z.land b 15) 2) [])) by (by destruct v).
  destruct (EncodeBase64_loop _ _ _ []) as [[m l'] s]. unfold EncodeBase64_end.
  destruct (m =? 0), (m =? 1); reflexivity.
Qed.

(** One character of the alphabet read by the decoder. *)
Lemma DecodeBase64_char i p mode l acc : 0 <= i < 64 ->
  DecodeBase64_loop (b64 i :: p) mode l acc =
  if mode =? 0 then DecodeBase64_loop p 1 i acc
  else if mode =? 1 then
    DecodeBase64_loop p 2 (Z.land i 15) (acc ++ [u8 (Z.lor (Z.shiftl l 2) (Z.shiftr i 4))])
  else if mode =? 2 then
    DecodeBase64_loop p 3 (Z.land i 3) (acc ++ [u8 (Z.lor (Z.shiftl l 4) (Z.shiftr i 2))])
  else DecodeBase64_loop p 0 l (acc ++ [u8 (Z.lor (Z.shiftl l 6) i)]).
Proof.
  intros. cbn [DecodeBase64_loop]. rewrite dec64_b64 by done.
  by rewrite (proj2 (Z.eqb_neq i (-1))) by lia.
Qed.

Lemma DecodeBase64_stop p mode l acc :
  DecodeBase64_loop (chr "=" :: p) mode l acc = (chr "=" :: p, mode, l, acc).
Proof. reflexivity. Qed.

Lemma DecodeBase32_char i p mode l acc : 0 <= i < 32 ->
  DecodeBase32_loop (b32 i :: p) mode l acc =
  let push s d := acc ++ [u8 (Z.lor (Z.shiftl l s) (Z.shiftr i d))] in
  if mode =? 0 then DecodeBase32_loop p 1 i acc
  else if mode =? 1 then DecodeBase32_loop p 2 (Z.land i 3) (push 3 2)
  else if mode =? 2 then DecodeBase32_loop p 3 (Z.lor (Z.shiftl l 5) i) acc
  else if mode =? 3 then DecodeBase32_loop p 4 (Z.land i 15) (push 1 4)
  else if mode =? 4 then DecodeBase32_loop p 5 (Z.land i 1) (push 4 1)
  else if mode =? 5 then DecodeBase32_loop p 6 (Z.lor (Z.shiftl l 5) i) acc
  else if mode =? 6 then DecodeBase32_loop p 7 (Z.land i 7) (push 2 3)
  else DecodeBase32_loop p 0 l (push 5 0).
Proof.
  intros. cbn [DecodeBase32_loop]. rewrite dec32_b32 by done.
  by rewrite (proj2 (Z.eqb_neq i (-1))) by lia.
Qed.

Lemma DecodeBase64_Encode v l l' acc : is_bytes v ->
  DecodeBase64_end (DecodeBase64_loop (EncodeBase64_end (EncodeBase64_loop v 0 l' [])) 0 l acc)
  = (acc ++ v, false).
Proof.
  remember (length v) as n eqn:En. revert v En l l' acc.
  induction (lt_wf n) as [n _ IH]; intros v En l l' acc Hv.
  destruct v as [|a [|b [|c v]]]; repeat (apply Forall_cons_iff in Hv as [? Hv]).
  - simpl. by rewrite app_nil_r.
  - cbn [EncodeBase64_loop EncodeBase64_end Z.eqb Pos.eqb app].
    repeat (rewrite DecodeBase64_char by char_bound; cbn [Z.eqb Pos.eqb]).
    rewrite DecodeBase64_stop. apply f_equal2; [|apply orb_false_iff; split; [|done]];
      [do 2 f_equal|rewrite negb_false_iff, Z.eqb_eq]; fields; byte.
  - cbn [EncodeBase64_loop EncodeBase64_end Z.eqb Pos.eqb app].
    repeat (rewrite DecodeBase64_char by char_bound; cbn [Z.eqb Pos.eqb]).
    rewrite DecodeBase64_stop, <- app_assoc. apply f_equal2; [|apply orb_false_iff; split; [|done]];
      [cbn [app]; repeat f_equal|rewrite negb_false_iff, Z.eqb_eq]; fields; byte.
  - rewrite EncodeBase64_group. cbn [app].
    repeat (rewrite DecodeBase64_char by char_bound; cbn [Z.eqb Pos.eqb]).
    rewrite (IH (length v)); [|simpl in *; lia|done|done]. rewrite <- !app_assoc. cbn [app].
    repeat f_equal; fields; byte.
Qed.

Lemma EncodeBase32_group a b c d e v l :
  EncodeBase32_end (EncodeBase32_loop (a :: b :: c :: d :: e :: v) 0 l []) =
  [b32 (Z.shiftr a 3); b32 (Z.lor (Z.shiftl (Z.land a 7) 2) (Z.shiftr b 6));
   b32 (Z.land (Z.shiftr b 1) 31); b32 (Z.lor (Z.shiftl (Z.land b 1) 4) (Z.shiftr c 4));
   b32 (Z.lor (Z.shiftl (Z.land c 15) 1) (Z.shiftr d 7)); b32 (Z.land (Z.shiftr d 2) 31);
   b32 (Z.lor (Z.shiftl (Z.land d 3) 3) (Z.shiftr e 5)); b32 (Z.land e 31)] ++
  EncodeBase32_end (EncodeBase32_loop v 0 l []).
Proof.
  cbn [EncodeBase32_loop Z.eqb Pos.eqb]. rewrite EncodeBase32_loop_acc.
  replace (EncodeBase32_end (EncodeBase32_loop v 0 l [])) with
    (EncodeBase32_end (EncodeBase32_loop v 0 (Z.shiftl (Z.land d 3) 3) [])) by (by destruct v).
  destruct (EncodeBase32_loop _ _ _ []) as [[m l'] s]. unfold EncodeBase32_end.
  destruct (m =? 0); reflexivity.
Qed.

Lemma DecodeBase32_stop p mode l acc :
  DecodeBase32_loop (chr "=" :: p) mode l acc = (chr "=" :: p, mode, l, acc).
Proof. reflexivity. Qed.

(** Runs the decoder over the characters of the alphabet at the front of its
    input and leaves the arithmetic of the bytes. *)
Ltac decode32 :=
  cbn [EncodeBase32_loop EncodeBase32_end Z.eqb Pos.eqb app];
  try match goal with |- context [replicate ?n _] =>
    let v := eval vm_compute in n in change n with v; cbn [replicate] end;
  repeat (rewrite DecodeBase32_char by char_bound; cbn [Z.eqb Pos.eqb]).
Ltac decode32_end :=
  decode32; rewrite DecodeBase32_stop, <- ?app_assoc;
  apply f_equal2; [|apply orb_false_iff; split; [|done]];
  [cbn [app]; repeat f_equal|rewrite negb_false_iff, Z.eqb_eq]; fields; byte.

Lemma DecodeBase32_Encode v l l' acc : is_bytes v ->
  DecodeBase32_end (DecodeBase32_loop (EncodeBase32_end (EncodeBase32_loop v 0 l' [])) 0 l acc)
  = (acc ++ v, false).
Proof.
  remember (length v) as n eqn:En. revert v En l l' acc.
  induction (lt_wf n) as [n _ IH]; intros v En l l' acc Hv.
  destruct v as [|a [|b [|c [|d [|e v]]]]]; repeat (apply Forall_cons_iff in Hv as [? Hv]).
  - simpl. by rewrite app_nil_r.
  - decode32_end.
  - decode32_end.
  - decode32_end.
  - decode32_end.
  - rewrite EncodeBase32_group. decode32.
    rewrite (IH (length v)); [|simpl in *; lia|done|done]. rewrite <- !app_assoc. cbn [app].
    repeat f_equal; fields; byte.
Qed.

(** *** Decimal numbers *)

Lemma isdigit_bound c : isdigit c = true <-> 0 <= digit c <= 9.
Proof. unfold isdigit, digit. change (chr "0") with 48. change (chr "9") with 57. zbool; simpl; lia. Qed.

Lemma isdigit_isspace c : isdigit c = true -> isspace c = false.
Proof.
  unfold isdigit, isspace. change (chr "0") with 48. change (chr "9") with 57. zbool; simpl; lia.
Qed.

Definition all_digits (ds : list Z) : Prop := Forall (fun c => isdigit c = true) ds.

Lemma val_dec_fold ds n : fold_left (fun n c => n * 10 + digit c) ds n
  = n * 10 ^ Z.of_nat (length ds) + val_dec ds.
Proof.
  revert n. unfold val_dec. induction ds as [|c ds IH]; intros n; cbn [fold_left length].
  - rewrite Z.pow_0_r. lia.
  - rewrite IH, (IH (0 * 10 + _)). rewrite Nat2Z.inj_succ, Z.pow_succ_r by lia. lia.
Qed.

Lemma val_dec_app a b : val_dec (a ++ b) = val_dec a * 10 ^ Z.of_nat (length b) + val_dec b.
Proof. unfold val_dec at 1. rewrite fold_left_app. apply val_dec_fold. Qed.

Lemma val_dec_cons c ds : val_dec (c :: ds) = digit c * 10 ^ Z.of_nat (length ds) + val_dec ds.
Proof. apply (val_dec_app [c] ds). Qed.

Lemma val_dec_bound ds : all_digits ds -> 0 <= val_dec ds < 10 ^ Z.of_nat (length ds).
Proof.
  induction 1 as [|c ds Hc Hds IH]; [cbn; lia|].
  rewrite val_dec_cons. cbn [length]. rewrite Nat2Z.inj_succ, Z.pow_succ_r by lia.
  apply isdigit_bound in Hc. nia.
Qed.

Lemma val_dec_digit d : val_dec [chr "0" + d] = d.
Proof. unfold val_dec, digit. cbn [fold_left]. lia. Qed.

Lemma all_digits_1 d : 0 <= d <= 9 -> all_digits [chr "0" + d].
Proof. intros. constructor; [|done]. apply isdigit_bound. unfold digit. lia. Qed.

Lemma dec_digits_spec fuel z acc : 0 <= z < 10 ^ Z.of_nat (S fuel) ->
  exists ds, dec_digits fuel z acc = ds ++ acc /\ all_digits ds /\ val_dec ds = z /\ ds <> [].
Proof.
  revert z acc. induction fuel as [|fuel IH]; intros z acc Hz; cbn [dec_digits].
  - change (10 ^ Z.of_nat 1) with 10 in Hz. rewrite Z.mod_small by lia.
    exists [chr "0" + z]. repeat split; [apply all_digits_1; lia|apply val_dec_digit|done].
  - destruct (Z.ltb_spec z 10).
    { rewrite Z.mod_small by lia. exists [chr "0" + z].
      repeat split; [apply all_digits_1; lia|apply val_dec_digit|done]. }
    pose proof (Z.mod_pos_bound z 10 ltac:(lia)). pose proof (Z.div_mod z 10 ltac:(lia)).
    destruct (IH (z / 10) ((chr "0" + z mod 10) :: acc)) as (ds & E & Hds & Hv & Hn).
    { rewrite Nat2Z.inj_succ, Z.pow_succ_r in Hz by lia.
      split; [apply Z.div_pos; lia|apply Z.div_lt_upper_bound; lia]. }
    exists (ds ++ [chr "0" + z mod 10]). rewrite E, <- app_assoc. repeat split; [| |by destruct ds].
    + apply Forall_app. split; [done|apply all_digits_1; lia].
    + rewrite val_dec_app, Hv, val_dec_digit. cbn [length]. change (10 ^ Z.of_nat 1) with 10. lia.
Qed.

Lemma print_u_spec z : 0 <= z -> all_digits (print_u z) /\ val_dec (print_u z) = z /\ print_u z <> [].
Proof.
  intros Hz. destruct (dec_digits_spec (Z.to_nat (Z.log2 z)) z []) as (ds & E & ? & ? & ?).
  - split; [done|]. rewrite Nat2Z.inj_succ, Z2Nat.id by apply Z.log2_nonneg.
    destruct (decide (z = 0)) as [->|]; [done|].
    pose proof (Z.log2_spec z ltac:(lia)). pose proof (Z.log2_nonneg z).
    assert (2 ^ Z.succ (Z.log2 z) <= 10 ^ Z.succ (Z.log2 z)) by (apply Z.pow_le_mono_l; lia). lia.
  - unfold print_u. rewrite app_nil_r in E. by rewrite E.
Qed.

Lemma span_digits_app ds r : all_digits ds -> looking_at_digit r = false -> span_digits (ds ++ r) = (ds, r).
Proof.
  intros Hds Hr. induction Hds as [|c ds Hc Hds IH]; simpl.
  - destruct r as [|x r]; [done|]. simpl in *. by rewrite Hr.
  - by rewrite Hc, IH.
Qed.

Lemma span_digits_spec s : let '(ds, r) := span_digits s in
  s = ds ++ r /\ all_digits ds /\ looking_at_digit r = false.
Proof.
  induction s as [|c s IH]; simpl; [repeat constructor|]. destruct (isdigit c) eqn:E; [|repeat constructor; done].
  destruct (span_digits s) as [ds r]. destruct IH as (-> & ? & ?). repeat constructor; auto.
Qed.

(** A decimal literal, as the strict parsers accept it. *)
Inductive dec_literal : list Z -> Z -> Prop :=
| lit_plain ds : ds <> [] -> all_digits ds -> dec_literal ds (val_dec ds)
| lit_plus ds : ds <> [] -> all_digits ds -> dec_literal (chr "+" :: ds) (val_dec ds)
| lit_minus ds : ds <> [] -> all_digits ds -> dec_literal (chr "-" :: ds) (- val_dec ds).

Lemma c_str_length s : (length (c_str s) <= length s)%nat /\ (length (c_str s) = length s -> c_str s = s).
Proof.
  induction s as [|c s [IH1 IH2]]; simpl; [auto|].
  destruct (c =? 0); simpl; [split; [lia|discriminate]|]. split; [lia|]. intros. f_equal. apply IH2. lia.
Qed.

Lemma c_str_id s : Forall (fun c => c <> 0) s -> c_str s = s.
Proof. induction 1 as [|c s Hc Hs IH]; simpl; [done|]. rewrite IH. by destruct (Z.eqb_spec c 0). Qed.

Lemma ParsePrechecks_true s : ParsePrechecks s = true ->
  s <> [] /\ c_str s = s /\ skip_space s = s.
Proof.
  unfold ParsePrechecks. case_bool_decide; [discriminate|].
  destruct (isspace s.[0]) eqn:E0; [discriminate|].
  destruct (isspace s.[length s - 1]) eqn:E1; simpl; [discriminate|].
  destruct (Z.eqb_spec (Z.of_nat (length s)) (Z.of_nat (length (c_str s)))); simpl; [|discriminate].
  intros _. split; [done|]. split; [apply c_str_length; lia|].
  destruct s as [|c s]; [done|]. simpl. unfold get in E0. simpl in E0. by rewrite E0.
Qed.

Lemma digit_nonzero c : isdigit c = true -> c <> 0.
Proof. intros Hc ->. discriminate. Qed.

Lemma dec_literal_prechecks s n : dec_literal s n -> ParsePrechecks s = true.
Proof.
  intros Hl. assert (exists c ds, s = c ++ ds /\ (c = [] \/ c = [chr "+"] \/ c = [chr "-"])
    /\ ds <> [] /\ all_digits ds) as (c & ds & -> & Hc & Hne & Hds).
  { inversion Hl; subst; [exists []|exists [chr "+"]|exists [chr "-"]]; eexists; eauto 10. }
  unfold ParsePrechecks. rewrite bool_decide_false by (by destruct c, ds).
  assert (isspace (c ++ ds).[0] = false) as ->.
  { destruct Hc as [->|[->| ->]]; try reflexivity. destruct Hds; [done|]. by apply isdigit_isspace. }
  assert (isspace (c ++ ds).[length (c ++ ds) - 1] = false) as ->.
  { assert (0 < length ds)%nat by (destruct ds; [done|simpl; lia]).
    unfold get. rewrite length_app, lookup_app_r by lia. rewrite lookup_get by lia. simpl.
    apply isdigit_isspace. refine (Forall_lookup_1 _ ds _ _ Hds _). apply lookup_get. lia. }
  rewrite c_str_id, Z.eqb_refl; [done|]. apply Forall_app. split.
  - destruct Hc as [->|[->| ->]]; repeat constructor; discriminate.
  - eapply Forall_impl; [|exact Hds]. apply digit_nonzero.
Qed.

Lemma read_sign_digits ds : ds <> [] -> all_digits ds -> read_sign ds = (false, ds).
Proof.
  intros Hne Hds. destruct Hds as [|c ds Hc Hds]; [done|]. simpl.
  apply isdigit_bound in Hc. unfold digit in Hc. change (chr "0") with 48 in Hc.
  change (chr "-") with 45. change (chr "+") with 43. zbool; try lia. done.
Qed.

Lemma literal_read s n : skip_space s = s -> s <> [] ->
  dec_literal s n <-> exists neg ds, read_sign (skip_space s) = (neg, ds) /\ span_digits ds = (ds, []) /\
    ds <> [] /\ n = if neg : bool then - val_dec ds else val_dec ds.
Proof.
  intros Hs Hne. rewrite Hs. split.
  - assert (forall ds, all_digits ds -> span_digits ds = (ds, [])) as Hsp.
    { intros ds Hds. rewrite <- (app_nil_r ds) at 1. by apply span_digits_app. }
    inversion 1; subst.
    + exists false, s. by rewrite read_sign_digits; auto.
    + exists false, ds. auto.
    + exists true, ds. auto.
  - intros (neg & ds & Hr & Hsp & Hnd & ->). pose proof (span_digits_spec ds) as Hd. rewrite Hsp in Hd.
    destruct Hd as (_ & Hd & _). destruct s as [|c s]; [done|]. simpl in Hr.
    destruct (Z.eqb_spec c (chr "-")); [simplify_eq; by constructor|].
    destruct (Z.eqb_spec c (chr "+")); simplify_eq; by constructor.
Qed.

Lemma strtol10_literal s n : skip_space s = s -> s <> [] ->
  strtol10 s = (n, [], false) <-> dec_literal s n /\ LONG_MIN <= n <= LONG_MAX.
Proof.
  intros Hs Hne. rewrite literal_read by done. unfold strtol10.
  destruct (read_sign (skip_space s)) as [neg t]. pose proof (span_digits_spec t) as Ht.
  destruct (span_digits t) as [ds r] eqn:E. destruct Ht as (-> & Hds & Hr). split.
  - destruct ds as [|c ds]; [intros; simplify_eq|]. zbool; try done. intros; simplify_eq.
    rewrite app_nil_r in *. split; [|lia]. exists neg, (c :: ds). auto.
  - intros [(neg' & ds' & ? & E' & Hnd & ->) Hrange]. simplify_eq.
    assert (r = []) as -> by congruence. rewrite ?app_nil_r in *. destruct ds; [done|].
    zbool; (lia || done).
Qed.

Lemma strtoul10_literal s n : skip_space s = s -> s <> [] -> s.[0] <> chr "-" ->
  strtoul10 s = (n, [], false) <-> dec_literal s n /\ n <= ULONG_MAX.
Proof.
  intros Hs Hne Hm. rewrite literal_read by done. unfold strtoul10. rewrite Hs.
  assert (exists t, read_sign s = (false, t)) as [t ->].
  { destruct s as [|c s]; [done|]. simpl. unfold get in Hm. simpl in Hm.
    destruct (Z.eqb_spec c (chr "-")); [done|]. destruct (c =? chr "+"); eauto. }
  pose proof (span_digits_spec t) as Ht.
  destruct (span_digits t) as [ds r] eqn:E. destruct Ht as (-> & Hds & Hr). split.
  - destruct ds as [|c ds]; [intros; simplify_eq|]. destruct (Z.ltb_spec ULONG_MAX (val_dec (c :: ds))); [done|].
    intros; simplify_eq. rewrite app_nil_r in *. split; [|lia]. exists false, (c :: ds). auto.
  - intros [(neg' & ds' & ? & E' & Hnd & ->) Hrange]. simplify_eq.
    assert (r = []) as -> by congruence. rewrite ?app_nil_r in *. destruct ds; [done|].
    zbool; (lia || done).
Qed.

(** What the strict parsers accept, at a width [w]. *)
Lemma ParseInt_spec (w : Z) s n : 1 < w <= 64 ->
  (if negb (ParsePrechecks s) then (false, None)
   else let '(n, endp, errno) := strtol10 (c_str s) in
        (at_end endp && negb errno && (- 2 ^ (w - 1) <=? n) && (n <=? 2 ^ (w - 1) - 1), Some (wrapS w n)))
  = (true, Some n) <-> dec_literal s n /\ inS w n.
Proof.
  intros Hw. assert (2 ^ (w - 1) <= 2 ^ 63) by (apply Z.pow_le_mono_r; lia). split.
  - destruct (ParsePrechecks s) eqn:Hp; [|done]. apply ParsePrechecks_true in Hp as (Hne & Hc & Hs).
    rewrite Hc. cbn [negb]. destruct (strtol10 s) as [[m endp] errno] eqn:E. intros [= Hok <-].
    destruct endp; [|done]. destruct errno; [done|]. cbn [at_end negb andb] in Hok.
    apply andb_true_iff in Hok as [?%Z.leb_le ?%Z.leb_le].
    apply strtol10_literal in E as [Hl _]; [|done|done].
    rewrite wrapS_small by (unfold inS; lia). unfold inS. auto with lia.
  - intros [Hl Hr]. pose proof (dec_literal_prechecks s n Hl) as Hp. rewrite Hp.
    apply ParsePrechecks_true in Hp as (Hne & Hc & Hs). rewrite Hc. pose proof Hr as Hr'. unfold inS in Hr'.
    rewrite (proj2 (strtol10_literal s n Hs Hne)) by (unfold LONG_MIN, LONG_MAX; auto with lia).
    rewrite wrapS_small by (done || lia). cbn [negb at_end andb]. zbool; (done || lia).
Qed.

Lemma dec_literal_nonneg s n : dec_literal s n -> s.[0] <> chr "-" -> 0 <= n.
Proof.
  intros Hl Hm. inversion Hl; subst; [pose proof (val_dec_bound s)|pose proof (val_dec_bound ds)|done];
    intuition lia.
Qed.

Lemma ParseUInt_spec (w : Z) s n : 1 < w <= 64 ->
  (if negb (ParsePrechecks s) then (false, None)
   else if s.[0] =? chr "-" then (false, None)
   else let '(n, endp, errno) := strtoul10 (c_str s) in
        (at_end endp && negb errno && (n <=? 2 ^ w - 1), Some (wrapU w n)))
  = (true, Some n) <-> dec_literal s n /\ s.[0] <> chr "-" /\ inU w n.
Proof.
  intros Hw. assert (2 ^ w <= 2 ^ 64) by (apply Z.pow_le_mono_r; lia). split.
  - destruct (ParsePrechecks s) eqn:Hp; [|done]. apply ParsePrechecks_true in Hp as (Hne & Hc & Hs).
    rewrite Hc. cbn [negb]. destruct (Z.eqb_spec s.[0] (chr "-")) as [|Hm]; [done|].
    destruct (strtoul10 s) as [[m endp] errno] eqn:E. intros [= Hok <-].
    destruct endp; [|done]. destruct errno; [done|]. cbn [at_end negb andb] in Hok. apply Z.leb_le in Hok.
    apply strtoul10_literal in E as [Hl _]; [|done..].
    pose proof (dec_literal_nonneg s m Hl Hm). rewrite wrapU_small by (unfold inU; lia).
    unfold inU. auto with lia.
  - intros (Hl & Hm & Hr). pose proof (dec_literal_prechecks s n Hl) as Hp. rewrite Hp.
    apply ParsePrechecks_true in Hp as (Hne & Hc & Hs). rewrite Hc. pose proof Hr as Hr'. unfold inU in Hr'.
    rewrite (proj2 (Z.eqb_neq s.[0] (chr "-")) Hm).
    rewrite (proj2 (strtoul10_literal s n Hs Hne Hm)) by (unfold ULONG_MAX; auto with lia).
    rewrite wrapU_small by done. cbn [negb at_end andb]. zbool; (done || lia).
Qed.

(** *** Constant-time comparison *)

Lemma TimingResistantEqual_spec a b : is_bytes a -> is_bytes b ->
  TimingResistantEqual a b = true <-> a = b.
Proof.
  intros Ha Hb. unfold TimingResistantEqual. destruct (Z.eqb_spec (Z.of_nat (length b)) 0) as [E|Hb0].
  { destruct b; [|simpl in E; lia]. rewrite Z.eqb_eq. destruct a; simpl; split; (lia || done). }
  rewrite Z.eqb_eq.
  assert (forall n acc, 0 <= acc -> for_range 0 n (fun i acc => Z.lor acc (Z.lxor a.[i] b.[i mod length b])) acc = 0
     <-> acc = 0 /\ forall i, (i < n)%nat -> a.[i] = b.[i mod length b]) as Hloop.
  { induction n as [|n IH]; intros acc Hacc.
    - rewrite for_range_ge by lia. split; [|tauto]. intros. split; [done|]. lia.
    - rewrite for_range_S_r, Z.lor_eq_0_iff, Z.lxor_eq_0_iff, IH by lia. split.
      + intros [[? Hi] Hn]. split; [done|]. intros i Hi'. destruct (decide (i = n)) as [->|]; [done|]. apply Hi. lia.
      + intros [? Hi]. split; [split; [done|intros; apply Hi; lia]|apply Hi; lia]. }
  rewrite Hloop by (apply Z.lxor_nonneg; lia). rewrite Z.lxor_eq_0_iff. split.
  - intros [Hl Hi]. apply list_eq_same_length with (n := length a); [lia|done|]. intros i x y Hlt Hx Hy.
    specialize (Hi i Hlt). rewrite Nat.mod_small in Hi by lia.
    rewrite (get_lookup a i x Hx), (get_lookup b i y Hy) in Hi. done.
  - intros ->. split; [done|]. intros. by rewrite Nat.mod_small by lia.
Qed.

(** *** Fixed-point numbers *)

Lemma i64_small z : - 2 ^ 63 <= z < 2 ^ 63 -> i64 z = z.
Proof. intros. apply wrapS_small; [lia|done]. Qed.

Lemma pow10_pos n : 0 < 10 ^ Z.of_nat n.
Proof. apply Z.pow_pos_nonneg; lia. Qed.

Lemma pow10_S n : 10 ^ Z.of_nat (S n) = 10 * 10 ^ Z.of_nat n.
Proof. by rewrite Nat2Z.inj_succ, Z.pow_succ_r by lia. Qed.

(** The mantissa without its trailing zeros, and their number. *)
Definition strip_step (st : Z * nat) (c : Z) : Z * nat :=
  if c =? chr "0" then (st.1, S st.2) else (st.1 * 10 ^ Z.of_nat (S st.2) + digit c, 0%nat).
Definition strip_digits (st : Z * nat) (ds : list Z) : Z * nat := fold_left strip_step ds st.

Lemma mantissa_shift_spec n m : 0 <= m < 10 ^ 18 ->
  mantissa_shift (S n) m = if m * 10 ^ Z.of_nat n <=? 10 ^ 17 - 1 then Some (m * 10 ^ Z.of_nat (S n)) else None.
Proof.
  revert m. induction n as [|n IH]; intros m Hm.
  - cbn [mantissa_shift]. change (Z.quot UPPER_BOUND 10) with (10 ^ 17 - 1).
    change (10 ^ Z.of_nat 0) with 1. change (10 ^ Z.of_nat 1) with 10. rewrite Z.mul_1_r.
    zbool; try lia; [done|]. by rewrite i64_small by lia.
  - remember (S n) as k. cbn [mantissa_shift]. subst k. change (Z.quot UPPER_BOUND 10) with (10 ^ 17 - 1).
    pose proof (pow10_pos n). rewrite !pow10_S in *.
    destruct (Z.ltb_spec (10 ^ 17 - 1) m).
    + zbool; [nia|done].
    + rewrite i64_small, IH by lia. rewrite ?pow10_S.
      replace (m * 10 * 10 ^ Z.of_nat n) with (m * (10 * 10 ^ Z.of_nat n)) by lia.
      destruct (Z.leb_spec (m * (10 * 10 ^ Z.of_nat n)) (10 ^ 17 - 1)); [|done]. f_equal. lia.
Qed.

Lemma ProcessMantissaDigit_spec c st : isdigit c = true -> 0 <= st.1 < 10 ^ 18 ->
  ProcessMantissaDigit c st = if (strip_step st c).1 <? 10 ^ 18 then Some (strip_step st c) else None.
Proof.
  intros Hc Hm. destruct st as [m tz]. simpl in Hm. unfold ProcessMantissaDigit, strip_step.
  cbn [fst snd]. destruct (Z.eqb_spec c (chr "0")) as [|Hne]; cbn [fst]; [zbool; (done || lia)|].
  apply isdigit_bound in Hc. assert (1 <= digit c <= 9) as Hd by (unfold digit in *; lia).
  rewrite mantissa_shift_spec by lia. rewrite !pow10_S. pose proof (pow10_pos tz).
  zbool; try done; try nia. simpl. fold (digit c). rewrite i64_small by nia. done.
Qed.

Lemma strip_step_mono st c : isdigit c = true -> 0 <= st.1 -> st.1 <= (strip_step st c).1.
Proof.
  intros Hc Hm. apply isdigit_bound in Hc. unfold strip_step. destruct (c =? chr "0"); simpl; [lia|].
  rewrite pow10_S. pose proof (pow10_pos st.2). nia.
Qed.

Lemma strip_digits_mono ds st : all_digits ds -> 0 <= st.1 -> st.1 <= (strip_digits st ds).1.
Proof.
  intros Hds. revert st. induction Hds as [|c ds Hc Hds IH]; intros st Hm; [simpl; lia|].
  pose proof (strip_step_mono st c Hc Hm). specialize (IH (strip_step st c)). simpl in *. lia.
Qed.

Lemma mantissa_digits_spec ds r st n : all_digits ds -> looking_at_digit r = false -> 0 <= st.1 < 10 ^ 18 ->
  mantissa_digits (ds ++ r) st n =
  if (strip_digits st ds).1 <? 10 ^ 18 then Some (r, strip_digits st ds, (n + length ds)%nat) else None.
Proof.
  intros Hds Hr. revert st n. induction Hds as [|c ds Hc Hds IH]; intros st n Hm.
  - cbn [app length strip_digits fold_left]. rewrite Nat.add_0_r. zbool; [|lia].
    destruct r as [|x r]; [done|]. simpl in *. by rewrite Hr.
  - cbn [app mantissa_digits]. rewrite Hc, ProcessMantissaDigit_spec by done.
    pose proof (strip_step_mono st c Hc ltac:(lia)).
    pose proof (strip_digits_mono ds (strip_step st c) Hds ltac:(lia)).
    change (strip_digits st (c :: ds)) with (strip_digits (strip_step st c) ds).
    destruct (Z.ltb_spec (strip_step st c).1 (10 ^ 18)); simpl mbind.
    + rewrite IH by lia. cbn [length]. by rewrite Nat.add_succ_comm.
    + zbool; [lia|done].
Qed.

Lemma exponent_digits_spec ds r e : all_digits ds -> looking_at_digit r = false -> ds <> [] ->
  0 <= e -> exponent_digits (ds ++ r) e =
  let v := e * 10 ^ Z.of_nat (length ds) + val_dec ds in if v <? 10 ^ 18 then Some (r, v) else None.
Proof.
  intros Hds Hr Hne. revert e. induction Hds as [|c ds Hc Hds IH]; intros e He; [done|].
  cbn [app exponent_digits]. rewrite Hc. change (Z.quot UPPER_BOUND 10) with (10 ^ 17 - 1).
  pose proof (val_dec_bound ds Hds) as Hv. rewrite val_dec_cons. cbn [length]. rewrite pow10_S.
  pose proof (pow10_pos (length ds)). pose proof Hc as Hd. apply isdigit_bound in Hd. cbv zeta.
  destruct (Z.ltb_spec (10 ^ 17 - 1) e); [zbool; [nia|done]|].
  replace (e * 10 + c - chr "0") with (e * 10 + digit c) by (unfold digit; lia).
  rewrite i64_small by lia. destruct ds as [|c' ds].
  - cbn [app length]. rewrite Z.pow_0_r. change (val_dec []) with 0. zbool; try lia.
    replace (e * (10 * 1) + (digit c * 1 + 0)) with (e * 10 + digit c) by lia.
    destruct r as [|x r]; [done|]. simpl in *. by rewrite Hr.
  - rewrite IH by (done || lia). cbv zeta.
    replace (e * (10 * 10 ^ Z.of_nat (length (c' :: ds))) + (digit c * 10 ^ Z.of_nat (length (c' :: ds)) + val_dec (c' :: ds)))
      with ((e * 10 + digit c) * 10 ^ Z.of_nat (length (c' :: ds)) + val_dec (c' :: ds)) by lia. done.
Qed.

Lemma scale_result_spec n m : - 10 ^ 18 < m < 10 ^ 18 ->
  (m ← scale_result n m; if (UPPER_BOUND <? m) || (m <? - UPPER_BOUND) then None else Some m) =
  let v := m * 10 ^ Z.of_nat n in if Z.abs v <? 10 ^ 18 then Some v else None.
Proof.
  revert m. induction n as [|n IH]; intros m Hm.
  - cbn [scale_result mbind option_bind]. rewrite Z.pow_0_r, Z.mul_1_r. unfold UPPER_BOUND. cbv zeta.
    zbool; simpl; (done || lia).
  - cbn [scale_result]. change (Z.quot UPPER_BOUND 10) with (10 ^ 17 - 1).
    rewrite pow10_S. pose proof (pow10_pos n). cbv zeta in *.
    destruct (Z.ltb_spec (10 ^ 17 - 1) m); [simpl; zbool; (nia || done)|].
    destruct (Z.ltb_spec m (- (10 ^ 17 - 1))); [simpl; zbool; (nia || done)|].
    cbn [orb]. rewrite i64_small, IH by lia. by replace (m * 10 * 10 ^ Z.of_nat n) with (m * (10 * 10 ^ Z.of_nat n)) by lia.
Qed.

(** The grammar of JSON numbers: the sign, the digits before and after the
    point, and the value of the exponent. *)
Definition json_int (ip : list Z) : Prop :=
  all_digits ip /\ (ip = [chr "0"] \/ exists c ds, ip = c :: ds /\ c <> chr "0").
Inductive json_frac : list Z -> list Z -> Prop :=
| frac_none : json_frac [] []
| frac_some fp : fp <> [] -> all_digits fp -> json_frac (chr "." :: fp) fp.
Inductive json_exp : list Z -> Z -> Prop :=
| exp_none : json_exp [] 0
| exp_some e s n : e = chr "e" \/ e = chr "E" -> dec_literal s n -> json_exp (e :: s) n.

Definition json_number (val : list Z) (neg : bool) (ip fp : list Z) (ex : Z) : Prop :=
  exists f x, val = (if neg then [chr "-"] else []) ++ ip ++ f ++ x /\
    json_int ip /\ json_frac f fp /\ json_exp x ex.

(** What the loop over the integer part computes: a single 0 is skipped. *)
Definition strip_int (ip : list Z) : Z * nat :=
  if looking_at (chr "0") ip then (0, 0%nat) else strip_digits (0, 0%nat) ip.

Definition stripped (st : Z * nat) : Prop := 0 <= st.1 /\ (st.1 = 0 \/ st.1 mod 10 <> 0).

Lemma strip_digits_spec ds st : all_digits ds -> stripped st ->
  let st' := strip_digits st ds in
  stripped st' /\ st'.1 * 10 ^ Z.of_nat st'.2 = st.1 * 10 ^ Z.of_nat st.2 * 10 ^ Z.of_nat (length ds) + val_dec ds
  /\ (st'.2 <= st.2 + length ds)%nat.
Proof.
  intros Hds. revert st. induction Hds as [|c ds Hc Hds IH]; intros st Hst.
  - cbn. split; [done|]. unfold val_dec. simpl. lia.
  - cbn [strip_digits fold_left length]. rewrite val_dec_cons, pow10_S.
    pose proof Hc as Hd. apply isdigit_bound in Hd. pose proof (pow10_pos st.2).
    assert (stripped (strip_step st c) /\ (strip_step st c).1 * 10 ^ Z.of_nat (strip_step st c).2
      = st.1 * 10 ^ Z.of_nat st.2 * 10 + digit c /\ ((strip_step st c).2 <= S st.2)%nat) as (Hst' & Hv & Hl).
    { unfold strip_step, stripped in *. destruct (Z.eqb_spec c (chr "0")) as [->|Hne]; cbn [fst snd].
      - rewrite pow10_S. change (digit (chr "0")) with 0. repeat split; (tauto || lia).
      - assert (digit c <> 0) by (unfold digit; lia). rewrite pow10_S. change (10 ^ Z.of_nat 0) with 1.
        repeat split; [nia| |lia|lia]. right.
        replace (st.1 * (10 * 10 ^ Z.of_nat st.2) + digit c) with (digit c + st.1 * 10 ^ Z.of_nat st.2 * 10) by lia.
        rewrite Z.mod_add, Z.mod_small by lia. lia. }
    destruct (IH _ Hst') as (IH1 & IH2 & IH3). split; [done|]. split; [|unfold strip_digits in *; lia].
    unfold strip_digits in *. rewrite IH2, Hv. lia.
Qed.

Lemma strip_int_spec ip : json_int ip ->
  stripped (strip_int ip) /\ (strip_int ip).1 * 10 ^ Z.of_nat (strip_int ip).2 = val_dec ip
  /\ ((strip_int ip).2 <= length ip)%nat.
Proof.
  intros [Hd Hip]. unfold strip_int.
  destruct Hip as [->|(c & ds & -> & Hc)]; [by repeat split; auto; simpl; lia|].
  simpl looking_at. rewrite (proj2 (Z.eqb_neq c (chr "0"))) by done.
  destruct (strip_digits_spec (c :: ds) (0, 0%nat) Hd) as (? & E & ?); [by split; [simpl; lia|left]|].
  split; [done|]. split; [|done]. rewrite E. simpl. lia.
Qed.

Lemma parse_integer_part_spec ip r : json_int ip -> looking_at_digit r = false ->
  parse_integer_part (ip ++ r) =
  if (strip_int ip).1 <? 10 ^ 18 then Some (r, strip_int ip) else None.
Proof.
  intros [Hd Hip] Hr. unfold parse_integer_part, strip_int.
  destruct Hip as [->|(c & ds & -> & Hc)]; [done|]. cbn [looking_at app].
  rewrite (proj2 (Z.eqb_neq c (chr "0"))) by done. cbn [looking_at_digit].
  rewrite (Forall_inv Hd). change (c :: ds ++ r) with ((c :: ds) ++ r).
  rewrite mantissa_digits_spec by (done || (simpl; lia)). by destruct (_ <? _).
Qed.

Lemma parse_integer_part_inv val r st : parse_integer_part val = Some (r, st) ->
  exists ip, val = ip ++ r /\ json_int ip /\ st = strip_int ip /\ st.1 < 10 ^ 18 /\
    (looking_at_digit r = false \/ ip = [chr "0"]).
Proof.
  unfold parse_integer_part. destruct (looking_at (chr "0") val) eqn:E0.
  - intros [= <- <-]. destruct val as [|c val]; [done|]. simpl in E0. apply Z.eqb_eq in E0 as ->.
    exists [chr "0"]. repeat split; auto. by repeat constructor.
  - destruct (looking_at_digit val) eqn:Ed; [|done]. pose proof (span_digits_spec val) as Hs.
    destruct (span_digits val) as [ds r']. destruct Hs as (-> & Hds & Hr).
    rewrite mantissa_digits_spec by (done || (simpl; lia)).
    destruct (Z.ltb_spec (strip_digits (0, 0%nat) ds).1 (10 ^ 18)); [|done]. intros [= <- <-].
    destruct ds as [|c ds]; [simpl in Ed; congruence|]. exists (c :: ds).
    assert (strip_int (c :: ds) = strip_digits (0, 0%nat) (c :: ds)) as -> by (unfold strip_int; simpl in E0 |- *; by rewrite E0).
    repeat split; auto. right. exists c, ds. split; [done|]. simpl in E0. by apply Z.eqb_neq.
Qed.

Lemma parse_fraction_spec f fp r st : json_frac f fp -> looking_at_digit r = false ->
  looking_at (chr ".") r = false -> 0 <= st.1 < 10 ^ 18 ->
  parse_fraction (f ++ r) st =
  if (strip_digits st fp).1 <? 10 ^ 18 then Some (r, strip_digits st fp, length fp) else None.
Proof.
  intros Hf Hr Hp Hm. unfold parse_fraction. destruct Hf as [|fp Hne Hfp].
  - cbn [app]. rewrite Hp. simpl. zbool; (done || lia).
  - cbn [app looking_at]. rewrite Z.eqb_refl. cbn [tail].
    assert (looking_at_digit (fp ++ r) = true) as -> by (destruct Hfp; [done|simpl; done]).
    rewrite mantissa_digits_spec by done. done.
Qed.

Lemma parse_fraction_inv val r st st' n : 0 <= st.1 < 10 ^ 18 ->
  parse_fraction val st = Some (r, st', n) ->
  exists f fp, val = f ++ r /\ json_frac f fp /\ st' = strip_digits st fp /\ st'.1 < 10 ^ 18 /\ n = length fp.
Proof.
  intros Hm. unfold parse_fraction. destruct (looking_at (chr ".") val) eqn:Ep.
  - destruct val as [|c val]; [done|]. simpl in Ep. apply Z.eqb_eq in Ep as ->. cbn [tail].
    destruct (looking_at_digit val) eqn:Ed; [|done]. pose proof (span_digits_spec val) as Hs.
    destruct (span_digits val) as [ds r']. destruct Hs as (-> & Hds & Hr).
    rewrite mantissa_digits_spec by done. zbool; [|done]. intros [= <- <- <-].
    exists (chr "." :: ds), ds. repeat split; auto. constructor; [|done]. intros ->. simpl in Ed. congruence.
  - intros [= <- <- <-]. exists [], []. repeat split; [constructor|lia].
Qed.

(** The optional sign of the exponent. *)
Definition exponent_sign (s : list Z) : bool * list Z :=
  if looking_at (chr "+") s then (false, tail s)
  else if looking_at (chr "-") s then (true, tail s) else (false, s).

Lemma exponent_sign_spec s n : dec_literal s n <-> exists sg ds,
  exponent_sign s = (sg, ds) /\ ds <> [] /\ all_digits ds /\ n = if sg : bool then - val_dec ds else val_dec ds.
Proof.
  unfold exponent_sign. split.
  - intros [ds Hne Hds|ds Hne Hds|ds Hne Hds]; [exists false, ds|exists false, ds|exists true, ds]; auto.
    pose proof (read_sign_digits ds Hne Hds) as Hr.
    assert (looking_at (chr "+") ds = false /\ looking_at (chr "-") ds = false) as [-> ->]; [|done].
    destruct ds as [|c ds]; [done|]. cbn [looking_at read_sign] in *.
    destruct (Z.eqb_spec c (chr "-")); [done|]. destruct (Z.eqb_spec c (chr "+")); [|done].
    apply (f_equal (length ∘ snd)) in Hr. simpl in Hr. lia.
  - intros (sg & ds & E & Hne & Hds & ->). destruct s as [|c s]; [simpl in E; congruence|].
    cbn [looking_at tail] in E. destruct (Z.eqb_spec c (chr "+")) as [->|]; [simplify_eq; by constructor|].
    destruct (Z.eqb_spec c (chr "-")) as [->|]; simplify_eq; by constructor.
Qed.

Lemma parse_exponent_spec x ex : json_exp x ex -> Z.abs ex < 10 ^ 18 ->
  exists sg e, parse_exponent x = Some ([], (e, sg)) /\ ex = if sg : bool then - e else e.
Proof.
  intros Hx Hb. destruct Hx as [|e s n He Hl]; [by exists false, 0|].
  unfold parse_exponent. cbn [looking_at tail]. 
  assert ((e =? chr "e") || (e =? chr "E") = true) as -> by (by destruct He as [->| ->]).
  apply exponent_sign_spec in Hl as (sg & ds & E & Hne & Hds & ->). unfold exponent_sign in E. rewrite E.
  assert (looking_at_digit ds = true) as -> by (by destruct Hds).
  pose proof (val_dec_bound ds Hds).
  replace (exponent_digits ds 0) with (exponent_digits (ds ++ []) 0) by (by rewrite app_nil_r).
  rewrite exponent_digits_spec by (done || lia). cbv zeta.
  rewrite Z.mul_0_l, Z.add_0_l. assert (val_dec ds < 10 ^ 18) by (destruct sg; lia).
  zbool; [|lia]. simpl. eauto.
Qed.

Lemma parse_exponent_inv x e sg : parse_exponent x = Some ([], (e, sg)) ->
  json_exp x (if sg then - e else e).
Proof.
  unfold parse_exponent. destruct (looking_at (chr "e") x || looking_at (chr "E") x) eqn:Ee;
    [|intros [= -> <- <-]; constructor].
  destruct x as [|c s]; [done|]. cbn [looking_at tail] in *.
  change (if looking_at (chr "+") s then _ else _) with (exponent_sign s).
  destruct (exponent_sign s) as [sg' t] eqn:Es. destruct (looking_at_digit t) eqn:Ed; [|done].
  pose proof (span_digits_spec t) as Hs. destruct (span_digits t) as [ds r]. destruct Hs as (-> & Hds & Hr).
  assert (ds <> []) as Hne by (intros ->; simpl in Ed; congruence).
  rewrite exponent_digits_spec by (done || lia). cbv zeta. rewrite Z.mul_0_l, Z.add_0_l.
  destruct (Z.ltb_spec (val_dec ds) (10 ^ 18)); simpl; [|done]. intros [= -> <- <-]. constructor.
  - apply orb_true_iff in Ee as [?%Z.eqb_eq|?%Z.eqb_eq]; auto.
  - apply exponent_sign_spec. exists sg', ds. rewrite app_nil_r in Es. auto.
Qed.

(** The rational equation between a number and its fixed-point value:
    [a / 10^d = (+-) digits / 10^(length fp) * 10^ex]. *)
Definition fixed_value (a d : Z) (neg : bool) (ip fp : list Z) (ex : Z) : Prop :=
  a * 10 ^ (Z.of_nat (length fp) + Z.max 0 (- ex)) =
  (if neg then -1 else 1) * val_dec (ip ++ fp) * 10 ^ (d + Z.max 0 ex).

Lemma ParseFixedPoint_inv val d a : 0 <= d -> ParseFixedPoint val d = Some a ->
  exists neg ip fp ex, json_number val neg ip fp ex /\ fixed_value a d neg ip fp ex /\ Z.abs a < 10 ^ 18.
Proof.
  intros Hd. unfold ParseFixedPoint.
  destruct (if looking_at (chr "-") val then _ else _) as [neg v1] eqn:Es.
  destruct (parse_integer_part v1) as [[v2 st]|] eqn:E1; [|done]. cbn [mbind option_bind].
  apply parse_integer_part_inv in E1 as (ip & -> & Hip & Hst & Hlt & _).
  destruct (strip_int_spec ip Hip) as (Hs1 & Hv1 & _). rewrite <- Hst in *. pose proof Hs1 as [Hnn _].
  destruct (parse_fraction v2 st) as [[[v3 st'] n]|] eqn:E2; [|done]. cbn [mbind option_bind].
  apply parse_fraction_inv in E2 as (f & fp & -> & Hf & Hst' & Hlt' & ->); [|lia].
  assert (all_digits fp) as Hfp by (destruct Hf; [constructor|done]).
  destruct (strip_digits_spec fp st Hfp Hs1) as ([Hnn' _] & Hv2 & _). rewrite <- Hst' in *.
  destruct st' as [m tz]. cbn [fst snd] in *.
  destruct (parse_exponent v3) as [[v4 [e sg]]|] eqn:E3; [|done]. cbn [mbind option_bind].
  destruct v4; [|done]. apply parse_exponent_inv in E3. cbn [negb at_end].
  set (ex := if sg then - e else e) in *. set (E := ex - _ + _ + d).
  destruct (Z.ltb_spec E 0); [done|]. destruct (Z.leb_spec 18 E); [done|].
  rewrite scale_result_spec by (destruct neg; lia). cbv zeta. rewrite Z2Nat.id by lia.
  destruct (Z.ltb_spec (Z.abs ((if neg then - m else m) * 10 ^ E)) (10 ^ 18)); [|done]. intros [= <-].
  exists neg, ip, fp, ex. split; [|split; [|done]].
  - exists f, v3. split; [|done]. destruct (looking_at (chr "-") val) eqn:El; simplify_eq; [|done].
    destruct val as [|c val]; [done|]. simpl in *. apply Z.eqb_eq in El. congruence.
  - unfold fixed_value. rewrite val_dec_app, <- Hv1, <- Hv2, <- !Z.mul_assoc, <- !Z.pow_add_r by lia.
    replace (E + (Z.of_nat (length fp) + Z.max 0 (- ex))) with (Z.of_nat tz + (d + Z.max 0 ex)) by lia.
    destruct neg; lia.
Qed.

Lemma json_exp_head x ex : json_exp x ex -> looking_at_digit x = false /\ looking_at (chr ".") x = false.
Proof. by intros [|e s n [-> | ->] _]. Qed.

Lemma json_frac_head f fp x ex : json_frac f fp -> json_exp x ex -> looking_at_digit (f ++ x) = false.
Proof. intros [|] Hx; [by apply json_exp_head in Hx as []|done]. Qed.

Lemma json_int_head ip r : json_int ip -> looking_at (chr "-") (ip ++ r) = false.
Proof.
  intros [Hd Hip]. assert (exists c ds, ip = c :: ds) as (c & ds & ->)
    by (destruct Hip as [->|(? & ? & -> & _)]; eauto).
  pose proof (Forall_inv Hd) as Hc. simpl. apply Z.eqb_neq. by intros ->.
Qed.

(** The exponent left after stripping the zeros is not negative when the
    value is a whole number of units. *)
Lemma whole_units a m sgn A B : 0 <= A -> 0 <= B -> m mod 10 <> 0 -> sgn = 1 \/ sgn = -1 ->
  a * 10 ^ A = sgn * (m * 10 ^ B) -> A <= B /\ a = sgn * m * 10 ^ (B - A).
Proof.
  intros HA HB Hm Hsg E. destruct (Z.le_gt_cases A B) as [Hle|Hgt].
  - split; [done|]. replace B with (B - A + A) in E by lia. rewrite Z.pow_add_r in E by lia.
    pose proof (Z.pow_pos_nonneg 10 A ltac:(lia) HA).
    apply (Z.mul_cancel_r _ _ (10 ^ A)); lia.
  - exfalso. apply Hm. replace A with (A - B - 1 + 1 + B) in E by lia.
    rewrite !(Z.pow_add_r 10) in E by lia. pose proof (Z.pow_pos_nonneg 10 B ltac:(lia) HB).
    assert (m = sgn * a * 10 ^ (A - B - 1) * 10) as ->; [|apply Z.mod_mul; lia].
    apply (Z.mul_cancel_r _ _ (10 ^ B)); [lia|]. destruct Hsg as [-> | ->]; lia.
Qed.

Lemma ParseFixedPoint_complete val d neg ip fp ex a :
  0 <= d < 2 ^ 31 -> Z.of_nat (length val) < 2 ^ 31 -> json_number val neg ip fp ex ->
  fixed_value a d neg ip fp ex -> 0 < Z.abs a < 10 ^ 18 -> ParseFixedPoint val d = Some a.
Proof.
  intros Hd Hlen (f & x & -> & Hip & Hf & Hx) Hfix Ha.
  assert (all_digits fp) as Hfp by (destruct Hf; [constructor|done]).
  destruct (strip_int_spec ip Hip) as (Hs1 & Hv1 & Hl1). pose proof Hs1 as [Hnn _].
  destruct (strip_digits_spec fp (strip_int ip) Hfp Hs1) as ([Hnn' Hmod] & Hv2 & Hl2).
  pose proof (strip_digits_mono fp (strip_int ip) Hfp Hnn) as Hmono.
  destruct (strip_digits (strip_int ip) fp) as [m tz] eqn:Est. cbn [fst snd] in *.
  assert (length fp <= length f)%nat by (destruct Hf; simpl; lia). rewrite !length_app in Hlen.
  set (E := ex - Z.of_nat (length fp) + Z.of_nat tz + d).
  assert (0 <= E < 18 /\ m < 10 ^ 18 /\ a = (if neg then - m else m) * 10 ^ E) as (HE & Hm & HaE).
  { unfold fixed_value in Hfix. rewrite val_dec_app, <- Hv1, <- Hv2 in Hfix.
    assert (m <> 0) as Hm0 by (intros ->; destruct (Z.pow_pos_nonneg 10 (Z.of_nat (length fp) + Z.max 0 (- ex))); nia).
    destruct (whole_units a m (if neg then -1 else 1) (Z.of_nat (length fp) + Z.max 0 (- ex))
      (Z.of_nat tz + (d + Z.max 0 ex))) as [Hle HaE]; [lia|lia|lia|by destruct neg; auto| |].
    { rewrite Hfix, (Z.pow_add_r 10 (Z.of_nat tz)) by lia. lia. }
    replace (Z.of_nat tz + (d + Z.max 0 ex) - (Z.of_nat (length fp) + Z.max 0 (- ex))) with E in HaE by lia.
    assert (0 <= E) as HE by lia. pose proof (Z.pow_pos_nonneg 10 E ltac:(lia) HE).
    assert (Z.abs a = m * 10 ^ E) as Habs by (destruct neg; nia).
    split; [split; [done|]|split; [nia|destruct neg; lia]].
    apply Z.nle_gt. intros H18. pose proof (Z.pow_le_mono_r 10 18 E ltac:(lia) H18). nia. }
  destruct (parse_exponent_spec x ex Hx) as (sg & e & Epe & ->); [lia|].
  pose proof (json_exp_head _ _ Hx) as [? ?]. pose proof (json_frac_head _ _ _ _ Hf Hx).
  unfold ParseFixedPoint.
  replace (if looking_at (chr "-") _ then _ else _) with (neg, ip ++ f ++ x)
    by (destruct neg; [done|]; cbn [app]; by rewrite json_int_head).
  rewrite parse_integer_part_spec by done. zbool; [|lia]. cbn [mbind option_bind].
  rewrite (parse_fraction_spec f fp x) by (done || lia). rewrite Est. cbn [fst]. zbool; [|lia].
  cbn [mbind option_bind]. rewrite Epe. cbn [mbind option_bind negb at_end]. fold E.
  destruct (Z.ltb_spec E 0); [lia|]. destruct (Z.leb_spec 18 E); [lia|].
  rewrite scale_result_spec by (destruct neg; lia). cbv zeta. rewrite Z2Nat.id, <- HaE by lia.
  zbool; (done || lia).
Qed.

(** ** Properties *)

(** Hexadecimal (with or without spaces), base64 and base32 decoding give
    back the bytes that were encoded, and the decoders accept the padding the
    encoders write. *)
Theorem encodings_roundtrip (v : list Z) (Hv : is_bytes v) :
  (forall fSpaces, ParseHex (HexStr v fSpaces) = v) /\
  DecodeBase64 (EncodeBase64 v) = (v, false) /\
  DecodeBase32 (EncodeBase32 v) = (v, false).
Proof.
  split; [intros; by apply (ParseHex_HexStr_loop fSpaces true v [])|].
  split; [by apply (DecodeBase64_Encode v 0 0 [])|by apply (DecodeBase32_Encode v 0 0 [])].
Qed.

Lemma encodings_roundtrip_witness :
  EncodeBase64 (str "foob") = str "Zm9vYg==" /\
  ((forall fSpaces, ParseHex (HexStr (str "foob") fSpaces) = str "foob") /\
   DecodeBase64 (EncodeBase64 (str "foob")) = (str "foob", false) /\
   DecodeBase32 (EncodeBase32 (str "foob")) = (str "foob", false)).
Proof.
  split; [reflexivity|]. apply encodings_roundtrip. repeat constructor; vm_compute; intuition discriminate.
Defined.

(** The strict integer parsers accept exactly the decimal literals (an
    optional sign and at least one digit, nothing around them) whose value
    fits the type, and return that value; the unsigned ones refuse a minus
    sign. *)
Theorem ParseInts_exact (s : list Z) (n : Z) :
  (ParseInt32 s = (true, Some n) <-> dec_literal s n /\ inS 32 n) /\
  (ParseInt64 s = (true, Some n) <-> dec_literal s n /\ inS 64 n) /\
  (ParseUInt32 s = (true, Some n) <-> dec_literal s n /\ s.[0] <> chr "-" /\ inU 32 n) /\
  (ParseUInt64 s = (true, Some n) <-> dec_literal s n /\ s.[0] <> chr "-" /\ inU 64 n).
Proof.
  split; [apply (ParseInt_spec 32); lia|]. split; [apply (ParseInt_spec 64); lia|].
  split; [apply (ParseUInt_spec 32); lia|apply (ParseUInt_spec 64); lia].
Qed.

(** Printing a 64-bit integer and parsing it again is the identity. *)
Lemma i64tostr_roundtrip (n : Z) (Hn : inS 64 n) : ParseInt64 (i64tostr n) = (true, Some n).
Proof.
  apply (ParseInt_spec 64); [lia|]. split; [|done]. unfold i64tostr. destruct (Z.ltb_spec n 0).
  - destruct (print_u_spec (- n)) as (Hd & Hv & Hne); [lia|].
    replace n with (- val_dec (print_u (- n))) at 2 by lia. by constructor.
  - destruct (print_u_spec n) as (Hd & Hv & Hne); [lia|]. rewrite <- Hv at 2. by constructor.
Qed.

(** [ParseFixedPoint] is exact.  A result comes from a JSON number and is
    its value in units of [10^-decimals], below [10^18] in magnitude, without
    rounding; and every JSON number whose value is a nonzero whole number of
    units below [10^18] is accepted with that value. *)
Theorem ParseFixedPoint_exact (val : list Z) (decimals : Z)
  (Hd : 0 <= decimals < 2 ^ 31) (Hlen : Z.of_nat (length val) < 2 ^ 31) :
  (forall a, ParseFixedPoint val decimals = Some a ->
     exists neg ip fp ex, json_number val neg ip fp ex /\ fixed_value a decimals neg ip fp ex /\
       Z.abs a < 10 ^ 18) /\
  (forall neg ip fp ex a, json_number val neg ip fp ex -> fixed_value a decimals neg ip fp ex ->
     0 < Z.abs a < 10 ^ 18 -> ParseFixedPoint val decimals = Some a).
Proof.
  split; [intros a; apply ParseFixedPoint_inv; lia|].
  intros neg ip fp ex a. by apply ParseFixedPoint_complete.
Qed.

Lemma ParseFixedPoint_exact_witness :
  ParseFixedPoint (str "-1.50e1") 8 = Some (-1500000000) /\
  (forall a, ParseFixedPoint (str "-1.50e1") 8 = Some a ->
     exists neg ip fp ex, json_number (str "-1.50e1") neg ip fp ex /\ fixed_value a 8 neg ip fp ex /\
       Z.abs a < 10 ^ 18).
Proof.
  split; [vm_compute; reflexivity|].
  exact (proj1 (ParseFixedPoint_exact (str "-1.50e1") 8 ltac:(lia) ltac:(vm_compute; reflexivity))).
Defined.

