(* ===== verification/Amount.v ===== *)
(** * Amounts and fee rates: [amount.{h,cpp}], [utilmoneystr.cpp]

    Amounts are 64-bit signed counts of koinu ([CAmount]).  The file models
    the money range, the fee rate class, and the decimal text form of
    amounts.  The theorems show what the text form accepts, that it round
    trips, and how much a fee rate charges. *)

From S2P Require Import Prelude StrEncodings.

Definition COIN : Z := 100000000.
Definition CENT : Z := 1000000.
Definition MAX_MONEY : Z := 10000000000 * COIN.
Definition MoneyRange (nValue : Z) : bool := (0 <=? nValue) && (nValue <=? MAX_MONEY).

(** ** Fee rates *)

Record CFeeRate := mkFeeRate { nSatoshisPerK : Z }.

(** [CFeeRate(nFeePaid, nBytes)]; [size_t] has 64 bits. *)
Definition CFeeRate_of (nFeePaid nBytes_ : Z) : outcome CFeeRate :=
  assert_ (nBytes_ <=? 2 ^ 63 - 1);;
  let nSize := nBytes_ in
  Ret (mkFeeRate (if 0 <? nSize then Z.quot (i64 (nFeePaid * 1000)) nSize else 0)).

Definition GetFee (r : CFeeRate) (nBytes_ : Z) : outcome Z :=
  assert_ (nBytes_ <=? 2 ^ 63 - 1);;
  let nSize := nBytes_ in
  let nFee := Z.quot (i64 (nSatoshisPerK r * nSize)) 1000 in
  Ret (if (nFee =? 0) && negb (nSize =? 0)
       then (let nFee := if 0 <? nSatoshisPerK r then 1 else nFee in
             if nSatoshisPerK r <? 0 then -1 else nFee)
       else nFee).

Definition GetFeePerK (r : CFeeRate) : outcome Z := GetFee r 1000.

(** [operator+=]. *)
Definition CFeeRate_add (r a : CFeeRate) : CFeeRate :=
  mkFeeRate (i64 (nSatoshisPerK r + nSatoshisPerK a)).

(** [strprintf("%08d", n)]: the sign, then zeros up to the width. *)
Definition print_08d (n : Z) : list Z :=
  if n <? 0
  then chr "-" :: replicate (7 - length (print_u (- n))) (chr "0") ++ print_u (- n)
  else replicate (8 - length (print_u n)) (chr "0") ++ print_u n.

Definition CURRENCY_UNIT : list Z := str "DOGE".

Definition CFeeRate_ToString (r : CFeeRate) : list Z :=
  i64tostr (Z.quot (nSatoshisPerK r) COIN) ++ str "." ++ print_08d (Z.rem (nSatoshisPerK r) COIN)
  ++ str " " ++ CURRENCY_UNIT ++ str "/kB".

(** ** Text form of amounts *)

(** The trimming loop of [FormatMoney], on the string read backwards: it
    drops a final ['0'] as long as the character two places before it is a
    digit. *)
Fixpoint trim_zeros (rev_str : list Z) : list Z :=
  match rev_str with
  | c :: ((_ :: e :: _) as rest) => if (c =? chr "0") && isdigit e then trim_zeros rest else rev_str
  | _ => rev_str
  end.

Definition FormatMoney (n : Z) : list Z :=
  let n_abs := if 0 <? n then n else i64 (- n) in
  let quotient := Z.quot n_abs COIN in
  let remainder := Z.rem n_abs COIN in
  let str := i64tostr quotient ++ str "." ++ print_08d remainder in
  let str := reverse (trim_zeros (reverse str)) in
  if n <? 0 then chr "-" :: str else str.

(** The fraction: [while (isdigit( *p ) && (nMult > 0))]. *)
Fixpoint parse_units (p : list Z) (nMult nUnits : Z) : list Z * Z :=
  match p with
  | c :: p' => if isdigit c && (0 <? nMult)
               then parse_units p' (Z.quot nMult 10) (nUnits + nMult * (c - chr "0"))
               else (p, nUnits)
  | [] => ([], nUnits)
  end.

(** The first loop over the text: what is left of it, the digits of the
    whole part and the units; [None] is the early return. *)
Fixpoint parse_whole (p : list Z) (strWhole : list Z) : option (list Z * list Z * Z) :=
  match p with
  | [] => Some ([], strWhole, 0)
  | c :: p' =>
      if c =? chr "." then let '(r, nUnits) := parse_units p' (CENT * 10) 0 in Some (r, strWhole, nUnits)
      else if isspace c then Some (p, strWhole, 0)
      else if negb (isdigit c) then None
      else parse_whole p' (strWhole ++ [c])
  end.

(** [ParseMoney(str.c_str(), nRet)]: [Some nRet] where it returns [true]. *)
Definition ParseMoney (s : list Z) : option Z :=
  '(p, strWhole, nUnits) ← parse_whole (skip_space (c_str s)) [];
  if negb (forallb isspace p) then None
  else if 10 <? Z.of_nat (length strWhole) then None
  else if (nUnits <? 0) || (COIN <? nUnits) then None
  else let nWhole := atoi64 strWhole in
       Some (i64 (nWhole * COIN + nUnits)).

(** ** The text form: grammar and value *)

Definition all_space (s : list Z) : Prop := Forall (fun c => isspace c = true) s.

(** Blanks, up to ten digits, optionally a point and up to eight digits,
    blanks; its value in koinu. *)
Inductive money_literal : list Z -> Z -> Prop :=
| money_whole sp1 W sp2 : all_space sp1 -> all_digits W -> (length W <= 10)%nat -> all_space sp2 ->
    money_literal (sp1 ++ W ++ sp2) (val_dec W * COIN)
| money_point sp1 W F sp2 : all_space sp1 -> all_digits W -> (length W <= 10)%nat ->
    all_digits F -> (length F <= 8)%nat -> all_space sp2 ->
    money_literal (sp1 ++ W ++ chr "." :: F ++ sp2)
      (val_dec W * COIN + val_dec F * 10 ^ Z.of_nat (8 - length F)).

Lemma pow10_quot m : Z.quot (10 ^ Z.of_nat (S m) / 10) 10 = 10 ^ Z.of_nat m / 10.
Proof.
  pose proof (pow10_pos m). rewrite pow10_S, Z.mul_comm, Z.div_mul by lia.
  apply Z.quot_div_nonneg; lia.
Qed.

Lemma pow10_step m : (0 <? 10 ^ Z.of_nat (S m) / 10) = true.
Proof.
  pose proof (pow10_pos m). rewrite pow10_S, Z.mul_comm, Z.div_mul by lia. by apply Z.ltb_lt.
Qed.

Lemma pow10_split m (F : list Z) : (length F <= m)%nat ->
  10 ^ Z.of_nat (S m) / 10 = 10 ^ Z.of_nat (length F) * 10 ^ Z.of_nat (m - length F).
Proof.
  intros. rewrite pow10_S, Z.mul_comm, Z.div_mul, <- Z.pow_add_r by lia. f_equal. lia.
Qed.

Lemma parse_units_spec F r m u : all_digits F -> looking_at_digit r = false -> (length F <= m)%nat ->
  parse_units (F ++ r) (10 ^ Z.of_nat m / 10) u = (r, u + val_dec F * 10 ^ Z.of_nat (m - length F)).
Proof.
  intros HF Hr. revert m u. induction HF as [|c F Hc HF IH]; intros m u Hm.
  - rewrite Z.add_0_r. destruct r as [|c r]; [done|]. cbn in Hr |- *. by rewrite Hr.
  - destruct m as [|m]; [cbn in Hm; lia|]. cbn [length] in Hm |- *. cbn [app parse_units].
    rewrite Hc, pow10_step, pow10_quot, IH by lia. cbn [andb]. f_equal.
    rewrite (pow10_split m F), val_dec_cons by lia. unfold digit. cbn [Nat.sub]. ring.
Qed.

Lemma parse_units_inv p m u r U : parse_units p (10 ^ Z.of_nat m / 10) u = (r, U) ->
  exists F, p = F ++ r /\ all_digits F /\ (length F <= m)%nat /\
    U = u + val_dec F * 10 ^ Z.of_nat (m - length F).
Proof.
  revert m u. induction p as [|c p IH]; intros m u; cbn [parse_units].
  { intros [= <- <-]. exists []. repeat split; [constructor|cbn; lia|cbn; lia]. }
  destruct (isdigit c) eqn:Hc; cbn [andb]; [|intros [= <- <-]; exists []; repeat split; [constructor|cbn; lia|cbn; lia]].
  destruct m as [|m]; [intros [= <- <-]; exists []; repeat split; [constructor|cbn; lia|cbn; lia]|].
  rewrite pow10_step, pow10_quot. intros (F & -> & HF & Hl & ->)%IH.
  exists (c :: F). cbn [length]. repeat split; [by constructor|lia|].
  rewrite (pow10_split m F), val_dec_cons by lia. unfold digit. cbn [Nat.sub]. ring.
Qed.

Lemma isdigit_not_dot c : isdigit c = true -> (c =? chr ".") = false.
Proof. unfold isdigit. change (chr "0") with 48. change (chr "9") with 57. change (chr ".") with 46. zbool; simpl; lia. Qed.

Lemma isspace_not_digit c : isspace c = true -> isdigit c = false /\ (c =? chr ".") = false.
Proof.
  unfold isspace, isdigit. change (chr "0") with 48. change (chr "9") with 57. change (chr ".") with 46.
  zbool; simpl; (lia || done).
Qed.

Lemma all_space_head sp : all_space sp -> looking_at_digit sp = false.
Proof. destruct 1; [done|]. simpl. by apply isspace_not_digit. Qed.

Lemma parse_whole_digits W r w : all_digits W -> parse_whole (W ++ r) w = parse_whole r (w ++ W).
Proof.
  intros HW. revert w. induction HW as [|c W Hc HW IH]; intros w; [by rewrite app_nil_r|].
  cbn [app parse_whole]. rewrite isdigit_not_dot, isdigit_isspace, Hc by done. cbn [negb].
  by rewrite IH, <- app_assoc.
Qed.

Lemma parse_whole_inv p w r W U : parse_whole p w = Some (r, W, U) ->
  exists ds, W = w ++ ds /\ all_digits ds /\
  ((p = ds ++ r /\ U = 0) \/
   (exists F, p = ds ++ chr "." :: F ++ r /\ all_digits F /\ (length F <= 8)%nat /\
      U = val_dec F * 10 ^ Z.of_nat (8 - length F))).
Proof.
  revert w. induction p as [|c p IH]; intros w; cbn [parse_whole].
  { intros [= <- <- <-]. exists []. rewrite app_nil_r. split; [done|]. split; [constructor|]. by left. }
  destruct (Z.eqb_spec c (chr ".")) as [->|].
  { destruct (parse_units p (CENT * 10) 0) as [r' U'] eqn:E. intros [= -> -> ->].
    change (CENT * 10) with (10 ^ Z.of_nat 8 / 10) in E.
    apply parse_units_inv in E as (F & -> & HF & Hl & ->).
    exists []. rewrite app_nil_r. split; [done|]. split; [constructor|]. right. exists F. auto with lia. }
  destruct (isspace c).
  { intros [= <- <- <-]. exists []. rewrite app_nil_r. split; [done|]. split; [constructor|]. by left. }
  destruct (isdigit c) eqn:Hc; [|done]. cbn [negb]. intros (ds & -> & Hds & H)%IH.
  exists (c :: ds). rewrite <- app_assoc. split; [done|]. split; [by constructor|].
  destruct H as [[-> ->]|(F & -> & H)]; [by left|]. right. by exists F.
Qed.

Lemma skip_space_app sp t : all_space sp -> skip_space (sp ++ t) = skip_space t.
Proof. induction 1 as [|c sp Hc _ IH]; [done|]. simpl. by rewrite Hc. Qed.

Lemma skip_space_inv s : exists sp, s = sp ++ skip_space s /\ all_space sp.
Proof.
  induction s as [|c s (sp & E & Hsp)]; [by exists []; split; [|constructor]|]. simpl.
  destruct (isspace c) eqn:Hc; [|by exists []; split; [|constructor]].
  exists (c :: sp). split; [simpl; by f_equal|by constructor].
Qed.

Lemma all_space_forallb s : forallb isspace s = true <-> all_space s.
Proof.
  unfold all_space. induction s as [|c s IH]; cbn [forallb]; [split; [constructor|done]|].
  rewrite andb_true_iff, Forall_cons_iff. tauto.
Qed.

Lemma atoi64_digits ds : all_digits ds -> (length ds <= 18)%nat -> atoi64 ds = val_dec ds.
Proof.
  intros Hds Hl. unfold atoi64, strtol10. rewrite c_str_id by (eapply Forall_impl; [|exact Hds]; apply digit_nonzero).
  destruct (decide (ds = [])) as [->|Hne]; [done|].
  assert (skip_space ds = ds) as ->.
  { destruct Hds; [done|]. simpl. by rewrite isdigit_isspace. }
  rewrite read_sign_digits by done. rewrite <- (app_nil_r ds) at 1.
  rewrite span_digits_app by done. destruct ds as [|c ds]; [done|].
  pose proof (val_dec_bound _ Hds) as Hb.
  assert (10 ^ Z.of_nat (length (c :: ds)) <= 10 ^ 18) by (apply Z.pow_le_mono_r; lia).
  unfold LONG_MIN, LONG_MAX. change (10 ^ 18) with 1000000000000000000 in *. pow2_cbv. zbool; lia.
Qed.

Lemma units_bound F : all_digits F -> (length F <= 8)%nat ->
  0 <= val_dec F * 10 ^ Z.of_nat (8 - length F) < COIN.
Proof.
  intros HF Hl. pose proof (val_dec_bound _ HF). pose proof (pow10_pos (8 - length F)).
  change COIN with (10 ^ 8).
  replace (10 ^ 8) with (10 ^ Z.of_nat (length F) * 10 ^ Z.of_nat (8 - length F))
    by (rewrite <- Z.pow_add_r by lia; f_equal; lia). nia.
Qed.

Lemma whole_bound W : all_digits W -> (length W <= 10)%nat -> 0 <= val_dec W < 10 ^ 10.
Proof.
  intros HW Hl. pose proof (val_dec_bound _ HW).
  assert (10 ^ Z.of_nat (length W) <= 10 ^ 10) by (apply Z.pow_le_mono_r; lia). lia.
Qed.

Lemma amount_i64 w u : 0 <= w < 10 ^ 10 -> 0 <= u < COIN -> i64 (w * COIN + u) = w * COIN + u.
Proof.
  change COIN with 100000000. change (10 ^ 10) with 10000000000. intros.
  apply wrapS_small; [lia|]. unfold inS. pow2_cbv. lia.
Qed.

Lemma ParseMoney_complete s a : money_literal (c_str s) a -> ParseMoney s = Some a.
Proof.
  unfold ParseMoney. inversion 1 as [sp1 W sp2 H1 HW HlW H2 Es Ea|sp1 W F sp2 H1 HW HlW HF HlF H2 Es Ea]; subst a.
  - assert (parse_whole (skip_space (sp1 ++ W ++ sp2)) [] = Some (skip_space sp2, W, 0) \/
            parse_whole (skip_space (sp1 ++ W ++ sp2)) [] = Some (sp2, W, 0)) as Hp.
    { rewrite skip_space_app by done. destruct HW as [|c W Hc HW].
      - left. simpl. rewrite <- (app_nil_r sp2), skip_space_app by done. done.
      - right. replace (skip_space ((c :: W) ++ sp2)) with ((c :: W) ++ sp2) by (simpl; by rewrite isdigit_isspace).
        rewrite parse_whole_digits by (by constructor). destruct H2 as [|x sp2 Hx H2]; [done|]. cbn [parse_whole app].
        destruct (isspace_not_digit x Hx) as [_ ->]. by rewrite Hx. }
    assert (forallb isspace (skip_space sp2) = true /\ forallb isspace sp2 = true) as [F1 F2].
    { split; [|by apply all_space_forallb]. by rewrite <- (app_nil_r sp2), skip_space_app. }
    assert (Some (i64 (atoi64 W * COIN + 0)) = Some (val_dec W * COIN)) as Hv.
    { rewrite atoi64_digits, amount_i64, Z.add_0_r by (done || lia || apply whole_bound; done || split; done). done. }
    destruct Hp as [-> | ->]; cbn [mbind option_bind]; rewrite ?F1, ?F2; cbn [negb];
      (destruct (Z.ltb_spec 10 (Z.of_nat (length W))); [lia|]); exact Hv.
  - assert (skip_space (sp1 ++ W ++ chr "." :: F ++ sp2) = W ++ chr "." :: F ++ sp2) as ->.
    { rewrite skip_space_app by done. destruct HW; [done|]. simpl. by rewrite isdigit_isspace. }
    rewrite parse_whole_digits by done. cbn [app parse_whole]. rewrite Z.eqb_refl.
    change (CENT * 10) with (10 ^ Z.of_nat 8 / 10). rewrite parse_units_spec by (done || by apply all_space_head).
    cbn [mbind option_bind]. rewrite (proj2 (all_space_forallb sp2) H2). cbn [negb].
    pose proof (units_bound F HF HlF). destruct (Z.ltb_spec 10 (Z.of_nat (length W))); [lia|].
    rewrite Z.add_0_l. zbool; try lia. cbn [orb].
    by rewrite atoi64_digits, amount_i64 by (done || lia || by apply whole_bound).
Qed.

Lemma ParseMoney_inv s a : ParseMoney s = Some a -> money_literal (c_str s) a.
Proof.
  unfold ParseMoney. destruct (skip_space_inv (c_str s)) as (sp & Es & Hsp). rewrite Es at 2.
  generalize (skip_space (c_str s)) as t. intros t.
  destruct (parse_whole t []) as [[[r W] U]|] eqn:E; [|done]. cbn [mbind option_bind].
  apply parse_whole_inv in E as (ds & -> & Hds & Ht). cbn [app].
  destruct (forallb isspace r) eqn:Hr; [|done]. apply all_space_forallb in Hr. cbn [negb].
  destruct (Z.ltb_spec 10 (Z.of_nat (length ds))); [done|].
  destruct Ht as [[-> ->]|(F & -> & HF & HlF & ->)].
  - change ((0 <? 0) || (COIN <? 0)) with false. cbn iota.
    rewrite atoi64_digits, amount_i64, Z.add_0_r by (done || lia || apply whole_bound; (done || lia)).
    intros [= <-]. constructor; (done || lia).
  - pose proof (units_bound F HF HlF). zbool; try lia. cbn [orb].
    rewrite atoi64_digits, amount_i64 by (done || lia || apply whole_bound; (done || lia)).
    intros [= <-]. constructor; (done || lia).
Qed.

Lemma money_literal_bound s a : money_literal s a -> 0 <= a < 10 ^ 18.
Proof.
  change (10 ^ 18) with (10 ^ 10 * COIN). destruct 1 as [? W ? ? HW HlW|? W F ? ? HW HlW HF HlF ?].
  - pose proof (whole_bound W HW HlW). change COIN with 100000000. lia.
  - pose proof (whole_bound W HW HlW). pose proof (units_bound F HF HlF).
    set (u := val_dec F * _) in *. clearbody u. change COIN with 100000000 in *. lia.
Qed.

(** *** Printing *)

Lemma dec_digits_length fuel z acc k : 0 <= z < 10 ^ Z.of_nat (S k) ->
  (length (dec_digits fuel z acc) <= S k + length acc)%nat.
Proof.
  revert z acc k. induction fuel as [|fuel IH]; intros z acc k Hz; cbn [dec_digits]; [cbn; lia|].
  destruct (Z.ltb_spec z 10); [cbn; lia|]. destruct k as [|k].
  { change (10 ^ Z.of_nat 1) with 10 in Hz. lia. }
  rewrite (IH _ _ k); [cbn; lia|]. rewrite pow10_S in Hz.
  split; [apply Z.div_pos; lia|apply Z.div_lt_upper_bound; lia].
Qed.

Lemma val_dec_zeros k : val_dec (replicate k (chr "0")) = 0.
Proof. induction k as [|k IH]; [done|]. cbn [replicate]. rewrite val_dec_cons, IH. change (digit (chr "0")) with 0. lia. Qed.

Lemma all_digits_zeros k : all_digits (replicate k (chr "0")).
Proof. by apply Forall_replicate. Qed.

Lemma print_08d_spec n : 0 <= n < COIN ->
  all_digits (print_08d n) /\ length (print_08d n) = 8%nat /\ val_dec (print_08d n) = n.
Proof.
  intros Hn. unfold print_08d. destruct (Z.ltb_spec n 0); [lia|].
  destruct (print_u_spec n) as (Hd & Hv & _); [lia|].
  pose proof (dec_digits_length (Z.to_nat (Z.log2 n)) n [] 7 Hn) as Hl. fold (print_u n) in Hl. cbn [length] in Hl.
  split; [apply Forall_app; split; [apply all_digits_zeros|done]|]. split.
  - rewrite length_app, length_replicate. lia.
  - rewrite val_dec_app, val_dec_zeros, Hv. lia.
Qed.

Lemma trim_zeros_spec G T : all_digits G -> (2 <= length G)%nat ->
  exists k G', G = replicate k (chr "0") ++ G' /\
    trim_zeros (G ++ chr "." :: T) = G' ++ chr "." :: T.
Proof.
  intros HG Hl. destruct HG as [|c1 G Hc1 HG]; [cbn in Hl; lia|]. destruct HG as [|c2 G Hc2 HG]; [cbn in Hl; lia|].
  clear Hl. revert c1 c2 Hc1 Hc2. induction HG as [|c3 G Hc3 HG IH]; intros c1 c2 Hc1 Hc2.
  - exists O, [c1; c2]. split; [done|]. cbn [app trim_zeros]. change (isdigit (chr ".")) with false.
    by rewrite andb_false_r.
  - destruct (IH c2 c3 Hc2 Hc3) as (k & G' & E & Et). cbn [app trim_zeros] in Et |- *. rewrite Hc3.
    destruct (Z.eqb_spec c1 (chr "0")) as [->|]; cbn [andb].
    + exists (S k), G'. cbn [replicate app]. by rewrite E.
    + exists O, (c1 :: c2 :: c3 :: G). done.
Qed.

(** What is printed: the whole part, a point, and the eight decimals without
    some of their final zeros. *)
Lemma FormatMoney_shape n : 0 <= n < 2 ^ 63 -> exists F,
  FormatMoney n = print_u (n / COIN) ++ chr "." :: F /\ all_digits F /\ (length F <= 8)%nat /\
  val_dec F * 10 ^ Z.of_nat (8 - length F) = n mod COIN.
Proof.
  intros Hn. unfold FormatMoney.
  assert ((if 0 <? n then n else i64 (- n)) = n) as ->.
  { destruct (Z.ltb_spec 0 n); [done|]. by replace n with 0 by lia. }
  rewrite Z.quot_div_nonneg, Z.rem_mod_nonneg by (done || lia || (unfold COIN; lia)).
  destruct (Z.ltb_spec n 0); [lia|].
  destruct (print_08d_spec (n mod COIN)) as (Hd & Hl & Hv); [by apply Z.mod_pos_bound|].
  unfold i64tostr. destruct (Z.ltb_spec (n / COIN) 0); [pose proof (Z.div_pos n COIN ltac:(lia) eq_refl); lia|].
  set (D := print_08d _) in *. set (W := print_u _).
  change (str ".") with [chr "."]. rewrite !reverse_app, <- app_assoc. change (reverse [chr "."]) with [chr "."].
  destruct (trim_zeros_spec (reverse D) (reverse W)) as (k & G & E & Et).
  { by apply Forall_reverse. }
  { rewrite length_reverse. lia. }
  cbn [app]. rewrite Et, reverse_app, reverse_cons, reverse_involutive, <- app_assoc. cbn [app].
  apply (f_equal reverse) in E. rewrite reverse_involutive, reverse_app, reverse_replicate in E.
  exists (reverse G). split; [done|]. rewrite E in Hd, Hl, Hv. apply Forall_app in Hd as [Hd _].
  rewrite length_app, length_replicate in Hl. split; [done|]. split; [lia|].
  rewrite val_dec_app, val_dec_zeros, length_replicate in Hv.
  replace (8 - length (reverse G))%nat with k by lia. lia.
Qed.

Lemma ParseMoney_FormatMoney n : - 2 ^ 63 < n < 2 ^ 63 ->
  ParseMoney (FormatMoney n) = if (0 <=? n) && (n <? 10 ^ 18) then Some n else None.
Proof.
  intros Hn. destruct (Z.leb_spec 0 n); cbn [andb].
  2:{ unfold FormatMoney. destruct (Z.ltb_spec n 0); [|lia]. done. }
  destruct (FormatMoney_shape n) as (F & -> & HF & HlF & HvF); [lia|].
  destruct (print_u_spec (n / COIN)) as (HW & HvW & Hne); [apply Z.div_pos; [lia|done]|].
  assert (n < 10 ^ 18 -> (length (print_u (n / COIN)) <= 10)%nat) as HlW.
  { intros. apply (dec_digits_length _ _ [] 9). split; [apply Z.div_pos; [lia|done]|by apply Z.div_lt_upper_bound]. }
  set (W := print_u _) in *. clearbody W.
  pose proof (Z.div_mod n COIN ltac:(done)) as Hdm.
  assert (c_str (W ++ chr "." :: F) = W ++ chr "." :: F) as Hc.
  { apply c_str_id, Forall_app. split; [|constructor; [done|]];
      (eapply Forall_impl; [|eassumption]; apply digit_nonzero). }
  destruct (Z.ltb_spec n (10 ^ 18)).
  - apply ParseMoney_complete. rewrite Hc, Hdm.
    replace (W ++ chr "." :: F) with ([] ++ W ++ chr "." :: F ++ []) by (by rewrite app_nil_r).
    rewrite <- HvF, <- HvW, (Z.mul_comm COIN). constructor; (done || by auto || constructor).
  - unfold ParseMoney. rewrite Hc.
    replace (skip_space (W ++ chr "." :: F)) with (W ++ chr "." :: F)
      by (destruct HW; [done|]; simpl; by rewrite isdigit_isspace).
    rewrite parse_whole_digits by done. cbn [app parse_whole]. rewrite Z.eqb_refl.
    destruct (parse_units F (CENT * 10) 0) as [r U]. cbn [mbind option_bind].
    destruct (negb (forallb isspace r)); [done|].
    destruct (Z.ltb_spec 10 (Z.of_nat (length W))); [done|].
    pose proof (whole_bound W HW ltac:(lia)).
    assert (10 ^ 10 <= n / COIN) by (apply Z.div_le_lower_bound; [done|]; change (COIN * 10 ^ 10) with (10 ^ 18); lia).
    lia.
Qed.

(** *** Fees *)

Lemma GetFee_nonneg r n : 0 <= nSatoshisPerK r -> 0 <= n < 2 ^ 63 -> nSatoshisPerK r * n < 2 ^ 63 ->
  GetFee r n = Ret (if (0 <? nSatoshisPerK r) && (0 <? n) then Z.max 1 (nSatoshisPerK r * n / 1000) else 0).
Proof.
  intros Hr Hn Ho. unfold GetFee. destruct (Z.leb_spec n (2 ^ 63 - 1)); [|lia]. cbn. f_equal.
  rewrite wrapS_small by (lia || (unfold inS; pow2_cbv; nia)). rewrite Z.quot_div_nonneg by nia.
  pose proof (Z.div_pos (nSatoshisPerK r * n) 1000 ltac:(nia) ltac:(lia)).
  destruct (Z.ltb_spec 0 (nSatoshisPerK r)), (Z.ltb_spec 0 n); cbn [andb].
  2-4: replace (nSatoshisPerK r * n) with 0 by (symmetry; apply Z.eq_mul_0; lia); change (0 / 1000) with 0;
    rewrite Z.eqb_refl; destruct (Z.eqb_spec n 0), (Z.ltb_spec (nSatoshisPerK r) 0); cbn; lia.
  destruct (Z.eqb_spec (nSatoshisPerK r * n / 1000) 0) as [E|], (Z.eqb_spec n 0), (Z.ltb_spec (nSatoshisPerK r) 0); cbn; lia.
Qed.

Lemma CFeeRate_of_nonneg fee n : 0 <= fee -> 0 < n < 2 ^ 63 -> fee * 1000 < 2 ^ 63 ->
  CFeeRate_of fee n = Ret (mkFeeRate (fee * 1000 / n)).
Proof.
  intros Hf Hn Ho. unfold CFeeRate_of. destruct (Z.leb_spec n (2 ^ 63 - 1)); [|lia].
  destruct (Z.ltb_spec 0 n); [|lia]. cbn.
  rewrite wrapS_small by (lia || (unfold inS; pow2_cbv; lia)). by rewrite Z.quot_div_nonneg by lia.
Qed.

(** ** Theorems *)

(** [ParseMoney] accepts exactly the texts made of blanks, up to ten
    digits, optionally a point and up to eight digits, and blanks; the amount
    it returns is their exact value and lies in [0, 10^18), so the 64-bit
    computation never overflows.  A printed amount is read back exactly, and
    one that is negative or has more than ten whole digits is refused. *)
Theorem money_text_exact (s : list Z) (n : Z) (Hn : - 2 ^ 63 < n < 2 ^ 63) :
  (forall a, ParseMoney s = Some a <-> money_literal (c_str s) a) /\
  (forall a, ParseMoney s = Some a -> 0 <= a < 10 ^ 18) /\
  ParseMoney (FormatMoney n) = (if (0 <=? n) && (n <? 10 ^ 18) then Some n else None).
Proof.
  split; [|split].
  - split; [apply ParseMoney_inv|apply ParseMoney_complete].
  - intros a Ha. by eapply money_literal_bound, ParseMoney_inv.
  - by apply ParseMoney_FormatMoney.
Qed.

Lemma money_text_exact_witness :
  ParseMoney (str " 12.5 ") = Some 1250000000 /\ FormatMoney 1250000000 = str "12.50" /\
  ParseMoney (FormatMoney 1250000000) = Some 1250000000.
Proof.
  split; [vm_compute; reflexivity|]. split; [vm_compute; reflexivity|].
  exact (proj2 (proj2 (money_text_exact (str " 12.5 ") 1250000000 ltac:(lia)))).
Defined.

(** The rate computed from a fee paid for a size, applied to the same
    size, charges no more than that fee and falls short of it by at most the
    rounding of the rate, one unit per thousand bytes and one more; it
    charges at least one unit as soon as the rate is not zero. *)
Theorem fee_rate_rounding (fee n : Z) (Hf : 0 <= fee) (Hn : 0 < n < 2 ^ 63) (Ho : fee * 1000 < 2 ^ 63) :
  exists r c, CFeeRate_of fee n = Ret r /\ GetFee r n = Ret c /\
    fee - n / 1000 - 1 <= c <= fee /\ (0 < nSatoshisPerK r -> 1 <= c).
Proof.
  rewrite CFeeRate_of_nonneg by done. eexists _, _. split; [done|].
  pose proof (Z.div_pos (fee * 1000) n ltac:(lia) ltac:(lia)).
  pose proof (Z.mul_div_le (fee * 1000) n ltac:(lia)). pose proof (Z.mul_succ_div_gt (fee * 1000) n ltac:(lia)).
  rewrite GetFee_nonneg by (cbn [nSatoshisPerK]; lia). split; [done|]. cbn [nSatoshisPerK].
  set (rate := fee * 1000 / n) in *. clearbody rate.
  destruct (Z.ltb_spec 0 n); [|lia]. rewrite andb_true_r.
  assert (fee - n / 1000 - 1 <= rate * n / 1000 <= fee) by (Z.to_euclidean_division_equations; nia).
  destruct (Z.ltb_spec 0 rate).
  2:{ assert (rate = 0) as -> by lia. rewrite Z.mul_0_l in *. change (0 / 1000) with 0 in *. lia. }
  split; [|lia].
  assert (0 < fee) by nia. lia.
Qed.

Lemma fee_rate_rounding_witness : exists r c, CFeeRate_of 226 225 = Ret r /\ GetFee r 225 = Ret c /\
    226 - 225 / 1000 - 1 <= c <= 226 /\ (0 < nSatoshisPerK r -> 1 <= c).
Proof. apply (fee_rate_rounding 226 225); lia. Defined.
