(* ===== verification/Uint256.v ===== *)
(** * Opaque blobs (uint256.h, uint256.cpp)

    [uint256] is an array of 32 bytes, the least significant first; its text
    form is hexadecimal with the most significant byte first. *)

From S2P Require Import Prelude ArithUint256 StrEncodings.

Definition blob_WIDTH : nat := 32.
Definition uint256_null : uint256 := replicate blob_WIDTH 0.

Definition IsNull (d : uint256) : bool := forallb (fun i => d.[i] =? 0) (seq 0 blob_WIDTH).

(** [memcmp] of the two arrays: the sign of the first difference. *)
Fixpoint memcmp (a b : list Z) : Z :=
  match a, b with
  | x :: a', y :: b' => if x =? y then memcmp a' b' else x - y
  | _, _ => 0
  end.
Definition Compare (a b : uint256) : Z := memcmp a b.
Definition blob_eq (a b : uint256) : bool := Compare a b =? 0.
Definition blob_lt (a b : uint256) : bool := Compare a b <? 0.

(** [sprintf("%02x", b)] for the bytes from the last to the first. *)
Definition hex2 (b : Z) : list Z := [hexmap.[Z.to_nat (b / 16)]; hexmap.[Z.to_nat (b mod 16)]].
Definition GetHex (d : uint256) : list Z :=
  for_range 0 blob_WIDTH (fun i psz => psz ++ hex2 d.[blob_WIDTH - i - 1]) [].

(** [tolower] of the C locale. *)
Definition tolower (c : Z) : Z := if (chr "A" <=? c) && (c <=? chr "Z") then c + 32 else c.

Definition skip_0x (psz : list Z) : list Z :=
  if (psz.[0] =? chr "0") && (tolower psz.[1] =? chr "x") then drop 2 psz else psz.

(** The digits from [pbegin] on, up to the first character that is none. *)
Fixpoint hex_prefix (psz : list Z) : list Z :=
  match psz with c :: psz' => if HexDigit c =? -1 then [] else c :: hex_prefix psz' | [] => [] end.

(** The loop from the last digit back to the first: two digits per byte. *)
Fixpoint SetHex_loop (rev_digits : list Z) (p1 : nat) (data : uint256) : uint256 :=
  if (blob_WIDTH <=? p1)%nat then data
  else match rev_digits with
       | [] => data
       | [c] => <[p1 := u8 (HexDigit c)]> data
       | c :: c' :: rest =>
           SetHex_loop rest (S p1)
             (<[p1 := Z.lor (u8 (HexDigit c)) (u8 (Z.shiftl (u8 (HexDigit c')) 4))]> data)
       end.

Definition SetHex (psz : list Z) : uint256 :=
  SetHex_loop (reverse (hex_prefix (skip_0x (skip_space (c_str psz))))) 0 uint256_null.

Definition uint256S (s : list Z) : uint256 := SetHex s.

(** ** Lemmas *)

Definition is_hex (s : list Z) : Prop := Forall (fun c => HexDigit c <> -1) s.

Lemma HexDigit_range c : -1 <= HexDigit c < 16.
Proof.
  unfold HexDigit. pose proof (wrapU_range 8 c ltac:(lia)) as H. unfold inU in H.
  pose proof (check_below 256 (fun c => (-1 <=? p_util_hexdigit.[Z.to_nat c]) && (p_util_hexdigit.[Z.to_nat c] <? 16))
    (u8 c) eq_refl H) as Hc. simpl in Hc. lia.
Qed.

Lemma hex_prefix_id s : is_hex s -> hex_prefix s = s.
Proof. induction 1 as [|c s Hc _ IH]; simpl; [done|]. rewrite IH. by destruct (Z.eqb_spec (HexDigit c) (-1)). Qed.

Lemma hex_prefix_hex s : is_hex (hex_prefix s).
Proof. induction s as [|c s IH]; simpl; [constructor|]. destruct (Z.eqb_spec (HexDigit c) (-1)); by constructor. Qed.

(** The value of hexadecimal digits, the last one first. *)
Fixpoint hex_value (rd : list Z) : Z :=
  match rd with [] => 0 | c :: r => HexDigit c + 16 * hex_value r end.

(** [k] bytes from hexadecimal digits, the last one first. *)
Fixpoint hex_bytes (k : nat) (rd : list Z) : list Z :=
  match k with
  | O => []
  | S k' => match rd with
            | [] => replicate k 0
            | [c] => HexDigit c :: replicate k' 0
            | c :: c' :: r => HexDigit c + 16 * HexDigit c' :: hex_bytes k' r
            end
  end.

Lemma SetHex_loop_spec k : forall rd pre, is_hex rd -> (length pre + k = blob_WIDTH)%nat ->
  SetHex_loop rd (length pre) (pre ++ replicate k 0) = pre ++ hex_bytes k rd.
Proof.
  induction k as [|k IH]; intros rd pre Hrd Hl; unfold blob_WIDTH in *.
  - destruct rd; unfold SetHex_loop, blob_WIDTH; fold SetHex_loop;
      rewrite (proj2 (Nat.leb_le 32 (length pre))) by lia; done.
  - assert ((32 <=? length pre)%nat = false) as Hlt by (apply Nat.leb_gt; lia).
    destruct rd as [|c [|c' rd]]; unfold SetHex_loop, blob_WIDTH; fold SetHex_loop; rewrite Hlt; [done| |];
      apply Forall_cons_iff in Hrd as [Hc Hrd]; pose proof (HexDigit_range c);
      rewrite insert_app_r_alt, Nat.sub_diag by lia; cbn [replicate list_insert insert hex_bytes];
      rewrite (wrapU_small 8 (HexDigit c)) by (unfold inU; lia); [done|].
    apply Forall_cons_iff in Hrd as [Hc' Hrd]. pose proof (HexDigit_range c').
    rewrite (wrapU_small 8 (HexDigit c')) by (unfold inU; lia).
    rewrite wrapU_small by (rewrite Z.shiftl_mul_pow2 by lia; unfold inU; lia).
    rewrite lor_disjoint_add by lia. change (2 ^ 4) with 16. rewrite (Z.mul_comm _ 16).
    specialize (IH rd (pre ++ [HexDigit c + 16 * HexDigit c'])).
    rewrite <- !app_assoc, length_app, Nat.add_1_r in IH. apply IH; [done|lia].
Qed.

Lemma le_bytes_zeros k : le_bytes (replicate k 0) = 0.
Proof. induction k as [|k IH]; simpl; [done|]. by rewrite IH. Qed.

Lemma hex_value_nonneg rd : is_hex rd -> 0 <= hex_value rd.
Proof. induction 1 as [|c rd Hc _ IH]; simpl; [lia|]. pose proof (HexDigit_range c). lia. Qed.

Lemma hex_bytes_value k : forall rd, is_hex rd ->
  le_bytes (hex_bytes k rd) = hex_value rd mod 2 ^ (8 * Z.of_nat k).
Proof.
  induction k as [|k IH]; intros rd Hrd; [by rewrite Z.mod_1_r|].
  assert (2 ^ (8 * Z.of_nat (S k)) = 256 * 2 ^ (8 * Z.of_nat k)) as Epow
    by (rewrite Nat2Z.inj_succ, Z.mul_succ_r, Z.pow_add_r by lia; lia).
  assert (0 < 2 ^ (8 * Z.of_nat k)) by (apply Z.pow_pos_nonneg; lia).
  destruct rd as [|c [|c' rd]]; rewrite Epow.
  - cbn [hex_bytes]. rewrite le_bytes_zeros. by rewrite Z.mod_0_l by lia.
  - apply Forall_cons_iff in Hrd as [Hc _]. pose proof (HexDigit_range c).
    cbn [hex_bytes le_bytes hex_value]. rewrite le_bytes_zeros. rewrite Z.mod_small by lia. lia.
  - apply Forall_cons_iff in Hrd as [Hc Hrd]. apply Forall_cons_iff in Hrd as [Hc' Hrd].
    pose proof (HexDigit_range c). pose proof (HexDigit_range c'). pose proof (hex_value_nonneg rd Hrd).
    cbn [hex_bytes le_bytes hex_value]. rewrite IH by done. change (2 ^ 8) with 256.
    replace (HexDigit c + 16 * (HexDigit c' + 16 * hex_value rd))
      with (HexDigit c + 16 * HexDigit c' + 256 * hex_value rd) by lia.
    pose proof (Z.div_mod (hex_value rd) (2 ^ (8 * Z.of_nat k)) ltac:(lia)) as Hdm.
    pose proof (Z.mod_pos_bound (hex_value rd) (2 ^ (8 * Z.of_nat k)) ltac:(lia)).
    apply (Z.mod_unique_pos _ _ (hex_value rd / 2 ^ (8 * Z.of_nat k))); lia.
Qed.

Lemma hex_bytes_wf k : forall rd, is_hex rd -> length (hex_bytes k rd) = k /\ is_bytes (hex_bytes k rd).
Proof.
  assert (forall n, is_bytes (replicate n 0)) as Hz by (intros; apply Forall_replicate; split; lia).
  induction k as [|k IH]; intros rd Hrd; [by repeat constructor|].
  destruct rd as [|c [|c' rd]]; cbn [hex_bytes].
  - rewrite length_replicate. split; [done|apply (Hz (S k))].
  - apply Forall_cons_iff in Hrd as [Hc _]. pose proof (HexDigit_range c). cbn [length].
    rewrite length_replicate. split; [done|]. constructor; [split; lia|apply Hz].
  - apply Forall_cons_iff in Hrd as [Hc Hrd]. apply Forall_cons_iff in Hrd as [Hc' Hrd].
    pose proof (HexDigit_range c). pose proof (HexDigit_range c'). destruct (IH rd Hrd).
    cbn [length]. split; [lia|]. constructor; [split; lia|done].
Qed.

Lemma SetHex_spec s : let rd := reverse (hex_prefix (skip_0x (skip_space (c_str s)))) in
  SetHex s = hex_bytes blob_WIDTH rd /\ wf_uint256 (SetHex s) /\
  le_bytes (SetHex s) = hex_value rd mod 2 ^ 256.
Proof.
  intros rd. assert (is_hex rd) as Hrd by apply Forall_reverse, hex_prefix_hex.
  assert (SetHex s = hex_bytes blob_WIDTH rd) as -> by exact (SetHex_loop_spec 32 rd [] Hrd eq_refl).
  split; [done|]. split; [apply (hex_bytes_wf 32 rd Hrd)|apply (hex_bytes_value 32 rd Hrd)].
Qed.

(** The text form: two digits per byte, the last byte first. *)
Lemma GetHex_digits d : length d = blob_WIDTH -> GetHex d = reverse (concat (map (fun b => reverse (hex2 b)) d)).
Proof.
  intros Hl. unfold blob_WIDTH in Hl.
  do 32 (destruct d as [|? d]; [discriminate Hl|]). destruct d; [reflexivity|discriminate Hl].
Qed.

Lemma hex2_digits b : inU 8 b -> exists h l, hex2 b = [h; l] /\ HexDigit h = b / 16 /\ HexDigit l = b mod 16 /\
  isspace h = false /\ tolower l <> chr "x" /\ h <> 0 /\ l <> 0.
Proof.
  intros Hb. eexists _, _. split; [reflexivity|]. unfold inU in Hb.
  rewrite !HexDigit_hexmap by divlia.
  rewrite isspace_hexmap by divlia.
  pose proof (check_below 256 (fun b => negb (tolower hexmap.[Z.to_nat (b mod 16)] =? chr "x") &&
    negb (hexmap.[Z.to_nat (b / 16)] =? 0) && negb (hexmap.[Z.to_nat (b mod 16)] =? 0)) b eq_refl Hb) as Hc.
  cbv beta in Hc. rewrite !andb_true_iff, !negb_true_iff, !Z.eqb_neq in Hc. intuition.
Qed.

Lemma hex_bytes_hex2 d : is_bytes d -> hex_bytes (length d) (concat (map (fun b => reverse (hex2 b)) d)) = d.
Proof.
  induction 1 as [|b d Hb Hd IH]; [done|]. cbn [length map concat].
  destruct (hex2_digits b Hb) as (h & l & -> & Hh & Hl & _). cbn [reverse rev_append app hex_bytes].
  rewrite IH, Hh, Hl. f_equal. pose proof (Z.div_mod b 16). lia.
Qed.

Lemma hex2_concat d : is_bytes d ->
  Forall (fun c => HexDigit c <> -1 /\ c <> 0) (concat (map (fun b => reverse (hex2 b)) d)).
Proof.
  induction 1 as [|b d Hb Hd IH]; [constructor|]. cbn [map concat].
  destruct (hex2_digits b Hb) as (h & l & -> & Hh & Hl & _ & _ & ? & ?). unfold inU in Hb.
  pose proof (Z.mod_pos_bound b 16 ltac:(lia)). pose proof (Z.div_pos b 16 ltac:(lia) ltac:(lia)).
  repeat constructor; (lia || done).
Qed.

Lemma SetHex_GetHex d : wf_uint256 d -> SetHex (GetHex d) = d.
Proof.
  intros [Hl Hb]. destruct (SetHex_spec (GetHex d)) as [-> _].
  pose proof (proj2 (Forall_reverse _ _) (hex2_concat d Hb)) as Hf. rewrite <- GetHex_digits in Hf by done.
  assert (is_hex (GetHex d)) as Hx by (eapply Forall_impl; [|exact Hf]; by intros ? []).
  rewrite c_str_id by (eapply Forall_impl; [|exact Hf]; by intros ? []).
  assert (exists h l r, GetHex d = h :: l :: r /\ isspace h = false /\ tolower l <> chr "x") as (h & l & r & E & Hs & Hlx).
  { rewrite GetHex_digits by done. destruct d as [|b d _] using rev_ind; [discriminate|].
    apply Forall_app in Hb as [_ Hb%Forall_inv]. destruct (hex2_digits b Hb) as (h & l & E & _ & _ & ? & ? & _).
    exists h, l. eexists. split; [|done]. rewrite map_app, concat_app, reverse_app. cbn [map concat].
    rewrite E, app_nil_r, reverse_involutive. reflexivity. }
  unfold skip_0x. rewrite E. cbn [skip_space]. rewrite Hs. change ((h :: l :: r).[1]) with l.
  rewrite (proj2 (Z.eqb_neq (tolower l) (chr "x")) Hlx), andb_false_r, <- E.
  rewrite hex_prefix_id by done. rewrite GetHex_digits, reverse_involutive by done.
  change blob_WIDTH with 32%nat. rewrite <- Hl. by apply hex_bytes_hex2.
Qed.

(** A 256-bit blob printed in hexadecimal and parsed again is the same
    blob; and [uint256S] of any text is the value of its digits modulo
    [2^256], the least significant byte first. *)
Theorem uint256_hex_roundtrip (d : uint256) (s : list Z) (Hd : wf_uint256 d) :
  uint256S (GetHex d) = d /\ wf_uint256 (uint256S s) /\
  le_bytes (uint256S s) = hex_value (reverse (hex_prefix (skip_0x (skip_space (c_str s))))) mod 2 ^ 256.
Proof. split; [by apply SetHex_GetHex|]. apply SetHex_spec. Qed.

Lemma uint256_hex_roundtrip_witness :
  le_bytes (uint256S (str "0x1fZ")) = 31 /\
  (uint256S (GetHex uint256_null) = uint256_null /\ wf_uint256 (uint256S (str "0x1fZ")) /\
   le_bytes (uint256S (str "0x1fZ")) =
   hex_value (reverse (hex_prefix (skip_0x (skip_space (c_str (str "0x1fZ")))))) mod 2 ^ 256).
Proof.
  split; [vm_compute; reflexivity|]. apply uint256_hex_roundtrip.
  split; [reflexivity|]. apply Forall_replicate. split; lia.
Defined.

Lemma memcmp_refl a : memcmp a a = 0.
Proof. induction a as [|x a IH]; cbn [memcmp]; [done|]. by rewrite Z.eqb_refl. Qed.

(** [operator==] of blobs is equality of the arrays. *)
Lemma blob_eq_spec a b : length a = length b -> blob_eq a b = bool_decide (a = b).
Proof.
  intros Hl. unfold blob_eq, Compare. revert b Hl. induction a as [|x a IH]; intros [|y b] Hl; try discriminate; [done|].
  simpl in *. destruct (Z.eqb_spec x y) as [->|Hne].
  - rewrite IH by congruence. apply bool_decide_ext. split; congruence.
  - rewrite bool_decide_false by congruence. apply Z.eqb_neq. lia.
Qed.
