(* ===== verification/Merkle.v ===== *)
(** * Merkle trees (consensus/merkle.cpp)

    The constant-space computation of a Merkle root, of the mutation flag and
    of a branch, as the loops of the source over the array [inner]; a
    reference definition by recursion on the height of the tree; and what the
    computation guarantees: it equals the reference, a branch verifies, and a
    block that is not flagged as mutated is determined by its root. *)

From stdpp Require Import sets.
From S2P Require Import Prelude ArithUint256 StrEncodings Uint256.

Section Merkle.

(** [CHash256().Write(a).Write(b).Finalize]: the hash of two hashes. *)
Context (Hash2 : uint256 -> uint256 -> uint256).

(** [!(count & (((uint32_t)1) << level))]. *)
Definition bit_clear (count : Z) (level : nat) : bool :=
  Z.land count (u32 (Z.shiftl 1 (Z.of_nat level))) =? 0.

(** What one combination of [inner[level]] and [h] adds to the branch; [None]
    is a null [pbranch]. *)
Definition note_branch (pbranch : option (list uint256)) (matchh : bool) (matchlevel : Z) (level : nat)
    (left h : uint256) : option (list uint256) * bool :=
  match pbranch with
  | None => (None, matchh)
  | Some br =>
      if matchh then (Some (br ++ [left]), true)
      else if matchlevel =? Z.of_nat level then (Some (br ++ [h]), true)
      else (Some br, false)
  end.

(** The loop over the low bits of [count]: combine with the subtrees already
    there.  It returns the level reached, the hash and the flags. *)
Fixpoint absorb (fuel : nat) (inner : list uint256) (matchlevel : Z) (count : Z) (level : nat) (h : uint256)
    (matchh mutated : bool) (pbranch : option (list uint256))
    : outcome (nat * uint256 * bool * bool * option (list uint256)) :=
  if negb (bit_clear count level) then Ret (level, h, matchh, mutated, pbranch)
  else match fuel with
       | O => Abort
       | S fuel' =>
           left ← deref (inner !! level);
           let '(pbranch, matchh) := note_branch pbranch matchh matchlevel level left h in
           let mutated := mutated || bool_decide (left = h) in
           absorb fuel' inner matchlevel count (S level) (Hash2 left h) matchh mutated pbranch
       end.

Record mstate := mkM {
  mCount : Z;
  mInner : list uint256;
  mMatchlevel : Z;
  mMutated : bool;
  mBranch : option (list uint256)
}.

(** The body of the loop over the leaves. *)
Definition add_leaf (branchpos : Z) (st : mstate) (leaf : uint256) : outcome mstate :=
  let matchh := mCount st =? branchpos in
  let count := u32 (mCount st + 1) in
  '(level, h, matchh, mutated, pbranch) ←
    absorb 32 (mInner st) (mMatchlevel st) count 0 leaf matchh (mMutated st) (mBranch st);
  _ ← assert_ (level <? length (mInner st))%nat;
  Ret {| mCount := count; mInner := <[level := h]> (mInner st);
         mMatchlevel := if matchh : bool then Z.of_nat level else mMatchlevel st;
         mMutated := mutated; mBranch := pbranch |}.

Fixpoint add_leaves (branchpos : Z) (st : mstate) (leaves : list uint256) : outcome mstate :=
  match leaves with
  | [] => Ret st
  | leaf :: rest => st' ← add_leaf branchpos st leaf; add_leaves branchpos st' rest
  end.

(** [while (!(count & (1 << level))) level++]. *)
Fixpoint lowest_level (fuel : nat) (count : Z) (level : nat) : outcome nat :=
  if negb (bit_clear count level) then Ret level
  else match fuel with O => Abort | S fuel' => lowest_level fuel' count (S level) end.

(** The upward propagation of the final sweep: as [absorb], without looking
    for mutations. *)
Fixpoint propagate (fuel : nat) (inner : list uint256) (matchlevel : Z) (count : Z) (level : nat) (h : uint256)
    (matchh : bool) (pbranch : option (list uint256)) : outcome (nat * uint256 * bool * option (list uint256)) :=
  if negb (bit_clear count level) then Ret (level, h, matchh, pbranch)
  else match fuel with
       | O => Abort
       | S fuel' =>
           left ← deref (inner !! level);
           let '(pbranch, matchh) := note_branch pbranch matchh matchlevel level left h in
           propagate fuel' inner matchlevel count (S level) (Hash2 left h) matchh pbranch
       end.

Fixpoint sweep (fuel : nat) (inner : list uint256) (matchlevel : Z) (count : Z) (level : nat) (h : uint256)
    (matchh : bool) (pbranch : option (list uint256)) : outcome (uint256 * option (list uint256)) :=
  if count =? u32 (Z.shiftl 1 (Z.of_nat level)) then Ret (h, pbranch)
  else match fuel with
       | O => Abort
       | S fuel' =>
           let pbranch := match pbranch with
                          | Some br => if matchh then Some (br ++ [h]) else Some br
                          | None => None
                          end in
           let h := Hash2 h h in
           let count := u32 (count + u32 (Z.shiftl 1 (Z.of_nat level))) in
           '(level, h, matchh, pbranch) ← propagate 32 inner matchlevel count (S level) h matchh pbranch;
           sweep fuel' inner matchlevel count level h matchh pbranch
       end.

(** The root, the mutation flag and the branch. *)
Definition MerkleComputation (leaves : list uint256) (branchpos : Z) (pbranch : bool)
    : outcome (uint256 * bool * option (list uint256)) :=
  let br := if pbranch then Some [] else None in
  match leaves with
  | [] => Ret (uint256_null, false, br)
  | _ =>
      st ← add_leaves branchpos
             {| mCount := 0; mInner := replicate 32 uint256_null; mMatchlevel := -1;
                mMutated := false; mBranch := br |} leaves;
      level ← lowest_level 32 (mCount st) 0;
      h ← deref (mInner st !! level);
      let matchh := mMatchlevel st =? Z.of_nat level in
      '(h, br) ← sweep 32 (mInner st) (mMatchlevel st) (mCount st) level h matchh (mBranch st);
      Ret (h, mMutated st, br)
  end.

Definition ComputeMerkleRoot (leaves : list uint256) : outcome (uint256 * bool) :=
  '(hash, mutated, _) ← MerkleComputation leaves (u32 (-1)) false; Ret (hash, mutated).

Definition ComputeMerkleBranch (leaves : list uint256) (position : Z) : outcome (list uint256) :=
  '(_, _, ret) ← MerkleComputation leaves position true; deref ret.

Fixpoint ComputeMerkleRootFromBranch (hash : uint256) (vMerkleBranch : list uint256) (nIndex : Z) : uint256 :=
  match vMerkleBranch with
  | [] => hash
  | it :: rest =>
      let hash := if negb (Z.land nIndex 1 =? 0) then Hash2 it hash else Hash2 hash it in
      ComputeMerkleRootFromBranch hash rest (Z.shiftr nIndex 1)
  end.

(** ** Reference

    [mroot k l] is the root of a tree of height [k] over at most [2^k]
    leaves; a missing right half repeats the left one. *)

Fixpoint mroot (k : nat) (l : list uint256) : uint256 :=
  match k with
  | O => default uint256_null (head l)
  | S k' =>
      let a := mroot k' (take (2 ^ k') l) in
      match drop (2 ^ k') l with
      | [] => Hash2 a a
      | b => Hash2 a (mroot k' b)
      end
  end.

(** Two equal sibling subtrees, both complete. *)
Fixpoint mmut (k : nat) (l : list uint256) : bool :=
  match k with
  | O => false
  | S k' =>
      let a := take (2 ^ k') l in
      let b := drop (2 ^ k') l in
      mmut k' a || mmut k' b ||
      (bool_decide (length l = 2 ^ S k')%nat && bool_decide (mroot k' a = mroot k' b))
  end.

(** The siblings on the path from leaf [pos] to the root, from below. *)
Fixpoint mbranch (k : nat) (pos : nat) (l : list uint256) : list uint256 :=
  match k with
  | O => []
  | S k' =>
      let a := take (2 ^ k') l in
      let b := drop (2 ^ k') l in
      if decide (pos < 2 ^ k')%nat
      then mbranch k' pos a ++ [match b with [] => mroot k' a | _ => mroot k' b end]
      else mbranch k' (pos - 2 ^ k') b ++ [mroot k' a]
  end.

(** The height of the tree over [n] leaves. *)
Definition height (n : nat) : nat := Nat.log2_up n.

(** ** Lemmas: binary counters

    [seg C i] is where the subtree at level [i] of [C] leaves starts. *)

Definition seg (C i : nat) : nat := (C / 2 ^ S i * 2 ^ S i)%nat.

Lemma pow2_pos i : (0 < 2 ^ i)%nat.
Proof. pose proof (Nat.pow_nonzero 2 i). lia. Qed.

Lemma Zpow2_nat i : Z.of_nat (2 ^ i) = 2 ^ Z.of_nat i.
Proof. by rewrite Nat2Z.inj_pow. Qed.

Lemma pow2_lt_32 i : (i < 32)%nat -> u32 (Z.shiftl 1 (Z.of_nat i)) = Z.of_nat (2 ^ i).
Proof.
  intros Hi. rewrite Z.shiftl_1_l, Zpow2_nat. apply wrapU_small. split; [apply Z.pow_nonneg; lia|].
  apply Z.pow_lt_mono_r; lia.
Qed.

(** At a multiple of [2^i] bit [i] decides divisibility by [2^(i+1)]. *)
Lemma bit_clear_spec C i m : (i < 32)%nat -> C = (m * 2 ^ i)%nat ->
  bit_clear (Z.of_nat C) i = Nat.even m.
Proof.
  intros Hi ->. unfold bit_clear. rewrite pow2_lt_32, Zpow2_nat by done.
  rewrite land_pow2_eqb by lia. rewrite Nat2Z.inj_mul, Zpow2_nat.
  rewrite Z.mul_pow2_bits, Z.sub_diag, Z.bit0_odd by lia. rewrite Z.negb_odd.
  destruct (Nat.even m) eqn:E.
  - apply Nat.even_spec in E as [k ->]. rewrite Nat2Z.inj_mul. by rewrite Z.even_mul.
  - rewrite <- Nat.negb_odd, negb_false_iff, Nat.odd_spec in E. destruct E as [k ->].
    rewrite Nat2Z.inj_add, Nat2Z.inj_mul, Z.even_add, Z.even_mul. done.
Qed.

Lemma div_pow2_block q r i : (r < 2 ^ i)%nat -> ((q * 2 ^ i + r) / 2 ^ i = q)%nat.
Proof. intros. pose proof (pow2_pos i). symmetry. apply (Nat.div_unique _ _ _ r); lia. Qed.

Lemma seg_bit C i : Nat.odd (C / 2 ^ i) = true -> (seg C i + 2 ^ i <= C)%nat.
Proof.
  intros [k Hk]%Nat.odd_spec. unfold seg. pose proof (pow2_pos i).
  pose proof (Nat.div_mod C (2 ^ i) ltac:(lia)) as Hd.
  assert (C / 2 ^ S i = k)%nat as ->; [|simpl; nia].
  rewrite Nat.pow_succ_r', Nat.mul_comm, <- Nat.Div0.div_div, Hk by lia.
  rewrite Nat.mul_comm, Nat.add_comm. by apply Nat.div_add.
Qed.

(** Adding [2^j] to [C] carries through the levels below [e]. *)
Lemma carry_bit C j s m : (j <= s)%nat -> (C + 2 ^ j = m * 2 ^ S s)%nat ->
  Nat.odd (C / 2 ^ s) = true /\ (seg C s + 2 ^ S s = C + 2 ^ j)%nat.
Proof.
  intros Hj HC. assert (2 ^ j <= 2 ^ s)%nat by (by apply Nat.pow_le_mono_r).
  pose proof (pow2_pos j). pose proof (Nat.pow_succ_r' 2 s) as Es.
  assert (1 <= m)%nat by (destruct m; [lia|lia]). split.
  - replace C with ((2 * (m - 1) + 1) * 2 ^ s + (2 ^ s - 2 ^ j))%nat by nia.
    rewrite div_pow2_block by lia. apply Nat.odd_spec. by exists (m - 1)%nat.
  - unfold seg. replace C with ((m - 1) * 2 ^ S s + (2 ^ S s - 2 ^ j))%nat at 1 by nia.
    rewrite div_pow2_block by lia. nia.
Qed.

Lemma carry_above C j e q : (j <= e)%nat -> (C + 2 ^ j = (2 * q + 1) * 2 ^ e)%nat ->
  (C / 2 ^ e = 2 * q)%nat /\ forall i, (e < i)%nat -> (C / 2 ^ i = (C + 2 ^ j) / 2 ^ i)%nat.
Proof.
  intros Hj HC. assert (2 ^ j <= 2 ^ e)%nat by (by apply Nat.pow_le_mono_r).
  pose proof (pow2_pos j). pose proof (Nat.pow_succ_r' 2 e) as Es. split.
  - replace C with (2 * q * 2 ^ e + (2 ^ e - 2 ^ j))%nat by nia. apply div_pow2_block. lia.
  - intros i Hi. replace i with (S e + (i - S e))%nat by lia. rewrite Nat.pow_add_r, <- !Nat.Div0.div_div.
    f_equal. rewrite HC. replace C with (q * 2 ^ S e + (2 ^ e - 2 ^ j))%nat by nia.
    replace ((2 * q + 1) * 2 ^ e)%nat with (q * 2 ^ S e + 2 ^ e)%nat by nia.
    by rewrite !div_pow2_block by lia.
Qed.

Lemma seg_eq C C' i : (C / 2 ^ S i = C' / 2 ^ S i)%nat -> seg C i = seg C' i.
Proof. unfold seg. by intros ->. Qed.

(** ** Lemmas: the reference *)

Lemma mroot_full k l : drop (2 ^ k) l <> [] ->
  mroot (S k) l = Hash2 (mroot k (take (2 ^ k) l)) (mroot k (drop (2 ^ k) l)).
Proof. intros Hne. cbn [mroot]. by destruct (drop (2 ^ k) l). Qed.

Lemma mroot_half k l : (length l <= 2 ^ k)%nat -> mroot (S k) l = Hash2 (mroot k l) (mroot k l).
Proof. intros Hl. cbn [mroot]. by rewrite (drop_ge l), (take_ge l) by done. Qed.

Lemma mmut_S k l : mmut (S k) l = mmut k (take (2 ^ k) l) || mmut k (drop (2 ^ k) l) ||
  (bool_decide (length l = 2 ^ S k)%nat && bool_decide (mroot k (take (2 ^ k) l) = mroot k (drop (2 ^ k) l))).
Proof. reflexivity. Qed.

(** The part of the list from [C' - 2^(s+1)] on, split in the middle. *)
Lemma drop_split (P : list uint256) C' s : (2 ^ S s <= C')%nat ->
  drop (2 ^ s) (drop (C' - 2 ^ S s) P) = drop (C' - 2 ^ s) P.
Proof. intros. rewrite drop_drop. f_equal. rewrite Nat.pow_succ_r' in *. lia. Qed.

(** ** The loop invariants *)

(** The subtrees kept for [C] leaves at the levels from [lo] on. *)
Definition inner_ok (lo C : nat) (P inner : list (list Z)) : Prop :=
  length inner = 32%nat /\
  forall i, (lo <= i < 32)%nat -> Nat.odd (C / 2 ^ i) = true ->
    inner !! i = Some (mroot i (take (2 ^ i) (drop (seg C i) P))).

(** Whether one of them has equal complete siblings. *)
Definition any_mut (lo C : nat) (P : list uint256) : bool :=
  existsb (fun i => Nat.odd (C / 2 ^ i) && mmut i (take (2 ^ i) (drop (seg C i) P))) (seq lo (32 - lo)).

(** The branch of leaf [pos]: not reached yet, or complete up to the level of
    the subtree that holds it. *)
Definition branch_ok (lo C C' pos : nat) (P : list uint256) (ml : Z) (br : list uint256) : Prop :=
  ((C' <= pos)%nat /\ ml = -1 /\ br = []) \/
  exists i, (lo <= i)%nat /\ Nat.odd (C / 2 ^ i) = true /\ (seg C i <= pos < seg C i + 2 ^ i)%nat /\
    ml = Z.of_nat i /\ br = mbranch i (pos - seg C i) (take (2 ^ i) (drop (seg C i) P)).

(** The same while the subtree of level [s] that ends at [C'] is carried. *)
Definition carry_ok (s C C' pos : nat) (P : list uint256) (ml : Z) (matchh : bool) (br : list uint256) : Prop :=
  if matchh then (C' - 2 ^ s <= pos < C')%nat /\ br = mbranch s (pos - (C' - 2 ^ s)) (drop (C' - 2 ^ s) P)
  else branch_ok s C C' pos P ml br.

Lemma any_mut_S lo C P : (lo < 32)%nat ->
  any_mut lo C P = Nat.odd (C / 2 ^ lo) && mmut lo (take (2 ^ lo) (drop (seg C lo) P)) || any_mut (S lo) C P.
Proof. intros. unfold any_mut. replace (32 - lo)%nat with (S (32 - S lo)) by lia. done. Qed.

(** One combination: [left] is the subtree before the carried one. *)
Lemma carry_combine C j s m (P : list uint256) : (j <= s)%nat -> (C + 2 ^ j = m * 2 ^ S s)%nat ->
  (C + 2 ^ j - 2 ^ s < length P)%nat ->
  let C' := (C + 2 ^ j)%nat in
  let node := drop (C' - 2 ^ S s) P in
  take (2 ^ s) (drop (seg C s) P) = take (2 ^ s) node /\ drop (2 ^ s) node = drop (C' - 2 ^ s) P /\
  drop (C' - 2 ^ s) P <> [] /\ (2 ^ S s <= C')%nat.
Proof.
  intros Hj HC Hl C' node. destruct (carry_bit C j s m Hj HC) as [_ Hseg]. pose proof (pow2_pos j).
  assert (2 ^ S s <= C')%nat by (unfold C'; lia).
  split; [unfold node, C'; do 2 f_equal; lia|]. split; [by apply drop_split|]. split; [|done].
  intros E%(f_equal length). rewrite length_drop in E. simpl in E. unfold C' in E. lia.
Qed.

Lemma carry_ok_step C j s m P pos ml matchh br br' matchh' : (j <= s)%nat ->
  (C + 2 ^ j = m * 2 ^ S s)%nat -> (C + 2 ^ j - 2 ^ s < length P)%nat -> (pos < length P \/ length P = C + 2 ^ j)%nat ->
  carry_ok s C (C + 2 ^ j) pos P ml matchh br ->
  note_branch (Some br) matchh ml s (mroot s (take (2 ^ s) (drop (seg C s) P))) (mroot s (drop (C + 2 ^ j - 2 ^ s) P))
    = (Some br', matchh') ->
  carry_ok (S s) C (C + 2 ^ j) pos P ml matchh' br'.
Proof.
  intros Hj HC Hl Hpos Hok. destruct (carry_combine C j s m P Hj HC Hl) as (Ea & Eb & Hne & Hle).
  destruct (carry_bit C j s m Hj HC) as [Hodd Hseg]. set (C' := (C + 2 ^ j)%nat) in *.
  pose proof (Nat.pow_succ_r' 2 s) as Es. pose proof (pow2_pos s). unfold note_branch.
  destruct matchh; cbn [carry_ok] in Hok.
  - destruct Hok as [Hp ->]. intros [= <- <-]. split; [lia|]. cbn [mbranch].
    rewrite decide_False by lia. rewrite Eb, Ea. f_equal. f_equal. lia.
  - destruct Hok as [(Hp & -> & ->)|(i & Hi & Ho & Hp & -> & ->)].
    + destruct (Z.eqb_spec (-1) (Z.of_nat s)); [lia|]. intros [= <- <-]. left. auto.
    + destruct (Z.eqb_spec (Z.of_nat i) (Z.of_nat s)) as [Heq%Nat2Z.inj|Hni]; intros [= <- <-].
      * subst i. split; [unfold C'; lia|]. cbn [mbranch]. rewrite decide_True by lia.
        rewrite Ea, Eb. destruct (drop (C' - 2 ^ s) P) eqn:Ed; [done|]. f_equal. f_equal. unfold C' in *. lia.
      * right. exists i. repeat split; auto; lia.
Qed.

Lemma propagate_absorb mut fuel : forall inner ml count level h matchh br,
  propagate fuel inner ml count level h matchh br =
  ('(level, h, matchh, _, br) ← absorb fuel inner ml count level h matchh mut br; Ret (level, h, matchh, br)).
Proof.
  revert mut. induction fuel as [|fuel IH]; intros mut inner ml count level h matchh br; cbn [propagate absorb];
    destruct (negb (bit_clear count level)); try done.
  destruct (inner !! level) as [left|]; [|done]. cbn [deref mbind outcome_bind].
  destruct (note_branch br matchh ml level left h) as [br' matchh']. apply IH.
Qed.

Lemma note_branch_Some b matchh ml s left h :
  exists b' matchh', note_branch (Some b) matchh ml s left h = (Some b', matchh').
Proof. unfold note_branch. destruct matchh; [eauto|]. destruct (ml =? Z.of_nat s); eauto. Qed.

(** What the carry loop ends with, at the lowest set bit [e] of [C + 2^j]. *)
Definition carried (C j s : nat) (P : list uint256) (pos : nat) (ml : Z) (matchh mut : bool)
    (br : option (list uint256)) (r : nat * uint256 * bool * bool * option (list uint256)) : Prop :=
  let '(e, h, matchh', mut', br') := r in
  let C' := (C + 2 ^ j)%nat in
  exists q, (s <= e < 32)%nat /\ C' = ((2 * q + 1) * 2 ^ e)%nat /\ (C' - 2 ^ e < length P)%nat /\
    h = mroot e (drop (C' - 2 ^ e) P) /\
    (length P = C' -> mut = any_mut s C P || mmut s (drop (C' - 2 ^ s) P) ->
       mut' = any_mut e C P || mmut e (drop (C' - 2 ^ e) P)) /\
    (br = None -> br' = None) /\
    (forall b, (pos < length P \/ length P = C')%nat -> br = Some b -> carry_ok s C C' pos P ml matchh b ->
       exists b', br' = Some b' /\ carry_ok e C C' pos P ml matchh' b').

Lemma pow2_below_32 s C : (2 ^ s <= C)%nat -> Z.of_nat C < 2 ^ 32 -> (s < 32)%nat.
Proof.
  intros Hs HC. apply Nat2Z.inj_lt. apply (Z.pow_lt_mono_r_iff 2); [lia|lia|].
  rewrite <- Zpow2_nat. change (2 ^ Z.of_nat 32) with (2 ^ 32). lia.
Qed.

Lemma absorb_spec pos C j P inner ml : Z.of_nat (C + 2 ^ j) < 2 ^ 32 ->
  forall fuel s m matchh mut br, (j <= s)%nat -> (C + 2 ^ j = m * 2 ^ s)%nat ->
  (C + 2 ^ j - 2 ^ s < length P)%nat -> inner_ok s C P inner -> (32 <= s + fuel)%nat ->
  exists r, absorb fuel inner ml (Z.of_nat (C + 2 ^ j)) s (mroot s (drop (C + 2 ^ j - 2 ^ s) P)) matchh mut br = Ret r
    /\ carried C j s P pos ml matchh mut br r.
Proof.
  intros H32 fuel. induction fuel as [|fuel IH]; intros s m matchh mut br Hj HC Hl Hin Hf;
    pose proof (pow2_pos j); pose proof (pow2_pos s);
    assert (1 <= m)%nat by (destruct m; lia);
    assert (s < 32)%nat as Hs by (apply (pow2_below_32 s (C + 2 ^ j)); [nia|done]); [lia|].
  cbn [absorb]. rewrite (bit_clear_spec _ s m) by done. rewrite Nat.negb_even.
  destruct (Nat.odd m) eqn:Em.
  - eexists. split; [reflexivity|]. apply Nat.odd_spec in Em as [q ->]. exists q. repeat split; auto; try lia.
    intros b _ -> Hb. eauto.
  - assert (exists m', C + 2 ^ j = m' * 2 ^ S s)%nat as [m' HC'].
    { rewrite <- Nat.negb_even, negb_false_iff, Nat.even_spec in Em. destruct Em as [m' ->].
      exists m'. rewrite HC, Nat.pow_succ_r'. lia. }
    destruct (carry_bit C j s m' Hj HC') as [Hodd Hseg].
    destruct (carry_combine C j s m' P Hj HC' Hl) as (Ea & Eb & Hne & Hle).
    destruct Hin as [Hlen Hin]. rewrite (Hin s ltac:(lia) Hodd). cbn [deref mbind outcome_bind].
    destruct (note_branch br matchh ml s _ _) as [br1 matchh1] eqn:En.
    set (C' := (C + 2 ^ j)%nat) in *. pose proof (Nat.pow_succ_r' 2 s).
    assert (Hash2 (mroot s (take (2 ^ s) (drop (seg C s) P))) (mroot s (drop (C' - 2 ^ s) P))
            = mroot (S s) (drop (C' - 2 ^ S s) P)) as EH.
    { rewrite mroot_full by (by rewrite Eb). by rewrite Ea, Eb. }
    rewrite EH. destruct (IH (S s) m' matchh1
      (mut || bool_decide (mroot s (take (2 ^ s) (drop (seg C s) P)) = mroot s (drop (C' - 2 ^ s) P))) br1)
      as (r & Er & Hr); [lia|done|lia|split; [done|intros; apply Hin; [lia|done]]|lia|].
    exists r. split; [exact Er|]. destruct r as [[[[e h] matchh'] mut'] br'].
    destruct Hr as (q & He & Hq & HlP & Hh & Hmut & Hnone & Hbr).
    exists q. split; [lia|]. repeat (split; [assumption|]). split; [|split].
    + intros HP ->. apply Hmut; [done|]. rewrite (any_mut_S s) by lia. rewrite Hodd, mmut_S. cbn [andb].
      fold C'. rewrite Ea, Eb. rewrite (bool_decide_true (length _ = _)); [|rewrite length_drop; lia]. cbn [andb].
      set (x := mmut s (take _ _)). set (y := any_mut (S s) C P). set (z := mmut s (drop _ _)). set (w := bool_decide _).
      destruct x, y, z, w; reflexivity.
    + intros ->. simpl in En. apply Hnone. congruence.
    + intros b Hpos -> Hb. destruct (note_branch_Some b matchh ml s (mroot s (take (2 ^ s) (drop (seg C s) P)))
        (mroot s (drop (C' - 2 ^ s) P))) as (b' & mh' & En').
      rewrite En in En'. simplify_eq. eapply Hbr; [done|done|]. by apply (carry_ok_step C j s m' P pos ml matchh b).
Qed.

(** The bits of [C] and [C + 2^j] around the end of the carry. *)
Record carry_end (C C' e : nat) : Prop := {
  ce_odd : Nat.odd (C' / 2 ^ e) = true;
  ce_seg : (seg C' e + 2 ^ e = C')%nat;
  ce_even : Nat.odd (C / 2 ^ e) = false;
  ce_above : forall i, (e < i)%nat -> (C / 2 ^ i = C' / 2 ^ i)%nat /\ seg C i = seg C' i;
  ce_below : forall i, (i < e)%nat -> Nat.odd (C' / 2 ^ i) = false
}.

Lemma carry_ends C j e q : (j <= e)%nat -> (C + 2 ^ j = (2 * q + 1) * 2 ^ e)%nat -> carry_end C (C + 2 ^ j) e.
Proof.
  intros Hj HC. destruct (carry_above C j e q Hj HC) as [He Hab].
  pose proof (pow2_pos e). pose proof (Nat.pow_succ_r' 2 e).
  split.
  - rewrite HC. rewrite Nat.div_mul by lia. apply Nat.odd_spec. by exists q.
  - unfold seg. rewrite HC. replace ((2 * q + 1) * 2 ^ e)%nat with (q * 2 ^ S e + 2 ^ e)%nat by nia.
    rewrite div_pow2_block by lia. nia.
  - rewrite He. rewrite <- Nat.negb_even. by rewrite Nat.even_mul.
  - intros i Hi. split; [by apply Hab|]. apply seg_eq, Hab. lia.
  - intros i Hi. rewrite HC. replace e with (S (e - S i) + i)%nat by lia.
    rewrite Nat.pow_add_r, Nat.mul_assoc, Nat.div_mul by (pose proof (pow2_pos i); lia).
    rewrite Nat.pow_succ_r', <- Nat.negb_even, !Nat.even_mul. by rewrite orb_true_r.
Qed.

Lemma existsb_ext_seq (f g : nat -> bool) a n : (forall i, (a <= i < a + n)%nat -> f i = g i) ->
  existsb f (seq a n) = existsb g (seq a n).
Proof.
  revert a. induction n as [|n IH]; intros a Hfg; [done|]. cbn [seq existsb]. rewrite Hfg by lia.
  f_equal. apply IH. intros. apply Hfg. lia.
Qed.

Lemma any_mut_below lo C P : (lo <= 32)%nat -> (forall i, (i < lo)%nat -> Nat.odd (C / 2 ^ i) = false) ->
  any_mut 0 C P = any_mut lo C P.
Proof.
  intros Hlo Hz. induction lo as [|lo IH]; [done|]. rewrite IH, any_mut_S, Hz by (intros; try apply Hz; lia). done.
Qed.

Lemma any_mut_carry C C' e P : (e < 32)%nat -> carry_end C C' e -> length P = C' ->
  any_mut e C P || mmut e (drop (C' - 2 ^ e) P) = any_mut 0 C' P.
Proof.
  intros He Hc HP. rewrite (any_mut_below e C' P) by (try lia; apply (ce_below _ _ _ Hc)).
  rewrite !(any_mut_S e) by lia. rewrite (ce_even _ _ _ Hc), (ce_odd _ _ _ Hc). cbn [andb orb].
  pose proof (ce_seg _ _ _ Hc) as Hseg. pose proof (pow2_pos e).
  replace (seg C' e) with (C' - 2 ^ e)%nat by lia. rewrite (take_ge (drop _ _)) by (rewrite length_drop; lia).
  rewrite orb_comm. f_equal. apply existsb_ext_seq. intros i Hi.
  by destruct (ce_above _ _ _ Hc i ltac:(lia)) as [-> ->].
Qed.

(** The segments do not see leaves added later. *)
Lemma seg_app C i (P : list uint256) x : length P = C -> Nat.odd (C / 2 ^ i) = true ->
  take (2 ^ i) (drop (seg C i) (P ++ [x])) = take (2 ^ i) (drop (seg C i) P).
Proof.
  intros HP Ho. pose proof (seg_bit C i Ho). rewrite drop_app_le by lia.
  rewrite take_app_le; [done|]. rewrite length_drop. lia.
Qed.

Lemma any_mut_app lo C P x : length P = C -> any_mut lo C (P ++ [x]) = any_mut lo C P.
Proof.
  intros HP. apply existsb_ext_seq. intros i _. destruct (Nat.odd (C / 2 ^ i)) eqn:Ho; [|done].
  by rewrite seg_app.
Qed.

(** The state after [C] leaves [P]. *)
Record leaves_ok (pos C : nat) (P : list uint256) (st : mstate) : Prop := {
  lo_count : mCount st = Z.of_nat C;
  lo_length : length P = C;
  lo_inner : inner_ok 0 C P (mInner st);
  lo_mut : mMutated st = any_mut 0 C P;
  lo_branch : forall b, mBranch st = Some b -> branch_ok 0 C C pos P (mMatchlevel st) b
}.

Lemma branch_ok_start pos C P x ml b : length P = C -> branch_ok 0 C C pos P ml b ->
  carry_ok 0 C (C + 1) pos (P ++ [x]) ml (Z.of_nat C =? Z.of_nat pos) b.
Proof.
  intros HP Hb. destruct (Z.eqb_spec (Z.of_nat C) (Z.of_nat pos)) as [E%Nat2Z.inj|Hne]; cbn [carry_ok].
  - subst pos. change (2 ^ 0)%nat with 1%nat. split; [lia|].
    destruct Hb as [(_ & _ & ->)|(i & _ & Ho & Hp & _)]; [done|]. pose proof (seg_bit C i Ho). lia.
  - destruct Hb as [(Hp & -> & ->)|(i & Hi & Ho & Hp & -> & ->)]; [left; repeat split; lia|].
    right. exists i. rewrite seg_app by done. auto.
Qed.

Lemma branch_ok_end e C C' pos P ml matchh b : carry_end C C' e -> length P = C' ->
  carry_ok e C C' pos P ml matchh b ->
  branch_ok 0 C' C' pos P (if matchh then Z.of_nat e else ml) b.
Proof.
  intros Hc HP. pose proof (ce_seg _ _ _ Hc) as Hseg. destruct matchh; cbn [carry_ok].
  - intros [Hp ->]. right. exists e. replace (C' - 2 ^ e)%nat with (seg C' e) in * by lia.
    rewrite take_ge by (rewrite length_drop; lia). repeat split; (lia || apply Hc).
  - intros [(Hp & -> & ->)|(i & Hi & Ho & Hp & -> & ->)]; [by left|].
    assert (i <> e) by (intros ->; rewrite (ce_even _ _ _ Hc) in Ho; done).
    destruct (ce_above _ _ _ Hc i ltac:(lia)) as [Ed Es]. right. exists i. rewrite Es, Ed in *.
    repeat split; auto; lia.
Qed.

Lemma add_leaf_spec pos C P st x : Z.of_nat (C + 1) < 2 ^ 32 -> leaves_ok pos C P st ->
  exists st', add_leaf (Z.of_nat pos) st x = Ret st' /\ leaves_ok pos (C + 1) (P ++ [x]) st' /\
    (mBranch st = None -> mBranch st' = None) /\ (is_Some (mBranch st) -> is_Some (mBranch st')).
Proof.
  intros H32 [Hcnt HP Hin Hmut Hbr]. unfold add_leaf. rewrite Hcnt.
  assert (u32 (Z.of_nat C + 1) = Z.of_nat (C + 2 ^ 0)) as ->.
  { rewrite Nat.pow_0_r. rewrite wrapU_small by (split; lia). lia. }
  assert (inner_ok 0 C (P ++ [x]) (mInner st)) as Hin'.
  { destruct Hin as [Hl Hin]. split; [done|]. intros i Hi Ho. rewrite seg_app by done. by apply Hin. }
  destruct (absorb_spec pos C 0 (P ++ [x]) (mInner st) (mMatchlevel st) H32 32 0 (C + 1)
    (Z.of_nat C =? Z.of_nat pos) (mMutated st) (mBranch st)) as (r & Er & Hr);
    [lia|rewrite Nat.pow_0_r; lia|rewrite length_app, Nat.pow_0_r; cbn [length]; lia|done|lia|].
  assert (mroot 0 (drop (C + 2 ^ 0 - 2 ^ 0) (P ++ [x])) = x) as Ex.
  { replace (C + 2 ^ 0 - 2 ^ 0)%nat with (length P) by lia. by rewrite drop_app_length. }
  rewrite Ex in Er. rewrite Er. destruct r as [[[[e h] matchh'] mut'] br'].
  destruct Hr as (q & He & Hq & HlP & -> & Hm & Hnone & Hb). cbn [mbind outcome_bind].
  assert (length (P ++ [x]) = C + 2 ^ 0)%nat as HP' by (rewrite length_app, Nat.pow_0_r; cbn [length]; lia).
  pose proof (carry_ends C 0 e q ltac:(lia) Hq) as Hce.
  rewrite (proj2 (Nat.ltb_lt e _)) by (destruct Hin as [-> _]; lia). cbn [assert_ mbind outcome_bind].
  eexists. split; [reflexivity|]. rewrite Nat.pow_0_r in *. split; [|split; [done|]].
  - split; cbn [mCount mInner mMatchlevel mMutated mBranch]; [done|done| | |].
    + destruct Hin' as [Hl Hin']. split; [by rewrite length_insert|]. intros i Hi Ho.
      destruct (decide (i = e)) as [->|Hne].
      * rewrite list_lookup_insert_eq by lia. f_equal. pose proof (ce_seg _ _ _ Hce).
        replace (C + 1 - 2 ^ e)%nat with (seg (C + 1) e) by lia.
        by rewrite take_ge by (rewrite length_drop; lia).
      * rewrite list_lookup_insert_ne by done. destruct (decide (i < e)%nat) as [Hlt|Hge].
        { by rewrite (ce_below _ _ _ Hce i Hlt) in Ho. }
        destruct (ce_above _ _ _ Hce i ltac:(lia)) as [Ed Es]. rewrite <- Es. apply Hin'; [lia|by rewrite Ed].
    + rewrite Hm; [by apply any_mut_carry; [lia|..]|done|].
      rewrite any_mut_app by done. cbn [mmut]. by rewrite orb_false_r.
    + intros b ->. destruct (mBranch st) as [b0|] eqn:Eb; [|by specialize (Hnone eq_refl)].
      destruct (Hb b0) as (b' & [= <-] & Hb'); [by right|done|by apply branch_ok_start; [|apply Hbr]|].
      by apply (branch_ok_end e C (C + 1)).
  - cbn [mBranch]. intros [b0 Eb]. destruct (Hb b0) as (b' & -> & _); [by right|done|by apply branch_ok_start; [|apply Hbr]|].
    eauto.
Qed.

Lemma add_leaves_spec pos l : forall C P st, Z.of_nat (C + length l) < 2 ^ 32 -> leaves_ok pos C P st ->
  exists st', add_leaves (Z.of_nat pos) st l = Ret st' /\ leaves_ok pos (C + length l) (P ++ l) st' /\
    (mBranch st = None -> mBranch st' = None) /\ (is_Some (mBranch st) -> is_Some (mBranch st')).
Proof.
  induction l as [|x l IH]; intros C P st H32 Hok.
  - exists st. cbn [length]. by rewrite Nat.add_0_r, app_nil_r.
  - cbn [length add_leaves] in *. destruct (add_leaf_spec pos C P st x) as (st1 & -> & Hok1 & Hn1 & Hs1); [lia|done|].
    cbn [mbind outcome_bind].
    destruct (IH (C + 1)%nat (P ++ [x]) st1) as (st2 & -> & Hok2 & Hn2 & Hs2); [lia|done|].
    exists st2. split; [done|]. rewrite <- app_assoc in Hok2.
    replace (C + S (length l))%nat with (C + 1 + length l)%nat by lia. auto.
Qed.

Lemma lowest_level_spec n : (0 < n)%nat -> Z.of_nat n < 2 ^ 32 ->
  forall fuel s m, n = (m * 2 ^ s)%nat -> (32 <= s + fuel)%nat ->
  exists e q, lowest_level fuel (Z.of_nat n) s = Ret e /\ (e < 32)%nat /\ n = ((2 * q + 1) * 2 ^ e)%nat.
Proof.
  intros Hn H32 fuel. induction fuel as [|fuel IH]; intros s m Hm Hf; pose proof (pow2_pos s);
    assert (1 <= m)%nat by (destruct m; lia);
    assert (s < 32)%nat as Hs by (apply (pow2_below_32 s n); [nia|done]); [lia|].
  cbn [lowest_level]. rewrite (bit_clear_spec n s m), Nat.negb_even by done.
  destruct (Nat.odd m) eqn:Em.
  - apply Nat.odd_spec in Em as [q ->]. eauto.
  - rewrite <- Nat.negb_even, negb_false_iff, Nat.even_spec in Em. destruct Em as [m' ->].
    apply (IH (S s) m'); [|lia]. rewrite Nat.pow_succ_r'. lia.
Qed.

(** The state of the final sweep: [h] covers the leaves from [C - 2^e] on. *)
Record sweep_ok (pos : nat) (l inner : list uint256) (ml : Z) (C e : nat) (matchh : bool)
    (br : option (list uint256)) : Prop := {
  sw_level : exists q, C = ((2 * q + 1) * 2 ^ e)%nat;
  sw_cover : (C - 2 ^ e < length l <= C)%nat;
  sw_top : (C <= 2 ^ height (length l))%nat;
  sw_inner : inner_ok (S e) C l inner;
  sw_branch : forall b, br = Some b -> (pos < length l)%nat ->
    if matchh then (C - 2 ^ e <= pos < C)%nat /\ b = mbranch e (pos - (C - 2 ^ e)) (drop (C - 2 ^ e) l)
    else branch_ok (S e) C C pos l ml b
}.

(** Doubling [h]: the carry that starts one iteration of the sweep. *)
Lemma sweep_double pos l inner ml C e matchh b : sweep_ok pos l inner ml C e matchh (Some b) ->
  (pos < length l)%nat ->
  carry_ok (S e) C (C + 2 ^ e) pos l ml matchh (if matchh then b ++ [mroot e (drop (C - 2 ^ e) l)] else b).
Proof.
  intros [_ Hcov _ _ Hb] Hpos. specialize (Hb b eq_refl Hpos). pose proof (pow2_pos e).
  destruct matchh; cbn [carry_ok].
  - destruct Hb as [Hp ->]. rewrite (Nat.pow_succ_r' 2 e).
    replace (C + 2 ^ e - 2 * 2 ^ e)%nat with (C - 2 ^ e)%nat by lia. split; [lia|]. cbn [mbranch].
    rewrite decide_True by lia. rewrite (drop_ge (drop _ _)), (take_ge (drop _ _)) by (rewrite length_drop; lia).
    done.
  - destruct Hb as [(? & _)|Hb]; [lia|by right].
Qed.

(** Rounding up to the next multiple stays below the power of two. *)
Lemma next_multiple q e K : (1 <= q)%nat -> ((2 * q + 1) * 2 ^ e <= 2 ^ K)%nat ->
  ((2 * q + 1) * 2 ^ e + 2 ^ e <= 2 ^ K)%nat.
Proof.
  intros Hq HK. pose proof (pow2_pos e).
  assert (e < K)%nat as HeK by (apply (Nat.pow_lt_mono_r_iff 2); [lia|nia]).
  replace K with (K - S e + S e)%nat in * by lia. rewrite Nat.pow_add_r, Nat.pow_succ_r' in *.
  set (d := (2 ^ (K - S e))%nat) in *.
  assert (2 * q + 1 <= 2 * d)%nat by (apply (Nat.mul_le_mono_pos_r _ _ (2 ^ e)); lia).
  apply (Nat.le_trans _ ((2 * d) * 2 ^ e)); [|lia].
  replace ((2 * q + 1) * 2 ^ e + 2 ^ e)%nat with ((2 * q + 2) * 2 ^ e)%nat by lia.
  apply Nat.mul_le_mono_r. lia.
Qed.

(** The carried state is a state of the sweep. *)
Lemma sweep_branch_end e C C' pos l ml matchh b : carry_end C C' e -> (pos < length l <= C')%nat ->
  carry_ok e C C' pos l ml matchh b ->
  if matchh then (C' - 2 ^ e <= pos < C')%nat /\ b = mbranch e (pos - (C' - 2 ^ e)) (drop (C' - 2 ^ e) l)
  else branch_ok (S e) C' C' pos l ml b.
Proof.
  intros Hce Hpos. destruct matchh; cbn [carry_ok]; [done|].
  intros [(? & _)|(i & Hi & Ho & Hp & -> & ->)]; [lia|].
  assert (i <> e) by (intros ->; rewrite (ce_even _ _ _ Hce) in Ho; done).
  destruct (ce_above _ _ _ Hce i ltac:(lia)) as [Ed Es]. right. exists i. rewrite Es, Ed in *.
  repeat split; auto; lia.
Qed.

Lemma height_pow_le n : Z.of_nat n <= 2 ^ 31 -> Z.of_nat (2 ^ height n) <= 2 ^ 31.
Proof.
  intros Hn. rewrite Zpow2_nat. apply Z.pow_le_mono_r; [lia|]. unfold height.
  destruct (decide (n = 0)%nat) as [->|]; [done|].
  apply (Nat2Z.inj_le _ 31). apply Nat.log2_up_le_pow2; [lia|]. apply Nat2Z.inj_le. by rewrite Zpow2_nat.
Qed.

Lemma sweep_spec pos l inner ml : Z.of_nat (length l) <= 2 ^ 31 ->
  forall fuel C e matchh br, sweep_ok pos l inner ml C e matchh br -> (32 <= e + fuel)%nat ->
  exists br', sweep fuel inner ml (Z.of_nat C) e (mroot e (drop (C - 2 ^ e) l)) matchh br
    = Ret (mroot (height (length l)) l, br') /\ (br = None -> br' = None) /\
    (forall b, br = Some b -> (pos < length l)%nat -> br' = Some (mbranch (height (length l)) pos l)).
Proof.
  intros H31.
  pose proof (height_pow_le (length l) H31) as HK.
  intros fuel. induction fuel as [|fuel IH]; intros C e matchh br Hok Hf;
    pose proof Hok as [[q Hq] Hcov Htop Hin Hbr]; pose proof (pow2_pos e); pose proof (Nat.pow_succ_r' 2 e);
    assert (e < 32)%nat as He by (apply (pow2_below_32 e C); [nia|lia]); [lia|].
  cbn [sweep]. rewrite pow2_lt_32 by done.
  destruct (Z.eqb_spec (Z.of_nat C) (Z.of_nat (2 ^ e))) as [E%Nat2Z.inj|Hne].
  - assert (e = height (length l)) as ->.
    { apply Nat.le_antisymm; [apply (Nat.pow_le_mono_r_iff 2); lia|]. apply Nat.log2_up_le_pow2; lia. }
    replace (C - 2 ^ height (length l))%nat with 0%nat in * by lia. rewrite drop_0 in *.
    eexists. split; [reflexivity|]. split; [done|]. intros b -> Hpos. specialize (Hbr b eq_refl Hpos).
    destruct matchh; [destruct Hbr as [_ ->]; by rewrite Nat.sub_0_r|].
    destruct Hbr as [(? & _)|(i & Hi & Ho & _)]; [lia|]. exfalso.
    rewrite Nat.div_small in Ho; [done|]. rewrite E. apply Nat.pow_lt_mono_r; lia.
  - assert (C <> 2 ^ e)%nat as Hne' by (intros ->; done).
    assert (C + 2 ^ e <= 2 ^ height (length l))%nat as Hstep
      by (rewrite Hq in *; apply next_multiple; [destruct q; lia|done]).
    rewrite wrapU_small by (split; lia). rewrite <- Nat2Z.inj_add.
    assert (Hash2 (mroot e (drop (C - 2 ^ e) l)) (mroot e (drop (C - 2 ^ e) l))
      = mroot (S e) (drop (C + 2 ^ e - 2 ^ S e) l)) as ->.
    { rewrite <- mroot_half by (rewrite length_drop; lia). do 2 f_equal. lia. }
    rewrite (propagate_absorb false).
    set (br1 := match br with Some b => if matchh then Some _ else Some b | None => None end).
    destruct (absorb_spec pos C e l inner ml ltac:(lia) 32 (S e) (q + 1) matchh false br1)
      as (r & -> & Hr); [lia|nia|lia|done|lia|].
    destruct r as [[[[e' h'] matchh'] mut'] br']. destruct Hr as (q' & He' & Hq' & HlP & -> & _ & Hnone & Hb).
    cbn [mbind outcome_bind]. pose proof (carry_ends C e e' q' ltac:(lia) Hq') as Hce.
    assert (br = None -> br' = None) as Hnone' by (intros Ebr; apply Hnone; unfold br1; by rewrite Ebr).
    assert (forall b, br = Some b -> (pos < length l)%nat ->
      exists b', br' = Some b' /\ carry_ok e' C (C + 2 ^ e) pos l ml matchh' b') as Hb1.
    { intros b -> Hpos. apply (Hb (if matchh then b ++ [mroot e (drop (C - 2 ^ e) l)] else b)).
      - by left.
      - unfold br1. by destruct matchh.
      - by apply (sweep_double pos l inner ml). }
    destruct (IH (C + 2 ^ e)%nat e' matchh' br') as (br'' & E' & Hn' & Hb'); [|lia|].
    { split; [eauto|lia|done| |].
      - destruct Hin as [Hl Hin]. split; [done|]. intros i Hi Ho.
        destruct (ce_above _ _ _ Hce i ltac:(lia)) as [Ed Es]. rewrite <- Es. apply Hin; [lia|by rewrite Ed].
      - intros b -> Hpos. destruct br as [b0|]; [|by specialize (Hnone' eq_refl)].
        destruct (Hb1 b0 eq_refl Hpos) as (b' & [= <-] & Hc). apply (sweep_branch_end e' C); [done|lia|done]. }
    exists br''. split; [exact E'|]. split.
    + intros ->. auto.
    + intros b -> Hpos. destruct (Hb1 b eq_refl Hpos) as (b' & -> & _). by apply (Hb' b').
Qed.

(** ** The computation and the reference *)

Lemma any_mut_true C P : any_mut 0 C P = true <->
  exists i, (i < 32)%nat /\ Nat.odd (C / 2 ^ i) = true /\ mmut i (take (2 ^ i) (drop (seg C i) P)) = true.
Proof.
  unfold any_mut. rewrite existsb_exists. split.
  - intros (i & Hi & [? ?]%andb_true_iff). exists i. apply in_seq in Hi. repeat split; (done || lia).
  - intros (i & Hi & Ho & Hm). exists i. rewrite Ho, Hm. split; [apply in_seq; lia|done].
Qed.

Lemma mmut_nil k : mmut k [] = false.
Proof.
  induction k as [|k IH]; [done|]. rewrite mmut_S, take_nil, drop_nil, IH. cbn [orb].
  rewrite bool_decide_false; [done|]. pose proof (pow2_pos (S k)). cbn [length]. lia.
Qed.

Lemma any_mut_pow2 k l : (k < 32)%nat -> length l = (2 ^ k)%nat -> any_mut 0 (2 ^ k) l = mmut k l.
Proof.
  intros Hk Hl. pose proof (pow2_pos k).
  assert (forall i, (i <> k) -> Nat.odd (2 ^ k / 2 ^ i) = false) as Hbit.
  { intros i Hi. destruct (decide (i < k)%nat).
    - replace k with (S (k - S i) + i)%nat by lia.
      rewrite Nat.pow_add_r, Nat.div_mul by (pose proof (pow2_pos i); lia).
      rewrite Nat.pow_succ_r', <- Nat.negb_even. by rewrite Nat.even_mul.
    - rewrite Nat.div_small; [done|]. apply Nat.pow_lt_mono_r; lia. }
  assert (seg (2 ^ k) k = 0%nat) as Hs.
  { unfold seg. rewrite Nat.div_small; [done|]. apply Nat.pow_lt_mono_r; lia. }
  apply eq_true_iff_eq. rewrite any_mut_true. split.
  - intros (i & Hi & Ho & Hm). destruct (decide (i = k)) as [->|Hne]; [|by rewrite Hbit in Ho].
    rewrite Hs, drop_0, take_ge in Hm by lia. done.
  - intros Hm. exists k. rewrite Nat.div_same, Hs, drop_0, take_ge by lia. auto.
Qed.

(** The levels of [2^k + r] leaves: one full subtree, then those of [r]. *)
Lemma high_bit k r i : (i < k)%nat ->
  Nat.odd ((2 ^ k + r) / 2 ^ i) = Nat.odd (r / 2 ^ i) /\ seg (2 ^ k + r) i = (2 ^ k + seg r i)%nat.
Proof.
  intros Hi. pose proof (pow2_pos i). pose proof (pow2_pos (S i)). split.
  - replace k with (S (k - S i) + i)%nat by lia. rewrite Nat.pow_add_r, Nat.div_add_l by lia.
    rewrite Nat.odd_add, Nat.pow_succ_r', Nat.odd_mul. done.
  - unfold seg. replace (2 ^ k)%nat with (2 ^ (k - S i) * 2 ^ S i)%nat
      by (rewrite <- Nat.pow_add_r; f_equal; lia).
    rewrite Nat.div_add_l by lia. lia.
Qed.

Lemma mmut_any_mut k : (k < 32)%nat -> forall l, (0 < length l <= 2 ^ k)%nat -> mmut k l = any_mut 0 (length l) l.
Proof.
  induction k as [|k IH]; intros Hk l Hl.
  - assert (length l = 2 ^ 0)%nat as E by (rewrite Nat.pow_0_r in *; lia). by rewrite E, any_mut_pow2.
  - pose proof (pow2_pos k). pose proof (Nat.pow_succ_r' 2 k) as Es.
    destruct (decide (length l = 2 ^ S k)%nat) as [E|Hne]; [by rewrite E, any_mut_pow2|].
    rewrite mmut_S, (bool_decide_false (length l = _)), orb_false_r by done.
    destruct (decide (length l <= 2 ^ k)%nat) as [Hle|Hgt].
    { rewrite take_ge, drop_ge, mmut_nil, orb_false_r by done. apply IH; lia. }
    set (b := drop (2 ^ k) l). assert (length b = length l - 2 ^ k)%nat as Hb by (unfold b; by rewrite length_drop).
    rewrite (IH ltac:(lia) b) by lia. replace (length l) with (2 ^ k + length b)%nat by lia.
    apply eq_true_iff_eq. rewrite orb_true_iff, !any_mut_true. split.
    + intros [Hm|(i & Hi & Ho & Hm)].
      * exists k. assert ((2 ^ k + length b) / 2 ^ k = 1)%nat as ->
          by (replace (2 ^ k + length b)%nat with (1 * 2 ^ k + length b)%nat by lia; apply div_pow2_block; lia).
        assert (seg (2 ^ k + length b) k = 0)%nat as -> by (unfold seg; by rewrite Nat.div_small by lia).
        rewrite drop_0. split; [lia|done].
      * assert (i < k)%nat as Hik.
        { destruct (decide (i < k)%nat); [done|]. rewrite Nat.div_small in Ho; [done|].
          apply (Nat.lt_le_trans _ (2 ^ k)); [lia|]. apply Nat.pow_le_mono_r; lia. }
        destruct (high_bit k (length b) i Hik) as [Ho' Hs]. exists i. rewrite Ho', Hs, <- drop_drop. auto.
    + intros (i & Hi & Ho & Hm). destruct (decide (i < k)%nat) as [Hik|Hik].
      * right. destruct (high_bit k (length b) i Hik) as [Ho' Hs]. rewrite Ho', Hs, <- drop_drop in *. eauto.
      * left. destruct (decide (i = k)) as [->|].
        -- assert (seg (2 ^ k + length b) k = 0)%nat as Hz by (unfold seg; by rewrite Nat.div_small by lia).
           by rewrite Hz, drop_0 in Hm.
        -- rewrite Nat.div_small in Ho; [done|].
           apply (Nat.lt_le_trans _ (2 ^ S k)); [lia|]. apply Nat.pow_le_mono_r; lia.
Qed.

(** The initial state. *)
Lemma leaves_ok_init pos pb : leaves_ok pos 0 []
  {| mCount := 0; mInner := replicate 32 uint256_null; mMatchlevel := -1; mMutated := false;
     mBranch := if pb : bool then Some [] else None |}.
Proof.
  split; cbn [mCount mInner mMatchlevel mMutated mBranch]; [done|done| | |].
  - split; [done|]. intros i _. by rewrite Nat.Div0.div_0_l.
  - symmetry. apply not_true_is_false. rewrite any_mut_true. intros (i & _ & Ho & _). by rewrite Nat.Div0.div_0_l in Ho.
  - destruct pb; [|done]. intros b [= <-]. left. repeat split; lia.
Qed.

Lemma MerkleComputation_spec l pos pb : l <> [] -> Z.of_nat (length l) <= 2 ^ 31 ->
  exists br, MerkleComputation l (Z.of_nat pos) pb = Ret (mroot (height (length l)) l, mmut (height (length l)) l, br) /\
    (pb = true -> (pos < length l)%nat -> br = Some (mbranch (height (length l)) pos l)).
Proof.
  intros Hne H31. assert (0 < length l)%nat as Hpos by (destruct l; [done|simpl; lia]).
  destruct (add_leaves_spec pos l 0 [] _ ltac:(simpl; lia) (leaves_ok_init pos pb)) as (st & E & Hok & Hn & Hs).
  unfold MerkleComputation. destruct l as [|x l0]; [done|]. set (l := x :: l0) in *. rewrite E. cbn [mbind outcome_bind].
  destruct Hok as [Hc Hl Hin Hm Hb]. cbn [plus app] in *. rewrite Hc.
  destruct (lowest_level_spec (length l) Hpos ltac:(lia) 32 0 (length l)) as (e & q & -> & He & Hq);
    [rewrite Nat.pow_0_r; lia|lia|]. cbn [mbind outcome_bind].
  assert (carry_end (length l - 1) (length l) e) as Hce.
  { replace (length l) with (length l - 1 + 2 ^ 0)%nat by (rewrite Nat.pow_0_r; lia).
    replace (length l - 1 + 2 ^ 0 - 1)%nat with (length l - 1)%nat by (rewrite Nat.pow_0_r; lia).
    apply (carry_ends _ 0 e q); [lia|]. rewrite Nat.pow_0_r. lia. }
  pose proof (ce_seg _ _ _ Hce) as Hseg. pose proof (pow2_pos e). destruct Hin as [Hlen Hin].
  rewrite (Hin e ltac:(lia) (ce_odd _ _ _ Hce)). cbn [deref mbind outcome_bind].
  replace (seg (length l) e) with (length l - 2 ^ e)%nat by lia. rewrite take_ge by (rewrite length_drop; lia).
  destruct (sweep_spec pos l (mInner st) (mMatchlevel st) H31 32 (length l) e
    (mMatchlevel st =? Z.of_nat e) (mBranch st)) as (br & -> & _ & Hbr); [|lia|].
  - split; [eauto|lia| |split; [done|intros; apply Hin; [lia|done]]|].
    { apply Nat.log2_up_le_pow2; [done|]. unfold height. lia. }
    intros b Eb Hp. specialize (Hb b Eb). destruct Hb as [(? & _)|(i & _ & Ho & Hi & -> & ->)]; [lia|].
    destruct (Z.eqb_spec (Z.of_nat i) (Z.of_nat e)) as [->%Nat2Z.inj|Hie].
    + replace (length l - 2 ^ e)%nat with (seg (length l) e) by lia. rewrite take_ge by (rewrite length_drop; lia).
      split; [lia|done].
    + right. exists i. repeat split; auto; try lia.
      destruct (decide (i < e)%nat) as [Hlt|]; [|lia]. by rewrite (ce_below _ _ _ Hce i Hlt) in Ho.
  - cbn [mbind outcome_bind]. exists br. split.
    + rewrite Hm. do 3 f_equal. symmetry. apply mmut_any_mut.
      * apply (pow2_below_32 _ (2 ^ height (length l))); [done|].
        apply (Z.le_lt_trans _ (2 ^ 31)); [|done]. apply height_pow_le. lia.
      * split; [done|]. by apply Nat.log2_up_le_pow2.
    + intros -> Hp. destruct Hs as [b Eb]; [done|]. by apply (Hbr b).
Qed.

(** ** Branches verify *)

Lemma mbranch_length k : forall pos l, length (mbranch k pos l) = k.
Proof.
  induction k as [|k IH]; intros pos l; [done|]. cbn [mbranch].
  destruct (decide _); rewrite length_app, IH; simpl; lia.
Qed.

Lemma RootFromBranch_snoc br x : forall h idx, 0 <= idx ->
  ComputeMerkleRootFromBranch h (br ++ [x]) idx =
  let h' := ComputeMerkleRootFromBranch h br idx in
  if Z.testbit idx (Z.of_nat (length br)) then Hash2 x h' else Hash2 h' x.
Proof.
  induction br as [|y br IH]; intros h idx Hidx; cbn [app ComputeMerkleRootFromBranch length].
  - change 1 with (2 ^ 0). rewrite land_pow2_eqb, negb_involutive by lia. done.
  - rewrite IH by (by apply Z.shiftr_nonneg). rewrite Z.shiftr_spec by lia.
    by rewrite Nat2Z.inj_succ, Z.add_1_r.
Qed.

Lemma mbranch_verifies k : forall l pos idx, (pos < length l <= 2 ^ k)%nat -> 0 <= idx ->
  idx mod 2 ^ Z.of_nat k = Z.of_nat pos ->
  ComputeMerkleRootFromBranch (default uint256_null (l !! pos)) (mbranch k pos l) idx = mroot k l.
Proof.
  induction k as [|k IH]; intros l pos idx Hpos Hidx Hmod.
  - rewrite Nat.pow_0_r in Hpos. destruct l as [|x [|y l]]; simpl in *; try lia. by replace pos with 0%nat by lia.
  - pose proof (pow2_pos k) as Hk. pose proof (Nat.pow_succ_r' 2 k) as Es.
    rewrite Nat2Z.inj_succ, Z.pow_succ_r in Hmod by lia. rewrite <- Zpow2_nat in Hmod.
    assert (idx mod Z.of_nat (2 ^ k) = Z.of_nat pos mod Z.of_nat (2 ^ k)) as Hlow.
    { rewrite <- Hmod. symmetry. apply Z.mod_mod_divide. exists 2. lia. }
    assert (Z.testbit idx (Z.of_nat k) = (2 ^ k <=? pos)%nat) as Hbit.
    { rewrite <- (Z.mod_pow2_bits_low idx (Z.succ (Z.of_nat k))) by lia.
      rewrite Z.pow_succ_r, <- Zpow2_nat, Hmod by lia.
      rewrite testbit_top by (rewrite ?Z.pow_add_r, <- ?Zpow2_nat by lia; lia). rewrite <- Zpow2_nat.
      destruct (Nat.leb_spec (2 ^ k) pos); [apply Z.leb_le|apply Z.leb_gt]; lia. }
    cbn [mbranch]. destruct (decide (pos < 2 ^ k)%nat) as [Hlt|Hge].
    + rewrite RootFromBranch_snoc, mbranch_length, Hbit by done. cbv zeta.
      rewrite (proj2 (Nat.leb_gt (2 ^ k) pos)) by lia.
      replace (default uint256_null (l !! pos)) with (default uint256_null (take (2 ^ k) l !! pos))
        by (by rewrite lookup_take_lt by lia).
      rewrite IH; [|rewrite length_take; lia|done|rewrite <- Zpow2_nat, Hlow, Z.mod_small by lia; done].
      cbn [mroot]. by destruct (drop (2 ^ k) l).
    + rewrite RootFromBranch_snoc, mbranch_length, Hbit by done. cbv zeta.
      rewrite (proj2 (Nat.leb_le (2 ^ k) pos)) by lia.
      replace (default uint256_null (l !! pos)) with (default uint256_null (drop (2 ^ k) l !! (pos - 2 ^ k)%nat))
        by (rewrite lookup_drop; do 2 f_equal; lia).
      rewrite IH; [|rewrite length_drop; lia|done|].
      * rewrite mroot_full; [done|]. intros E%(f_equal length). rewrite length_drop in E. simpl in E. lia.
      * rewrite <- Zpow2_nat, Hlow. symmetry. apply (Z.mod_unique_pos _ _ 1); lia.
Qed.

(** ** A root determines an unmutated list *)

(** The pairs hashed in computing a root. *)
Fixpoint mpairs (k : nat) (l : list uint256) : list (uint256 * uint256) :=
  match k with
  | O => []
  | S k' =>
      let a := take (2 ^ k') l in
      match drop (2 ^ k') l with
      | [] => (mroot k' a, mroot k' a) :: mpairs k' a
      | b => (mroot k' a, mroot k' b) :: mpairs k' a ++ mpairs k' b
      end
  end.

(** No two different pairs of a list of pairs have the same hash. *)
Definition no_collision (ps : list (uint256 * uint256)) : Prop :=
  forall p q, p ∈ ps -> q ∈ ps -> Hash2 p.1 p.2 = Hash2 q.1 q.2 -> p = q.

Lemma no_collision_sub ps qs : qs ⊆ ps -> no_collision ps -> no_collision qs.
Proof. intros Hs Hn p q Hp Hq. apply Hn; auto. Qed.

(** The top pair, and the pairs of the two halves. *)
Lemma mpairs_top k l : (0 < length l)%nat ->
  let a := take (2 ^ k) l in
  exists y, (mroot k a, y) ∈ mpairs (S k) l /\ mroot (S k) l = Hash2 (mroot k a) y /\
    mpairs k a ⊆ mpairs (S k) l /\
    match drop (2 ^ k) l with [] => y = mroot k a | b => y = mroot k b /\ mpairs k b ⊆ mpairs (S k) l end.
Proof.
  intros Hl a. cbn [mpairs mroot]. destruct (drop (2 ^ k) l) as [|z b]; eexists; (split; [by left|]);
    (split; [done|]); [set_solver|]. split; [set_solver|]. split; [done|set_solver].
Qed.

Lemma mmut_dup k l : drop (2 ^ k) l <> [] -> drop (2 ^ k) l = take (2 ^ k) l -> mmut (S k) l = true.
Proof.
  intros Hb Hab. rewrite mmut_S, Hab, (bool_decide_true (mroot _ _ = _)), andb_true_r by done.
  rewrite bool_decide_true, !orb_true_r; [done|]. apply (f_equal length) in Hab.
  rewrite length_take, length_drop in Hab. pose proof (Nat.pow_succ_r' 2 k).
  destruct (decide (length l <= 2 ^ k)%nat); [by rewrite drop_ge in Hb|]. lia.
Qed.

(** The halves of a nonempty list of at most [2^(k+1)] leaves. *)
Lemma half_lengths k (l : list uint256) : (0 < length l <= 2 ^ S k)%nat ->
  (0 < length (take (2 ^ k) l) <= 2 ^ k)%nat /\
  (drop (2 ^ k) l <> [] -> (0 < length (drop (2 ^ k) l) <= 2 ^ k)%nat).
Proof.
  intros Hl. pose proof (pow2_pos k). pose proof (Nat.pow_succ_r' 2 k). rewrite length_take. split; [lia|].
  intros Hne. assert (length (drop (2 ^ k) l) <> 0%nat) by (by destruct (drop (2 ^ k) l)).
  rewrite length_drop in *. lia.
Qed.

Lemma mroot_unique k : forall l1 l2,
  (0 < length l1 <= 2 ^ k)%nat -> (0 < length l2 <= 2 ^ k)%nat ->
  no_collision (mpairs k l1 ++ mpairs k l2) -> mmut k l1 = false -> mmut k l2 = false ->
  mroot k l1 = mroot k l2 -> l1 = l2.
Proof.
  induction k as [|k IH]; intros l1 l2 H1 H2 Hnc Hm1 Hm2 Hr.
  { rewrite Nat.pow_0_r in *. destruct l1 as [|x [|? ?]], l2 as [|y [|? ?]]; simpl in *; try lia. congruence. }
  destruct (mpairs_top k l1 ltac:(lia)) as (y1 & Hp1 & E1 & Hs1 & Hb1).
  destruct (mpairs_top k l2 ltac:(lia)) as (y2 & Hp2 & E2 & Hs2 & Hb2).
  rewrite E1, E2 in Hr. apply (Hnc (_, y1) (_, y2)) in Hr as [= Ea Ey]; [|set_solver|set_solver].
  pose proof Hm1 as Hm1'. pose proof Hm2 as Hm2'. rewrite mmut_S in Hm1', Hm2'.
  apply orb_false_iff in Hm1' as [[Hma1 Hmb1]%orb_false_iff _].
  apply orb_false_iff in Hm2' as [[Hma2 Hmb2]%orb_false_iff _].
  destruct (half_lengths k l1 H1) as [La1 Lb1], (half_lengths k l2 H2) as [La2 Lb2].
  assert (forall ps, ps ⊆ mpairs (S k) l1 ++ mpairs (S k) l2 -> no_collision ps) as Hsub
    by (intros ps Hps; by apply (no_collision_sub _ _ Hps)).
  assert (take (2 ^ k) l1 = take (2 ^ k) l2) as Et by (apply IH; auto; apply Hsub; set_solver).
  rewrite <- (take_drop (2 ^ k) l1), <- (take_drop (2 ^ k) l2), Et. f_equal.
  destruct (drop (2 ^ k) l1) as [|z1 b1] eqn:D1, (drop (2 ^ k) l2) as [|z2 b2] eqn:D2; [done|exfalso|exfalso|].
  - destruct Hb2 as [-> Hs2']. rewrite Hb1 in Ey. apply IH in Ey; auto; [|apply Hsub; set_solver].
    rewrite mmut_dup in Hm2; [done|by rewrite D2|]. by rewrite D2, <- Et.
  - destruct Hb1 as [-> Hs1']. rewrite Hb2 in Ey. apply IH in Ey; auto; [|apply Hsub; set_solver].
    rewrite mmut_dup in Hm1; [done|by rewrite D1|]. by rewrite D1, Et.
  - destruct Hb1 as [-> Hs1'], Hb2 as [-> Hs2']. apply IH; auto. apply Hsub. set_solver.
Qed.

(** Trees of different heights: a leaf of one is an inner hash of the other. *)
Lemma mroot_heights k d : forall l1 l2,
  (0 < length l1 <= 2 ^ k)%nat -> (0 < length l2)%nat ->
  no_collision (mpairs k l1 ++ mpairs (k + S d) l2) -> mroot k l1 = mroot (k + S d) l2 ->
  exists x p, x ∈ l1 /\ p ∈ mpairs (k + S d) l2 /\ x = Hash2 p.1 p.2.
Proof.
  induction k as [|k IH]; intros l1 l2 H1 H2 Hnc Hr.
  - rewrite Nat.pow_0_r in *. destruct l1 as [|x [|? ?]]; simpl in H1; try lia.
    destruct (mpairs_top d l2 H2) as (y & Hp & E & _). cbn [plus] in *. rewrite E in Hr. simpl in Hr.
    exists x. eexists. split; [by left|]. split; [exact Hp|done].
  - cbn [plus] in *. destruct (mpairs_top k l1 ltac:(lia)) as (y1 & Hp1 & E1 & Hs1 & _).
    destruct (mpairs_top (k + S d) l2 H2) as (y2 & Hp2 & E2 & Hs2 & _).
    rewrite E1, E2 in Hr. apply (Hnc (_, y1) (_, y2)) in Hr as [= Ea Ey]; [|set_solver|set_solver].
    destruct (half_lengths k l1 H1) as [La1 _].
    destruct (IH (take (2 ^ k) l1) (take (2 ^ (k + S d)) l2)) as (x & p & Hx & Hp & ->); [done| | |done|].
    + rewrite length_take. pose proof (pow2_pos (k + S d)). lia.
    + apply (no_collision_sub (mpairs (S k) l1 ++ mpairs (S (k + S d)) l2)); [set_solver|done].
    + exists (Hash2 p.1 p.2), p. split; [|set_solver].
      apply list_elem_of_In in Hx. apply list_elem_of_In. rewrite <- (take_drop (2 ^ k) l1). apply in_or_app. by left.
Qed.

End Merkle.

(** ** Properties *)

(** A hash without collisions, for the witnesses. *)
Definition pair_hash (a b : uint256) : uint256 := Z.of_nat (length a) :: a ++ b.

Lemma pair_hash_inj a b c d : pair_hash a b = pair_hash c d -> a = c /\ b = d.
Proof. unfold pair_hash. intros [= Hl%Nat2Z.inj Happ]. by apply app_inj_1 in Happ. Qed.

(** The constant-space algorithm computes, for up to [2^31] leaves, the
    root of the Merkle tree of least height and reports a mutation exactly
    when two complete sibling subtrees are equal; it never reads an entry of
    [inner] it has not written. *)
Theorem merkle_root_reference (Hash2 : uint256 -> uint256 -> uint256) (leaves : list uint256)
  (Hne : leaves <> []) (Hlen : Z.of_nat (length leaves) <= 2 ^ 31) :
  ComputeMerkleRoot Hash2 leaves =
  Ret (mroot Hash2 (height (length leaves)) leaves, mmut Hash2 (height (length leaves)) leaves).
Proof.
  unfold ComputeMerkleRoot. replace (u32 (-1)) with (Z.of_nat (Z.to_nat (u32 (-1)))) by (by rewrite Z2Nat.id).
  destruct (MerkleComputation_spec Hash2 leaves (Z.to_nat (u32 (-1))) false Hne Hlen) as (br & -> & _). done.
Qed.

Lemma merkle_root_reference_witness :
  mmut pair_hash 2 [[1]; [2]; [3]; [3]] = true /\
  ComputeMerkleRoot pair_hash [[1]; [2]; [3]] =
  Ret (mroot pair_hash (height 3) [[1]; [2]; [3]], mmut pair_hash (height 3) [[1]; [2]; [3]]).
Proof.
  split; [reflexivity|]. apply (merkle_root_reference pair_hash [[1]; [2]; [3]]); [done|simpl; lia].
Defined.

(** The branch computed for a leaf has one hash per level and
    reconstructs the root from the leaf and its position. *)
Theorem merkle_branch_verifies (Hash2 : uint256 -> uint256 -> uint256) (leaves : list uint256) (leaf : uint256) (pos : nat)
  (Hpos : leaves !! pos = Some leaf) (Hlen : Z.of_nat (length leaves) <= 2 ^ 31) :
  exists branch, ComputeMerkleBranch Hash2 leaves (Z.of_nat pos) = Ret branch /\
    length branch = height (length leaves) /\
    ComputeMerkleRootFromBranch Hash2 leaf branch (Z.of_nat pos) = mroot Hash2 (height (length leaves)) leaves.
Proof.
  pose proof (lookup_lt_Some _ _ _ Hpos) as Hlt.
  destruct (MerkleComputation_spec Hash2 leaves pos true) as (br & E & Hbr); [by destruct leaves|done|].
  exists (mbranch Hash2 (height (length leaves)) pos leaves). unfold ComputeMerkleBranch. rewrite E.
  cbn [mbind outcome_bind]. rewrite Hbr by done. split; [done|]. split; [apply mbranch_length|].
  replace leaf with (default uint256_null (leaves !! pos)) by (by rewrite Hpos).
  assert (length leaves <= 2 ^ height (length leaves))%nat as Hh by (apply Nat.log2_up_le_pow2; [lia|done]).
  apply mbranch_verifies; [lia|lia|]. apply Z.mod_small. rewrite <- Zpow2_nat. lia.
Qed.

Lemma merkle_branch_verifies_witness :
  exists branch, ComputeMerkleBranch pair_hash [[1]; [2]; [3]] (Z.of_nat 2) = Ret branch /\
    length branch = height 3 /\
    ComputeMerkleRootFromBranch pair_hash [3] branch (Z.of_nat 2) = mroot pair_hash (height 3) [[1]; [2]; [3]].
Proof. apply (merkle_branch_verifies pair_hash [[1]; [2]; [3]]); [done|simpl; lia]. Defined.

(** C23: the defence against CVE-2012-2459.  If two lists of leaves have the
    same root and neither is reported as mutated, they are the same list,
    unless two different pairs among those hashed collide or a leaf equals
    one of the inner hashes. *)
Theorem merkle_root_binds_leaves (Hash2 : uint256 -> uint256 -> uint256) (l1 l2 : list uint256) (root : uint256)
  (H1 : l1 <> []) (H2 : l2 <> [])
  (Hl1 : Z.of_nat (length l1) <= 2 ^ 31) (Hl2 : Z.of_nat (length l2) <= 2 ^ 31)
  (Hr1 : ComputeMerkleRoot Hash2 l1 = Ret (root, false)) (Hr2 : ComputeMerkleRoot Hash2 l2 = Ret (root, false))
  (Hnc : no_collision Hash2 (mpairs Hash2 (height (length l1)) l1 ++ mpairs Hash2 (height (length l2)) l2))
  (Hleaf : forall x p, x ∈ l1 ++ l2 ->
     p ∈ mpairs Hash2 (height (length l1)) l1 ++ mpairs Hash2 (height (length l2)) l2 -> x <> Hash2 p.1 p.2) :
  l1 = l2.
Proof.
  assert (forall l, l <> [] -> Z.of_nat (length l) <= 2 ^ 31 -> ComputeMerkleRoot Hash2 l = Ret (root, false) ->
    (0 < length l <= 2 ^ height (length l))%nat /\ mroot Hash2 (height (length l)) l = root /\
    mmut Hash2 (height (length l)) l = false) as Hspec.
  { intros l Hne Hl. unfold ComputeMerkleRoot.
    replace (u32 (-1)) with (Z.of_nat (Z.to_nat (u32 (-1)))) by (by rewrite Z2Nat.id).
    destruct (MerkleComputation_spec Hash2 l (Z.to_nat (u32 (-1))) false Hne Hl) as (br & -> & _).
    intros [= E Em]. assert (0 < length l)%nat by (destruct l; [done|simpl; lia]).
    split; [|done]. split; [done|]. by apply Nat.log2_up_le_pow2. }
  destruct (Hspec l1 H1 Hl1 Hr1) as (L1 & E1 & M1), (Hspec l2 H2 Hl2 Hr2) as (L2 & E2 & M2).
  set (k1 := height (length l1)) in *. set (k2 := height (length l2)) in *.
  destruct (lt_eq_lt_dec k1 k2) as [[Hlt|Heq]|Hlt].
  - exfalso. replace k2 with (k1 + S (k2 - S k1))%nat in * by lia.
    destruct (mroot_heights Hash2 k1 (k2 - S k1) l1 l2) as (x & p & Hx & Hp & Exp); [done|lia|done|congruence|].
    apply (Hleaf x p); [set_solver|set_solver|done].
  - rewrite <- Heq in *. apply (mroot_unique Hash2 k1); auto. congruence.
  - exfalso. replace k1 with (k2 + S (k1 - S k2))%nat in * by lia.
    destruct (mroot_heights Hash2 k2 (k1 - S k2) l2 l1) as (x & p & Hx & Hp & Exp); [done|lia| |congruence|].
    + eapply no_collision_sub; [|exact Hnc]. set_solver.
    + apply (Hleaf x p); [set_solver|set_solver|done].
Qed.

Lemma merkle_root_binds_leaves_witness : let l := [[-1]; [-2]; [-3]] in l = l.
Proof.
  intros l. apply (merkle_root_binds_leaves pair_hash l l (mroot pair_hash 2 l)).
  - done.
  - done.
  - simpl; lia.
  - simpl; lia.
  - vm_compute. reflexivity.
  - vm_compute. reflexivity.
  - intros [a b] [c d] _ _ Hh. cbn [fst snd] in Hh. apply pair_hash_inj in Hh as [-> ->]. done.
  - intros x p Hx _ ->. unfold l in Hx. simpl in Hx. rewrite !elem_of_cons, elem_of_nil in Hx.
    destruct Hx as [[=]|[[=]|[[=]|[[=]|[[=]|[[=]|[]]]]]]]; lia.
Defined.
