(* ===== verification/Chain.v ===== *)
(** * The block index and the active chain ([src/chain.h], [src/chain.cpp],
      and [AddToBlockIndex] of [src/validation.cpp])

    Block index entries live on the heap and refer to each other by pointer
    ([pprev], and the skip-list pointer [pskip]).  The model is an explicit
    store [index : gmap ptr CBlockIndex]; a pointer is a [nat], a possibly
    null pointer an [option nat].  [CChain] is the vector of pointers, by
    height, of one branch of that tree. *)

From Stdlib Require Import Sorted.
From stdpp Require Import gmap.
From S2P Require Import Prelude ArithUint256.

Abbreviation ptr := nat (only parsing).
Abbreviation hash := (list Z) (only parsing).

(** ** Data *)

Record CPureBlockHeader := {
  hVersion : Z;
  hashPrevBlock : hash;
  hMerkleRoot : hash;
  hTime : Z;
  hBits : Z;
  hNonce : Z
}.

Record CBlockIndex := mkIndex {
  phashBlock : hash;
  pprev : option ptr;
  pskip : option ptr;
  nHeight : Z;
  nFile : Z;
  nDataPos : Z;
  nUndoPos : Z;
  nChainWork : base_uint;
  nTx : Z;
  nChainTx : Z;
  nStatus : Z;
  nVersion : Z;
  hashMerkleRoot : hash;
  nTime : Z;
  nBits : Z;
  nNonce : Z;
  nSequenceId : Z;
  nTimeMax : Z
}.

(** Assignments to one field. *)
Definition set_pprev (x : option ptr) (b : CBlockIndex) : CBlockIndex :=
  mkIndex (phashBlock b) x (pskip b) (nHeight b) (nFile b) (nDataPos b) (nUndoPos b)
    (nChainWork b) (nTx b) (nChainTx b) (nStatus b) (nVersion b) (hashMerkleRoot b) (nTime b)
    (nBits b) (nNonce b) (nSequenceId b) (nTimeMax b).
Definition set_pskip (x : option ptr) (b : CBlockIndex) : CBlockIndex :=
  mkIndex (phashBlock b) (pprev b) x (nHeight b) (nFile b) (nDataPos b) (nUndoPos b)
    (nChainWork b) (nTx b) (nChainTx b) (nStatus b) (nVersion b) (hashMerkleRoot b) (nTime b)
    (nBits b) (nNonce b) (nSequenceId b) (nTimeMax b).
Definition set_nHeight (x : Z) (b : CBlockIndex) : CBlockIndex :=
  mkIndex (phashBlock b) (pprev b) (pskip b) x (nFile b) (nDataPos b) (nUndoPos b)
    (nChainWork b) (nTx b) (nChainTx b) (nStatus b) (nVersion b) (hashMerkleRoot b) (nTime b)
    (nBits b) (nNonce b) (nSequenceId b) (nTimeMax b).
Definition set_nChainWork (x : base_uint) (b : CBlockIndex) : CBlockIndex :=
  mkIndex (phashBlock b) (pprev b) (pskip b) (nHeight b) (nFile b) (nDataPos b) (nUndoPos b) x
    (nTx b) (nChainTx b) (nStatus b) (nVersion b) (hashMerkleRoot b) (nTime b) (nBits b)
    (nNonce b) (nSequenceId b) (nTimeMax b).
Definition set_nStatus (x : Z) (b : CBlockIndex) : CBlockIndex :=
  mkIndex (phashBlock b) (pprev b) (pskip b) (nHeight b) (nFile b) (nDataPos b) (nUndoPos b)
    (nChainWork b) (nTx b) (nChainTx b) x (nVersion b) (hashMerkleRoot b) (nTime b) (nBits b)
    (nNonce b) (nSequenceId b) (nTimeMax b).
Definition set_nTimeMax (x : Z) (b : CBlockIndex) : CBlockIndex :=
  mkIndex (phashBlock b) (pprev b) (pskip b) (nHeight b) (nFile b) (nDataPos b) (nUndoPos b)
    (nChainWork b) (nTx b) (nChainTx b) (nStatus b) (nVersion b) (hashMerkleRoot b) (nTime b)
    (nBits b) (nNonce b) (nSequenceId b) x.

Abbreviation index := (gmap nat CBlockIndex).

Definition BLOCK_VALID_TREE : Z := 2.
Definition BLOCK_VALID_TRANSACTIONS : Z := 3.
Definition BLOCK_VALID_MASK : Z := 7.
Definition BLOCK_FAILED_MASK : Z := 96.

(** [CBlockIndex(const CPureBlockHeader&)]; the fields a constructor nulls and
    the caller sets are arguments. *)
Definition newIndex (h : hash) (block : CPureBlockHeader) : CBlockIndex := {|
  phashBlock := h; pprev := None; pskip := None; nHeight := 0; nFile := 0; nDataPos := 0;
  nUndoPos := 0; nChainWork := base_uint_default; nTx := 0; nChainTx := 0; nStatus := 0;
  nVersion := hVersion block; hashMerkleRoot := hMerkleRoot block; nTime := hTime block;
  nBits := hBits block; nNonce := hNonce block; nSequenceId := 0; nTimeMax := 0 |}.

Definition GetBlockTime (b : CBlockIndex) : Z := nTime b.
Definition GetBlockTimeMax (b : CBlockIndex) : Z := nTimeMax b.

Definition IsValid (nUpTo : Z) (b : CBlockIndex) : bool :=
  if negb (Z.land (nStatus b) BLOCK_FAILED_MASK =? 0) then false
  else nUpTo <=? Z.land (nStatus b) BLOCK_VALID_MASK.

Definition RaiseValidity (nUpTo : Z) (b : CBlockIndex) : CBlockIndex * bool :=
  if negb (Z.land (nStatus b) BLOCK_FAILED_MASK =? 0) then (b, false)
  else if Z.land (nStatus b) BLOCK_VALID_MASK <? nUpTo
  then (set_nStatus (Z.lor (Z.land (nStatus b) (u32 (Z.lnot BLOCK_VALID_MASK))) nUpTo) b, true)
  else (b, false).

(** ** Skip list *)

Definition InvertLowestOne (n : Z) : Z := Z.land n (n - 1).

Definition GetSkipHeight (height : Z) : Z :=
  if height <? 2 then 0
  else if negb (Z.land height 1 =? 0)
  then InvertLowestOne (InvertLowestOne (height - 1)) + 1
  else InvertLowestOne height.

(** The test for following [pskip] rather than [pprev]. *)
Definition follow_skip (heightWalk height : Z) : bool :=
  let heightSkip := GetSkipHeight heightWalk in
  let heightSkipPrev := GetSkipHeight (heightWalk - 1) in
  (heightSkip =? height) ||
  ((height <? heightSkip) &&
   negb ((heightSkipPrev <? heightSkip - 2) && (height <=? heightSkipPrev))).

Fixpoint GetAncestor_loop (fuel : nat) (m : index) (pindexWalk : ptr) (heightWalk height : Z)
  : outcome ptr :=
  if height <? heightWalk then
    match fuel with
    | O => Abort
    | S fuel =>
        b ← deref (m !! pindexWalk);
        match pskip b with
        | Some skip =>
            if follow_skip heightWalk height
            then GetAncestor_loop fuel m skip (GetSkipHeight heightWalk) height
            else prev ← deref (pprev b);
                 GetAncestor_loop fuel m prev (heightWalk - 1) height
        | None => prev ← deref (pprev b);
                  GetAncestor_loop fuel m prev (heightWalk - 1) height
        end
    end
  else Ret pindexWalk.

(** Each iteration lowers [heightWalk] by at least one, so [nHeight - height]
    iterations are enough. *)
Definition GetAncestor (m : index) (pindex : ptr) (height : Z) : outcome (option ptr) :=
  b ← deref (m !! pindex);
  if (nHeight b <? height) || (height <? 0) then Ret None
  else p ← GetAncestor_loop (Z.to_nat (nHeight b - height)) m pindex (nHeight b) height;
       Ret (Some p).

Definition BuildSkip (m : index) (b : CBlockIndex) : outcome (option ptr) :=
  match pprev b with
  | Some prev => GetAncestor m prev (GetSkipHeight (nHeight b))
  | None => Ret (pskip b)
  end.

(** ** Work *)

(** [None] is an escaping [uint_error]. *)
Definition GetBlockProof (nBits : Z) : option base_uint :=
  let r := SetCompact nBits in
  if fNegative r || fOverflow r || EqualTo (cValue r) 0 then Some (base_uint_of_u64 0)
  else q ← op_div (op_compl (cValue r)) (op_add (cValue r) (base_uint_of_u64 1));
       Some (op_add q (base_uint_of_u64 1)).

(** ** Insertion of a header in the block tree *)

Record BlockTree := {
  tIndex : index;
  mapBlockIndex : gmap hash ptr;
  pindexBestHeader : option ptr;
  setDirtyBlockIndex : gset ptr;
  nextPtr : ptr           (* the allocator: [new] returns the next address *)
}.

(** The block that links the new entry to its parent, when the parent is known. *)
Definition link_prev (m : index) (prev : option ptr) (b : CBlockIndex) : outcome CBlockIndex :=
  match prev with
  | None => Ret b
  | Some p =>
      bp ← deref (m !! p);
      let b := set_nHeight (nHeight bp + 1) (set_pprev (Some p) b) in
      skip ← BuildSkip m b;
      Ret (set_pskip skip b)
  end.

Definition AddToBlockIndex (GetHash : CPureBlockHeader -> hash) (t : BlockTree) (block : CPureBlockHeader)
  : outcome (BlockTree * ptr) :=
  let h := GetHash block in
  match mapBlockIndex t !! h with
  | Some p => Ret (t, p)
  | None =>
      let new := nextPtr t in
      let b := newIndex h block in
      let map' := <[h := new]> (mapBlockIndex t) in
      let m0 := <[new := b]> (tIndex t) in
      b ← link_prev m0 (map' !! hashPrevBlock block) b;
      bprev ← match pprev b with Some p => bp ← deref (m0 !! p); Ret (Some bp) | None => Ret None end;
      let b := set_nTimeMax (match bprev with
                             | Some bp => Z.max (nTimeMax bp) (nTime b)
                             | None => nTime b end) b in
      proof ← deref (GetBlockProof (nBits b));
      let b := set_nChainWork (op_add (match bprev with
                                       | Some bp => nChainWork bp
                                       | None => base_uint_of_u64 0 end) proof) b in
      let b := (RaiseValidity BLOCK_VALID_TREE b).1 in
      let m := <[new := b]> (tIndex t) in
      better ← match pindexBestHeader t with
               | None => Ret true
               | Some best => bb ← deref (m !! best); Ret (op_lt (nChainWork bb) (nChainWork b))
               end;
      Ret ({| tIndex := m; mapBlockIndex := map';
              pindexBestHeader := if (better : bool) then Some new else pindexBestHeader t;
              setDirtyBlockIndex := {[new]} ∪ setDirtyBlockIndex t;
              nextPtr := S new |}, new)
  end.

(** ** The active chain *)

Abbreviation CChain := (list (option nat)) (only parsing).

(** The subscript operator of the class. *)
Definition chain_at (vChain : CChain) (height : Z) : option ptr :=
  if (height <? 0) || (Z.of_nat (length vChain) <=? height) then None
  else mjoin (vChain !! Z.to_nat height).

Definition Genesis (vChain : CChain) : option ptr := chain_at vChain 0.
Definition Height (vChain : CChain) : Z := Z.of_nat (length vChain) - 1.
Definition Tip (vChain : CChain) : option ptr := chain_at vChain (Height vChain).

Definition Contains (m : index) (vChain : CChain) (pindex : ptr) : outcome bool :=
  b ← deref (m !! pindex);
  Ret (bool_decide (chain_at vChain (nHeight b) = Some pindex)).

Definition Next (m : index) (vChain : CChain) (pindex : ptr) : outcome (option ptr) :=
  b ← deref (m !! pindex);
  c ← Contains m vChain pindex;
  Ret (if (c : bool) then chain_at vChain (nHeight b + 1) else None).

Fixpoint SetTip_loop (fuel : nat) (m : index) (vChain : CChain) (pindex : option ptr)
  : outcome CChain :=
  match pindex with
  | None => Ret vChain
  | Some p =>
      b ← deref (m !! p);
      if decide (vChain !! Z.to_nat (nHeight b) = Some (Some p)) then Ret vChain
      else match fuel with
           | O => Abort
           | S fuel => SetTip_loop fuel m (<[Z.to_nat (nHeight b) := Some p]> vChain) (pprev b)
           end
  end.

(** The loop descends one height per iteration: [nHeight + 1] is enough. *)
Definition SetTip (m : index) (vChain : CChain) (pindex : option ptr) : outcome CChain :=
  match pindex with
  | None => Ret []
  | Some p =>
      b ← deref (m !! p);
      let n := Z.to_nat (nHeight b + 1) in
      SetTip_loop n m (resize n None vChain) (Some p)
  end.

Fixpoint FindFork_loop (fuel : nat) (m : index) (vChain : CChain) (pindex : option ptr)
  : outcome (option ptr) :=
  match pindex with
  | None => Ret None
  | Some p =>
      c ← Contains m vChain p;
      if (c : bool) then Ret (Some p)
      else match fuel with
           | O => Abort
           | S fuel => b ← deref (m !! p); FindFork_loop fuel m vChain (pprev b)
           end
  end.

Definition FindFork (m : index) (vChain : CChain) (pindex : option ptr) : outcome (option ptr) :=
  match pindex with
  | None => Ret None
  | Some p =>
      b ← deref (m !! p);
      q ← (if Height vChain <? nHeight b then GetAncestor m p (Height vChain) else Ret (Some p));
      FindFork_loop (Z.to_nat (nHeight b) + 1) m vChain q
  end.

Fixpoint GetLocator_loop (fuel : nat) (m : index) (vChain : CChain) (vHave : list hash)
    (nStep : Z) (pindex : option ptr) : outcome (list hash) :=
  match pindex with
  | None => Ret vHave
  | Some p =>
      b ← deref (m !! p);
      let vHave := vHave ++ [phashBlock b] in
      if nHeight b =? 0 then Ret vHave
      else match fuel with
           | O => Abort
           | S fuel =>
               let height := Z.max (i32 (nHeight b - nStep)) 0 in
               c ← Contains m vChain p;
               next ← (if (c : bool) then Ret (chain_at vChain height) else GetAncestor m p height);
               let nStep := if (10 <? length vHave)%nat then i32 (nStep * 2) else nStep in
               GetLocator_loop fuel m vChain vHave nStep next
           end
  end.

Definition GetLocator (m : index) (vChain : CChain) (pindex : option ptr) : outcome (list hash) :=
  let pindex := match pindex with None => Tip vChain | Some p => Some p end in
  match pindex with
  | None => Ret []
  | Some p => b ← deref (m !! p);
              GetLocator_loop (Z.to_nat (nHeight b)) m vChain [] 1 (Some p)
  end.

(** [std::lower_bound] over the positions of a vector. *)
Fixpoint lower_bound (fuel : nat) (comp : nat -> outcome bool) (first len : nat) : outcome nat :=
  match len with
  | O => Ret first
  | _ => match fuel with
         | O => Abort
         | S fuel =>
             let half := (len / 2)%nat in
             let mid := (first + half)%nat in
             c ← comp mid;
             if (c : bool) then lower_bound fuel comp (mid + 1) (len - half - 1)
             else lower_bound fuel comp first half
         end
  end.

Definition FindEarliestAtLeast (m : index) (vChain : CChain) (nTime : Z) : outcome (option ptr) :=
  lower ← lower_bound (length vChain)
            (fun i => p ← deref (mjoin (vChain !! i)); b ← deref (m !! p);
                      Ret (GetBlockTimeMax b <? nTime)) 0 (length vChain);
  Ret (mjoin (vChain !! lower)).

Fixpoint FindForkInGlobalIndex (map : gmap hash ptr) (m : index) (chain : CChain)
    (vHave : list hash) : outcome (option ptr) :=
  match vHave with
  | [] => Ret (Genesis chain)
  | h :: rest =>
      match map !! h with
      | Some p =>
          c ← Contains m chain p;
          if (c : bool) then Ret (Some p)
          else a ← GetAncestor m p (Height chain);
               if decide (a = Tip chain) then Ret (Tip chain)
               else FindForkInGlobalIndex map m chain rest
      | None => FindForkInGlobalIndex map m chain rest
      end
  end.

(** ** Specifications *)

(** [n] steps along [pprev]. *)
Fixpoint walk_back (m : index) (n : nat) (p : ptr) : option ptr :=
  match n with
  | O => Some p
  | S n => b ← m !! p; q ← pprev b; walk_back m n q
  end.

(** The ancestor of [p] at a height, by the definition: walk parent pointers. *)
Definition ancestor (m : index) (p : ptr) (height : Z) : option ptr :=
  b ← m !! p;
  if (0 <=? height) && (height <=? nHeight b) then walk_back m (Z.to_nat (nHeight b - height)) p
  else None.

(** The invariant of the block tree: a parent is one lower, only height [0]
    has none, and a skip pointer is the ancestor at the skip height. *)
Record wf_index (m : index) : Prop := {
  wf_prev : forall p b, m !! p = Some b ->
    match pprev b with
    | None => nHeight b = 0
    | Some q => exists b', m !! q = Some b' /\ nHeight b = nHeight b' + 1
    end;
  wf_nonneg : forall p b, m !! p = Some b -> 0 <= nHeight b;
  wf_skip : forall p b s, m !! p = Some b -> pskip b = Some s ->
    ancestor m p (GetSkipHeight (nHeight b)) = Some s
}.

(** A vector of pointers is a chain when entry [i] has height [i] and its
    parent is entry [i - 1]. *)
Definition wf_chain (m : index) (vChain : CChain) : Prop :=
  forall i e, vChain !! i = Some e ->
    exists p b, e = Some p /\ m !! p = Some b /\ nHeight b = Z.of_nat i /\
      (forall j, i = S j -> vChain !! j = Some (pprev b)).

(** ** Lemmas: skip heights, walks, ancestors *)

Lemma InvertLowestOne_bound n : 1 <= n -> 0 <= InvertLowestOne n < n.
Proof.
  intros. unfold InvertLowestOne. pose proof (land_le_r n (n - 1) ltac:(lia)). lia.
Qed.

Lemma GetSkipHeight_bound h : 1 <= h -> 0 <= GetSkipHeight h < h.
Proof.
  intros Hh. unfold GetSkipHeight. destruct (Z.ltb_spec h 2); [lia|].
  destruct (negb _); [|apply InvertLowestOne_bound; lia].
  pose proof (InvertLowestOne_bound (h - 1) ltac:(lia)).
  destruct (Z.eqb_spec (InvertLowestOne (h - 1)) 0) as [->|]; [change (InvertLowestOne 0) with 0; lia|].
  pose proof (InvertLowestOne_bound (InvertLowestOne (h - 1)) ltac:(lia)). lia.
Qed.

Lemma GetSkipHeight_nonneg h : 0 <= GetSkipHeight h.
Proof.
  destruct (decide (1 <= h)); [pose proof (GetSkipHeight_bound h); lia|].
  unfold GetSkipHeight. destruct (Z.ltb_spec h 2); lia.
Qed.

Lemma walk_back_add m a b p : walk_back m (a + b) p = walk_back m a p ≫= walk_back m b.
Proof.
  revert p. induction a as [|a IH]; intros p; [done|]. simpl.
  destruct (m !! p) as [x|]; [simpl|done]. destruct (pprev x); [simpl; apply IH|done].
Qed.

Lemma walk_back_mono m m' n p q : m ⊆ m' -> walk_back m n p = Some q -> walk_back m' n p = Some q.
Proof.
  intros Hs. revert p. induction n as [|n IH]; intros p; [done|]. simpl.
  destruct (m !! p) as [b|] eqn:E; [simpl|done]. rewrite (lookup_weaken _ _ _ _ E Hs). simpl.
  destruct (pprev b); [simpl; apply IH|done].
Qed.

Section index_lemmas.
Context (m : index) (Hm : wf_index m).

Lemma walk_back_total n p b : m !! p = Some b -> (Z.of_nat n <= nHeight b) ->
  exists q b', walk_back m n p = Some q /\ m !! q = Some b' /\ nHeight b' = nHeight b - Z.of_nat n.
Proof.
  revert p b. induction n as [|n IH]; intros p b Hp Hn.
  - exists p, b. repeat split; auto. lia.
  - simpl. rewrite Hp. simpl. pose proof (wf_prev m Hm p b Hp) as Hprev.
    destruct (pprev b) as [q|]; [|lia]. destruct Hprev as (b' & Hq & Eh). simpl.
    destruct (IH q b' Hq) as (r & br & E1 & E2 & E3); [lia|].
    exists r, br. repeat split; auto. lia.
Qed.

Lemma ancestor_total p b h : m !! p = Some b -> 0 <= h <= nHeight b ->
  exists q b', ancestor m p h = Some q /\ m !! q = Some b' /\ nHeight b' = h.
Proof.
  intros Hp Hh. destruct (walk_back_total (Z.to_nat (nHeight b - h)) p b Hp) as (q & b' & E & Hq & Hb); [lia|].
  exists q, b'. unfold ancestor. rewrite Hp. simpl.
  rewrite (proj2 (Z.leb_le 0 h)), (proj2 (Z.leb_le h (nHeight b))) by lia.
  repeat split; auto. lia.
Qed.

Lemma ancestor_self p b : m !! p = Some b -> ancestor m p (nHeight b) = Some p.
Proof.
  intros Hp. pose proof (wf_nonneg m Hm p b Hp). unfold ancestor. rewrite Hp. simpl.
  rewrite (proj2 (Z.leb_le 0 (nHeight b))), Z.leb_refl, Z.sub_diag by lia. done.
Qed.

Lemma ancestor_trans p q b h1 h2 :
  m !! p = Some b -> ancestor m p h1 = Some q -> h2 <= h1 -> ancestor m p h2 = ancestor m q h2.
Proof.
  intros Hp. unfold ancestor. rewrite Hp. cbn [mbind option_bind].
  destruct (Z.leb_spec 0 h1), (Z.leb_spec h1 (nHeight b)); simpl; try done. intros Hq Hle.
  destruct (walk_back_total (Z.to_nat (nHeight b - h1)) p b Hp) as (q' & b' & E & Hq' & Hb); [lia|].
  assert (q' = q) as -> by congruence. rewrite Hq'. simpl. rewrite Hb.
  replace (nHeight b - Z.of_nat (Z.to_nat (nHeight b - h1))) with h1 by lia.
  destruct (Z.leb_spec 0 h2), (Z.leb_spec h2 h1), (Z.leb_spec h2 (nHeight b)); simpl; try lia; try done.
  replace (Z.to_nat (nHeight b - h2)) with (Z.to_nat (nHeight b - h1) + Z.to_nat (h1 - h2))%nat by lia.
  rewrite walk_back_add, Hq. done.
Qed.

Lemma ancestor_prev p q b h :
  m !! p = Some b -> pprev b = Some q -> h < nHeight b -> ancestor m p h = ancestor m q h.
Proof.
  intros Hp Hq Hh. pose proof (wf_prev m Hm p b Hp) as Hprev. rewrite Hq in Hprev.
  destruct Hprev as (b' & Hq' & Eh). pose proof (wf_nonneg m Hm q b' Hq').
  apply (ancestor_trans p q b (nHeight b - 1)); [done| |lia].
  unfold ancestor. rewrite Hp. simpl.
  rewrite (proj2 (Z.leb_le 0 (nHeight b - 1))), (proj2 (Z.leb_le (nHeight b - 1) (nHeight b))) by lia.
  replace (Z.to_nat (nHeight b - (nHeight b - 1))) with 1%nat by lia. simpl. rewrite Hp. simpl.
  by rewrite Hq.
Qed.

Lemma ancestor_range p b h q : m !! p = Some b -> ancestor m p h = Some q -> 0 <= h <= nHeight b.
Proof.
  intros Hp. unfold ancestor. rewrite Hp. simpl.
  destruct (Z.leb_spec 0 h), (Z.leb_spec h (nHeight b)); simpl; done.
Qed.

Lemma ancestor_height p h q : ancestor m p h = Some q ->
  exists b', m !! q = Some b' /\ nHeight b' = h.
Proof.
  intros H. destruct (m !! p) as [b|] eqn:Hp; [|by unfold ancestor in H; rewrite Hp in H].
  destruct (ancestor_total p b h Hp (ancestor_range _ _ _ _ Hp H)) as (q' & b' & E & Hq & Hb).
  assert (q' = q) as -> by congruence. eauto.
Qed.

Lemma GetAncestor_loop_correct fuel p b h :
  m !! p = Some b -> 0 <= h <= nHeight b -> nHeight b - h <= Z.of_nat fuel ->
  exists q, GetAncestor_loop fuel m p (nHeight b) h = Ret q /\ ancestor m p h = Some q.
Proof.
  revert p b. induction fuel as [|fuel IH]; intros p b Hp Hh Hf; simpl.
  - assert (h = nHeight b) as -> by lia. rewrite Z.ltb_irrefl. eauto using ancestor_self.
  - destruct (Z.ltb_spec h (nHeight b)) as [Hlt|].
    2: { assert (h = nHeight b) as -> by lia. eauto using ancestor_self. }
    rewrite Hp. simpl. pose proof (wf_prev m Hm p b Hp) as Hprev.
    assert (exists q, (prev ← deref (pprev b); GetAncestor_loop fuel m prev (nHeight b - 1) h) = Ret q
              /\ ancestor m p h = Some q) as Hstep.
    { destruct (pprev b) as [q|] eqn:Eq; [|lia]. destruct Hprev as (b' & Hq & Eh). simpl.
      destruct (IH q b' Hq) as (r & E1 & E2); [lia|lia|].
      exists r. rewrite (ancestor_prev p q b h) by auto.
      replace (nHeight b - 1) with (nHeight b') by lia. done. }
    destruct (pskip b) as [s|] eqn:Es; [|done].
    destruct (follow_skip (nHeight b) h) eqn:Ef; [|done].
    assert (h <= GetSkipHeight (nHeight b)) as Hle
      by (unfold follow_skip in Ef; zbool; simpl in Ef; try done; lia).
    pose proof (GetSkipHeight_bound (nHeight b) ltac:(lia)) as Hb.
    pose proof (wf_skip m Hm p b s Hp Es) as Ha. destruct (ancestor_height _ _ _ Ha) as (bs & Hs & Hbs).
    destruct (IH s bs Hs) as (r & E1 & E2); [lia|lia|].
    exists r. rewrite <- Hbs at 1. rewrite E1. split; [done|].
    by rewrite (ancestor_trans p s b (GetSkipHeight (nHeight b)) h Hp Ha Hle).
Qed.

Lemma GetAncestor_spec p b h : m !! p = Some b -> GetAncestor m p h = Ret (ancestor m p h).
Proof.
  intros Hp. unfold GetAncestor. rewrite Hp. cbn [deref mbind outcome_bind].
  destruct (Z.ltb_spec (nHeight b) h); [|destruct (Z.ltb_spec h 0)]; cbn [orb].
  - unfold ancestor. rewrite Hp. simpl. rewrite (proj2 (Z.leb_gt h (nHeight b))) by lia.
    by rewrite andb_false_r.
  - unfold ancestor. rewrite Hp. simpl. by rewrite (proj2 (Z.leb_gt 0 h)) by lia.
  - destruct (GetAncestor_loop_correct (Z.to_nat (nHeight b - h)) p b h Hp) as (q & E & Ea); [lia|lia|].
    rewrite E. simpl. by rewrite Ea.
Qed.
End index_lemmas.

(** ** Lemmas: work *)

(** The target a compact word denotes, when it denotes one. *)
Definition valid_target (c : Z) : bool :=
  negb (compact_sign c) && (compact_value c <? 2 ^ 256) && negb (compact_value c =? 0).

Lemma compact_value_nonneg c : inU 32 c -> 0 <= compact_value c.
Proof.
  intros Hc. destruct (SetCompact_fields c Hc) as (_ & _ & He & Hm & _). unfold compact_value.
  destruct (Z.leb_spec (compact_exponent c) 3); [apply Z.div_pos; lia|nia].
Qed.

(** No compact word denotes [2^256 - 1], so adding one to a target cannot wrap. *)
Lemma compact_value_not_max c : inU 32 c -> compact_value c < 2 ^ 256 -> compact_value c + 1 < 2 ^ 256.
Proof.
  intros Hc Hlt. destruct (SetCompact_fields c Hc) as (_ & _ & He & Hm & _).
  unfold compact_value in *. destruct (Z.leb_spec (compact_exponent c) 3).
  - assert (compact_mantissa c / 256 ^ (3 - compact_exponent c) < 2 ^ 23); [|lia].
    apply Z.div_lt_upper_bound; [lia|]. nia.
  - replace (compact_exponent c - 3) with (Z.succ (compact_exponent c - 4)) in * by lia.
    rewrite Z.pow_succ_r in * by lia.
    set (x := compact_mantissa c * (256 * 256 ^ (compact_exponent c - 4))) in *.
    assert (x = 256 * (compact_mantissa c * 256 ^ (compact_exponent c - 4))) by (unfold x; ring). lia.
Qed.

Lemma SetCompact_valid c : inU 32 c ->
  (fNegative (SetCompact c) || fOverflow (SetCompact c) || EqualTo (cValue (SetCompact c)) 0)
  = negb (valid_target c).
Proof.
  intros Hc. destruct (SetCompact_spec c Hc) as (Hw & E & Eo & En).
  rewrite EqualTo_spec, E, Eo, En by (auto; split; lia). unfold valid_target.
  destruct (compact_sign c); [done|]. cbn [negb andb orb].
  destruct (Z.leb_spec (2 ^ 256) (compact_value c)).
  - by rewrite (proj2 (Z.ltb_ge (compact_value c) (2 ^ 256))) by lia.
  - rewrite (proj2 (Z.ltb_lt (compact_value c) (2 ^ 256))) by lia.
    rewrite Z.mod_small by (pose proof (compact_value_nonneg c Hc); lia).
    by destruct (compact_value c =? 0).
Qed.

Lemma SetCompact_valid_eval c : inU 32 c -> valid_target c = true ->
  eval (cValue (SetCompact c)) = compact_value c /\ 0 < compact_value c < 2 ^ 256.
Proof.
  intros Hc Hv. destruct (SetCompact_spec c Hc) as (Hw & E & _).
  pose proof (compact_value_nonneg c Hc). unfold valid_target in Hv.
  destruct (Z.ltb_spec (compact_value c) (2 ^ 256)); [|by rewrite andb_false_r in Hv].
  destruct (Z.eqb_spec (compact_value c) 0); [by rewrite andb_false_r in Hv|].
  rewrite Z.mod_small in E by lia. lia.
Qed.

Lemma GetBlockProof_spec c : inU 32 c ->
  exists w, GetBlockProof c = Some w /\ wf w /\
    eval w = if valid_target c then 2 ^ 256 / (compact_value c + 1) else 0.
Proof.
  intros Hc. unfold GetBlockProof. rewrite SetCompact_valid by done.
  destruct (SetCompact_spec c Hc) as (Hw & _).
  destruct (valid_target c) eqn:Hv; cbn [negb]; [|exists (base_uint_of_u64 0); auto with cpp].
  destruct (SetCompact_valid_eval c Hc Hv) as [E Hr].
  pose proof (compact_value_not_max c Hc ltac:(lia)). set (t := compact_value c) in *.
  assert (wf (base_uint_of_u64 1)) as H1 by auto with cpp.
  assert (eval (op_add (cValue (SetCompact c)) (base_uint_of_u64 1)) = t + 1) as Ed.
  { rewrite op_add_eval, E, of_u64_eval by (auto; split; lia). apply Z.mod_small. lia. }
  pose proof (op_div_spec (op_compl (cValue (SetCompact c)))
    (op_add (cValue (SetCompact c)) (base_uint_of_u64 1)) ltac:(auto with cpp) ltac:(auto with cpp)) as Hd.
  rewrite Ed, op_compl_eval, E in Hd by done. destruct (op_div _ _) as [q|]; [|lia].
  destruct Hd as (_ & Hq & Eq). simpl. eexists. split; [done|]. split; [auto with cpp|].
  rewrite op_add_eval, Eq, of_u64_eval by (auto; split; lia).
  assert (2 ^ 256 / (t + 1) = (2 ^ 256 - 1 - t) / (t + 1) + 1) as ->.
  { rewrite <- Z.div_add by lia. f_equal. lia. }
  apply Z.mod_small. assert (0 <= (2 ^ 256 - 1 - t) / (t + 1) < 2 ^ 255); [|lia].
  split; [apply Z.div_pos; lia|]. apply Z.div_lt_upper_bound; [lia|].
  change (2 ^ 256) with (2 * 2 ^ 255). nia.
Qed.

(** ** Lemmas: growth of the tree *)

(** What a block tree satisfies between two insertions. *)
Record wf_tree (t : BlockTree) : Prop := {
  wt_index : wf_index (tIndex t);
  wt_map : forall h p, mapBlockIndex t !! h = Some p ->
    exists b, tIndex t !! p = Some b /\ phashBlock b = h;
  wt_fresh : forall p, is_Some (tIndex t !! p) -> (p < nextPtr t)%nat;
  wt_best : forall p, pindexBestHeader t = Some p -> is_Some (tIndex t !! p);
  wt_work : forall p b, tIndex t !! p = Some b -> wf (nChainWork b) /\ inU 32 (nBits b) /\
    exists w, GetBlockProof (nBits b) = Some w /\
      eval (nChainWork b) =
      (match pprev b with
       | Some q => match tIndex t !! q with Some bq => eval (nChainWork bq) | None => 0 end
       | None => 0 end + eval w) mod 2 ^ 256;
  wt_time : forall p b, tIndex t !! p = Some b ->
    nTimeMax b = match pprev b with
                 | Some q => match tIndex t !! q with Some bq => Z.max (nTimeMax bq) (nTime b)
                             | None => nTime b end
                 | None => nTime b end
}.

Lemma RaiseValidity_fields u b : let b' := (RaiseValidity u b).1 in
  pprev b' = pprev b /\ pskip b' = pskip b /\ nHeight b' = nHeight b /\ phashBlock b' = phashBlock b /\
  nChainWork b' = nChainWork b /\ nBits b' = nBits b /\ nTime b' = nTime b /\ nTimeMax b' = nTimeMax b.
Proof. unfold RaiseValidity. repeat case_match; simpl; auto 10. Qed.

(** A fresh entry linked below a known parent keeps the index invariant. *)
Lemma wf_index_insert m new b :
  wf_index m -> m !! new = None ->
  match pprev b with
  | None => nHeight b = 0 /\ pskip b = None
  | Some q => exists bq, m !! q = Some bq /\ nHeight b = nHeight bq + 1 /\
                (pskip b = None \/ pskip b = ancestor m q (GetSkipHeight (nHeight b)))
  end ->
  wf_index (<[new := b]> m).
Proof.
  intros Hm Hnew Hb. assert (m ⊆ <[new := b]> m) as Hsub by by apply insert_subseteq.
  assert (forall p h q, ancestor m p h = Some q -> ancestor (<[new := b]> m) p h = Some q) as Hanc.
  { intros p h q. unfold ancestor. destruct (m !! p) as [x|] eqn:E; [|done].
    rewrite (lookup_weaken _ _ _ _ E Hsub). simpl.
    destruct (_ && _); [by apply walk_back_mono|done]. }
  split; intros p x.
  - destruct (decide (p = new)) as [->|]; [rewrite lookup_insert_eq|rewrite lookup_insert_ne by done].
    + intros [= <-]. destruct (pprev b) as [q|]; [|tauto]. destruct Hb as (bq & Hq & Hh & _).
      exists bq. split; [by eapply lookup_weaken|done].
    + intros Hp. pose proof (wf_prev m Hm p x Hp) as H. destruct (pprev x) as [q|]; [|done].
      destruct H as (b' & Hq & Hh). exists b'. split; [by eapply lookup_weaken|done].
  - destruct (decide (p = new)) as [->|]; [rewrite lookup_insert_eq|rewrite lookup_insert_ne by done].
    + intros [= <-]. destruct (pprev b) as [q|]; [|lia]. destruct Hb as (bq & Hq & Hh & _).
      pose proof (wf_nonneg m Hm q bq Hq). lia.
    + apply (wf_nonneg m Hm).
  - intros s. destruct (decide (p = new)) as [->|]; [rewrite lookup_insert_eq|rewrite lookup_insert_ne by done].
    + intros [= <-] Hs. destruct (pprev b) as [q|] eqn:Eq; [|destruct Hb; congruence].
      destruct Hb as (bq & Hq & Hh & Hsk). destruct Hsk as [Hsk|Hsk]; [congruence|].
      rewrite Hsk in Hs. pose proof (wf_nonneg m Hm q bq Hq).
      pose proof (GetSkipHeight_bound (nHeight b) ltac:(lia)) as Hsb.
      apply Hanc in Hs. unfold ancestor in Hs |- *. rewrite lookup_insert_eq. simpl.
      rewrite (lookup_weaken _ _ _ _ Hq Hsub) in Hs. simpl in Hs.
      rewrite (proj2 (Z.leb_le 0 _)), (proj2 (Z.leb_le _ (nHeight bq))) in Hs by lia.
      rewrite (proj2 (Z.leb_le 0 _)), (proj2 (Z.leb_le _ (nHeight b))) by lia.
      simpl in Hs |- *. replace (Z.to_nat (nHeight b - GetSkipHeight (nHeight b)))
        with (S (Z.to_nat (nHeight bq - GetSkipHeight (nHeight b)))) by lia.
      simpl. rewrite lookup_insert_eq. simpl. rewrite Eq. simpl. done.
    + intros Hp Hs. by apply Hanc, (wf_skip m Hm).
Qed.

(** Ancestors of old entries are not affected by an entry at a fresh address. *)
Lemma ancestor_insert m new b p bp h :
  wf_index m -> m !! new = None -> m !! p = Some bp ->
  ancestor (<[new := b]> m) p h = ancestor m p h.
Proof.
  intros Hm Hnew Hp. assert (m ⊆ <[new := b]> m) as Hsub by by apply insert_subseteq.
  unfold ancestor. rewrite (lookup_weaken _ _ _ _ Hp Hsub), Hp. simpl.
  destruct (Z.leb_spec 0 h), (Z.leb_spec h (nHeight bp)); try done. simpl.
  destruct (walk_back_total m Hm (Z.to_nat (nHeight bp - h)) p bp Hp) as (q & _ & E & _); [lia|].
  rewrite E. by apply walk_back_mono with m.
Qed.

(** [link_prev] succeeds and sets parent, height and skip pointer. *)
Lemma link_prev_spec m new h block prev :
  wf_index m -> m !! new = None ->
  (forall p, prev = Some p -> is_Some (m !! p)) ->
  exists b1, link_prev (<[new := newIndex h block]> m) prev (newIndex h block) = Ret b1 /\
    pprev b1 = prev /\ phashBlock b1 = h /\ nTime b1 = hTime block /\ nBits b1 = hBits block /\
    match prev with
    | None => nHeight b1 = 0 /\ pskip b1 = None
    | Some q => exists bq, m !! q = Some bq /\ nHeight b1 = nHeight bq + 1 /\
                  pskip b1 = ancestor m q (GetSkipHeight (nHeight b1))
    end.
Proof.
  intros Hm Hnew Hprev. set (b0 := newIndex h block).
  assert (wf_index (<[new := b0]> m)) as Hm0 by (apply wf_index_insert; simpl; auto).
  destruct prev as [q|]; [|by exists b0].
  destruct (Hprev q eq_refl) as [bq Hq].
  assert ((<[new := b0]> m) !! q = Some bq) as Hq0
    by (eapply lookup_weaken; [done|by apply insert_subseteq]).
  unfold link_prev. rewrite Hq0. cbn [deref mbind outcome_bind]. unfold BuildSkip.
  cbn [pprev nHeight set_nHeight set_pprev].
  rewrite (GetAncestor_spec _ Hm0 q bq) by done. rewrite (ancestor_insert m new b0 q bq) by done.
  eexists. split; [reflexivity|]. repeat split. by exists bq.
Qed.

Definition prev_entry (m : index) (prev : option ptr) : option CBlockIndex := prev ≫= (m !!.).

Lemma wf_tree_insert t h b w best dirty :
  let new := nextPtr t in
  wf_tree t -> mapBlockIndex t !! h = None -> phashBlock b = h ->
  match pprev b with
  | None => nHeight b = 0 /\ pskip b = None
  | Some q => exists bq, tIndex t !! q = Some bq /\ nHeight b = nHeight bq + 1 /\
                pskip b = ancestor (tIndex t) q (GetSkipHeight (nHeight b))
  end ->
  inU 32 (nBits b) -> GetBlockProof (nBits b) = Some w -> wf w ->
  nChainWork b = op_add (match prev_entry (tIndex t) (pprev b) with
                         | Some bp => nChainWork bp | None => base_uint_of_u64 0 end) w ->
  nTimeMax b = match prev_entry (tIndex t) (pprev b) with
               | Some bp => Z.max (nTimeMax bp) (nTime b) | None => nTime b end ->
  best = Some new \/ best = pindexBestHeader t ->
  wf_tree {| tIndex := <[new := b]> (tIndex t); mapBlockIndex := <[h := new]> (mapBlockIndex t);
             pindexBestHeader := best; setDirtyBlockIndex := dirty; nextPtr := S new |}.
Proof.
  intros new Ht Hh Eh Hl Hb Ew Hw Ewk Etm Hbest.
  assert (tIndex t !! new = None) as Hnew.
  { destruct (tIndex t !! new) eqn:E; [|done]. pose proof (wt_fresh t Ht new ltac:(eauto)). unfold new in *. lia. }
  assert (forall q bq, tIndex t !! q = Some bq -> <[new := b]> (tIndex t) !! q = Some bq) as Hold.
  { intros q bq Hq. rewrite lookup_insert_ne by congruence. done. }
  assert (forall p x, tIndex t !! p = Some x ->
            prev_entry (<[new := b]> (tIndex t)) (pprev x) = prev_entry (tIndex t) (pprev x)) as Hpe.
  { intros p x Hp. pose proof (wf_prev _ (wt_index t Ht) p x Hp) as H. destruct (pprev x) as [q|]; [|done].
    destruct H as (bq & Hq & _). simpl. by rewrite (Hold q bq), Hq by done. }
  assert (prev_entry (<[new := b]> (tIndex t)) (pprev b) = prev_entry (tIndex t) (pprev b)) as Hpb.
  { destruct (pprev b) as [q|]; [|done]. destruct Hl as (bq & Hq & _). simpl. by rewrite (Hold q bq), Hq by done. }
  constructor; simpl.
  - apply wf_index_insert; [apply Ht|done|]. destruct (pprev b); [|done].
    destruct Hl as (bq & ? & ? & ?). eauto 6.
  - intros h' p. destruct (decide (h' = h)) as [->|]; [rewrite lookup_insert_eq|rewrite lookup_insert_ne by done].
    + intros [= <-]. exists b. by rewrite lookup_insert_eq.
    + intros Hp. destruct (wt_map t Ht _ _ Hp) as (x & Hx & E). eauto.
  - intros p [x Hx]. apply lookup_insert_Some in Hx as [[<- _]|[_ Hx]]; [lia|].
    pose proof (wt_fresh t Ht p ltac:(eauto)). unfold new. lia.
  - intros p Hp. destruct Hbest as [->| ->].
    + injection Hp as <-. rewrite lookup_insert_eq. eauto.
    + destruct (wt_best t Ht p Hp) as [x Hx]. eauto.
  - intros p x Hx. apply lookup_insert_Some in Hx as [[<- <-]|[Hne Hx]].
    + assert (wf (match prev_entry (tIndex t) (pprev b) with
                  | Some bp => nChainWork bp | None => base_uint_of_u64 0 end)) as Hwp.
      { destruct (prev_entry _ _) as [bp|] eqn:E; [|auto with cpp]. destruct (pprev b) as [q|]; [|done].
        by apply (wt_work t Ht q bp). }
      split; [rewrite Ewk; auto with cpp|]. split; [done|]. exists w. split; [done|].
      rewrite Ewk, op_add_eval by done. unfold prev_entry in *. destruct (pprev b) as [q|]; [|done].
      simpl in *. rewrite Hpb. by destruct (tIndex t !! q).
    + destruct (wt_work t Ht p x Hx) as (H1 & H2 & w' & E1 & E2). split; [done|]. split; [done|].
      exists w'. split; [done|]. rewrite E2. specialize (Hpe p x Hx). unfold prev_entry in Hpe.
      destruct (pprev x) as [q|]; [|done]. simpl in Hpe. by rewrite Hpe.
  - intros p x Hx. apply lookup_insert_Some in Hx as [[<- <-]|[Hne Hx]].
    + rewrite Etm. unfold prev_entry in *. destruct (pprev b) as [q|]; [|done]. simpl in *. by rewrite Hpb.
    + rewrite (wt_time t Ht p x Hx). specialize (Hpe p x Hx). unfold prev_entry in Hpe.
      destruct (pprev x) as [q|]; [|done]. simpl in Hpe. by rewrite Hpe.
Qed.

Lemma AddToBlockIndex_spec GetHash t block :
  wf_tree t -> inU 32 (hBits block) -> hashPrevBlock block <> GetHash block ->
  exists t' p, AddToBlockIndex GetHash t block = Ret (t', p) /\ wf_tree t' /\
    mapBlockIndex t' !! GetHash block = Some p /\ tIndex t ⊆ tIndex t' /\
    (mapBlockIndex t !! GetHash block = None -> exists b, tIndex t' !! p = Some b /\
       nTime b = hTime block /\ nBits b = hBits block /\
       pprev b = mapBlockIndex t !! hashPrevBlock block).
Proof.
  intros Ht Hbits Hne. unfold AddToBlockIndex.
  destruct (mapBlockIndex t !! GetHash block) as [p|] eqn:Eh.
  { exists t, p. by repeat (split; [done|]). }
  assert (tIndex t !! nextPtr t = None) as Hnew.
  { destruct (tIndex t !! nextPtr t) eqn:E; [|done].
    pose proof (wt_fresh t Ht (nextPtr t) ltac:(eauto)). lia. }
  rewrite lookup_insert_ne by done. set (new := nextPtr t) in *. set (h := GetHash block) in *.
  assert (forall p, mapBlockIndex t !! hashPrevBlock block = Some p -> is_Some (tIndex t !! p)) as Hpv.
  { intros p Hp. destruct (wt_map t Ht _ _ Hp) as (b & Hb & _). eauto. }
  destruct (link_prev_spec (tIndex t) new h block _ (wt_index t Ht) Hnew Hpv)
    as (b1 & E1 & Ep & Eph & Et & Eb & Hl).
  rewrite E1. cbn [mbind outcome_bind]. rewrite Ep.
  destruct (GetBlockProof_spec (hBits block) Hbits) as (w & Ew & Hw & _).
  set (prev := mapBlockIndex t !! hashPrevBlock block) in *.
  set (bprev := prev_entry (tIndex t) prev).
  assert (match prev with
          | Some p => bp ← deref (<[new:=newIndex h block]> (tIndex t) !! p); Ret (Some bp)
          | None => Ret None end = Ret bprev) as ->.
  { unfold bprev, prev_entry. destruct prev as [q|]; [|done]. destruct (Hpv q eq_refl) as [bq Hq].
    simpl. rewrite lookup_insert_ne by congruence. by rewrite Hq. }
  cbn [mbind outcome_bind nBits set_nTimeMax]. rewrite Eb, Ew. cbn [deref mbind outcome_bind].
  match goal with |- context [RaiseValidity ?u ?b] =>
    pose proof (RaiseValidity_fields u b) as HR; set (b2 := (RaiseValidity u b).1) in * end.
  cbn [pprev pskip nHeight phashBlock nChainWork nBits nTime nTimeMax set_nChainWork set_nTimeMax] in HR.
  destruct HR as (R1 & R2 & R3 & R4 & R5 & R6 & R7 & R8).
  assert (exists better, match pindexBestHeader t with
     | Some best => bb ← deref (<[new:=b2]> (tIndex t) !! best); Ret (op_lt (nChainWork bb) (nChainWork b2))
     | None => Ret true end = Ret better) as [better ->].
  { destruct (pindexBestHeader t) as [best|] eqn:Eb'; [|eauto].
    destruct (wt_best t Ht best Eb') as [bb Hbb].
    rewrite lookup_insert_ne by congruence. rewrite Hbb. simpl. eauto. }
  cbn [mbind outcome_bind]. eexists _, new. split; [reflexivity|].
  assert (tIndex t ⊆ <[new := b2]> (tIndex t)) as Hsub by by apply insert_subseteq.
  simpl. split; [|split; [apply lookup_insert_eq|split; [done|]]].
  2: { intros _. exists b2. rewrite lookup_insert_eq. repeat split; congruence. }
  apply (wf_tree_insert t h b2 w); auto; try congruence.
  - rewrite R1, R2, R3, Ep. destruct prev as [q|]; [|done]. by rewrite <- R3 in Hl |- *.
  - rewrite R5, R1, Ep. done.
  - rewrite R8, R7, R1, Ep. done.
  - destruct better; auto.
Qed.

(** ** Lemmas: the active chain *)

Section chain_lemmas.
Context (m : index) (Hm : wf_index m).

Lemma chain_ancestor v k q : wf_chain m v -> v !! k = Some (Some q) ->
  forall i, (i <= k)%nat -> v !! i = Some (ancestor m q (Z.of_nat i)).
Proof.
  intros Hv. revert q. induction k as [|k IH]; intros q Hq i Hi;
    destruct (Hv _ _ Hq) as (q' & b & [= <-] & Hb & Hh & Hprev).
  - assert (i = 0%nat) as -> by lia. rewrite Hq. by rewrite <- Hh, (ancestor_self m Hm).
  - destruct (decide (i = S k)) as [->|]; [by rewrite Hq, <- Hh, (ancestor_self m Hm)|].
    specialize (Hprev k eq_refl). pose proof (wf_prev m Hm q b Hb) as Hw.
    destruct (pprev b) as [r|] eqn:Er; [|lia].
    rewrite (IH r Hprev i ltac:(lia)). by rewrite (ancestor_prev m Hm q r b) by (auto; lia).
Qed.

Lemma SetTip_loop_spec p b v0 N : m !! p = Some b -> nHeight b = Z.of_nat N -> wf_chain m v0 ->
  forall k fuel v, length v = S N -> (k <= S N)%nat -> (k <= fuel)%nat ->
    (forall i, (k <= i <= N)%nat -> v !! i = Some (ancestor m p (Z.of_nat i))) ->
    (forall i, (i < k)%nat -> v !! i = resize (S N) None v0 !! i) ->
    exists v', SetTip_loop fuel m v (match k with O => None | S j => ancestor m p (Z.of_nat j) end) = Ret v' /\
      length v' = S N /\ forall i, (i <= N)%nat -> v' !! i = Some (ancestor m p (Z.of_nat i)).
Proof.
  intros Hp HN Hv0. induction k as [|k IH]; intros fuel v Hl Hk Hf Hhi Hlo.
  - exists v. destruct fuel; simpl; (split; [done|]; split; [done|]; intros; apply Hhi; lia).
  - destruct (ancestor_total m Hm p b (Z.of_nat k) Hp) as (q & bq & Eq & Hq & Hbq); [lia|].
    rewrite Eq. destruct fuel as [|fuel]; [lia|]. cbn [SetTip_loop]. rewrite Hq. cbn [deref mbind outcome_bind].
    rewrite Hbq, Nat2Z.id. destruct (decide _) as [Ed|Ed].
    + exists v. split; [done|]. split; [done|]. intros i Hi.
      destruct (decide (S k <= i)%nat); [apply Hhi; lia|].
      rewrite (Hlo k) in Ed by lia. rewrite Hlo by lia.
      assert (k < length v0)%nat as Hkl.
      { destruct (decide (k < length v0)%nat); [done|].
        rewrite resize_spec, lookup_app_r in Ed by (rewrite length_take; lia).
        apply lookup_replicate in Ed as [? _]. done. }
      assert (forall j, (j <= k)%nat -> resize (S N) None v0 !! j = v0 !! j) as Hrs.
      { intros j Hj. rewrite resize_spec, lookup_app_l by (rewrite length_take; lia).
        by rewrite lookup_take_lt by lia. }
      rewrite Hrs in Ed |- * by lia. rewrite (chain_ancestor v0 k q Hv0 Ed) by lia.
      by rewrite (ancestor_trans m Hm p q b (Z.of_nat k)) by (auto; lia).
    + assert (pprev bq = match k with O => None | S j => ancestor m p (Z.of_nat j) end) as ->.
      { pose proof (wf_prev m Hm q bq Hq) as Hw. destruct (pprev bq) as [r|] eqn:Er.
        - destruct Hw as (br & Hr & Hh). pose proof (wf_nonneg m Hm r br Hr). destruct k as [|j]; [lia|].
          rewrite (ancestor_trans m Hm p q b (Z.of_nat (S j))) by (auto; lia).
          rewrite (ancestor_prev m Hm q r bq) by (auto; lia).
          replace (Z.of_nat j) with (nHeight br) by lia. by rewrite (ancestor_self m Hm).
        - destruct k; [done|lia]. }
      apply IH; [by rewrite length_insert|lia|lia| |].
      * intros i Hi. destruct (decide (i = k)) as [->|].
        -- rewrite list_lookup_insert_eq by lia. by rewrite Eq.
        -- rewrite list_lookup_insert_ne by lia. apply Hhi. lia.
      * intros i Hi. rewrite list_lookup_insert_ne by lia. apply Hlo. lia.
Qed.

Lemma SetTip_spec v p b : wf_chain m v -> m !! p = Some b ->
  exists v', SetTip m v (Some p) = Ret v' /\ Z.of_nat (length v') = nHeight b + 1 /\
    forall i, (i < length v')%nat -> v' !! i = Some (ancestor m p (Z.of_nat i)).
Proof.
  intros Hv Hp. pose proof (wf_nonneg m Hm p b Hp) as Hn.
  destruct (SetTip_loop_spec p b v (Z.to_nat (nHeight b)) Hp ltac:(lia) Hv
    (S (Z.to_nat (nHeight b))) (Z.to_nat (nHeight b + 1))
    (resize (Z.to_nat (nHeight b + 1)) None v)) as (v' & E & Hl & Ha).
  - rewrite length_resize. lia.
  - lia.
  - lia.
  - intros i Hi. lia.
  - intros i Hi. do 2 f_equal. lia.
  - exists v'. cbn [SetTip]. rewrite Hp. cbn [deref mbind outcome_bind].
    rewrite Z2Nat.id, (ancestor_self m Hm p b) in E by (auto; lia).
    split; [done|]. split; [lia|]. intros i Hi. apply Ha. lia.
Qed.

(** A vector that lists the ancestors of a block is a chain. *)
Lemma ancestors_wf_chain v p b : m !! p = Some b -> Z.of_nat (length v) = nHeight b + 1 ->
  (forall i, (i < length v)%nat -> v !! i = Some (ancestor m p (Z.of_nat i))) -> wf_chain m v.
Proof.
  intros Hp Hl Ha i e Hi. pose proof (lookup_lt_Some _ _ _ Hi) as Hlt.
  rewrite Ha in Hi by done. injection Hi as <-.
  destruct (ancestor_total m Hm p b (Z.of_nat i) Hp) as (q & bq & Eq & Hq & Hbq); [lia|].
  exists q, bq. split; [done|]. split; [done|]. split; [done|]. intros j ->.
  pose proof (wf_prev m Hm q bq Hq) as Hw. destruct (pprev bq) as [r|] eqn:Er; [|lia].
  destruct Hw as (br & Hr & Hh). rewrite Ha by lia. f_equal.
  rewrite (ancestor_trans m Hm p q b (Z.of_nat (S j))) by (auto; lia).
  rewrite (ancestor_prev m Hm q r bq) by (auto; lia).
  replace (Z.of_nat j) with (nHeight br) by lia. by rewrite (ancestor_self m Hm).
Qed.
End chain_lemmas.

(** Membership of a block in the chain, as [Contains] tests it. *)
Definition in_chain (m : index) (v : CChain) (p : ptr) : Prop :=
  exists b, m !! p = Some b /\ chain_at v (nHeight b) = Some p.

Lemma chain_at_nat v i : chain_at v (Z.of_nat i) = mjoin (v !! i).
Proof.
  unfold chain_at. rewrite Nat2Z.id. destruct (Z.ltb_spec (Z.of_nat i) 0); [lia|]. cbn [orb].
  destruct (Z.leb_spec (Z.of_nat (length v)) (Z.of_nat i)); [|done].
  by rewrite lookup_ge_None_2 by lia.
Qed.

Lemma chain_at_Some v h p : chain_at v h = Some p -> 0 <= h < Z.of_nat (length v) /\ v !! Z.to_nat h = Some (Some p).
Proof.
  unfold chain_at. destruct (Z.ltb_spec h 0), (Z.leb_spec (Z.of_nat (length v)) h); simpl; try done.
  intros E. split; [lia|]. destruct (v !! Z.to_nat h) as [[x|]|]; simpl in E; congruence.
Qed.

Lemma Contains_spec m v p b : m !! p = Some b ->
  Contains m v p = Ret (bool_decide (chain_at v (nHeight b) = Some p)).
Proof. intros Hp. unfold Contains. by rewrite Hp. Qed.

Section fork_lemmas.
Context (m : index) (Hm : wf_index m) (v : CChain).

(** The loop of [FindFork] returns the first block of the walk that is in the chain. *)
Lemma FindFork_loop_spec fuel p b : m !! p = Some b -> nHeight b < Z.of_nat fuel ->
  exists r, FindFork_loop fuel m v (Some p) = Ret r /\
    match r with
    | Some q => in_chain m v q /\ (exists h, ancestor m p h = Some q) /\
                forall h' q', ancestor m p h' = Some q' -> in_chain m v q' ->
                  exists bq, m !! q = Some bq /\ h' <= nHeight bq
    | None => forall h' q', ancestor m p h' = Some q' -> ~ in_chain m v q'
    end.
Proof.
  revert p b. induction fuel as [|fuel IH]; intros p b Hp Hf;
    [pose proof (wf_nonneg m Hm p b Hp); lia|].
  cbn [FindFork_loop]. rewrite (Contains_spec m v p b Hp). cbn [mbind outcome_bind].
  case_bool_decide as Hc.
  - exists (Some p). split; [done|]. split; [by exists b|]. split; [eauto using ancestor_self|].
    intros h' q' Ha _. exists b. split; [done|]. by apply (ancestor_range m p b h' q').
  - rewrite Hp. cbn [deref mbind outcome_bind].
    assert (~ in_chain m v p) as Hnp by (intros (b' & Hb' & Hc'); congruence).
    pose proof (wf_prev m Hm p b Hp) as Hw. destruct (pprev b) as [q|] eqn:Eq.
    + destruct Hw as (bq & Hq & Hh). destruct (IH q bq Hq) as (r & Er & Hr); [lia|].
      exists r. split; [done|].
      assert (forall h' q', ancestor m p h' = Some q' -> in_chain m v q' -> ancestor m q h' = Some q') as Hred.
      { intros h' q' Ha Hin. destruct (decide (h' < nHeight b)).
        - by rewrite <- (ancestor_prev m Hm p q b) by auto.
        - assert (h' = nHeight b) as -> by (pose proof (ancestor_range m p b h' q' Hp Ha); lia).
          rewrite (ancestor_self m Hm p b Hp) in Ha. congruence. }
      destruct r as [r|].
      * destruct Hr as (H1 & (h & H2) & H3). split; [done|]. split; [|eauto].
        exists h. pose proof (ancestor_range m q bq h r Hq H2).
        by rewrite (ancestor_prev m Hm p q b) by (auto; lia).
      * intros h' q' Ha Hin. by apply (Hr h' q'); eauto.
    + exists None. split; [by destruct fuel|]. intros h' q' Ha Hin.
      assert (h' = nHeight b) as -> by (pose proof (ancestor_range m p b h' q' Hp Ha); lia).
      rewrite (ancestor_self m Hm p b Hp) in Ha. congruence.
Qed.

Lemma in_chain_height q bq : in_chain m v q -> m !! q = Some bq -> nHeight bq <= Height v.
Proof. intros (b & Hb & [Hr _]%chain_at_Some) Hq. unfold Height. assert (b = bq) as -> by congruence. lia. Qed.

Lemma FindFork_spec p b : m !! p = Some b ->
  exists r, FindFork m v (Some p) = Ret r /\
    match r with
    | Some q => in_chain m v q /\ (exists h, ancestor m p h = Some q) /\
                forall h' q', ancestor m p h' = Some q' -> in_chain m v q' ->
                  exists bq, m !! q = Some bq /\ h' <= nHeight bq
    | None => forall h' q', ancestor m p h' = Some q' -> ~ in_chain m v q'
    end.
Proof.
  intros Hp. cbn [FindFork]. rewrite Hp. cbn [deref mbind outcome_bind].
  destruct (Z.ltb_spec (Height v) (nHeight b)) as [Hlt|Hle].
  2: { apply (FindFork_loop_spec _ p b Hp). pose proof (wf_nonneg m Hm p b Hp). lia. }
  rewrite (GetAncestor_spec m Hm p b) by done. cbn [mbind outcome_bind].
  assert (forall h' q', ancestor m p h' = Some q' -> in_chain m v q' -> h' <= Height v) as Hmax.
  { intros h' q' Ha Hin. destruct (ancestor_height m Hm _ _ _ Ha) as (bq & Hbq & <-).
    eauto using in_chain_height. }
  destruct (ancestor m p (Height v)) as [a|] eqn:Ea.
  - destruct (ancestor_height m Hm _ _ _ Ea) as (ba & Hba & Hh).
    destruct (FindFork_loop_spec (Z.to_nat (nHeight b) + 1) a ba Hba) as (r & Er & Hr);
      [pose proof (wf_nonneg m Hm p b Hp); lia|].
    exists r. split; [done|].
    assert (forall h', h' <= Height v -> ancestor m p h' = ancestor m a h') as Htr
      by (intros; apply (ancestor_trans m Hm p a b (Height v)); auto).
    destruct r as [q|].
    + destruct Hr as (H1 & (h & H2) & H3). split; [done|]. split.
      * exists h. rewrite Htr; [done|]. pose proof (ancestor_range m a ba h q Hba H2). lia.
      * intros h' q' Ha Hin. apply (H3 h' q'); [|done]. rewrite <- Htr; eauto.
    + intros h' q' Ha Hin. apply (Hr h' q'); [|done]. rewrite <- Htr; eauto.
  - exists None. split; [by destruct (Z.to_nat (nHeight b) + 1)%nat|].
    intros h' q' Ha Hin. pose proof (ancestor_range m p b h' q' Hp Ha).
    pose proof (Hmax h' q' Ha Hin).
    destruct (ancestor_total m Hm p b (Height v) Hp) as (? & ? & ? & _); [lia|]. congruence.
Qed.
End fork_lemmas.

(** ** Lemmas: locators and time search *)

Definition hash_at (m : index) (p : ptr) (h : Z) : hash :=
  match ancestor m p h ≫= (m !!.) with Some b => phashBlock b | None => [] end.

(** What a list of heights must satisfy to be the heights of a locator. *)
Record locator_heights (h : Z) (n : nat) (hs : list Z) : Prop := {
  lh_head : hs !! 0%nat = Some h;
  lh_last : list.last hs = Some 0;
  lh_desc : StronglySorted Z.gt hs;
  lh_dense : forall i x, hs !! i = Some x -> (n + i <= 11)%nat -> x = h - Z.of_nat i
}.

Lemma locator_heights_cons h h' n hs : 0 <= h' < h -> ((n <= 10)%nat -> h' = h - 1) ->
  locator_heights h' (S n) hs -> locator_heights h n (h :: hs).
Proof.
  intros Hh Hd [H1 H2 H3 H4]. constructor; [done| | |].
  - destruct hs; [done|]. by rewrite last_cons_cons.
  - constructor; [done|]. destruct hs as [|x hs]; [done|]. injection H1 as ->.
    apply StronglySorted_inv in H3 as [_ H3]. constructor; [lia|].
    eapply Forall_impl; [|exact H3]. simpl. lia.
  - intros [|i] x Hx Hi; [injection Hx as <-; lia|]. simpl in Hx.
    rewrite (H4 i x Hx), Hd by lia. lia.
Qed.

Section locator_lemmas.
Context (m : index) (Hm : wf_index m) (v : CChain) (Hv : wf_chain m v).
Context (p0 : ptr) (b0 : CBlockIndex) (Hp0 : m !! p0 = Some b0) (Hh0 : nHeight b0 < 2 ^ 30).

Lemma locator_next q bq h : m !! q = Some bq -> 0 <= h <= nHeight bq ->
  (c ← Contains m v q; (if (c : bool) then Ret (chain_at v h) else GetAncestor m q h)) = Ret (ancestor m q h).
Proof.
  intros Hq Hh. rewrite (Contains_spec m v q bq Hq). cbn [mbind outcome_bind].
  case_bool_decide as Hc; [|by apply (GetAncestor_spec m Hm q bq)].
  apply chain_at_Some in Hc as [Hr Hc]. replace h with (Z.of_nat (Z.to_nat h)) by lia.
  by rewrite chain_at_nat, (chain_ancestor m Hm v _ q Hv Hc) by lia.
Qed.

Lemma GetLocator_loop_spec fuel : forall h s vHave q,
  ancestor m p0 h = Some q -> h <= Z.of_nat fuel ->
  h = 0 \/ 1 <= s <= nHeight b0 - h + 1 -> ((length vHave <= 10)%nat -> s = 1) ->
  exists hs, GetLocator_loop fuel m v vHave s (Some q) = Ret (vHave ++ map (hash_at m p0) hs) /\
    locator_heights h (length vHave) hs.
Proof.
  induction fuel as [|fuel IH]; intros h s vHave q Ha Hf Hs Hd;
    destruct (ancestor_height m Hm _ _ _ Ha) as (bq & Hq & Hbq);
    pose proof (ancestor_range m p0 b0 h q Hp0 Ha) as Hr;
    assert (hash_at m p0 h = phashBlock bq) as Eh by (unfold hash_at; rewrite Ha; simpl; by rewrite Hq);
    cbn [GetLocator_loop]; rewrite Hq; cbn [deref mbind outcome_bind]; rewrite Hbq;
    (destruct (Z.eqb_spec h 0) as [->|Hne];
     [exists [0]; split; [simpl; by rewrite Eh|];
      constructor; [done|done|repeat constructor|
                    intros [|i] x Hx Hi; [injection Hx as <-; lia|done]]|]).
  - lia.
  - assert (i32 (h - s) = h - s) as -> by (apply wrapS_small; unfold inS; lia).
    set (h' := Z.max (h - s) 0).
    pose proof (locator_next q bq h' Hq ltac:(lia)) as En. cbn [mbind outcome_bind] in En.
    destruct (Contains m v q) as [c|] eqn:Ec; [|by rewrite (Contains_spec m v q bq Hq) in Ec].
    cbn [mbind outcome_bind] in En |- *. rewrite En. cbn [mbind outcome_bind].
    destruct (ancestor_total m Hm p0 b0 h' Hp0) as (q' & b' & Ea' & _ & _); [lia|].
    rewrite <- (ancestor_trans m Hm p0 q b0 h h' Hp0 Ha) by lia. rewrite Ea'.
    rewrite length_app. simpl length.
    destruct (IH h' (if (10 <? length vHave + 1)%nat then i32 (s * 2) else s) (vHave ++ [phashBlock bq]) q')
      as (hs & E & Hhs); [done|lia| | |].
    + destruct (Z.eqb_spec h' 0); [by left|]. right.
      destruct (10 <? length vHave + 1)%nat; [|lia].
      rewrite wrapS_small by (unfold inS; lia). lia.
    + rewrite length_app. simpl. intros. destruct (Nat.ltb_spec 10 (length vHave + 1)); [lia|].
      apply Hd. lia.
    + exists (h :: hs). rewrite E. split; [simpl; by rewrite Eh, <- app_assoc|].
      apply (locator_heights_cons h h'); [lia| |].
      * intros. rewrite Hd in * by lia. lia.
      * rewrite length_app in Hhs. simpl in Hhs. by rewrite Nat.add_1_r in Hhs.
Qed.
End locator_lemmas.

(** [std::lower_bound] finds the first position where the predicate fails. *)
Lemma lower_bound_spec (P : nat -> bool) comp n :
  (forall i, (i < n)%nat -> comp i = Ret (P i)) ->
  (forall i j, (i <= j < n)%nat -> P j = true -> P i = true) ->
  forall fuel first len, (len <= fuel)%nat -> (first + len <= n)%nat ->
    (forall i, (i < first)%nat -> P i = true) ->
    (forall i, (first + len <= i < n)%nat -> P i = false) ->
    exists r, lower_bound fuel comp first len = Ret r /\ (r <= n)%nat /\
      (forall i, (i < r)%nat -> P i = true) /\ (forall i, (r <= i < n)%nat -> P i = false).
Proof.
  intros Hc Hmono. induction fuel as [|fuel IH]; intros first len Hf Hn Hlo Hhi.
  { assert (len = 0%nat) as -> by lia. exists first. simpl.
    repeat split; auto; [lia|]. intros. apply Hhi. lia. }
  destruct len as [|len].
  { exists first. simpl. repeat split; auto; [lia|]. intros. apply Hhi. lia. }
  cbn [lower_bound]. set (half := (S len / 2)%nat).
  assert (half < S len)%nat by (apply Nat.div_lt; lia).
  rewrite Hc by lia. cbn [mbind outcome_bind]. destruct (P (first + half)%nat) eqn:EP.
  - apply IH; [lia|lia| |].
    + intros i Hi. apply (Hmono i (first + half)%nat); [lia|done].
    + intros i Hi. apply Hhi. lia.
  - apply IH; [lia|lia|done|]. intros i Hi.
    destruct (P i) eqn:E; [|done]. rewrite (Hmono (first + half)%nat i) in EP; [done|lia|done].
Qed.

(** The maximum time is monotone along a chain of a well-formed tree. *)
Lemma chain_time_mono t v i j p q bp bq :
  wf_tree t -> wf_chain (tIndex t) v -> (i <= j)%nat ->
  v !! i = Some (Some p) -> v !! j = Some (Some q) ->
  tIndex t !! p = Some bp -> tIndex t !! q = Some bq -> nTimeMax bp <= nTimeMax bq.
Proof.
  intros Ht Hv Hij Hi. revert q bq. induction j as [|j IH]; intros q bq Hj Hp Hq.
  - assert (i = 0%nat) as -> by lia. assert (bp = bq) as -> by congruence. lia.
  - destruct (decide (i = S j)) as [->|]; [assert (bp = bq) as -> by congruence; lia|].
    destruct (Hv _ _ Hj) as (q' & bq' & [= <-] & Hq' & Hh & Hprev).
    assert (bq' = bq) as -> by congruence. specialize (Hprev j eq_refl).
    pose proof (wt_time t Ht q bq Hq) as Et.
    pose proof (wf_prev _ (wt_index t Ht) q bq Hq) as Hw.
    destruct (pprev bq) as [r|]; [|lia]. destruct Hw as (br & Hr & _). rewrite Hr in Et.
    pose proof (IH ltac:(lia) r br Hprev Hp Hr). lia.
Qed.

(** ** Trees built by the node *)

Definition emptyTree : BlockTree :=
  {| tIndex := ∅; mapBlockIndex := ∅; pindexBestHeader := None; setDirtyBlockIndex := ∅; nextPtr := 0 |}.

(** Headers arrive one after the other.  No header commits to its own hash
    (the hash of a header is computed over [hashPrevBlock]). *)
Inductive tree_reachable (GetHash : CPureBlockHeader -> hash) : BlockTree -> Prop :=
| tr_empty : tree_reachable GetHash emptyTree
| tr_add t block t' p :
    tree_reachable GetHash t -> inU 32 (hBits block) -> hashPrevBlock block <> GetHash block ->
    AddToBlockIndex GetHash t block = Ret (t', p) -> tree_reachable GetHash t'.

Lemma emptyTree_wf : wf_tree emptyTree.
Proof.
  constructor; simpl; try (intros *; rewrite lookup_empty; done); done.
Qed.

Lemma reachable_wf GetHash t : tree_reachable GetHash t -> wf_tree t.
Proof.
  induction 1 as [|t block t' p _ IH Hb Hne E]; [apply emptyTree_wf|].
  destruct (AddToBlockIndex_spec GetHash t block IH Hb Hne) as (t'' & p'' & E' & H & _). congruence.
Qed.

(** A small concrete tree for the witnesses: five blocks on one branch and
    one competing block, hashed by their nonce. *)
Definition demo_hash (b : CPureBlockHeader) : hash := [hNonce b].
Definition demo_header (prev nonce time : Z) : CPureBlockHeader :=
  {| hVersion := 1; hashPrevBlock := [prev]; hMerkleRoot := []; hTime := time;
     hBits := 0x1e0ffff0; hNonce := nonce |}.
Definition demo_headers : list CPureBlockHeader :=
  [demo_header 0 1 100; demo_header 1 2 160; demo_header 2 3 150; demo_header 3 4 230;
   demo_header 4 5 290; demo_header 2 6 170].

Fixpoint add_all (GetHash : CPureBlockHeader -> hash) (t : BlockTree) (bs : list CPureBlockHeader)
  : outcome BlockTree :=
  match bs with
  | [] => Ret t
  | b :: bs => r ← AddToBlockIndex GetHash t b; add_all GetHash r.1 bs
  end.

Definition demo_tree : BlockTree :=
  match add_all demo_hash emptyTree demo_headers with Ret t => t | Abort => emptyTree end.
Definition demo_block (p : ptr) : CBlockIndex :=
  default (newIndex [] (demo_header 0 0 0)) (tIndex demo_tree !! p).
Definition demo_chain : CChain :=
  match SetTip (tIndex demo_tree) [] (Some 4%nat) with Ret v => v | Abort => [] end.

Lemma add_all_reachable GetHash bs t t' :
  tree_reachable GetHash t ->
  Forall (fun b => inU 32 (hBits b) /\ hashPrevBlock b <> GetHash b) bs ->
  add_all GetHash t bs = Ret t' -> tree_reachable GetHash t'.
Proof.
  revert t. induction bs as [|b bs IH]; intros t Ht Hbs; cbn [add_all]; [by intros [= <-]|].
  apply Forall_cons_iff in Hbs as [[Hb Hne] Hbs].
  destruct (AddToBlockIndex GetHash t b) as [[t1 p1]|] eqn:E; [|done].
  apply IH; [|done]. by eapply tr_add.
Qed.

Lemma demo_tree_reachable : tree_reachable demo_hash demo_tree.
Proof.
  apply (add_all_reachable demo_hash demo_headers emptyTree); [constructor| |vm_compute; reflexivity].
  repeat constructor; simpl; try lia; try discriminate.
Qed.

Lemma demo_tree_wf : wf_tree demo_tree.
Proof. apply (reachable_wf demo_hash), demo_tree_reachable. Qed.

(** ** Properties *)

(** In every tree the node can build from headers, in any order, the
    structural invariant holds (parents one lower, skip pointers at their
    ancestors, cumulative work and maximum time consistent with the parent),
    and inserting one more header returns a result, keeps every old entry and
    files the new entry under its hash with the known parent. *)
Theorem block_tree_invariant (GetHash : CPureBlockHeader -> hash) (t : BlockTree) (block : CPureBlockHeader)
  (Ht : tree_reachable GetHash t) (Hb : inU 32 (hBits block))
  (Hne : hashPrevBlock block <> GetHash block) :
  wf_tree t /\
  exists t' p, AddToBlockIndex GetHash t block = Ret (t', p) /\ wf_tree t' /\
    mapBlockIndex t' !! GetHash block = Some p /\ tIndex t ⊆ tIndex t' /\
    (mapBlockIndex t !! GetHash block = None -> exists b, tIndex t' !! p = Some b /\
       nTime b = hTime block /\ nBits b = hBits block /\
       pprev b = mapBlockIndex t !! hashPrevBlock block).
Proof. pose proof (reachable_wf _ _ Ht). auto using AddToBlockIndex_spec. Qed.

Lemma block_tree_invariant_witness :
  let block := demo_header 5 7 300 in
  wf_tree demo_tree /\
  exists t' p, AddToBlockIndex demo_hash demo_tree block = Ret (t', p) /\ wf_tree t' /\
    mapBlockIndex t' !! demo_hash block = Some p /\ tIndex demo_tree ⊆ tIndex t' /\
    (mapBlockIndex demo_tree !! demo_hash block = None -> exists b, tIndex t' !! p = Some b /\
       nTime b = hTime block /\ nBits b = hBits block /\
       pprev b = mapBlockIndex demo_tree !! hashPrevBlock block).
Proof.
  apply block_tree_invariant; [apply demo_tree_reachable|split; simpl; lia|discriminate].
Defined.

(** The skip-list search [GetAncestor] terminates without a failed
    assertion and returns exactly the block reached by walking [pprev] to the
    requested height ([NULL] for a height outside the chain of the block). *)
Theorem GetAncestor_is_walk (m : index) (p : ptr) (b : CBlockIndex) (height : Z)
  (Hm : wf_index m) (Hp : m !! p = Some b) :
  GetAncestor m p height = Ret (ancestor m p height).
Proof. by apply (GetAncestor_spec m Hm p b). Qed.

Lemma GetAncestor_is_walk_witness :
  GetAncestor (tIndex demo_tree) 4 1 = Ret (ancestor (tIndex demo_tree) 4 1) /\
  ancestor (tIndex demo_tree) 4 1 = Some 1%nat.
Proof.
  split; [|vm_compute; reflexivity].
  eapply GetAncestor_is_walk; [apply demo_tree_wf|vm_compute; reflexivity].
Defined.

(** [CChain::SetTip], from any earlier chain, ends with the vector of the
    ancestors of the new tip, by height, although its loop stops at the first
    entry that is already in place. *)
Theorem SetTip_rebuilds_chain (m : index) (v : CChain) (p : ptr) (b : CBlockIndex)
  (Hm : wf_index m) (Hv : wf_chain m v) (Hp : m !! p = Some b) :
  exists v', SetTip m v (Some p) = Ret v' /\ wf_chain m v' /\ Height v' = nHeight b /\
    Tip v' = Some p /\ forall h, 0 <= h <= nHeight b -> chain_at v' h = ancestor m p h.
Proof.
  destruct (SetTip_spec m Hm v p b Hv Hp) as (v' & E & Hl & Ha).
  assert (forall h, 0 <= h <= nHeight b -> chain_at v' h = ancestor m p h) as Hc.
  { intros h Hh. replace h with (Z.of_nat (Z.to_nat h)) by lia. by rewrite chain_at_nat, Ha by lia. }
  pose proof (wf_nonneg m Hm p b Hp). exists v'. split; [done|].
  split; [by apply (ancestors_wf_chain m Hm v' p b)|]. unfold Tip, Height.
  split; [lia|]. split; [|done].
  replace (Z.of_nat (length v') - 1) with (nHeight b) by lia.
  rewrite Hc by lia. by apply ancestor_self.
Qed.

Lemma SetTip_rebuilds_chain_witness :
  nHeight (demo_block 4) = 4 /\
  exists v', SetTip (tIndex demo_tree) [] (Some 4%nat) = Ret v' /\ wf_chain (tIndex demo_tree) v' /\
    Height v' = nHeight (demo_block 4) /\ Tip v' = Some 4%nat /\
    forall h, 0 <= h <= nHeight (demo_block 4) -> chain_at v' h = ancestor (tIndex demo_tree) 4 h.
Proof.
  split; [vm_compute; reflexivity|].
  apply (SetTip_rebuilds_chain (tIndex demo_tree) [] 4);
    [apply demo_tree_wf|intros i e Hi; discriminate|vm_compute; reflexivity].
Defined.

Lemma demo_chain_wf : wf_chain (tIndex demo_tree) demo_chain.
Proof.
  destruct (SetTip_spec (tIndex demo_tree) (wt_index _ demo_tree_wf) [] 4 (demo_block 4)) as (v' & E & Hl & Ha).
  - intros i e Hi. discriminate.
  - vm_compute. reflexivity.
  - assert (demo_chain = v') as -> by (unfold demo_chain; by rewrite E).
    eapply (ancestors_wf_chain _ (wt_index _ demo_tree_wf) v' 4); [vm_compute; reflexivity|exact Hl|exact Ha].
Qed.

(** [FindFork] returns the highest ancestor of a block that is in the
    chain, and [NULL] exactly when no ancestor is. *)
Theorem FindFork_highest_common (m : index) (v : CChain) (p : ptr) (b : CBlockIndex)
  (Hm : wf_index m) (Hp : m !! p = Some b) :
  exists r, FindFork m v (Some p) = Ret r /\
    match r with
    | Some q => in_chain m v q /\ (exists h, ancestor m p h = Some q) /\
                forall h' q', ancestor m p h' = Some q' -> in_chain m v q' ->
                  exists bq, m !! q = Some bq /\ h' <= nHeight bq
    | None => forall h' q', ancestor m p h' = Some q' -> ~ in_chain m v q'
    end.
Proof. by apply (FindFork_spec m Hm v p b). Qed.

Lemma FindFork_highest_common_witness :
  FindFork (tIndex demo_tree) demo_chain (Some 5%nat) = Ret (Some 1%nat) /\
  exists r, FindFork (tIndex demo_tree) demo_chain (Some 5%nat) = Ret r /\
    match r with
    | Some q => in_chain (tIndex demo_tree) demo_chain q /\
                (exists h, ancestor (tIndex demo_tree) 5 h = Some q) /\
                forall h' q', ancestor (tIndex demo_tree) 5 h' = Some q' ->
                  in_chain (tIndex demo_tree) demo_chain q' ->
                  exists bq, tIndex demo_tree !! q = Some bq /\ h' <= nHeight bq
    | None => forall h' q', ancestor (tIndex demo_tree) 5 h' = Some q' ->
                ~ in_chain (tIndex demo_tree) demo_chain q'
    end.
Proof.
  split; [vm_compute; reflexivity|].
  eapply FindFork_highest_common; [apply demo_tree_wf|vm_compute; reflexivity].
Defined.

(** A block locator, whether its walk uses the chain vector or the skip
    list, lists hashes of ancestors of the block at strictly decreasing
    heights: it starts at the block, takes the first twelve blocks densely and
    ends with the genesis block. *)
Theorem GetLocator_structure (m : index) (v : CChain) (p : ptr) (b : CBlockIndex)
  (Hm : wf_index m) (Hv : wf_chain m v) (Hp : m !! p = Some b) (Hh : nHeight b < 2 ^ 30) :
  exists hs, GetLocator m v (Some p) = Ret (map (hash_at m p) hs) /\ locator_heights (nHeight b) 0 hs.
Proof.
  pose proof (wf_nonneg m Hm p b Hp).
  destruct (GetLocator_loop_spec m Hm v Hv p b Hp Hh (Z.to_nat (nHeight b)) (nHeight b) 1 [] p)
    as (hs & E & Hhs); auto using ancestor_self; try lia.
  exists hs. split; [|done]. unfold GetLocator. rewrite Hp. exact E.
Qed.

Lemma GetLocator_structure_witness :
  exists hs, GetLocator (tIndex demo_tree) demo_chain (Some 5%nat)
             = Ret (map (hash_at (tIndex demo_tree) 5) hs) /\
             locator_heights (nHeight (demo_block 5)) 0 hs.
Proof.
  apply (GetLocator_structure (tIndex demo_tree) demo_chain 5);
    [apply demo_tree_wf|apply demo_chain_wf|vm_compute; reflexivity|vm_compute; reflexivity].
Defined.

(** The binary search [FindEarliestAtLeast] returns the first block of
    the chain whose maximum time reaches the bound, [NULL] if none does. *)
Theorem FindEarliestAtLeast_first (t : BlockTree) (v : CChain) (time : Z)
  (Ht : wf_tree t) (Hv : wf_chain (tIndex t) v) :
  exists r, FindEarliestAtLeast (tIndex t) v time = Ret r /\
    match r with
    | Some p => exists i b, v !! i = Some (Some p) /\ tIndex t !! p = Some b /\ time <= nTimeMax b /\
        forall j q bq, (j < i)%nat -> v !! j = Some (Some q) -> tIndex t !! q = Some bq -> nTimeMax bq < time
    | None => forall j q bq, v !! j = Some (Some q) -> tIndex t !! q = Some bq -> nTimeMax bq < time
    end.
Proof.
  set (tm := fun i => match mjoin (v !! i) ≫= (tIndex t !!.) with Some b => nTimeMax b | None => 0 end).
  assert (forall i, (i < length v)%nat -> exists p b, v !! i = Some (Some p) /\ tIndex t !! p = Some b
            /\ tm i = nTimeMax b) as Hent.
  { intros i Hi. destruct (lookup_lt_is_Some_2 v i Hi) as [e He].
    destruct (Hv i e He) as (p & b & -> & Hb & _). exists p, b. unfold tm. rewrite He. simpl. by rewrite Hb. }
  destruct (lower_bound_spec (fun i => tm i <? time)
    (fun i => p ← deref (mjoin (v !! i)); b ← deref (tIndex t !! p); Ret (GetBlockTimeMax b <? time)) (length v))
    with (fuel := length v) (first := 0%nat) (len := length v) as (r & E & Hr & Hlo & Hhi); try lia.
  - intros i Hi. destruct (Hent i Hi) as (p & b & He & Hb & ->). rewrite He. simpl. by rewrite Hb.
  - intros i j Hij Hj. destruct (Hent i ltac:(lia)) as (p & bp & Hp & Hbp & ->).
    destruct (Hent j ltac:(lia)) as (q & bq & Hq & Hbq & Eq). rewrite Eq in Hj.
    pose proof (chain_time_mono t v i j p q bp bq Ht Hv ltac:(lia) Hp Hq Hbp Hbq). lia.
  - unfold FindEarliestAtLeast. rewrite E. cbn [mbind outcome_bind]. eexists. split; [done|].
    destruct (decide (r < length v)%nat) as [Hlt|Hge].
    + destruct (Hent r Hlt) as (p & b & He & Hb & Et). rewrite He. simpl. exists r, b.
      specialize (Hhi r ltac:(lia)). repeat split; auto; [lia|].
      intros j q bq Hj Hq Hbq. destruct (Hent j ltac:(lia)) as (q' & b' & ? & ? & Ej).
      specialize (Hlo j Hj). assert (bq = b') as -> by congruence. lia.
    + rewrite lookup_ge_None_2 by lia. simpl. intros j q bq Hq Hbq.
      pose proof (lookup_lt_Some _ _ _ Hq). destruct (Hent j ltac:(lia)) as (q' & b' & ? & ? & Ej).
      specialize (Hlo j ltac:(lia)). assert (bq = b') as -> by congruence. lia.
Qed.

Lemma FindEarliestAtLeast_first_witness :
  FindEarliestAtLeast (tIndex demo_tree) demo_chain 200 = Ret (Some 3%nat) /\
  exists r, FindEarliestAtLeast (tIndex demo_tree) demo_chain 200 = Ret r /\
    match r with
    | Some p => exists i b, demo_chain !! i = Some (Some p) /\ tIndex demo_tree !! p = Some b /\
        200 <= nTimeMax b /\
        forall j q bq, (j < i)%nat -> demo_chain !! j = Some (Some q) ->
          tIndex demo_tree !! q = Some bq -> nTimeMax bq < 200
    | None => forall j q bq, demo_chain !! j = Some (Some q) ->
                tIndex demo_tree !! q = Some bq -> nTimeMax bq < 200
    end.
Proof.
  split; [vm_compute; reflexivity|].
  apply FindEarliestAtLeast_first; [apply demo_tree_wf|apply demo_chain_wf].
Defined.

(** [GetBlockProof] never divides by zero; it is [2^256 / (target + 1)]
    rounded down for a valid target and [0] for a negative, overflowing or
    zero one. *)
Theorem GetBlockProof_expected_hashes (c : Z) (Hc : inU 32 c) :
  exists w, GetBlockProof c = Some w /\ wf w /\
    eval w = if valid_target c then 2 ^ 256 / (compact_value c + 1) else 0.
Proof. by apply GetBlockProof_spec. Qed.

Lemma GetBlockProof_expected_hashes_witness :
  exists w, GetBlockProof 0x1e0ffff0 = Some w /\ wf w /\
    eval w = if valid_target 0x1e0ffff0 then 2 ^ 256 / (compact_value 0x1e0ffff0 + 1) else 0.
Proof. apply GetBlockProof_expected_hashes. split; lia. Defined.
