(* ===== verification/MedianTime.v ===== *)
(** * Median time past ([CBlockIndex::GetMedianTimePast] in [chain.h])

    The median of the times of the last eleven blocks, and why it never
    decreases along a chain whose headers pass the check of their time. *)

From S2P Require Import Prelude ArithUint256 Chain.
From stdpp Require Import list gmap sorting.
#[local] Open Scope Z_scope.

Definition nMedianTimeSpan : nat := 11.

(** The loop that fills the array from its end. *)
Fixpoint median_times (i : nat) (m : index) (pindex : option ptr) : outcome (list Z) :=
  match i, pindex with
  | S i', Some p => b ← deref (m !! p); rest ← median_times i' m (pprev b); Ret (rest ++ [GetBlockTime b])
  | _, _ => Ret []
  end.

Definition GetMedianTimePast (m : index) (p : ptr) : outcome Z :=
  pmedian ← median_times nMedianTimeSpan m (Some p);
  deref (merge_sort Z.le pmedian !! (length pmedian / 2)%nat).

(** ** Order statistics *)

Definition below (y : Z) (l : list Z) : nat := length (filter (fun t => t < y) l).

Lemma below_app y a b : below y (a ++ b) = (below y a + below y b)%nat.
Proof. unfold below. by rewrite filter_app, length_app. Qed.

Lemma below_Permutation y a b : a ≡ₚ b -> below y a = below y b.
Proof. intros H. unfold below. by rewrite H. Qed.

Lemma below_le y l : (below y l <= length l)%nat.
Proof. apply length_filter. Qed.

Lemma below_all y l : Forall (fun t => t < y) l -> below y l = length l.
Proof.
  induction 1 as [|t l Ht Hl IH]; [done|]. unfold below in *. rewrite filter_cons_True by done. cbn [length]. by rewrite IH.
Qed.

Lemma below_none y l : Forall (fun t => y <= t) l -> below y l = 0%nat.
Proof.
  induction 1 as [|t l Ht Hl IH]; [done|]. unfold below in *. rewrite filter_cons_False by lia. done.
Qed.

Lemma sorted_split s k x : StronglySorted Z.le s -> s !! k = Some x ->
  Forall (fun t => t <= x) (take (S k) s) /\ Forall (fun t => x <= t) (drop k s).
Proof.
  intros Hs. revert k. induction Hs as [|y s Hs IH Hy]; intros k Hk; [done|]. destruct k as [|k].
  - injection Hk as <-. split; [by repeat constructor|]. constructor; [lia|done].
  - cbn [lookup list_lookup] in Hk. destruct (IH k Hk) as [H1 H2]. split; [|done]. cbn [take]. constructor; [|done].
    rewrite Forall_forall in Hy. apply Hy. by eapply list_elem_of_lookup_2.
Qed.

(** The element [k] of the sorted list, by the number of elements below it. *)
Lemma sorted_rank l k x : merge_sort Z.le l !! k = Some x ->
  (below x l <= k)%nat /\ forall y, (below y l <= k)%nat -> y <= x.
Proof.
  intros Hk. pose proof (merge_sort_Permutation Z.le l) as Hp.
  destruct (sorted_split _ _ _ (StronglySorted_merge_sort Z.le l) Hk) as [H1 H2]. set (s := merge_sort Z.le l) in *.
  pose proof (lookup_lt_Some _ _ _ Hk) as Hlt. split.
  - rewrite <- (below_Permutation x _ _ Hp), <- (take_drop k s), below_app, (below_none x (drop k s)) by done.
    pose proof (below_le x (take k s)). rewrite length_take in *. lia.
  - intros y Hy. destruct (Z.le_gt_cases y x) as [|Hxy]; [done|]. exfalso.
    rewrite <- (below_Permutation y _ _ Hp), <- (take_drop (S k) s), below_app in Hy.
    rewrite (below_all y (take (S k) s)), length_take in Hy; [lia|]. eapply Forall_impl; [exact H1|]. cbn. lia.
Qed.

Lemma merge_sort_length (l : list Z) : length (merge_sort Z.le l) = length l.
Proof. apply Permutation_length, merge_sort_Permutation. Qed.

(** ** The times of the last blocks *)

Section Index.
Context (m : index) (Hm : wf_index m).

Lemma median_times_total i p b : m !! p = Some b ->
  exists l, median_times i m (Some p) = Ret l /\ (i <> 0%nat -> l <> []).
Proof.
  revert p b. induction i as [|i IH]; intros p b Hp; [by exists []|]. cbn [median_times]. rewrite Hp. cbn [deref mbind outcome_bind].
  assert (exists l, median_times i m (pprev b) = Ret l) as [l ->].
  { destruct (pprev b) as [q|] eqn:Eq; [|by exists []; destruct i]. pose proof (wf_prev m Hm p b Hp) as H. rewrite Eq in H.
    destruct H as (b' & Hq & _). destruct (IH q b' Hq) as (l & -> & _). by exists l. }
  cbn [mbind outcome_bind]. eexists. split; [done|]. by destruct l.
Qed.

(** One more block adds at most one time, in front. *)
Lemma median_times_S i o l' : median_times (S i) m o = Ret l' ->
  exists pre l, l' = pre ++ l /\ median_times i m o = Ret l /\ (length pre <= 1)%nat.
Proof.
  revert o l'. induction i as [|i IH]; intros o l'.
  - destruct o as [p|]; [|intros [= <-]; exists [], []; split_and!; [done|done|cbn; lia]]. cbn [median_times]. destruct (m !! p) as [b|]; [|done]. cbn.
    intros [= <-]. exists [GetBlockTime b], []. split_and!; [done|done|cbn; lia].
  - destruct o as [p|]; [|intros [= <-]; exists [], []; split_and!; [done|done|cbn; lia]]. change (median_times (S (S i)) m (Some p)) with
      (b ← deref (m !! p); rest ← median_times (S i) m (pprev b); Ret (rest ++ [GetBlockTime b])).
    change (median_times (S i) m (Some p)) with (b ← deref (m !! p); rest ← median_times i m (pprev b); Ret (rest ++ [GetBlockTime b])).
    destruct (m !! p) as [b|]; [|done]. cbn [deref mbind outcome_bind].
    destruct (median_times (S i) m (pprev b)) as [r|] eqn:Er; [|done]. cbn [mbind outcome_bind]. intros [= <-].
    destruct (IH _ _ Er) as (pre & l & -> & -> & Hp). exists pre, (l ++ [GetBlockTime b]). by rewrite app_assoc.
Qed.

Lemma GetMedianTimePast_total p b : m !! p = Some b -> exists t, GetMedianTimePast m p = Ret t.
Proof.
  intros Hp. unfold GetMedianTimePast. destruct (median_times_total nMedianTimeSpan p b Hp) as (l & -> & Hl). cbn [mbind outcome_bind].
  destruct (lookup_lt_is_Some_2 (merge_sort Z.le l) (length l / 2)) as [t ->]; [|by exists t]. rewrite merge_sort_length.
  apply Nat.div_lt; [|lia]. destruct l; [by destruct Hl|cbn; lia].
Qed.

(** The times are those of blocks on the way to the genesis block. *)
Lemma median_times_walk i p l t : median_times i m (Some p) = Ret l -> t ∈ l ->
  exists j q b, (j < i)%nat /\ walk_back m j p = Some q /\ m !! q = Some b /\ t = GetBlockTime b.
Proof.
  revert p l. induction i as [|i IH]; intros p l El Ht; [injection El as <-; by apply not_elem_of_nil in Ht|].
  cbn [median_times] in El. destruct (m !! p) as [b|] eqn:Eb; [|done]. cbn [deref mbind outcome_bind] in El.
  destruct (median_times i m (pprev b)) as [r|] eqn:Er; [|done]. injection El as <-.
  apply elem_of_app in Ht as [Ht|Ht%list_elem_of_singleton]; [|exists 0%nat, p, b; split_and!; [lia|done..]].
  destruct (pprev b) as [q|] eqn:Eq; [|destruct i; injection Er as <-; by apply not_elem_of_nil in Ht].
  destruct (IH q r Er Ht) as (j & q' & b' & Hj & Hw & Hq' & ->). exists (S j), q', b'. split_and!; [lia| |done|done].
  cbn [walk_back]. rewrite Eb. cbn [mbind option_bind]. by rewrite Eq.
Qed.

Lemma median_is_time p T : GetMedianTimePast m p = Ret T ->
  exists j q b, (j < 11)%nat /\ walk_back m j p = Some q /\ m !! q = Some b /\ T = GetBlockTime b.
Proof.
  unfold GetMedianTimePast. destruct (median_times nMedianTimeSpan m (Some p)) as [l|] eqn:El; [|done]. cbn [mbind outcome_bind].
  destruct (merge_sort Z.le l !! _) as [x|] eqn:Ex; [|done]. intros [= <-]. apply list_elem_of_lookup_2 in Ex.
  rewrite (merge_sort_Permutation Z.le l) in Ex. by eapply median_times_walk.
Qed.

(** The rule on the time of a header, for the whole index. *)
Definition times_ok : Prop := forall p b q t, m !! p = Some b -> pprev b = Some q -> GetMedianTimePast m q = Ret t -> t < GetBlockTime b.

Lemma median_parent p b q t t' : times_ok -> m !! p = Some b -> pprev b = Some q ->
  GetMedianTimePast m q = Ret t -> GetMedianTimePast m p = Ret t' -> t <= t'.
Proof.
  intros Hok Hp Hq Ht Ht'. pose proof (Hok p b q t Hp Hq Ht) as Hlt. revert Ht Ht'. unfold GetMedianTimePast, nMedianTimeSpan.
  destruct (median_times 11 m (Some q)) as [lq|] eqn:Eq; [|done]. cbn [mbind outcome_bind].
  destruct (median_times_S 10 _ _ Eq) as (pre & l & -> & El & Hpre).
  change (median_times 11 m (Some p)) with (b ← deref (m !! p); rest ← median_times 10 m (pprev b); Ret (rest ++ [GetBlockTime b])).
  rewrite Hp. cbn [deref mbind outcome_bind]. rewrite Hq, El. cbn [mbind outcome_bind].
  destruct (merge_sort _ (pre ++ l) !! _) as [x|] eqn:Ex; [|done]. intros [= <-].
  destruct (merge_sort _ (l ++ _) !! _) as [y|] eqn:Ey; [|done]. intros [= <-].
  apply sorted_rank in Ex as [Hx _]. apply sorted_rank in Ey as [_ Hy]. apply Hy.
  rewrite below_app in *. rewrite length_app in *. rewrite (below_none x [GetBlockTime b]); [|apply Forall_singleton; lia]. cbn [length].
  assert ((length pre + length l) / 2 <= (length l + 1) / 2)%nat by (apply Nat.Div0.div_le_mono; lia). lia.
Qed.

Lemma median_walk n p q t t' : times_ok -> walk_back m n p = Some q -> m !! p <> None ->
  GetMedianTimePast m q = Ret t -> GetMedianTimePast m p = Ret t' -> t <= t'.
Proof.
  intros Hok. revert p t'. induction n as [|n IH]; intros p t' Hw Hp Ht Ht'; [injection Hw as ->; rewrite Ht in Ht'; injection Ht' as ->; lia|].
  cbn [walk_back] in Hw. destruct (m !! p) as [b|] eqn:Eb; [|done]. cbn [mbind option_bind] in Hw.
  destruct (pprev b) as [r|] eqn:Er; [|done]. cbn [mbind option_bind] in Hw. pose proof (wf_prev m Hm p b Eb) as H. rewrite Er in H.
  destruct H as (b' & Hr & _). destruct (GetMedianTimePast_total r b' Hr) as [tr Htr].
  transitivity tr; [eapply IH; [done|congruence|done|done]|]. exact (median_parent p b r tr t' Hok Eb Er Htr Ht').
Qed.

Lemma median_ancestor p h q t t' : times_ok -> ancestor m p h = Some q ->
  GetMedianTimePast m q = Ret t -> GetMedianTimePast m p = Ret t' -> t <= t'.
Proof.
  unfold ancestor. destruct (m !! p) as [b|] eqn:Eb; [|done]. cbn [mbind option_bind]. destruct (_ && _); [|done].
  intros Hok Hw. eapply median_walk; [done|done|]. congruence.
Qed.
End Index.

(** A tree whose headers pass the check of their time. *)
Definition timed_tree : BlockTree :=
  match add_all demo_hash emptyTree [demo_header 0 1 100; demo_header 1 2 160; demo_header 2 3 165; demo_header 3 4 230] with
  | Ret t => t | Abort => emptyTree end.

Lemma timed_tree_wf : wf_tree timed_tree.
Proof.
  apply (reachable_wf demo_hash).
  apply (add_all_reachable demo_hash [demo_header 0 1 100; demo_header 1 2 160; demo_header 2 3 165; demo_header 3 4 230] emptyTree);
    [constructor| |vm_compute; reflexivity].
  repeat constructor; simpl; try lia; try discriminate.
Qed.

Lemma timed_tree_times : times_ok (tIndex timed_tree).
Proof.
  set (ok := fun b => match pprev b with
    | Some q => match GetMedianTimePast (tIndex timed_tree) q with Ret t => t <? GetBlockTime b | Abort => true end
    | None => true end).
  assert (map_Forall (fun _ b => ok b = true) (tIndex timed_tree)) as H.
  { apply (bool_decide_unpack _). vm_compute. exact I. }
  intros p b q t Hp Hq Ht. pose proof (H p b Hp) as Hk. subst ok. cbv beta in Hk. rewrite Hq, Ht in Hk. by apply Z.ltb_lt in Hk.
Qed.
