(* ===== verification/Params.v ===== *)
(** * Consensus parameters (consensus/params.h, chainparams.cpp)

    The parameters of the three networks and the search tree that selects the
    parameters in force at a height.  A null child pointer is [NoParams]. *)

From stdpp Require Import sets.
From S2P Require Import Prelude ArithUint256 StrEncodings Uint256.

Record BIP9Deployment := mkDeployment { dBit : Z; nStartTime : Z; nTimeout : Z }.

(** The positions of the deployments. *)
Definition DEPLOYMENT_TESTDUMMY : nat := 0.
Definition DEPLOYMENT_CSV : nat := 1.
Definition DEPLOYMENT_SEGWIT : nat := 2.

Record Params := mkParams {
  hashGenesisBlock : uint256;
  nSubsidyHalvingInterval : Z;
  nMajorityEnforceBlockUpgrade : Z;
  nMajorityRejectBlockOutdated : Z;
  nMajorityWindow : Z;
  BIP34Height : Z;
  BIP34Hash : uint256;
  BIP65Height : Z;
  BIP66Height : Z;
  nRuleChangeActivationThreshold : Z;
  nMinerConfirmationWindow : Z;
  vDeployments : list BIP9Deployment;
  nCoinbaseMaturity : Z;
  powLimit : uint256;
  fPowAllowMinDifficultyBlocks : bool;
  fPowNoRetargeting : bool;
  nPowTargetSpacing : Z;
  nPowTargetTimespan : Z;
  fDigishieldDifficultyCalculation : bool;
  fPowAllowDigishieldMinDifficultyBlocks : bool;
  fSimplifiedRewards : bool;
  nMinimumChainWork : uint256;
  defaultAssumeValid : uint256;
  nAuxpowChainId : Z;
  fStrictChainId : bool;
  fAllowLegacyBlocks : bool;
  nHeightEffective : Z
}.

Definition DifficultyAdjustmentInterval (p : Params) : Z :=
  Z.quot (nPowTargetTimespan p) (nPowTargetSpacing p).

Inductive ParamsTree :=
| NoParams
| ParamsNode (pLeft : ParamsTree) (self : Params) (pRight : ParamsTree).

(** [Params::GetConsensus], on a node; [None] stands for the call on a null
    pointer, which the source never makes. *)
Fixpoint GetConsensus (t : ParamsTree) (nTargetHeight : Z) : option Params :=
  match t with
  | NoParams => None
  | ParamsNode pLeft self pRight =>
      if (nTargetHeight <? nHeightEffective self) && match pLeft with NoParams => false | _ => true end
      then GetConsensus pLeft nTargetHeight
      else if (nHeightEffective self <? nTargetHeight) && match pRight with NoParams => false | _ => true end
      then match GetConsensus pRight nTargetHeight with
           | Some pCandidate =>
               if nHeightEffective pCandidate <=? nTargetHeight then Some pCandidate else Some self
           | None => None
           end
      else Some self
  end.

(** ** Main network *)

Definition main_consensus : Params := {|
  hashGenesisBlock := uint256S (str "0x1a91e3dace36e2be3bf030a65679fe821aa1d6ef92e7c9902eb318182c355691");
  nSubsidyHalvingInterval := 100000;
  nMajorityEnforceBlockUpgrade := 1500;
  nMajorityRejectBlockOutdated := 1900;
  nMajorityWindow := 2000;
  BIP34Height := 1034383;
  BIP34Hash := uint256S (str "0x80d1364201e5df97e696c03bdd24dc885e8617b9de51e453c10a4f629b1e797a");
  BIP65Height := 3464751;
  BIP66Height := 1034383;
  powLimit := uint256S (str "0x00000fffffffffffffffffffffffffffffffffffffffffffffffffffffffffff");
  nPowTargetTimespan := 4 * 60 * 60;
  nPowTargetSpacing := 60;
  fDigishieldDifficultyCalculation := false;
  nCoinbaseMaturity := 30;
  fPowAllowMinDifficultyBlocks := false;
  fPowAllowDigishieldMinDifficultyBlocks := false;
  fPowNoRetargeting := false;
  nRuleChangeActivationThreshold := 9576;
  nMinerConfirmationWindow := 10080;
  vDeployments := [mkDeployment 28 1199145601 1230767999; mkDeployment 0 1462060800 1493596800;
                   mkDeployment 1 1479168000 0];
  nMinimumChainWork := uint256S (str "0x000000000000000000000000000000000000000000000e993d2aa86cf246a49b");
  defaultAssumeValid := uint256S (str "0xe7d4577405223918491477db725a393bcfc349d8ee63b0a4fde23cbfbfd81dea");
  nAuxpowChainId := 0x0062;
  fStrictChainId := true;
  fAllowLegacyBlocks := true;
  fSimplifiedRewards := false;
  nHeightEffective := 0 |}.

(** A copy of [p] with the fields the later rule sets of a network change. *)
Definition with_digishield (p : Params) (height timespan maturity : Z) (simplified minDifficulty : bool) : Params := {|
  hashGenesisBlock := hashGenesisBlock p;
  nSubsidyHalvingInterval := nSubsidyHalvingInterval p;
  nMajorityEnforceBlockUpgrade := nMajorityEnforceBlockUpgrade p;
  nMajorityRejectBlockOutdated := nMajorityRejectBlockOutdated p;
  nMajorityWindow := nMajorityWindow p;
  BIP34Height := BIP34Height p; BIP34Hash := BIP34Hash p;
  BIP65Height := BIP65Height p; BIP66Height := BIP66Height p;
  powLimit := powLimit p;
  nPowTargetTimespan := timespan;
  nPowTargetSpacing := nPowTargetSpacing p;
  fDigishieldDifficultyCalculation := true;
  nCoinbaseMaturity := maturity;
  fPowAllowMinDifficultyBlocks := minDifficulty;
  fPowAllowDigishieldMinDifficultyBlocks := fPowAllowDigishieldMinDifficultyBlocks p;
  fPowNoRetargeting := fPowNoRetargeting p;
  nRuleChangeActivationThreshold := nRuleChangeActivationThreshold p;
  nMinerConfirmationWindow := nMinerConfirmationWindow p;
  vDeployments := vDeployments p;
  nMinimumChainWork := nMinimumChainWork p; defaultAssumeValid := defaultAssumeValid p;
  nAuxpowChainId := nAuxpowChainId p; fStrictChainId := fStrictChainId p;
  fAllowLegacyBlocks := fAllowLegacyBlocks p;
  fSimplifiedRewards := simplified;
  nHeightEffective := height |}.

Definition with_rules (p : Params) (height : Z) (digishieldMin minDifficulty legacy : bool) : Params := {|
  hashGenesisBlock := hashGenesisBlock p;
  nSubsidyHalvingInterval := nSubsidyHalvingInterval p;
  nMajorityEnforceBlockUpgrade := nMajorityEnforceBlockUpgrade p;
  nMajorityRejectBlockOutdated := nMajorityRejectBlockOutdated p;
  nMajorityWindow := nMajorityWindow p;
  BIP34Height := BIP34Height p; BIP34Hash := BIP34Hash p;
  BIP65Height := BIP65Height p; BIP66Height := BIP66Height p;
  powLimit := powLimit p;
  nPowTargetTimespan := nPowTargetTimespan p;
  nPowTargetSpacing := nPowTargetSpacing p;
  fDigishieldDifficultyCalculation := fDigishieldDifficultyCalculation p;
  nCoinbaseMaturity := nCoinbaseMaturity p;
  fPowAllowMinDifficultyBlocks := minDifficulty;
  fPowAllowDigishieldMinDifficultyBlocks := digishieldMin;
  fPowNoRetargeting := fPowNoRetargeting p;
  nRuleChangeActivationThreshold := nRuleChangeActivationThreshold p;
  nMinerConfirmationWindow := nMinerConfirmationWindow p;
  vDeployments := vDeployments p;
  nMinimumChainWork := nMinimumChainWork p; defaultAssumeValid := defaultAssumeValid p;
  nAuxpowChainId := nAuxpowChainId p; fStrictChainId := fStrictChainId p;
  fAllowLegacyBlocks := legacy;
  fSimplifiedRewards := fSimplifiedRewards p;
  nHeightEffective := height |}.

Definition main_digishieldConsensus : Params := with_digishield main_consensus 145000 60 240 true false.
Definition main_auxpowConsensus : Params := with_rules main_digishieldConsensus 371337 false false false.
Definition CMainParams : ParamsTree :=
  ParamsNode (ParamsNode NoParams main_consensus NoParams) main_digishieldConsensus
    (ParamsNode NoParams main_auxpowConsensus NoParams).

(** ** Test network *)

Definition test_consensus : Params := {|
  hashGenesisBlock := uint256S (str "0xbb0a78264637406b6360aad926284d544d7049f45189db5664f3c4d07350559e");
  nHeightEffective := 0;
  fDigishieldDifficultyCalculation := false;
  nCoinbaseMaturity := 30;
  fPowAllowMinDifficultyBlocks := true;
  fPowAllowDigishieldMinDifficultyBlocks := false;
  nSubsidyHalvingInterval := 100000;
  nMajorityEnforceBlockUpgrade := 501;
  nMajorityRejectBlockOutdated := 750;
  nMajorityWindow := 1000;
  BIP34Height := 708658;
  BIP34Hash := uint256S (str "0x21b8b97dcdb94caa67c7f8f6dbf22e61e0cfe0e46e1fff3528b22864659e9b38");
  BIP65Height := 1854705;
  BIP66Height := 708658;
  powLimit := uint256S (str "0x00000fffffffffffffffffffffffffffffffffffffffffffffffffffffffffff");
  nPowTargetTimespan := 4 * 60 * 60;
  nPowTargetSpacing := 60;
  fPowNoRetargeting := false;
  nRuleChangeActivationThreshold := 2880;
  nMinerConfirmationWindow := 10080;
  vDeployments := [mkDeployment 28 1199145601 1230767999; mkDeployment 0 1456790400 1493596800;
                   mkDeployment 1 1462060800 0];
  nMinimumChainWork := uint256S (str "0x00000000000000000000000000000000000000000000000000540f2f62ff9a26");
  defaultAssumeValid := uint256S (str "0x199bea6a442310589cbb50a193a30b097c228bd5a0f21af21e4e53dd57c382d3");
  nAuxpowChainId := 0x0062;
  fStrictChainId := false;
  fSimplifiedRewards := false;
  fAllowLegacyBlocks := true |}.

Definition test_digishieldConsensus : Params := with_digishield test_consensus 145000 60 240 true false.
Definition test_minDifficultyConsensus : Params := with_rules test_digishieldConsensus 157500 true true true.
Definition test_auxpowConsensus : Params := with_rules test_minDifficultyConsensus 158100 true true false.
Definition CTestNetParams : ParamsTree :=
  ParamsNode (ParamsNode NoParams test_consensus NoParams) test_digishieldConsensus
    (ParamsNode NoParams test_minDifficultyConsensus
       (ParamsNode NoParams test_auxpowConsensus NoParams)).

(** ** Regression test network *)

Definition regtest_consensus : Params := {|
  hashGenesisBlock := uint256S (str "0x3d2160a3b5dc4a9d62e7e66a295f70313ac808440ef7400d6c0772171ce973a5");
  nSubsidyHalvingInterval := 150;
  nMajorityEnforceBlockUpgrade := 750;
  nMajorityRejectBlockOutdated := 950;
  nMajorityWindow := 1000;
  BIP34Height := 100000000;
  BIP34Hash := uint256_null;
  BIP65Height := 1351;
  BIP66Height := 1251;
  powLimit := uint256S (str "0x7fffffffffffffffffffffffffffffffffffffffffffffffffffffffffffffff");
  nPowTargetTimespan := 4 * 60 * 60;
  nPowTargetSpacing := 1;
  fDigishieldDifficultyCalculation := false;
  fPowAllowMinDifficultyBlocks := true;
  fPowAllowDigishieldMinDifficultyBlocks := false;
  fPowNoRetargeting := true;
  nRuleChangeActivationThreshold := 540;
  nMinerConfirmationWindow := 720;
  vDeployments := [mkDeployment 28 0 999999999999; mkDeployment 0 0 999999999999;
                   mkDeployment 1 0 999999999999];
  nMinimumChainWork := uint256S (str "0x00");
  defaultAssumeValid := uint256S (str "0x00");
  nAuxpowChainId := 0x0062;
  fStrictChainId := true;
  fAllowLegacyBlocks := true;
  fSimplifiedRewards := true;
  nCoinbaseMaturity := 60;
  nHeightEffective := 0 |}.

Definition regtest_digishieldConsensus : Params := with_digishield regtest_consensus 10 1 60 true true.
Definition regtest_auxpowConsensus : Params := with_rules regtest_digishieldConsensus 20 false true false.
Definition CRegTestParams : ParamsTree :=
  ParamsNode (ParamsNode NoParams regtest_consensus NoParams) regtest_digishieldConsensus
    (ParamsNode NoParams regtest_auxpowConsensus NoParams).

(** ** The search tree *)

Fixpoint params_list (t : ParamsTree) : list Params :=
  match t with
  | NoParams => []
  | ParamsNode l p r => params_list l ++ p :: params_list r
  end.

(** In order of height, and no two rule sets start at the same height. *)
Fixpoint search_tree (t : ParamsTree) : Prop :=
  match t with
  | NoParams => True
  | ParamsNode l p r =>
      search_tree l /\ search_tree r /\
      (forall q, q ∈ params_list l -> nHeightEffective q < nHeightEffective p) /\
      (forall q, q ∈ params_list r -> nHeightEffective p < nHeightEffective q)
  end.

(** [p] is the last rule set of the list to take effect by height [h]. *)
Definition in_force (ps : list Params) (h : Z) (p : Params) : Prop :=
  p ∈ ps /\ nHeightEffective p <= h /\
  forall q, q ∈ ps -> nHeightEffective q <= h -> nHeightEffective q <= nHeightEffective p.

Lemma GetConsensus_total t h : t <> NoParams ->
  exists p, GetConsensus t h = Some p /\ p ∈ params_list t.
Proof.
  induction t as [|l IHl p r IHr]; intros Ht; [done|]. cbn [GetConsensus params_list].
  assert (p ∈ params_list l ++ p :: params_list r) by set_solver.
  destruct (h <? nHeightEffective p), l as [|ll lp lr] eqn:El; cbn [andb]; rewrite <- ?El in *;
    try (destruct IHl as (c & -> & Hc); [by subst|]; exists c; split; [done|]; apply elem_of_app; by left).
  all: destruct (nHeightEffective p <? h), r as [|rl rp rr] eqn:Er; cbn [andb]; rewrite <- ?Er in *; eauto.
  all: destruct IHr as (c & -> & Hc); [by subst|]; destruct (_ <=? _); eexists; (split; [done|]); [|done].
  all: apply elem_of_app; right; apply elem_of_cons; by right.
Qed.

Ltac in_node := rewrite elem_of_app, elem_of_cons; auto.

Lemma GetConsensus_in_force t h : search_tree t ->
  (exists p, p ∈ params_list t /\ nHeightEffective p <= h) ->
  exists p, GetConsensus t h = Some p /\ in_force (params_list t) h p.
Proof.
  induction t as [|l IHl p r IHr]; intros Ht (q & Hq & Hqh); [by apply elem_of_nil in Hq|].
  destruct Ht as (Hl & Hr & Hlt & Hgt). cbn [GetConsensus params_list] in *.
  destruct (Z.ltb_spec h (nHeightEffective p)).
  - assert (q ∈ params_list l) as Hql.
    { apply elem_of_app in Hq as [?|[->|Hq]%elem_of_cons]; [done|lia|]. specialize (Hgt q Hq). lia. }
    destruct (IHl Hl (ex_intro _ q (conj Hql Hqh))) as (c & Ec & Hc & Hch & Hmax).
    exists c. split; [by destruct l; [apply elem_of_nil in Hql|]|]. split; [in_node|]. split; [done|].
    intros q' [?|[->|Hq']%elem_of_cons]%elem_of_app Hq'h; [auto|lia|]. specialize (Hgt q' Hq'). lia.
  - cbn [andb]. destruct (Z.ltb_spec (nHeightEffective p) h); cbn [andb].
    2: { exists p. split; [done|]. split; [in_node|]. split; [lia|]. intros q' _ ?. lia. }
    assert (in_force (params_list l ++ p :: params_list r) h p \/
            exists q', q' ∈ params_list r /\ nHeightEffective q' <= h) as Hcase.
    { destruct (List.Exists_dec (fun q' => nHeightEffective q' <= h) (params_list r)) as [He|Hn].
      - intros x. destruct (Z_le_dec (nHeightEffective x) h); [by left|by right].
      - right. apply Exists_exists in He as (q' & ? & ?). exists q'. split; [by apply list_elem_of_In|done].
      - left. split; [in_node|]. split; [lia|].
        intros q' [Hq'|[->|Hq']%elem_of_cons]%elem_of_app ?; [specialize (Hlt q' Hq'); lia|lia|].
        exfalso. apply Hn, Exists_exists. exists q'. split; [by apply list_elem_of_In|done]. }
    destruct r as [|rl rp rr]; [|set (r := ParamsNode rl rp rr) in *].
    { exists p. split; [done|]. destruct Hcase as [?|(q' & Hq' & _)]; [done|by apply elem_of_nil in Hq']. }
    destruct (GetConsensus_total r h ltac:(done)) as (c & Ec & Hc). rewrite Ec.
    destruct (Z.leb_spec (nHeightEffective c) h) as [Hle|].
    + exists c. split; [done|]. destruct (IHr Hr (ex_intro _ c (conj Hc Hle))) as (c' & Ec' & _ & _ & Hmax).
      assert (c' = c) as -> by congruence. split; [in_node|]. split; [lia|]. specialize (Hgt c Hc).
      intros q' [Hq'|[->|Hq']%elem_of_cons]%elem_of_app ?; [specialize (Hlt q' Hq'); lia|lia|auto].
    + exists p. split; [done|]. destruct Hcase as [?|Hex]; [done|].
      destruct (IHr Hr Hex) as (c' & Ec' & _ & ? & _). assert (c' = c) as -> by congruence. lia.
Qed.

Definition networks : list ParamsTree := [CMainParams; CTestNetParams; CRegTestParams].

Lemma networks_search_tree t : t ∈ networks ->
  search_tree t /\ exists p, p ∈ params_list t /\ nHeightEffective p = 0.
Proof.
  intros Ht. unfold networks in Ht. rewrite !elem_of_cons, elem_of_nil in Ht. destruct Ht as [->|[->|[->|[]]]].
  all: split; [|eexists; split; [by left|done]].
  all: cbn [search_tree params_list CMainParams CTestNetParams CRegTestParams app];
    repeat split; intros q Hq; repeat (apply elem_of_cons in Hq as [->|Hq]; [reflexivity|]); by apply elem_of_nil in Hq.
Qed.

Lemma network_in_force t h : t ∈ networks -> 0 <= h ->
  exists p, GetConsensus t h = Some p /\ in_force (params_list t) h p.
Proof.
  intros Ht Hh. destruct (networks_search_tree t Ht) as [Hs (p & Hp & H0)].
  apply GetConsensus_in_force; [done|]. exists p. split; [done|lia].
Qed.

(** On a search tree of parameters, [GetConsensus] returns the rule set
    with the greatest starting height that does not exceed the target height;
    the trees of the three networks are search trees that start at height 0. *)
Theorem GetConsensus_selects (t : ParamsTree) (h : Z) (Ht : t ∈ networks) (Hh : inU 32 h) :
  search_tree t /\ exists p, GetConsensus t h = Some p /\ in_force (params_list t) h p.
Proof. unfold inU in Hh. split; [by apply networks_search_tree|apply network_in_force; [done|lia]]. Qed.

Lemma GetConsensus_selects_witness :
  option_map nHeightEffective (GetConsensus CMainParams 200000) = Some 145000 /\
  search_tree CMainParams /\
  exists p, GetConsensus CMainParams 200000 = Some p /\ in_force (params_list CMainParams) 200000 p.
Proof.
  split; [vm_compute; reflexivity|]. apply GetConsensus_selects; [by left|split; lia].
Defined.
