(* ===== verification/Versionbits.v ===== *)
(** * Deployment of rules by version bits ([versionbits.h],
      [versionbits.cpp])

    The state machine of BIP 9: a deployment is defined, started, locked in
    and active, or failed; the state changes once per period of blocks.  The
    code computes the state backwards with a cache; the theorems relate it to
    the state machine itself. *)

From S2P Require Import Prelude ArithUint256 Chain MedianTime Params.
From stdpp Require Import list gmap.
#[local] Open Scope Z_scope.

Inductive ThresholdState :=
| THRESHOLD_DEFINED
| THRESHOLD_STARTED
| THRESHOLD_LOCKED_IN
| THRESHOLD_ACTIVE
| THRESHOLD_FAILED.
#[export] Instance ThresholdState_eq_dec : EqDecision ThresholdState.
Proof. solve_decision. Defined.

Abbreviation ThresholdConditionCache := (gmap (option nat) ThresholdState).

(** The virtual methods of [AbstractThresholdConditionChecker], with the
    parameters applied. *)
Record Checker := mkChecker {
  Condition : CBlockIndex -> bool;
  BeginTime : Z;
  EndTime : Z;
  Period : Z;
  Threshold : Z
}.

Section GetStateFor.
Context (m : index) (chk : Checker).

(** Counting the blocks of the period that satisfy the condition. *)
Fixpoint count_loop (n : nat) (pindexCount : option ptr) (count : Z) : outcome Z :=
  match n with
  | O => Ret count
  | S n' => p ← deref pindexCount; b ← deref (m !! p);
            count_loop n' (pprev b) (if Condition chk b then count + 1 else count)
  end.

(** The switch of the second loop. *)
Definition next_state (state : ThresholdState) (pindexPrev : ptr) : outcome ThresholdState :=
  match state with
  | THRESHOLD_DEFINED =>
      t ← GetMedianTimePast m pindexPrev;
      Ret (if EndTime chk <=? t then THRESHOLD_FAILED
           else if BeginTime chk <=? t then THRESHOLD_STARTED else THRESHOLD_DEFINED)
  | THRESHOLD_STARTED =>
      t ← GetMedianTimePast m pindexPrev;
      if EndTime chk <=? t then Ret THRESHOLD_FAILED
      else count ← count_loop (Z.to_nat (Period chk)) (Some pindexPrev) 0;
           Ret (if Threshold chk <=? count then THRESHOLD_LOCKED_IN else THRESHOLD_STARTED)
  | THRESHOLD_LOCKED_IN => Ret THRESHOLD_ACTIVE
  | THRESHOLD_FAILED => Ret THRESHOLD_FAILED
  | THRESHOLD_ACTIVE => Ret THRESHOLD_ACTIVE
  end.

(** [p->GetAncestor(p->nHeight - k)]. *)
Definition back_by (p : ptr) (k : Z -> Z) : outcome (option ptr) :=
  b ← deref (m !! p); GetAncestor m p (nHeight b - k (nHeight b)).

(** The first loop; [vToCompute] is kept with its back first. *)
Fixpoint walk_loop (fuel : nat) (cache : ThresholdConditionCache) (pindexPrev : option ptr) (vToCompute : list ptr)
  : outcome (ThresholdConditionCache * option ptr * list ptr) :=
  if bool_decide (is_Some (cache !! pindexPrev)) then Ret (cache, pindexPrev, vToCompute)
  else match fuel with
  | O => Abort
  | S fuel' =>
      match pindexPrev with
      | None => Ret (<[None := THRESHOLD_DEFINED]> cache, None, vToCompute)
      | Some p =>
          t ← GetMedianTimePast m p;
          if t <? BeginTime chk then Ret (<[Some p := THRESHOLD_DEFINED]> cache, Some p, vToCompute)
          else q ← back_by p (fun _ => Period chk);
               walk_loop fuel' cache q (p :: vToCompute)
      end
  end.

(** The second loop. *)
Fixpoint forward_loop (vToCompute : list ptr) (state : ThresholdState) (cache : ThresholdConditionCache)
  : outcome (ThresholdState * ThresholdConditionCache) :=
  match vToCompute with
  | [] => Ret (state, cache)
  | p :: v => stateNext ← next_state state p; forward_loop v stateNext (<[Some p := stateNext]> cache)
  end.

(** The last block of the period before that of the block after [p]. *)
Definition period_end (pindexPrev : option ptr) : outcome (option ptr) :=
  match pindexPrev with
  | None => Ret None
  | Some p => back_by p (fun h => Z.rem (h + 1) (Period chk))
  end.

(** The first loop lowers the height by the period, so the height bounds its
    iterations. *)
Definition walk_fuel (pindexPrev : option ptr) : nat :=
  match pindexPrev ≫= (m !!.) with Some b => S (S (Z.to_nat (nHeight b))) | None => 1 end.

Definition GetStateFor (pindexPrev : option ptr) (cache : ThresholdConditionCache)
  : outcome (ThresholdState * ThresholdConditionCache) :=
  pindexPrev ← period_end pindexPrev;
  '(cache, pindexPrev, vToCompute) ← walk_loop (walk_fuel pindexPrev) cache pindexPrev [];
  state ← deref (cache !! pindexPrev);
  forward_loop vToCompute state cache.

(** The loop of [GetStateSinceHeightFor]. *)
Fixpoint since_loop (fuel : nat) (initialState : ThresholdState) (pindexPrev : ptr) (previousPeriodParent : option ptr)
    (cache : ThresholdConditionCache) : outcome (ptr * ThresholdConditionCache) :=
  match previousPeriodParent with
  | None => Ret (pindexPrev, cache)
  | Some q =>
      '(s, cache) ← GetStateFor (Some q) cache;
      if decide (s = initialState)
      then match fuel with
           | O => Abort
           | S fuel' => r ← back_by q (fun _ => Period chk); since_loop fuel' initialState q r cache
           end
      else Ret (pindexPrev, cache)
  end.

Definition GetStateSinceHeightFor (pindexPrev : option ptr) (cache : ThresholdConditionCache)
  : outcome (Z * ThresholdConditionCache) :=
  '(initialState, cache) ← GetStateFor pindexPrev cache;
  if decide (initialState = THRESHOLD_DEFINED) then Ret (0, cache)
  else p ← deref pindexPrev;
       e ← period_end (Some p);
       e ← deref e;
       previousPeriodParent ← back_by e (fun _ => Period chk);
       '(r, cache) ← since_loop (walk_fuel (Some e)) initialState e previousPeriodParent cache;
       b ← deref (m !! r);
       Ret (nHeight b + 1, cache).

End GetStateFor.

(** ** Version bits *)

Definition VERSIONBITS_TOP_BITS : Z := 0x20000000.
Definition VERSIONBITS_TOP_MASK : Z := i32 0xE0000000.

Definition Mask (d : BIP9Deployment) : Z := u32 (Z.shiftl 1 (dBit d)).

Definition VersionBitsCondition (d : BIP9Deployment) (pindex : CBlockIndex) : bool :=
  (Z.land (nVersion pindex) VERSIONBITS_TOP_MASK =? VERSIONBITS_TOP_BITS) &&
  negb (Z.land (u32 (nVersion pindex)) (Mask d) =? 0).

Definition VersionBitsConditionChecker (params : Params.Params) (d : BIP9Deployment) : Checker :=
  mkChecker (VersionBitsCondition d) (nStartTime d) (nTimeout d)
    (nMinerConfirmationWindow params) (nRuleChangeActivationThreshold params).

(** [cache.caches], by position. *)
Abbreviation VersionBitsCache := (list ThresholdConditionCache).

Definition VersionBitsState (m : index) (pindexPrev : option ptr) (params : Params.Params) (pos : nat) (cache : VersionBitsCache)
  : outcome (ThresholdState * VersionBitsCache) :=
  d ← deref (vDeployments params !! pos);
  c ← deref (cache !! pos);
  '(s, c) ← GetStateFor m (VersionBitsConditionChecker params d) pindexPrev c;
  Ret (s, <[pos := c]> cache).

(** ** Specification: the state machine

    The state for the blocks after the last block [p] of a period, by
    recursion on the periods; before the start time a deployment is defined. *)

Definition mtp (m : index) (p : ptr) : Z := match GetMedianTimePast m p with Ret t => t | Abort => 0 end.

Section Spec.
Context (m : index) (chk : Checker).

(** The number of blocks that satisfy the condition among the last [n]. *)
Definition signals (n : nat) (p : ptr) : Z :=
  Z.of_nat (length (List.filter (fun i => match walk_back m i p ≫= (m !!.) with Some b => Condition chk b | None => false end) (seq 0 n))).

Definition bip9_next (state : ThresholdState) (p : ptr) : ThresholdState :=
  match state with
  | THRESHOLD_DEFINED =>
      if EndTime chk <=? mtp m p then THRESHOLD_FAILED
      else if BeginTime chk <=? mtp m p then THRESHOLD_STARTED else THRESHOLD_DEFINED
  | THRESHOLD_STARTED =>
      if EndTime chk <=? mtp m p then THRESHOLD_FAILED
      else if Threshold chk <=? signals (Z.to_nat (Period chk)) p then THRESHOLD_LOCKED_IN else THRESHOLD_STARTED
  | THRESHOLD_LOCKED_IN => THRESHOLD_ACTIVE
  | s => s
  end.

Definition prev_period (p : ptr) : option ptr := b ← m !! p; ancestor m p (nHeight b - Period chk).

Fixpoint state_after_fuel (n : nat) (p : option ptr) : ThresholdState :=
  match n, p with
  | S n', Some p => if mtp m p <? BeginTime chk then THRESHOLD_DEFINED
                    else bip9_next (state_after_fuel n' (prev_period p)) p
  | _, _ => THRESHOLD_DEFINED
  end.

Definition state_after (p : option ptr) : ThresholdState := state_after_fuel (walk_fuel m p) p.

(** The last block of a period. *)
Definition is_period_end (p : option ptr) : Prop :=
  match p with None => True | Some p => exists b, m !! p = Some b /\ (nHeight b + 1) mod Period chk = 0 end.

(** A cache with the states of the machine. *)
Definition cache_ok (cache : ThresholdConditionCache) : Prop :=
  forall p s, cache !! p = Some s -> s = state_after p.
End Spec.

(** ** Lemmas *)

Section Lemmas.
Context (m : index) (Hm : wf_index m) (chk : Checker) (Hperiod : 0 < Period chk).

Lemma mtp_spec p b : m !! p = Some b -> GetMedianTimePast m p = Ret (mtp m p).
Proof. intros Hp. unfold mtp. by destruct (GetMedianTimePast_total m Hm p b Hp) as [t ->]. Qed.

Lemma prev_period_height p b q : m !! p = Some b -> prev_period m chk p = Some q ->
  exists b', m !! q = Some b' /\ nHeight b' = nHeight b - Period chk /\ 0 <= nHeight b'.
Proof.
  unfold prev_period. intros Hp. rewrite Hp. cbn [mbind option_bind]. intros Ha.
  destruct (ancestor_height m Hm _ _ _ Ha) as (b' & Hq & Eh). exists b'. split; [done|]. split; [done|]. by eapply wf_nonneg.
Qed.

Lemma state_after_enough n1 n2 p : (walk_fuel m p <= n1)%nat -> (walk_fuel m p <= n2)%nat ->
  state_after_fuel m chk n1 p = state_after_fuel m chk n2 p.
Proof.
  revert n2 p. induction n1 as [|n1 IH]; intros n2 p H1 H2.
  { destruct p as [p|]; [|by destruct n2]. unfold walk_fuel in H1. destruct (Some p ≫= _); lia. }
  destruct p as [p|]; [|by destruct n2]. destruct n2 as [|n2]; [unfold walk_fuel in H2; destruct (Some p ≫= _); lia|].
  cbn [state_after_fuel]. destruct (mtp m p <? BeginTime chk); [done|]. f_equal.
  destruct (m !! p) as [b|] eqn:Hp.
  - destruct (prev_period m chk p) as [q|] eqn:Eq; [|by destruct n1, n2].
    destruct (prev_period_height p b q Hp Eq) as (b' & Hq & Eh & Hnn).
    assert (walk_fuel m (Some q) <= walk_fuel m (Some p) - 1)%nat.
    { unfold walk_fuel. cbn [mbind option_bind]. rewrite Hp, Hq. lia. }
    apply IH; lia.
  - unfold prev_period. rewrite Hp. by destruct n1, n2.
Qed.

Lemma state_after_eq p b : m !! p = Some b ->
  state_after m chk (Some p) = if mtp m p <? BeginTime chk then THRESHOLD_DEFINED
                               else bip9_next m chk (state_after m chk (prev_period m chk p)) p.
Proof.
  intros Hp. unfold state_after at 1.
  assert (exists n, walk_fuel m (Some p) = S n /\ (walk_fuel m (prev_period m chk p) <= n)%nat) as (n & En & Hn).
  { unfold walk_fuel at 1. cbn [mbind option_bind]. rewrite Hp. eexists. split; [done|].
    destruct (prev_period m chk p) as [q|] eqn:Eq; [|cbn; lia]. destruct (prev_period_height p b q Hp Eq) as (b' & Hq & Eh & Hnn).
    unfold walk_fuel. cbn [mbind option_bind]. rewrite Hq. lia. }
  rewrite En. cbn [state_after_fuel]. destruct (_ <? _); [done|]. f_equal. by apply state_after_enough.
Qed.

Lemma count_loop_spec n p b c : m !! p = Some b -> Z.of_nat n <= nHeight b + 1 ->
  count_loop m chk n (Some p) c = Ret (c + signals m chk n p).
Proof.
  revert p b c. induction n as [|n IH]; intros p b c Hp Hn; [unfold signals; cbn; f_equal; lia|].
  cbn [count_loop]. cbn [deref mbind outcome_bind]. rewrite Hp. cbn [deref mbind outcome_bind].
  unfold signals. cbn [seq List.filter walk_back]. cbn [mbind option_bind]. rewrite Hp.
  assert (match pprev b with
    | None => n = 0%nat
    | Some q => exists b', m !! q = Some b' /\ Z.of_nat n <= nHeight b' + 1 end) as Hprev.
  { pose proof (wf_prev m Hm p b Hp) as H. destruct (pprev b); [destruct H as (b' & Hq & Eh); exists b'; split; [done|lia]|lia]. }
  set (f := fun i => match walk_back m i p ≫= (m !!.) with Some b => Condition chk b | None => false end).
  assert (length (List.filter f (seq 1 n)) = match pprev b with Some q => Z.to_nat (signals m chk n q) | None => 0%nat end) as Ef.
  { rewrite <- seq_shift. destruct (pprev b) as [q|] eqn:Eq; [|by rewrite Hprev]. unfold signals. rewrite Nat2Z.id.
    induction (seq 0 n) as [|i l IHl]; [done|]. cbn [map List.filter].
    unfold f at 1. cbn [walk_back]. rewrite Hp. cbn [mbind option_bind]. rewrite Eq. cbn [mbind option_bind].
    destruct (walk_back m i q ≫= (m !!.)) as [b0|]; [|done]. destruct (Condition chk b0); cbn [length]; by rewrite IHl. }
  destruct (pprev b) as [q|] eqn:Eq.
  - destruct Hprev as (b' & Hq & Hn'). rewrite (IH q b') by done. assert (0 <= signals m chk n q) by (unfold signals; lia).
    destruct (Condition chk b); cbn [length]; rewrite Ef; f_equal; lia.
  - subst n. cbn [count_loop]. destruct (Condition chk b); cbn [length]; rewrite Ef; f_equal; lia.
Qed.

Lemma next_state_spec s p b : m !! p = Some b -> Period chk <= nHeight b + 1 ->
  next_state m chk s p = Ret (bip9_next m chk s p).
Proof.
  intros Hp Hh. destruct s; cbn [next_state bip9_next]; try done; rewrite (mtp_spec p b Hp); cbn [mbind outcome_bind]; [done|].
  destruct (EndTime chk <=? mtp m p); [done|]. by rewrite (count_loop_spec _ p b) by (done || lia).
Qed.

Lemma back_by_spec p b k : m !! p = Some b -> back_by m p k = Ret (ancestor m p (nHeight b - k (nHeight b))).
Proof. intros Hp. unfold back_by. rewrite Hp. cbn [deref mbind outcome_bind]. by apply (GetAncestor_spec m Hm p b). Qed.

Lemma period_end_height b : (nHeight b + 1) mod Period chk = 0 -> 0 <= nHeight b -> Period chk <= nHeight b + 1.
Proof.
  intros Hd Hh. destruct (Z.lt_ge_cases (nHeight b + 1) (Period chk)); [|done]. rewrite Z.mod_small in Hd by lia. lia.
Qed.

Lemma prev_period_end p : is_period_end m chk (Some p) -> is_period_end m chk (prev_period m chk p).
Proof.
  intros (b & Hp & Hd). destruct (prev_period m chk p) as [q|] eqn:Eq; [|done].
  destruct (prev_period_height p b q Hp Eq) as (b' & Hq & Eh & _). exists b'. split; [done|].
  replace (nHeight b' + 1) with (nHeight b + 1 + (-1) * Period chk) by lia. by rewrite Z_mod_plus_full.
Qed.

(** The end of the period before that of the next block. *)
Definition end_before (o : option ptr) : option ptr :=
  p ← o; b ← m !! p; ancestor m p (nHeight b - (nHeight b + 1) mod Period chk).

Lemma period_end_spec o : (forall p, o = Some p -> is_Some (m !! p)) ->
  period_end m chk o = Ret (end_before o) /\ is_period_end m chk (end_before o).
Proof.
  intros Ho. destruct o as [p|]; [|done]. destruct (Ho p eq_refl) as [b Hp]. cbn [period_end end_before mbind option_bind].
  pose proof (wf_nonneg m Hm p b Hp). rewrite (back_by_spec p b) by done. rewrite Hp. cbn [mbind option_bind].
  rewrite Z.rem_mod_nonneg by lia. split; [done|]. destruct (ancestor m p _) as [q|] eqn:Eq; [|done].
  destruct (ancestor_height m Hm _ _ _ Eq) as (b' & Hq & Eh). exists b'. split; [done|].
  pose proof (Z.div_mod (nHeight b + 1) (Period chk) ltac:(lia)) as Hd. rewrite Eh.
  replace (nHeight b - (nHeight b + 1) mod Period chk + 1) with (0 + (nHeight b + 1) / Period chk * Period chk) by lia.
  rewrite Z_mod_plus_full. apply Z.mod_0_l. lia.
Qed.

(** The blocks still to compute, from the first after [q] up to [target]. *)
Fixpoint linked (q : option ptr) (v : list ptr) (target : option ptr) : Prop :=
  match v with
  | [] => q = target
  | p :: v' => prev_period m chk p = q /\ BeginTime chk <= mtp m p /\ is_period_end m chk (Some p) /\ linked (Some p) v' target
  end.

Lemma walk_loop_spec fuel cache o v target : cache_ok m chk cache -> is_period_end m chk o -> (walk_fuel m o <= fuel)%nat ->
  linked o v target -> exists cache' q v', walk_loop m chk fuel cache o v = Ret (cache', q, v') /\
    cache_ok m chk cache' /\ cache' !! q = Some (state_after m chk q) /\ linked q v' target.
Proof.
  revert o v. induction fuel as [|fuel IH]; intros o v Hc Ho Hf Hl.
  { unfold walk_fuel in Hf. destruct (o ≫= _); lia. }
  cbn [walk_loop]. case_bool_decide as Hin.
  { destruct Hin as [s Hs]. exists cache, o, v. split_and!; [done|done| |done]. by rewrite (Hc _ _ Hs) in Hs at 1. }
  assert (forall s, s = state_after m chk o -> cache_ok m chk (<[o := s]> cache) /\ <[o := s]> cache !! o = Some (state_after m chk o)) as Hins.
  { intros s ->. split; [|apply lookup_insert_eq]. intros p s' Hp. destruct (decide (o = p)) as [->|].
    - rewrite lookup_insert_eq in Hp. by injection Hp as <-.
    - rewrite lookup_insert_ne in Hp by done. by apply Hc. }
  destruct o as [p|].
  - pose proof Ho as (b & Hp & Hd). rewrite (mtp_spec p b Hp). cbn [mbind outcome_bind]. destruct (Z.ltb_spec (mtp m p) (BeginTime chk)) as [Hlt|Hge].
    + destruct (Hins THRESHOLD_DEFINED) as [H1 H2].
      { rewrite (state_after_eq p b Hp), (proj2 (Z.ltb_lt _ _) Hlt). done. }
      by exists (<[Some p := THRESHOLD_DEFINED]> cache), (Some p), v.
    + rewrite (back_by_spec p b) by done. cbn [mbind outcome_bind]. apply IH; [done| | |].
      * pose proof (prev_period_end p Ho) as He. unfold prev_period in He. by rewrite Hp in He.
      * destruct (ancestor m p (nHeight b - Period chk)) as [q|] eqn:Eq.
        -- destruct (prev_period_height p b q Hp) as (b' & Hq & Eh & Hnn); [unfold prev_period; by rewrite Hp|].
           unfold walk_fuel in *. cbn [mbind option_bind] in *. rewrite Hp in Hf. rewrite Hq. lia.
        -- unfold walk_fuel in *. cbn [mbind option_bind] in *. rewrite Hp in Hf. lia.
      * cbn [linked]. split_and!; [unfold prev_period; by rewrite Hp|done|done|done].
  - destruct (Hins THRESHOLD_DEFINED eq_refl) as [H1 H2]. by exists (<[None := THRESHOLD_DEFINED]> cache), None, v.
Qed.

Lemma forward_loop_spec v q target cache : cache_ok m chk cache -> linked q v target ->
  exists cache', forward_loop m chk v (state_after m chk q) cache = Ret (state_after m chk target, cache') /\ cache_ok m chk cache'.
Proof.
  revert q cache. induction v as [|p v IH]; intros q cache Hc; cbn [linked forward_loop]; [intros ->; by exists cache|].
  intros (Hq & Hge & (b & Hp & Hd) & Hl). pose proof (wf_nonneg m Hm p b Hp) as Hnn.
  rewrite (next_state_spec _ p b Hp) by by apply period_end_height. cbn [mbind outcome_bind].
  assert (bip9_next m chk (state_after m chk q) p = state_after m chk (Some p)) as ->.
  { rewrite (state_after_eq p b Hp), (proj2 (Z.ltb_ge _ _) Hge). by rewrite Hq. }
  apply IH; [|done]. intros p' s' Hs. destruct (decide (Some p = p')) as [<-|].
  - rewrite lookup_insert_eq in Hs. by injection Hs as <-.
  - rewrite lookup_insert_ne in Hs by done. by apply Hc.
Qed.

(** The states of all blocks of a period are those of its first. *)
Lemma GetStateFor_spec o cache : cache_ok m chk cache -> (forall p, o = Some p -> is_Some (m !! p)) ->
  exists cache', GetStateFor m chk o cache = Ret (state_after m chk (end_before o), cache') /\ cache_ok m chk cache'.
Proof.
  intros Hc Ho. unfold GetStateFor. destruct (period_end_spec o Ho) as [-> He]. cbn [mbind outcome_bind].
  destruct (walk_loop_spec (walk_fuel m (end_before o)) cache (end_before o) [] (end_before o) Hc He (le_n _) eq_refl)
    as (cache1 & q & v & -> & Hc1 & Hq & Hl). cbn [mbind outcome_bind]. rewrite Hq. cbn [deref mbind outcome_bind].
  by apply forward_loop_spec.
Qed.

(** *** The ends of the periods below a block *)

Definition end_of (p : ptr) (j : nat) : option ptr := ancestor m p (Z.of_nat j * Period chk - 1).

Lemma end_of_prev p b j : m !! p = Some b -> Z.of_nat (S j) * Period chk <= nHeight b + 1 ->
  exists e, end_of p (S j) = Some e /\ prev_period m chk e = end_of p j /\ exists be, m !! e = Some be /\ nHeight be = Z.of_nat (S j) * Period chk - 1.
Proof.
  intros Hp Hj. destruct (ancestor_total m Hm p b (Z.of_nat (S j) * Period chk - 1) Hp ltac:(nia)) as (e & be & Ee & He & Eh).
  exists e. split; [done|]. split; [|by exists be]. unfold prev_period, end_of. rewrite He. cbn [mbind option_bind]. rewrite Eh.
  replace (Z.of_nat (S j) * Period chk - 1 - Period chk) with (Z.of_nat j * Period chk - 1) by lia.
  symmetry. apply (ancestor_trans m Hm p e b (Z.of_nat (S j) * Period chk - 1)); [done|done|nia].
Qed.

Lemma end_of_0 p : end_of p 0 = None.
Proof. unfold end_of, ancestor. by destruct (m !! p). Qed.

Lemma end_before_of p b : m !! p = Some b -> end_before (Some p) = end_of p (Z.to_nat ((nHeight b + 1) / Period chk)).
Proof.
  intros Hp. pose proof (wf_nonneg m Hm p b Hp). cbn [end_before mbind option_bind]. rewrite Hp. cbn [mbind option_bind]. unfold end_of. f_equal.
  pose proof (Z.div_mod (nHeight b + 1) (Period chk) ltac:(lia)). assert (0 <= (nHeight b + 1) / Period chk) by (apply Z.div_pos; lia).
  rewrite Z2Nat.id by done. lia.
Qed.

(** What a state may become later on a chain. *)
Definition may_become (s s' : ThresholdState) : bool :=
  match s with
  | THRESHOLD_DEFINED => true
  | THRESHOLD_STARTED => negb (bool_decide (s' = THRESHOLD_DEFINED))
  | THRESHOLD_LOCKED_IN => bool_decide (s' = THRESHOLD_LOCKED_IN) || bool_decide (s' = THRESHOLD_ACTIVE)
  | THRESHOLD_ACTIVE => bool_decide (s' = THRESHOLD_ACTIVE)
  | THRESHOLD_FAILED => bool_decide (s' = THRESHOLD_FAILED)
  end.

Lemma may_become_trans s1 s2 s3 : may_become s1 s2 = true -> may_become s2 s3 = true -> may_become s1 s3 = true.
Proof. by destruct s1, s2, s3. Qed.

Lemma bip9_next_progress s p : may_become s (bip9_next m chk s p) = true.
Proof. destruct s; cbn [bip9_next]; try done. by repeat case_match. Qed.

Lemma state_progress (Ht : times_ok m) e b : m !! e = Some b ->
  may_become (state_after m chk (prev_period m chk e)) (state_after m chk (Some e)) = true.
Proof.
  intros He. rewrite (state_after_eq e b He). destruct (Z.ltb_spec (mtp m e) (BeginTime chk)) as [Hlt|]; [|apply bip9_next_progress].
  destruct (prev_period m chk e) as [q|] eqn:Eq; [|done]. destruct (prev_period_height e b q He Eq) as (bq & Hq & _ & _).
  rewrite (state_after_eq q bq Hq), (proj2 (Z.ltb_lt _ _)); [done|]. unfold prev_period in Eq. rewrite He in Eq.
  pose proof (median_ancestor m Hm e _ q _ _ Ht Eq (mtp_spec q bq Hq) (mtp_spec e b He)). lia.
Qed.

Lemma periods_progress (Ht : times_ok m) p b j1 j2 : m !! p = Some b -> (j1 <= j2)%nat -> Z.of_nat j2 * Period chk <= nHeight b + 1 ->
  may_become (state_after m chk (end_of p j1)) (state_after m chk (end_of p j2)) = true.
Proof.
  intros Hp Hj. induction Hj as [|j2 Hj IH]; intros Hh; [by destruct (state_after m chk _)|].
  destruct (end_of_prev p b j2 Hp Hh) as (e & Ee & Ep & be & He & _). eapply may_become_trans; [apply IH; nia|].
  rewrite Ee, <- Ep. by apply (state_progress Ht e be).
Qed.

(** A deployment gets active because of a period with enough signals. *)
Lemma active_locked_in p b j : m !! p = Some b -> Z.of_nat j * Period chk <= nHeight b + 1 ->
  state_after m chk (end_of p j) = THRESHOLD_LOCKED_IN \/ state_after m chk (end_of p j) = THRESHOLD_ACTIVE ->
  exists k e, (0 < k <= j)%nat /\ end_of p k = Some e /\ Threshold chk <= signals m chk (Z.to_nat (Period chk)) e /\
    BeginTime chk <= mtp m e < EndTime chk.
Proof.
  intros Hp. induction j as [|j IH]; intros Hh Hs; [rewrite end_of_0 in Hs; by destruct Hs|].
  destruct (end_of_prev p b j Hp Hh) as (e & Ee & Ep & be & He & _). rewrite Ee, (state_after_eq e be He), Ep in Hs.
  destruct (Z.ltb_spec (mtp m e) (BeginTime chk)); [by destruct Hs|].
  destruct (state_after m chk (end_of p j)) eqn:Es; cbn [bip9_next] in Hs.
  - destruct Hs as [Hs|Hs]; repeat case_match; done.
  - destruct (Z.leb_spec (EndTime chk) (mtp m e)); [by destruct Hs|]. destruct (Z.leb_spec (Threshold chk) (signals m chk (Z.to_nat (Period chk)) e)); [|by destruct Hs].
    exists (S j), e. split_and!; done || lia.
  - destruct IH as (k & e' & Hk & ?); [nia|by left|]. exists k, e'. split; [lia|done].
  - destruct IH as (k & e' & Hk & ?); [nia|by right|]. exists k, e'. split; [lia|done].
  - by destruct Hs.
Qed.
End Lemmas.

(** ** Properties *)

(** C27: The cached computation of a deployment's state is the state machine.  In
    a well-formed index, with any cache whose entries are states of the
    machine, the computation ends without a failed assertion, returns the state
    of the machine at the end of the period before that of the next block, and
    leaves a cache whose entries are states of the machine. *)
Theorem versionbits_state_machine m chk o cache : wf_index m -> 0 < Period chk -> cache_ok m chk cache ->
  (forall p, o = Some p -> is_Some (m !! p)) ->
  exists cache', GetStateFor m chk o cache = Ret (state_after m chk (end_before m chk o), cache') /\ cache_ok m chk cache'.
Proof. intros Hm Hp. by apply GetStateFor_spec. Qed.

Definition demo_checker : Checker := mkChecker (fun b => 200 <=? nTime b) 120 1000 2 1.

Lemma versionbits_state_machine_witness : exists cache',
  GetStateFor (tIndex demo_tree) demo_checker (Some 4%nat) ∅ =
    Ret (state_after (tIndex demo_tree) demo_checker (end_before (tIndex demo_tree) demo_checker (Some 4%nat)), cache') /\
  cache_ok (tIndex demo_tree) demo_checker cache'.
Proof.
  apply (versionbits_state_machine (tIndex demo_tree) demo_checker (Some 4%nat) ∅).
  - exact (wt_index _ demo_tree_wf).
  - reflexivity.
  - intros p s Hp. rewrite lookup_empty in Hp. discriminate Hp.
  - intros p [= <-]. exists (demo_block 4). vm_compute. reflexivity.
Defined.

(** The states of a block and of a descendant, in the state machine. *)
Lemma lifecycle_states m chk p b q bq h : wf_index m -> 0 < Period chk -> times_ok m ->
  m !! p = Some b -> ancestor m p h = Some q -> m !! q = Some bq ->
  let state_p := state_after m chk (end_before m chk (Some p)) in
  let state_q := state_after m chk (end_before m chk (Some q)) in
  may_become state_q state_p = true /\
  (state_q = THRESHOLD_ACTIVE -> state_p = THRESHOLD_ACTIVE) /\
  (state_p = THRESHOLD_LOCKED_IN \/ state_p = THRESHOLD_ACTIVE ->
     exists k e, end_of m chk p k = Some e /\ Threshold chk <= signals m chk (Z.to_nat (Period chk)) e /\
       BeginTime chk <= mtp m e < EndTime chk).
Proof.
  intros Hm Hper Ht Hp Ha Hq state_p state_q. pose proof (wf_nonneg m Hm p b Hp). pose proof (wf_nonneg m Hm q bq Hq).
  pose proof (ancestor_range m p b h q Hp Ha) as Hr. destruct (ancestor_height m Hm p h q Ha) as (b' & Hq' & Eh).
  rewrite Hq in Hq'. injection Hq' as <-. set (jp := Z.to_nat ((nHeight b + 1) / Period chk)). set (jq := Z.to_nat ((nHeight bq + 1) / Period chk)).
  assert (end_before m chk (Some q) = end_of m chk p jq) as Eq.
  { rewrite (end_before_of m Hm chk Hper q bq Hq). unfold end_of. symmetry. apply (ancestor_trans m Hm p q b h); [done|done|].
    subst jq. rewrite Z2Nat.id by (apply Z.div_pos; lia). pose proof (Z.mul_div_le (nHeight bq + 1) (Period chk) Hper). lia. }
  assert (Z.of_nat jp * Period chk <= nHeight b + 1) as Hjp.
  { subst jp. rewrite Z2Nat.id by (apply Z.div_pos; lia). pose proof (Z.mul_div_le (nHeight b + 1) (Period chk) Hper). lia. }
  assert (jq <= jp)%nat as Hj by (subst jp jq; apply Z2Nat.inj_le; [apply Z.div_pos; lia..|]; apply Z.div_le_mono; lia).
  assert (may_become state_q state_p = true) as Hb.
  { subst state_q state_p. rewrite Eq, (end_before_of m Hm chk Hper p b Hp). by apply (periods_progress m Hm chk Hper Ht p b). }
  split; [done|]. split.
  - intros E. rewrite E in Hb. cbn in Hb. by apply bool_decide_eq_true in Hb.
  - intros Hs. subst state_p. rewrite (end_before_of m Hm chk Hper p b Hp) in Hs.
    destruct (active_locked_in m Hm chk Hper p b jp Hp Hjp Hs) as (k & e & _ & H1 & H2 & H3). by exists k, e.
Qed.

(** A deployment only moves forward.  On a chain whose headers pass the check
    of their time, the states [GetStateFor] computes after a block and after a
    descendant of it are related as the machine allows: an active rule stays active and a
    failed one stays failed.  And a rule is locked in or active only after a
    period, between the start time and the timeout, in which at least the
    threshold number of blocks signalled. *)
Theorem deployment_lifecycle m chk p b q bq h cp cq cp' cq' state_p state_q : wf_index m -> 0 < Period chk -> times_ok m ->
  m !! p = Some b -> ancestor m p h = Some q -> m !! q = Some bq -> cache_ok m chk cp -> cache_ok m chk cq ->
  GetStateFor m chk (Some p) cp = Ret (state_p, cp') -> GetStateFor m chk (Some q) cq = Ret (state_q, cq') ->
  may_become state_q state_p = true /\
  (state_q = THRESHOLD_ACTIVE -> state_p = THRESHOLD_ACTIVE) /\
  (state_p = THRESHOLD_LOCKED_IN \/ state_p = THRESHOLD_ACTIVE ->
     exists k e, end_of m chk p k = Some e /\ Threshold chk <= signals m chk (Z.to_nat (Period chk)) e /\
       BeginTime chk <= mtp m e < EndTime chk).
Proof.
  intros Hm Hper Ht Hp Ha Hq Hcp Hcq Ep Eq.
  destruct (GetStateFor_spec m Hm chk Hper (Some p) cp Hcp ltac:(intros ? [= <-]; eauto)) as (? & E1 & _).
  destruct (GetStateFor_spec m Hm chk Hper (Some q) cq Hcq ltac:(intros ? [= <-]; eauto)) as (? & E2 & _).
  rewrite Ep in E1. rewrite Eq in E2. injection E1 as -> _. injection E2 as -> _. by apply (lifecycle_states m chk p b q bq h).
Qed.

Lemma deployment_lifecycle_witness :
  let m := tIndex timed_tree in
  exists state_p state_q, (exists c, GetStateFor m demo_checker (Some 3%nat) ∅ = Ret (state_p, c)) /\
    (exists c, GetStateFor m demo_checker (Some 1%nat) ∅ = Ret (state_q, c)) /\ may_become state_q state_p = true.
Proof.
  intros m.
  assert (cache_ok m demo_checker ∅) as Hc by (intros o s Ho; rewrite lookup_empty in Ho; discriminate Ho).
  destruct (GetStateFor m demo_checker (Some 3%nat) ∅) as [[sp cp]|] eqn:Ep; [|vm_compute in Ep; discriminate Ep].
  destruct (GetStateFor m demo_checker (Some 1%nat) ∅) as [[sq cq]|] eqn:Eq; [|vm_compute in Eq; discriminate Eq].
  exists sp, sq. split; [exists cp; reflexivity|]. split; [exists cq; reflexivity|].
  refine (proj1 (deployment_lifecycle m demo_checker 3%nat (default (newIndex [] (demo_header 0 0 0)) (m !! 3%nat)) 1%nat
    (default (newIndex [] (demo_header 0 0 0)) (m !! 1%nat)) 1 ∅ ∅ cp cq sp sq _ _ _ _ _ _ Hc Hc Ep Eq)).
  - exact (wt_index _ timed_tree_wf).
  - reflexivity.
  - exact timed_tree_times.
  - vm_compute. reflexivity.
  - vm_compute. reflexivity.
  - vm_compute. reflexivity.
Defined.

(** All rule sets of a network agree on the deployments, so one cache serves
    them all. *)
Lemma networks_share_deployments t h : t = CMainParams \/ t = CTestNetParams \/ t = CRegTestParams ->
  forall p q, GetConsensus t h = Some p -> GetConsensus t 0 = Some q ->
  nMinerConfirmationWindow p = nMinerConfirmationWindow q /\ nRuleChangeActivationThreshold p = nRuleChangeActivationThreshold q /\
  vDeployments p = vDeployments q.
Proof.
  intros Ht p q. destruct Ht as [->|[->| ->]]; cbn [GetConsensus CMainParams CTestNetParams CRegTestParams]; intros Hp Hq;
    repeat case_match; simplify_eq; done.
Qed.
