(* ===== verification/Pow.v ===== *)
(** * Proof of work and block subsidy (pow.cpp, dogecoin.cpp)

    The difficulty rules (the retarget of the first 145000 blocks, DigiShield
    after it, the minimum-difficulty rules of the test networks), the check of
    a proof of work against the claimed target, and the block subsidy. *)

From stdpp Require Import gmap.
From S2P Require Import Prelude Amount ArithUint256 StrEncodings Uint256 Params Chain.

(** [CPureBlockHeader::GetBlockTime]. *)
Definition headerTime (pblock : CPureBlockHeader) : Z := hTime pblock.

Definition AllowMinDifficultyForBlock (pindexLast : CBlockIndex) (pblock : CPureBlockHeader) (params : Params) : bool :=
  if negb (fPowAllowMinDifficultyBlocks params) then false
  else if nHeight pindexLast <? 157500 then false
  else GetBlockTime pindexLast + nPowTargetSpacing params * 2 <? headerTime pblock.

Definition AllowDigishieldMinDifficultyForBlock (pindexLast : CBlockIndex) (pblock : CPureBlockHeader) (params : Params) : bool :=
  if negb (fPowAllowMinDifficultyBlocks params) then false
  else if nHeight pindexLast <? 157500 then false
  else GetBlockTime pindexLast + nPowTargetSpacing params * 2 <? headerTime pblock.

(** The bounds of the adjustment: [(nModulatedTimespan, nMinTimespan, nMaxTimespan)]. *)
Definition modulate_timespan (nHeight nActualTimespan retargetTimespan : Z) (params : Params) : Z * Z * Z :=
  if fDigishieldDifficultyCalculation params then
    (retargetTimespan + Z.quot (nActualTimespan - retargetTimespan) 8,
     retargetTimespan - Z.quot retargetTimespan 4,
     retargetTimespan + Z.quot retargetTimespan 2)
  else if 10000 <? nHeight then (nActualTimespan, Z.quot retargetTimespan 4, retargetTimespan * 4)
  else if 5000 <? nHeight then (nActualTimespan, Z.quot retargetTimespan 8, retargetTimespan * 4)
  else (nActualTimespan, Z.quot retargetTimespan 16, retargetTimespan * 4).

(** [bnNew *= nModulatedTimespan] selects [operator*=(uint32_t)], which
    truncates its argument; [bnNew /= retargetTimespan] converts it to a
    256-bit number. *)
Definition CalculateDogecoinNextWorkRequired (pindexLast : CBlockIndex) (nFirstBlockTime : Z) (params : Params) : outcome Z :=
  let nHeight := nHeight pindexLast + 1 in
  let retargetTimespan := nPowTargetTimespan params in
  let nActualTimespan := GetBlockTime pindexLast - nFirstBlockTime in
  let '(nModulatedTimespan, nMinTimespan, nMaxTimespan) :=
    modulate_timespan nHeight nActualTimespan retargetTimespan params in
  let nModulatedTimespan :=
    if nModulatedTimespan <? nMinTimespan then nMinTimespan
    else if nMaxTimespan <? nModulatedTimespan then nMaxTimespan
    else nModulatedTimespan in
  let bnPowLimit := UintToArith256 (powLimit params) in
  let bnNew := cValue (SetCompact (nBits pindexLast)) in
  let bnNew := op_mul_u32 bnNew (u32 nModulatedTimespan) in
  bnNew ← deref (op_div bnNew (base_uint_of_u64 (u64 retargetTimespan)));
  let bnNew := if op_gt bnNew bnPowLimit then bnPowLimit else bnNew in
  deref (GetCompact bnNew false).

Definition CalculateNextWorkRequired (pindexLast : CBlockIndex) (nFirstBlockTime : Z) (params : Params) : outcome Z :=
  if fPowNoRetargeting params then Ret (nBits pindexLast)
  else
    let nActualTimespan := GetBlockTime pindexLast - nFirstBlockTime in
    let nActualTimespan :=
      if nActualTimespan <? Z.quot (nPowTargetTimespan params) 4
      then Z.quot (nPowTargetTimespan params) 4 else nActualTimespan in
    let nActualTimespan :=
      if nPowTargetTimespan params * 4 <? nActualTimespan
      then nPowTargetTimespan params * 4 else nActualTimespan in
    let bnPowLimit := UintToArith256 (powLimit params) in
    let bnNew := cValue (SetCompact (nBits pindexLast)) in
    let bnNew := op_mul_u32 bnNew (u32 nActualTimespan) in
    bnNew ← deref (op_div bnNew (base_uint_of_u64 (u64 (nPowTargetTimespan params))));
    let bnNew := if op_gt bnNew bnPowLimit then bnPowLimit else bnNew in
    deref (GetCompact bnNew false).

(** [while (pindex->pprev && pindex->nHeight % interval != 0 && pindex->nBits == limit)]. *)
Fixpoint last_normal_block (fuel : nat) (m : index) (interval limit : Z) (pindex : ptr) : outcome Z :=
  b ← deref (m !! pindex);
  match pprev b with
  | Some prev =>
      if negb (Z.rem (nHeight b) interval =? 0) && (nBits b =? limit) then
        match fuel with
        | O => Abort
        | S fuel' => last_normal_block fuel' m interval limit prev
        end
      else Ret (nBits b)
  | None => Ret (nBits b)
  end.

Definition GetNextWorkRequired (m : index) (pindexLast : option ptr) (pblock : CPureBlockHeader) (params : Params) : outcome Z :=
  nProofOfWorkLimit ← deref (GetCompact (UintToArith256 (powLimit params)) false);
  match pindexLast with
  | None => Ret nProofOfWorkLimit
  | Some last =>
      bLast ← deref (m !! last);
      if AllowDigishieldMinDifficultyForBlock bLast pblock params then Ret nProofOfWorkLimit
      else
        let fNewDifficultyProtocol := 145000 <=? nHeight bLast in
        let difficultyAdjustmentInterval :=
          if fNewDifficultyProtocol then 1 else DifficultyAdjustmentInterval params in
        if negb (Z.rem (nHeight bLast + 1) difficultyAdjustmentInterval =? 0) then
          if fPowAllowMinDifficultyBlocks params then
            if GetBlockTime bLast + nPowTargetSpacing params * 2 <? headerTime pblock
            then Ret nProofOfWorkLimit
            else last_normal_block (Z.to_nat (nHeight bLast)) m (DifficultyAdjustmentInterval params)
                   nProofOfWorkLimit last
          else Ret (nBits bLast)
        else
          let blockstogoback := difficultyAdjustmentInterval - 1 in
          let blockstogoback :=
            if negb (nHeight bLast + 1 =? difficultyAdjustmentInterval)
            then difficultyAdjustmentInterval else blockstogoback in
          let nHeightFirst := nHeight bLast - blockstogoback in
          _ ← assert_ (0 <=? nHeightFirst);
          pindexFirst ← GetAncestor m last nHeightFirst;
          first ← deref pindexFirst;
          bFirst ← deref (m !! first);
          CalculateDogecoinNextWorkRequired bLast (GetBlockTime bFirst) params
  end.

Definition CheckProofOfWork (hash : uint256) (nBits : Z) (params : Params) : bool :=
  let r := SetCompact nBits in
  let bnTarget := cValue r in
  if fNegative r || EqualTo bnTarget 0 || fOverflow r || op_gt bnTarget (UintToArith256 (powLimit params))
  then false
  else if op_gt (UintToArith256 hash) bnTarget then false
  else true.

(** [GetBlockProofEquivalentTime] of chain.cpp; the last product is taken in
    [uint64_t] and returned as [int64_t]. *)
Definition GetBlockProofEquivalentTime (to from tip : CBlockIndex) (params : Params) : outcome Z :=
  let '(r, sign) :=
    if op_gt (nChainWork to) (nChainWork from)
    then (op_sub (nChainWork to) (nChainWork from), 1)
    else (op_sub (nChainWork from) (nChainWork to), -1) in
  proof ← deref (GetBlockProof (nBits tip));
  r ← deref (op_div (op_mul r (base_uint_of_u64 (u64 (nPowTargetSpacing params)))) proof);
  if 63 <? bits r then Ret (sign * (2 ^ 63 - 1))
  else Ret (i64 (u64 (u64 sign * GetLow64 r))).

(** ** Block subsidy *)

(** [strtol(.., 16)] of a string of hexadecimal digits. *)
Definition strtol16 (s : list Z) : Z := hex_value (reverse (hex_prefix s)).

(** [substr(pos, n)]. *)
Definition substr (s : list Z) (pos n : nat) : list Z := take n (drop pos s).

Section Subsidy.

(** [generateMTRandom(s, range)]: a draw of boost's Mersenne twister seeded
    with [s] from the uniform distribution on [1, range]. *)
Variable generateMTRandom : Z -> Z -> Z.

Definition GetDogecoinBlockSubsidy (nHeight : Z) (consensusParams : Params) (prevHash : uint256) : Z :=
  let halvings := Z.quot nHeight (nSubsidyHalvingInterval consensusParams) in
  if negb (fSimplifiedRewards consensusParams) then
    let seed := strtol16 (substr (GetHex prevHash) 7 7) in
    let maxReward := Z.shiftr 1000000 halvings - 1 in
    let rand := generateMTRandom (u32 seed) (i32 maxReward) in
    (1 + rand) * COIN
  else if nHeight <? 6 * nSubsidyHalvingInterval consensusParams then
    Z.shiftr (500000 * COIN) halvings
  else 10000 * COIN.

End Subsidy.

(** ** Specifications *)

(** The limit of a rule set as a number, and the targets a block may claim. *)
Definition limit (params : Params) : Z := le_bytes (powLimit params).
Definition target_ok (params : Params) (c : Z) : Prop :=
  inU 32 c /\ valid_target c = true /\ compact_value c <= limit params.

Definition clamp (lo hi x : Z) : Z := if x <? lo then lo else if hi <? x then hi else x.

(** The new target, over the integers. *)
Definition next_target (params : Params) (h actual old : Z) : Z :=
  let '(span, lo, hi) := modulate_timespan h actual (nPowTargetTimespan params) params in
  Z.min (limit params) (old * clamp lo hi span / nPowTargetTimespan params).

(** Retargeting is exact under a rule set: the product of the largest target
    and the longest time span fits 256 bits. *)
Definition retarget_exact (params : Params) (h : Z) : Prop :=
  wf_uint256 (powLimit params) /\ 0 < nPowTargetTimespan params < 2 ^ 31 /\
  forall actual, let '(_, lo, hi) := modulate_timespan h actual (nPowTargetTimespan params) params in
    0 <= lo <= hi /\ hi < 2 ^ 32 /\ limit params * hi < 2 ^ 256.

(** ** Lemmas *)

Lemma limit_bound params : wf_uint256 (powLimit params) -> 0 <= limit params < 2 ^ 256 /\
  wf (UintToArith256 (powLimit params)) /\ eval (UintToArith256 (powLimit params)) = limit params.
Proof.
  intros Hw. destruct (UintToArith256_spec _ Hw) as [Hwf E]. pose proof (eval_wf _ Hwf).
  unfold limit. rewrite <- E. auto.
Qed.

(** The conditions on the target come first. *)
Lemma CheckProofOfWork_split hash c params : wf_uint256 (powLimit params) -> inU 32 c ->
  CheckProofOfWork hash c params =
  valid_target c && (compact_value c <=? limit params) && negb (op_gt (UintToArith256 hash) (cValue (SetCompact c))).
Proof.
  intros Hl Hc. destruct (limit_bound params Hl) as (_ & Hwl & El). destruct (SetCompact_spec c Hc) as (Hw & Ev & _). unfold CheckProofOfWork.
  replace (fNegative (SetCompact c) || EqualTo (cValue (SetCompact c)) 0 || fOverflow (SetCompact c))
    with (negb (valid_target c))
    by (rewrite <- SetCompact_valid by done; destruct (fNegative _), (fOverflow _); by rewrite ?orb_true_r, ?orb_false_r).
  rewrite (op_gt_spec (cValue _)), El by done. destruct (valid_target c) eqn:Hv; cbn [negb orb andb]; [|done].
  destruct (SetCompact_valid_eval c Hc Hv) as [E _]. rewrite E. rewrite Z.leb_antisym. destruct (_ <? _); cbn [negb andb]; [done|].
  by destruct (op_gt _ _).
Qed.

Lemma CheckProofOfWork_target hash c params : wf_uint256 (powLimit params) -> inU 32 c ->
  CheckProofOfWork hash c params = true -> target_ok params c.
Proof. intros Hl Hc. rewrite CheckProofOfWork_split by done. intros [[Hv Hle%Z.leb_le]%andb_true_iff _]%andb_true_iff. by split_and!. Qed.

Lemma CheckProofOfWork_spec hash c params :
  wf_uint256 hash -> wf_uint256 (powLimit params) -> inU 32 c ->
  CheckProofOfWork hash c params = true <-> target_ok params c /\ le_bytes hash <= compact_value c.
Proof.
  intros Hh Hl Hc. rewrite CheckProofOfWork_split by done. destruct (UintToArith256_spec hash Hh) as [Hwh Eh].
  destruct (SetCompact_spec c Hc) as (Hw & _). rewrite op_gt_spec, Eh by done. unfold target_ok.
  destruct (valid_target c) eqn:Hv; cbn [andb]; [|split; [done|by intros [(_ & ? & _) _]]].
  destruct (SetCompact_valid_eval c Hc Hv) as [E _]. rewrite E. zbool; intuition lia.
Qed.

Lemma clamp_bound lo hi x : lo <= hi -> lo <= clamp lo hi x <= hi.
Proof. unfold clamp. zbool; lia. Qed.

Lemma GetCompact_unsigned a : wf a -> GetCompact a false = Some (compact_encode (eval a)).
Proof. intros. rewrite GetCompact_spec by done. simpl. by rewrite Z.add_0_r. Qed.

(** Multiplying by a time span, dividing by another and capping at the limit
    is exact. *)
Lemma retarget_step params c span :
  wf_uint256 (powLimit params) -> target_ok params c -> 0 < nPowTargetTimespan params < 2 ^ 31 ->
  0 <= span < 2 ^ 32 -> limit params * span < 2 ^ 256 ->
  (bnNew ← deref (op_div (op_mul_u32 (cValue (SetCompact c)) (u32 span))
                    (base_uint_of_u64 (u64 (nPowTargetTimespan params))));
   let bnNew := if op_gt bnNew (UintToArith256 (powLimit params)) then UintToArith256 (powLimit params) else bnNew in
   deref (GetCompact bnNew false))
  = Ret (compact_encode (Z.min (limit params) (compact_value c * span / nPowTargetTimespan params))).
Proof.
  intros Hl (Hc & Hv & Hle) HT Hs Hov. destruct (limit_bound params Hl) as (Hlim & Hwl & El).
  destruct (SetCompact_spec c Hc) as (Hw & _). destruct (SetCompact_valid_eval c Hc Hv) as [E Hr].
  rewrite (wrapU_small 32 span) by exact Hs. rewrite (wrapU_small 64) by (unfold inU; lia).
  assert (wf (base_uint_of_u64 (nPowTargetTimespan params))) as HwT by auto with cpp.
  assert (wf (op_mul_u32 (cValue (SetCompact c)) span)) as Hwm by (by apply op_mul_u32_wf).
  assert (0 <= compact_value c * span < 2 ^ 256) as Hprod.
  { pose proof (Z.mul_le_mono_nonneg_r _ _ span ltac:(lia) Hle). split; [apply Z.mul_nonneg_nonneg; lia|lia]. }
  pose proof (op_div_spec _ _ Hwm HwT) as Hd.
  rewrite of_u64_eval, op_mul_u32_eval, E, (Z.mod_small _ _ Hprod) in Hd by (assumption || (split; lia)).
  destruct (op_div _ _) as [q|]; [|lia]. destruct Hd as (_ & Hwq & Eq). cbn [deref mbind outcome_bind].
  rewrite op_gt_spec, Eq, El by assumption. zbool; rewrite GetCompact_unsigned by assumption; cbn [deref]; f_equal; f_equal; lia.
Qed.

Lemma CalculateDogecoin_spec b first params :
  retarget_exact params (nHeight b + 1) -> target_ok params (nBits b) ->
  CalculateDogecoinNextWorkRequired b first params =
  Ret (compact_encode (next_target params (nHeight b + 1) (GetBlockTime b - first) (compact_value (nBits b)))).
Proof.
  intros (Hl & HT & Hspan) Hc. unfold CalculateDogecoinNextWorkRequired, next_target.
  specialize (Hspan (GetBlockTime b - first)).
  destruct (modulate_timespan _ _ _ _) as [[span lo] hi]. destruct Hspan as (Hlo & Hhi & Hov).
  fold (clamp lo hi span). pose proof (clamp_bound lo hi span ltac:(lia)).
  destruct (limit_bound params Hl) as (Hlim & _). apply retarget_step; auto; [lia|].
  apply (Z.le_lt_trans _ (limit params * hi)); [apply Z.mul_le_mono_nonneg_l; lia|done].
Qed.

(** The two shapes of rule sets: the 4-hour retarget and DigiShield. *)
Lemma retarget_exact_legacy params h : wf_uint256 (powLimit params) -> limit params < 2 ^ 236 ->
  fDigishieldDifficultyCalculation params = false -> nPowTargetTimespan params = 14400 ->
  retarget_exact params h.
Proof.
  intros Hl Hlim Hd HT. destruct (limit_bound params Hl) as (Hb & _). unfold retarget_exact.
  rewrite HT. split; [assumption|]. split; [lia|]. intros actual. unfold modulate_timespan. rewrite Hd.
  change (14400 ÷ 4) with 3600. change (14400 ÷ 8) with 1800. change (14400 ÷ 16) with 900.
  change (14400 * 4) with 57600. destruct (10000 <? h), (5000 <? h); lia.
Qed.

Lemma retarget_exact_digishield params h : wf_uint256 (powLimit params) -> limit params < 2 ^ 236 ->
  fDigishieldDifficultyCalculation params = true -> nPowTargetTimespan params = 60 ->
  retarget_exact params h.
Proof.
  intros Hl Hlim Hd HT. destruct (limit_bound params Hl) as (Hb & _). unfold retarget_exact.
  rewrite HT. split; [assumption|]. split; [lia|]. intros actual. unfold modulate_timespan. rewrite Hd.
  change (60 - 60 ÷ 4) with 45. change (60 + 60 ÷ 2) with 90. lia.
Qed.

Lemma retarget_exact_regtest params h : wf_uint256 (powLimit params) ->
  fDigishieldDifficultyCalculation params = true -> nPowTargetTimespan params = 1 ->
  retarget_exact params h.
Proof.
  intros Hl Hd HT. destruct (limit_bound params Hl) as (Hb & _). unfold retarget_exact.
  rewrite HT. split; [assumption|]. split; [lia|]. intros actual. unfold modulate_timespan. rewrite Hd.
  change (1 - 1 ÷ 4) with 1. change (1 + 1 ÷ 2) with 1. lia.
Qed.

(** What the difficulty code uses of a rule set in force at height [h]. *)
Lemma network_rules t h p : t ∈ networks -> GetConsensus t h = Some p -> 0 <= h ->
  wf_uint256 (powLimit p) /\ 0 < DifficultyAdjustmentInterval p /\
  (retarget_exact p h \/ (DifficultyAdjustmentInterval p = 14400 /\ h < 10)).
Proof.
  intros Ht Hp Hh.
  destruct (network_in_force t h Ht Hh) as (p' & Hp' & Hin & _ & Hmax).
  assert (p' = p) as -> by congruence. clear Hp Hp'.
  assert (forall s, wf_uint256 (uint256S s)) as Hw by (intros s; apply (SetHex_spec s)).
  unfold networks in Ht. rewrite !elem_of_cons, elem_of_nil in Ht. destruct Ht as [->|[->|[->|[]]]];
    cbn [params_list CMainParams CTestNetParams CRegTestParams app] in Hin;
    rewrite !elem_of_cons, elem_of_nil in Hin.
  - destruct Hin as [->|[->|[->|[]]]]; (split; [apply Hw|]; split; [reflexivity|]; left).
    + by apply retarget_exact_legacy; [apply Hw|vm_compute|..].
    + by apply retarget_exact_digishield; [apply Hw|vm_compute|..].
    + by apply retarget_exact_digishield; [apply Hw|vm_compute|..].
  - destruct Hin as [->|[->|[->|[->|[]]]]]; (split; [apply Hw|]; split; [reflexivity|]; left).
    + by apply retarget_exact_legacy; [apply Hw|vm_compute|..].
    + by apply retarget_exact_digishield; [apply Hw|vm_compute|..].
    + by apply retarget_exact_digishield; [apply Hw|vm_compute|..].
    + by apply retarget_exact_digishield; [apply Hw|vm_compute|..].
  - destruct Hin as [->|[->|[->|[]]]]; (split; [apply Hw|]; split; [reflexivity|]).
    + right. split; [reflexivity|]. apply Z.nle_gt. intros H10.
      assert (nHeightEffective regtest_digishieldConsensus <= nHeightEffective regtest_consensus) as Hle
        by (apply Hmax; [right; left|exact H10]).
      vm_compute in Hle. congruence.
    + left. by apply retarget_exact_regtest; [apply Hw|..].
    + left. by apply retarget_exact_regtest; [apply Hw|..].
Qed.

(** The walk back over minimum-difficulty blocks ends at a block of the
    chain. *)
Lemma last_normal_block_spec m interval lim : wf_index m ->
  forall fuel p b, m !! p = Some b -> nHeight b <= Z.of_nat fuel ->
  exists q bq, m !! q = Some bq /\ last_normal_block fuel m interval lim p = Ret (nBits bq).
Proof.
  intros Hm fuel. induction fuel as [|fuel IH]; intros p b Hp Hh;
    cbn [last_normal_block]; rewrite Hp; cbn [deref mbind outcome_bind];
    pose proof (wf_prev m Hm p b Hp) as Hprev; destruct (pprev b) as [q|]; [| eauto| |eauto];
    destruct (_ && _); eauto; destruct Hprev as (b' & Hq & Hb).
  - pose proof (wf_nonneg m Hm q b' Hq). lia.
  - apply (IH q b' Hq). lia.
Qed.

(** The block the retarget starts from exists. *)
Lemma retarget_first_height h interval : 0 <= h -> 0 < interval ->
  Z.rem (h + 1) interval = 0 ->
  0 <= h - (if negb (h + 1 =? interval) then interval else interval - 1) <= h.
Proof.
  intros Hh Hi Hr. apply Z.rem_divide in Hr as [k Hk]; [|lia].
  assert (1 <= k) by nia. destruct (Z.eqb_spec (h + 1) interval) as [|Hne]; simpl; [lia|].
  assert (2 <= k) by (assert (k <> 1) by (intros ->; lia); lia). nia.
Qed.

Lemma compact_encode_ok params v : 0 <= v <= limit params -> limit params < 2 ^ 256 ->
  inU 32 (compact_encode v) /\ compact_sign (compact_encode v) = false /\
  compact_value (compact_encode v) <= limit params.
Proof.
  intros Hv Hl. destruct (compact_encode_fields v ltac:(lia)) as (_ & Hu & _ & _ & Ht).
  split; [assumption|]. unfold compact_sign. rewrite Ht, andb_false_r. split; [reflexivity|].
  rewrite compact_value_encode by lia. pose proof (compact_trunc_bound v). lia.
Qed.

Lemma next_target_bound params h actual old : wf_uint256 (powLimit params) -> retarget_exact params h ->
  0 <= old -> 0 <= next_target params h actual old <= limit params.
Proof.
  intros Hl (_ & HT & Hs) Hold. destruct (limit_bound params Hl) as (Hb & _). unfold next_target.
  specialize (Hs actual). destruct (modulate_timespan _ _ _ _) as [[span lo] hi].
  pose proof (clamp_bound lo hi span ltac:(lia)).
  assert (0 <= old * clamp lo hi span / nPowTargetTimespan params)
    by (apply Z.div_pos; [apply Z.mul_nonneg_nonneg; lia|lia]). lia.
Qed.

(** The required work on a network, for a block on top of [b]. *)
Lemma GetNextWorkRequired_spec t m p b pblock params :
  t ∈ networks -> wf_index m -> m !! p = Some b -> GetConsensus t (nHeight b + 1) = Some params ->
  (forall q bq, m !! q = Some bq -> target_ok params (nBits bq)) ->
  exists c, GetNextWorkRequired m (Some p) pblock params = Ret c /\
    inU 32 c /\ compact_sign c = false /\ compact_value c <= limit params.
Proof.
  intros Ht Hm Hp Hc Hok. pose proof (wf_nonneg m Hm p b Hp) as Hh.
  destruct (network_rules t _ params Ht Hc ltac:(lia)) as (Hw & Hi & Hex).
  destruct (limit_bound params Hw) as (Hl & Hwl & El).
  assert (forall q bq, m !! q = Some bq -> inU 32 (nBits bq) /\ compact_sign (nBits bq) = false /\
    compact_value (nBits bq) <= limit params) as Hbits.
  { intros q bq Hq. destruct (Hok q bq Hq) as (Hu & Hv & ?). split; [assumption|]. split; [|assumption].
    unfold valid_target in Hv. by destruct (compact_sign (nBits bq)). }
  unfold GetNextWorkRequired. rewrite GetCompact_unsigned, El by assumption. cbn [deref mbind outcome_bind].
  pose proof (compact_encode_ok params (limit params) ltac:(lia) ltac:(lia)) as Hlim.
  rewrite Hp. cbn [deref mbind outcome_bind]. destruct (AllowDigishieldMinDifficultyForBlock _ _ _); [eauto|].
  set (iv := if 145000 <=? nHeight b then 1 else _).
  assert (0 < iv) as Hiv by (unfold iv; destruct (145000 <=? nHeight b); lia).
  destruct (Z.eqb_spec (Z.rem (nHeight b + 1) iv) 0) as [Hr|Hr]; cbn [negb].
  - pose proof (retarget_first_height _ _ Hh Hiv Hr) as Hf. set (first := nHeight b - _) in *.
    rewrite (proj2 (Z.leb_le 0 first)) by lia. cbn [assert_ mbind outcome_bind].
    rewrite (GetAncestor_spec m Hm p b first Hp). cbn [mbind outcome_bind].
    destruct (ancestor_total m Hm p b first Hp ltac:(lia)) as (q & bq & -> & Hq & _).
    cbn [deref mbind outcome_bind]. rewrite Hq. cbn [deref mbind outcome_bind].
    destruct Hex as [Hex|[Hiv' Hlow]].
    + rewrite CalculateDogecoin_spec by (assumption || eauto). eexists. split; [reflexivity|].
      apply compact_encode_ok; [|lia]. apply next_target_bound; [assumption..|].
      apply compact_value_nonneg, (Hok p b Hp).
    + exfalso. unfold iv in Hr. rewrite (proj2 (Z.leb_gt 145000 (nHeight b))), Hiv', Z.rem_small in Hr by lia. lia.
  - destruct (fPowAllowMinDifficultyBlocks params); [|eauto].
    destruct (_ <? _); [eauto|].
    destruct (last_normal_block_spec m (DifficultyAdjustmentInterval params) (compact_encode (limit params)) Hm
      (Z.to_nat (nHeight b)) p b Hp ltac:(lia)) as (q & bq & Hq & ->). eauto.
Qed.

(** DigiShield on the main network: the rule sets from height 145000 on. *)
Lemma main_digishield_rules h params : 145000 <= h -> GetConsensus CMainParams h = Some params ->
  params = main_digishieldConsensus \/ params = main_auxpowConsensus.
Proof.
  intros Hh Hc. assert (CMainParams ∈ networks) as Ht by (by left).
  destruct (network_in_force CMainParams h Ht ltac:(lia)) as (p & Hp & Hin & _ & Hmax).
  assert (p = params) as -> by congruence. clear Hp Hc.
  cbn [params_list CMainParams app] in Hin, Hmax. rewrite !elem_of_cons, elem_of_nil in Hin.
  destruct Hin as [->|[->|[->|[]]]]; auto.
  assert (nHeightEffective main_digishieldConsensus <= nHeightEffective main_consensus) as Hle
    by (apply Hmax; [right; left|exact Hh]).
  vm_compute in Hle. congruence.
Qed.

Lemma main_limit params : params = main_digishieldConsensus \/ params = main_auxpowConsensus ->
  limit params = 2 ^ 236 - 1.
Proof. intros [-> | ->]; vm_compute; reflexivity. Qed.

Lemma GetNextWorkRequired_digishield m p b q bq pblock params :
  wf_index m -> m !! p = Some b -> pprev b = Some q -> m !! q = Some bq -> 145000 <= nHeight b ->
  GetConsensus CMainParams (nHeight b + 1) = Some params -> target_ok params (nBits b) ->
  GetNextWorkRequired m (Some p) pblock params =
  Ret (compact_encode (Z.min (2 ^ 236 - 1)
    (compact_value (nBits b) * clamp 45 90 (60 + Z.quot (nTime b - nTime bq - 60) 8) / 60))).
Proof.
  intros Hm Hp Hpq Hq Hh Hc Hok.
  pose proof (main_digishield_rules (nHeight b + 1) params ltac:(lia) Hc) as Hparams.
  destruct (network_rules CMainParams (nHeight b + 1) params ltac:(by left) Hc ltac:(lia)) as (Hw & _ & Hex).
  destruct Hex as [Hex|[_ ?]]; [|lia]. destruct (limit_bound params Hw) as (Hl & Hwl & El).
  assert (fPowAllowMinDifficultyBlocks params = false) as Ha by (by destruct Hparams as [-> | ->]).
  unfold GetNextWorkRequired, AllowDigishieldMinDifficultyForBlock.
  rewrite GetCompact_unsigned, Hp, Ha by assumption. cbn [deref mbind outcome_bind negb].
  rewrite (proj2 (Z.leb_le 145000 (nHeight b))) by lia. rewrite Z.rem_1_r. cbn [Z.eqb negb].
  rewrite (proj2 (Z.eqb_neq (nHeight b + 1) 1)) by lia. cbn [negb].
  rewrite (proj2 (Z.leb_le 0 (nHeight b - 1))) by lia. cbn [assert_ mbind outcome_bind].
  rewrite (GetAncestor_spec m Hm p b (nHeight b - 1) Hp). cbn [mbind outcome_bind].
  pose proof (wf_prev m Hm p b Hp) as Hx. rewrite Hpq in Hx. destruct Hx as (bq' & Hq' & Hhq).
  assert (bq' = bq) as -> by congruence.
  rewrite (ancestor_prev m Hm p q b (nHeight b - 1) Hp Hpq) by lia.
  replace (nHeight b - 1) with (nHeight bq) by lia. rewrite (ancestor_self m Hm q bq Hq).
  cbn [deref mbind outcome_bind]. rewrite Hq. cbn [deref mbind outcome_bind].
  rewrite CalculateDogecoin_spec by assumption. unfold next_target. rewrite (main_limit params Hparams).
  destruct Hparams as [-> | ->]; reflexivity.
Qed.

(** *** Subsidy *)

Lemma halvings_bound h iv : 0 <= h < 6 * iv -> 0 < iv -> 0 <= h / iv <= 5.
Proof. intros. split; [apply Z.div_pos; lia|]. assert (h / iv < 6) by (apply Z.div_lt_upper_bound; lia). lia. Qed.

Lemma subsidy_simplified rand h params prevHash : fSimplifiedRewards params = true ->
  0 <= h -> 0 < nSubsidyHalvingInterval params ->
  let s := GetDogecoinBlockSubsidy rand h params prevHash in
  s = (if h <? 6 * nSubsidyHalvingInterval params
       then 500000 * COIN / 2 ^ (h / nSubsidyHalvingInterval params) else 10000 * COIN) /\
  10000 * COIN <= s <= 500000 * COIN.
Proof.
  intros Hs Hh Hi s. unfold s, GetDogecoinBlockSubsidy. rewrite Hs. cbn [negb].
  destruct (Z.ltb_spec h (6 * nSubsidyHalvingInterval params)); [|split; [reflexivity|unfold COIN; lia]].
  rewrite Z.quot_div_nonneg by lia.
  pose proof (halvings_bound h (nSubsidyHalvingInterval params) ltac:(lia) Hi) as Hb.
  rewrite Z.shiftr_div_pow2 by lia. split; [reflexivity|]. set (k := h / _) in *.
  assert (k = 0 \/ k = 1 \/ k = 2 \/ k = 3 \/ k = 4 \/ k = 5) as Hk by lia.
  destruct Hk as [-> | [-> | [-> | [-> | [-> | ->]]]]]; vm_compute; intuition congruence.
Qed.

Lemma subsidy_random rand h params prevHash : (forall s r, 1 <= r -> 1 <= rand s r <= r) ->
  fSimplifiedRewards params = false -> nSubsidyHalvingInterval params = 100000 -> 0 <= h < 145000 ->
  2 * COIN <= GetDogecoinBlockSubsidy rand h params prevHash <= Z.shiftr 1000000 (h / 100000) * COIN.
Proof.
  intros Hr Hs Hi Hh. unfold GetDogecoinBlockSubsidy. rewrite Hs, Hi. cbn [negb].
  rewrite Z.quot_div_nonneg by lia.
  assert (h / 100000 = 0 \/ h / 100000 = 1) as Hk by divlia.
  destruct Hk as [-> | ->]; [change (Z.shiftr 1000000 0) with 1000000|change (Z.shiftr 1000000 1) with 500000];
    rewrite wrapS_small by (unfold inS; lia); unfold COIN;
    (match goal with |- context [rand ?s ?r] => pose proof (Hr s r ltac:(lia)) end); lia.
Qed.

Lemma rewards_rules t h params : t ∈ networks -> 0 <= h -> GetConsensus t h = Some params ->
  0 < nSubsidyHalvingInterval params /\
  (fSimplifiedRewards params = false -> nSubsidyHalvingInterval params = 100000 /\ h < 145000).
Proof.
  intros Ht Hh Hc. destruct (network_in_force t h Ht Hh) as (p & Hp & Hin & _ & Hmax).
  assert (p = params) as -> by congruence. clear Hp Hc.
  unfold networks in Ht. rewrite !elem_of_cons, elem_of_nil in Ht. destruct Ht as [->|[->|[->|[]]]];
    cbn [params_list CMainParams CTestNetParams CRegTestParams app] in Hin, Hmax;
    rewrite !elem_of_cons, elem_of_nil in Hin.
  - destruct Hin as [->|[->|[->|[]]]]; (split; [reflexivity|]); intros Hs; try discriminate Hs.
    split; [reflexivity|]. apply Z.nle_gt. intros Hle.
    assert (nHeightEffective main_digishieldConsensus <= nHeightEffective main_consensus) as Hx
      by (apply Hmax; [right; left|exact Hle]). vm_compute in Hx. congruence.
  - destruct Hin as [->|[->|[->|[->|[]]]]]; (split; [reflexivity|]); intros Hs; try discriminate Hs.
    split; [reflexivity|]. apply Z.nle_gt. intros Hle.
    assert (nHeightEffective test_digishieldConsensus <= nHeightEffective test_consensus) as Hx
      by (apply Hmax; [right; left|exact Hle]). vm_compute in Hx. congruence.
  - destruct Hin as [->|[->|[->|[]]]]; (split; [reflexivity|]); intros Hs; discriminate Hs.
Qed.

(** *** Equivalent time *)

Lemma GetBlockProofEquivalentTime_spec to from tip params :
  wf (nChainWork to) -> wf (nChainWork from) -> inU 32 (nBits tip) -> valid_target (nBits tip) = true ->
  inU 63 (nPowTargetSpacing params) ->
  let d := eval (nChainWork to) - eval (nChainWork from) in
  Z.abs d * nPowTargetSpacing params < 2 ^ 256 ->
  GetBlockProofEquivalentTime to from tip params =
  Ret ((if 0 <? d then 1 else -1) *
       Z.min (2 ^ 63 - 1) (Z.abs d * nPowTargetSpacing params / (2 ^ 256 / (compact_value (nBits tip) + 1)))).
Proof.
  intros Ht Hf Hb Hv Hsp d Hd. unfold GetBlockProofEquivalentTime.
  pose proof (eval_wf _ Ht) as Bt. pose proof (eval_wf _ Hf) as Bf.
  assert (exists r sign, (if op_gt (nChainWork to) (nChainWork from)
    then (op_sub (nChainWork to) (nChainWork from), 1)
    else (op_sub (nChainWork from) (nChainWork to), -1)) = (r, sign) /\ wf r /\ eval r = Z.abs d /\
    sign = if 0 <? d then 1 else -1) as (r & sign & -> & Hr & Er & ->).
  { rewrite op_gt_spec by assumption. unfold d. destruct (Z.ltb_spec (eval (nChainWork from)) (eval (nChainWork to)));
      eexists _, _; (split; [reflexivity|]); (split; [by apply op_sub_wf|]); rewrite op_sub_eval, Z.mod_small by (assumption || lia);
      zbool; lia. }
  destruct (GetBlockProof_spec (nBits tip) Hb) as (w & -> & Hw & Ew). rewrite Hv in Ew. cbn [deref mbind outcome_bind].
  pose proof (SetCompact_valid_eval _ Hb Hv) as [_ Hcv].
  pose proof (compact_value_not_max _ Hb ltac:(lia)) as Hnm.
  assert (0 < eval w) as Hw0 by (rewrite Ew; apply Z.div_str_pos; lia).
  unfold inU in Hsp. rewrite (wrapU_small 64 (nPowTargetSpacing params)) by (unfold inU; lia).
  assert (wf (base_uint_of_u64 (nPowTargetSpacing params))) as Hws by auto with cpp.
  assert (0 <= Z.abs d * nPowTargetSpacing params < 2 ^ 256) as Hp by (split; [apply Z.mul_nonneg_nonneg; lia|assumption]).
  destruct (op_mul_spec r _ Hr Hws) as [Hwm Em]. rewrite of_u64_eval, Er, (Z.mod_small _ _ Hp) in Em by (unfold inU; lia).
  pose proof (op_div_spec _ _ Hwm Hw) as Hq. destruct (op_div _ w) as [q|]; [|lia]. destruct Hq as (_ & Hwq & Eq).
  rewrite Em, Ew in Eq. cbn [deref mbind outcome_bind]. rewrite bits_spec, GetLow64_spec, Eq by assumption.
  assert (0 <= eval q) as Hq0 by (apply eval_wf; assumption). rewrite Eq in Hq0.
  set (v := Z.abs d * nPowTargetSpacing params / (2 ^ 256 / (compact_value (nBits tip) + 1))) in *.
  destruct (Z.le_gt_cases (2 ^ 63) v) as [Hbig|Hsmall].
  - assert (63 <= Z.log2 v) by (apply Z.log2_le_pow2; lia).
    rewrite (proj2 (Z.eqb_neq v 0)), (proj2 (Z.ltb_lt 63 (Z.log2 v + 1))), Z.min_l by lia. reflexivity.
  - replace (63 <? (if v =? 0 then 0 else Z.log2 v + 1)) with false.
    + rewrite wrapU_mul_l, wrapS_wrapU, (Z.mod_small v), wrapS_small, Z.min_r; [reflexivity|..]; try lia.
      unfold inS. destruct (0 <? d); lia.
    + symmetry. apply Z.ltb_ge. destruct (Z.eqb_spec v 0); [lia|].
      assert (Z.log2 v < 63) by (apply Z.log2_lt_pow2; lia). lia.
Qed.

(** *** A chain of any length, for the witnesses *)

Definition plain_block (i : nat) : CBlockIndex :=
  mkIndex [] (match i with O => None | S j => Some j end) None (Z.of_nat i) 0 0 0 (base_uint_of_u64 0) 0 0 0 0 []
    (60 * Z.of_nat i) 0x1e0ffff0 0 0 0.
Definition plain_chain (n : nat) : index := list_to_map (map (fun i => (i, plain_block i)) (seq 0 n)).

Lemma plain_chain_lookup n i : plain_chain n !! i = if decide (i < n)%nat then Some (plain_block i) else None.
Proof.
  unfold plain_chain. destruct (decide (i < n)%nat).
  - apply elem_of_list_to_map_1.
    + rewrite <- list_fmap_compose. simpl.
      rewrite (list_fmap_ext _ id) by done. rewrite list_fmap_id. apply NoDup_seq.
    + apply list_elem_of_In, in_map_iff. exists i. split; [done|]. apply in_seq. lia.
  - apply not_elem_of_list_to_map_1. intros Hi. apply list_elem_of_fmap in Hi as ([j b] & -> & Hj).
    apply list_elem_of_In, in_map_iff in Hj as (j' & [= <- _] & Hj). apply in_seq in Hj. simpl in *. lia.
Qed.

Lemma plain_chain_wf n : wf_index (plain_chain n).
Proof.
  split; intros p b; rewrite plain_chain_lookup; destruct (decide (p < n)%nat); intros; simplify_eq; simpl; try lia.
  destruct p as [|p]; [done|]. exists (plain_block p). rewrite plain_chain_lookup. rewrite decide_True by lia.
  split; [done|]. simpl. lia.
Qed.

(** ** Properties *)

(** A proof of work is accepted exactly when the claimed bits decode to a
    positive target that neither overflows nor exceeds the limit, and the hash
    as a number does not exceed the target. *)
Theorem CheckProofOfWork_iff (hash : uint256) (nBits : Z) (params : Params)
  (Hh : wf_uint256 hash) (Hl : wf_uint256 (powLimit params)) (Hb : inU 32 nBits) :
  CheckProofOfWork hash nBits params = true <->
  valid_target nBits = true /\ compact_value nBits <= le_bytes (powLimit params) /\
  le_bytes hash <= compact_value nBits.
Proof. rewrite CheckProofOfWork_spec by assumption. unfold target_ok, limit. tauto. Qed.

Lemma CheckProofOfWork_iff_witness :
  CheckProofOfWork uint256_null 0x1e0ffff0 main_consensus = true <->
  valid_target 0x1e0ffff0 = true /\ compact_value 0x1e0ffff0 <= le_bytes (powLimit main_consensus) /\
  le_bytes uint256_null <= compact_value 0x1e0ffff0.
Proof.
  apply CheckProofOfWork_iff; [|apply (SetHex_spec _)|split; lia].
  split; [reflexivity|]. apply Forall_replicate. split; lia.
Defined.


Lemma plain_chain_ok n params : limit params = 2 ^ 236 - 1 ->
  forall q bq, plain_chain n !! q = Some bq -> target_ok params (nBits bq).
Proof.
  intros Hl q bq. rewrite plain_chain_lookup. destruct (decide _); intros; simplify_eq.
  unfold target_ok. rewrite Hl. split; [split; simpl; lia|]. split; [reflexivity|]. by vm_compute.
Qed.


(** DigiShield is computed exactly.  On the main network from height
    145000 on, the next target is the last one scaled by the filtered time
    between the last two blocks, clamped to 45..90 of 60 seconds, rounded
    down and capped at the limit. *)
Theorem digishield_retarget (m : index) (p q : ptr) (b bq : CBlockIndex) (pblock : CPureBlockHeader) (params : Params)
  (Hm : wf_index m) (Hp : m !! p = Some b) (Hpq : pprev b = Some q) (Hq : m !! q = Some bq)
  (Hh : 145000 <= nHeight b) (Hc : GetConsensus CMainParams (nHeight b + 1) = Some params)
  (Hok : target_ok params (nBits b)) :
  GetNextWorkRequired m (Some p) pblock params =
  Ret (compact_encode (Z.min (2 ^ 236 - 1)
    (compact_value (nBits b) * clamp 45 90 (60 + Z.quot (nTime b - nTime bq - 60) 8) / 60))).
Proof. by apply (GetNextWorkRequired_digishield m p b q bq). Qed.

Lemma digishield_retarget_witness : let n := Z.to_nat 145000 in
  GetNextWorkRequired (plain_chain (S n)) (Some n) (Build_CPureBlockHeader 0 [] [] 0 0 0) main_digishieldConsensus =
  Ret (compact_encode (Z.min (2 ^ 236 - 1)
    (compact_value 0x1e0ffff0 * clamp 45 90 (60 + Z.quot (nTime (plain_block n) - nTime (plain_block (pred n)) - 60) 8) / 60))).
Proof.
  intros n. assert (Z.of_nat n = 145000) as Hn by (apply Z2Nat.id; lia). clearbody n.
  assert (n = S (pred n)) as En by lia.
  apply (digishield_retarget _ n (pred n) (plain_block n) (plain_block (pred n))).
  - apply plain_chain_wf.
  - rewrite plain_chain_lookup. by rewrite decide_True by lia.
  - rewrite En. reflexivity.
  - rewrite plain_chain_lookup. by rewrite decide_True by lia.
  - cbn [plain_block nHeight]. lia.
  - cbn [plain_block nHeight]. rewrite Hn. reflexivity.
  - apply (plain_chain_ok (S n) main_digishieldConsensus (main_limit _ (or_introl eq_refl)) n).
    rewrite plain_chain_lookup. by rewrite decide_True by lia.
Defined.

Lemma subsidy_bounds (generateMTRandom : Z -> Z -> Z) (t : ParamsTree) (h : Z) (params : Params) (prevHash : uint256) :
  (forall s range, 1 <= range -> 1 <= generateMTRandom s range <= range) -> t ∈ networks -> 0 <= h ->
  GetConsensus t h = Some params ->
  2 * COIN <= GetDogecoinBlockSubsidy generateMTRandom h params prevHash <= 1000000 * COIN.
Proof.
  intros Hrand Ht Hh Hc. destruct (rewards_rules t h params Ht Hh Hc) as [Hi Hr].
  destruct (fSimplifiedRewards params) eqn:Hs.
  - destruct (subsidy_simplified generateMTRandom h params prevHash Hs Hh Hi) as [E Hb]. unfold COIN in *. lia.
  - destruct (Hr eq_refl) as [Hi' Hlt].
    pose proof (subsidy_random generateMTRandom h params prevHash Hrand Hs Hi' ltac:(lia)) as Hb.
    assert (h / 100000 = 0 \/ h / 100000 = 1) as Hk by divlia.
    destruct Hk as [Hk|Hk]; rewrite Hk in Hb;
      [change (Z.shiftr 1000000 0) with 1000000 in Hb|change (Z.shiftr 1000000 1) with 500000 in Hb];
      unfold COIN in *; lia.
Qed.

(** C37: the subsidy of a block.  Given a random draw within its range, the
    early rewards lie between 2 coins and the halved maximum; the later ones
    are the fixed schedule, 500000 coins halved per interval until the
    constant 10000 coins; and no subsidy exceeds a million coins. *)
Theorem block_subsidy_schedule (generateMTRandom : Z -> Z -> Z) (t : ParamsTree) (h : Z) (params : Params) (prevHash : uint256)
  (Hrand : forall s range, 1 <= range -> 1 <= generateMTRandom s range <= range)
  (Ht : t ∈ networks) (Hh : 0 <= h) (Hc : GetConsensus t h = Some params) :
  let s := GetDogecoinBlockSubsidy generateMTRandom h params prevHash in
  (fSimplifiedRewards params = false -> h < 145000 /\ 2 * COIN <= s <= Z.shiftr 1000000 (h / 100000) * COIN) /\
  (fSimplifiedRewards params = true ->
     s = (if h <? 6 * nSubsidyHalvingInterval params
          then 500000 * COIN / 2 ^ (h / nSubsidyHalvingInterval params) else 10000 * COIN)) /\
  2 * COIN <= s <= 1000000 * COIN.
Proof.
  intros s. pose proof (subsidy_bounds generateMTRandom t h params prevHash Hrand Ht Hh Hc) as Hs2.
  destruct (rewards_rules t h params Ht Hh Hc) as [Hi Hr]. split; [|split; [|exact Hs2]]; intros Hs.
  - destruct (Hr Hs) as [Hi' Hlt]. split; [done|].
    exact (subsidy_random generateMTRandom h params prevHash Hrand Hs Hi' ltac:(lia)).
  - by destruct (subsidy_simplified generateMTRandom h params prevHash Hs Hh Hi).
Qed.

Lemma block_subsidy_schedule_witness :
  let s := GetDogecoinBlockSubsidy (fun _ _ => 1) 150000 main_digishieldConsensus uint256_null in
  (fSimplifiedRewards main_digishieldConsensus = false ->
     150000 < 145000 /\ 2 * COIN <= s <= Z.shiftr 1000000 (150000 / 100000) * COIN) /\
  (fSimplifiedRewards main_digishieldConsensus = true ->
     s = (if 150000 <? 6 * nSubsidyHalvingInterval main_digishieldConsensus
          then 500000 * COIN / 2 ^ (150000 / nSubsidyHalvingInterval main_digishieldConsensus) else 10000 * COIN)) /\
  2 * COIN <= s <= 1000000 * COIN.
Proof.
  apply (block_subsidy_schedule (fun _ _ => 1) CMainParams);
    [intros; lia|by left|lia|reflexivity].
Defined.

(** The time a difference of work is worth at the rate of a tip: the
    quotient of the work times the block spacing by the work of the tip,
    rounded toward zero, with the sign of the difference, saturating at the
    largest 64-bit integer. *)
Theorem proof_equivalent_time (to from tip : CBlockIndex) (params : Params)
  (Ht : wf (nChainWork to)) (Hf : wf (nChainWork from)) (Hb : inU 32 (nBits tip))
  (Hv : valid_target (nBits tip) = true) (Hsp : inU 63 (nPowTargetSpacing params))
  (Hov : Z.abs (eval (nChainWork to) - eval (nChainWork from)) * nPowTargetSpacing params < 2 ^ 256) :
  let d := eval (nChainWork to) - eval (nChainWork from) in
  GetBlockProofEquivalentTime to from tip params =
  Ret ((if 0 <? d then 1 else -1) *
       Z.min (2 ^ 63 - 1) (Z.abs d * nPowTargetSpacing params / (2 ^ 256 / (compact_value (nBits tip) + 1)))).
Proof. by apply GetBlockProofEquivalentTime_spec. Qed.

Lemma proof_equivalent_time_witness : let b := plain_block 0 in
  let d := eval (nChainWork b) - eval (nChainWork b) in
  GetBlockProofEquivalentTime b b b main_consensus =
  Ret ((if 0 <? d then 1 else -1) *
       Z.min (2 ^ 63 - 1) (Z.abs d * nPowTargetSpacing main_consensus / (2 ^ 256 / (compact_value (nBits b) + 1)))).
Proof.
  intros b. assert (wf (base_uint_of_u64 0)) as H0 by auto with cpp.
  apply proof_equivalent_time; [exact H0|exact H0|split; simpl; lia|reflexivity|split; simpl; lia|].
  vm_compute. reflexivity.
Defined.
