(* ===== verification/Tx.v ===== *)
(** * Transactions (primitives/transaction.{h,cpp}, part of script/script.h)

    The data of transactions and the predicates on them that the coin
    database and the validation rules use.  A script is its byte string. *)

From S2P Require Import Prelude ArithUint256 StrEncodings Uint256 Amount.

Abbreviation CScript := (list Z) (only parsing).

Definition OP_RETURN : Z := 106.
Definition MAX_SCRIPT_SIZE : Z := 10000.

Definition IsUnspendable (s : CScript) : bool :=
  match s with
  | op :: _ => (op =? OP_RETURN) || (MAX_SCRIPT_SIZE <? Z.of_nat (length s))
  | [] => false
  end.

Record COutPoint := mkOutPoint { op_hash : uint256; op_n : Z }.
#[export] Instance COutPoint_eq_dec : EqDecision COutPoint.
Proof. solve_decision. Defined.

Definition COutPoint_null : COutPoint := mkOutPoint uint256_null (u32 (-1)).
Definition COutPoint_IsNull (o : COutPoint) : bool := IsNull (op_hash o) && (op_n o =? u32 (-1)).
Definition COutPoint_lt (a b : COutPoint) : bool :=
  let cmp := Compare (op_hash a) (op_hash b) in (cmp <? 0) || ((cmp =? 0) && (op_n a <? op_n b)).
Definition COutPoint_eq (a b : COutPoint) : bool := blob_eq (op_hash a) (op_hash b) && (op_n a =? op_n b).

Definition SEQUENCE_FINAL : Z := 4294967295.
Definition SEQUENCE_LOCKTIME_DISABLE_FLAG : Z := 2 ^ 31.
Definition SEQUENCE_LOCKTIME_TYPE_FLAG : Z := 2 ^ 22.
Definition SEQUENCE_LOCKTIME_MASK : Z := 65535.
Definition SEQUENCE_LOCKTIME_GRANULARITY : Z := 9.

Record CTxIn := mkTxIn {
  prevout : COutPoint;
  scriptSig : CScript;
  nSequence : Z;
  scriptWitness : list (list Z)
}.
#[export] Instance CTxIn_eq_dec : EqDecision CTxIn.
Proof. solve_decision. Defined.

Record CTxOut := mkTxOut { nValue : Z; scriptPubKey : CScript }.
#[export] Instance CTxOut_eq_dec : EqDecision CTxOut.
Proof. solve_decision. Defined.

(** [CTxOut()] and [SetNull]. *)
Definition CTxOut_null : CTxOut := mkTxOut (-1) [].
Definition CTxOut_IsNull (o : CTxOut) : bool := nValue o =? -1.
Definition IsDust (dustLimit : Z) (o : CTxOut) : bool :=
  if IsUnspendable (scriptPubKey o) then false else nValue o <? dustLimit.

(** [hash] is the memory-only field with the transaction's hash. *)
Record CTransaction := mkTransaction {
  tx_nVersion : Z;
  vin : list CTxIn;
  tx_vout : list CTxOut;
  nLockTime : Z;
  tx_hash : uint256
}.
#[export] Instance CTransaction_eq_dec : EqDecision CTransaction.
Proof. solve_decision. Defined.

Definition GetHash (tx : CTransaction) : uint256 := tx_hash tx.
Definition CTransaction_IsNull (tx : CTransaction) : bool :=
  match vin tx, tx_vout tx with [], [] => true | _, _ => false end.
Definition IsCoinBase (tx : CTransaction) : bool :=
  match vin tx with [i] => COutPoint_IsNull (prevout i) | _ => false end.
Definition HasWitness (tx : CTransaction) : bool :=
  existsb (fun i => match scriptWitness i with [] => false | _ => true end) (vin tx).

(** The loop of [GetValueOut]; [Abort] is the exception it throws. *)
Fixpoint value_out_loop (vout : list CTxOut) (nValueOut : Z) : outcome Z :=
  match vout with
  | [] => Ret nValueOut
  | o :: vout' =>
      let nValueOut := i64 (nValueOut + nValue o) in
      if negb (MoneyRange (nValue o)) || negb (MoneyRange nValueOut) then Abort
      else value_out_loop vout' nValueOut
  end.
Definition GetValueOut (tx : CTransaction) : outcome Z := value_out_loop (tx_vout tx) 0.

(** ** Lemmas *)

Definition sum_values (vout : list CTxOut) : Z := fold_right (fun o s => nValue o + s) 0 vout.

Lemma MoneyRange_spec z : MoneyRange z = true <-> 0 <= z <= MAX_MONEY.
Proof. unfold MoneyRange. rewrite andb_true_iff, !Z.leb_le. done. Qed.

Lemma money_add_i64 a b : 0 <= a <= MAX_MONEY -> 0 <= b <= MAX_MONEY -> i64 (a + b) = a + b.
Proof.
  intros. apply wrapS_small; [lia|]. unfold inS. change MAX_MONEY with 1000000000000000000 in *. pow2_cbv. lia.
Qed.

Lemma sum_values_app a b : sum_values (a ++ b) = sum_values a + sum_values b.
Proof. induction a as [|o a IH]; simpl; [done|]. rewrite IH. lia. Qed.

Lemma sum_values_nonneg vout : Forall (fun o => 0 <= nValue o) vout -> 0 <= sum_values vout.
Proof. induction 1; simpl; lia. Qed.

(** The values and every partial sum are in the money range. *)
Definition outs_in_range (vout : list CTxOut) : Prop :=
  Forall (fun o => 0 <= nValue o <= MAX_MONEY) vout /\ sum_values vout <= MAX_MONEY.

Lemma value_out_loop_spec vout acc v : 0 <= acc <= MAX_MONEY ->
  value_out_loop vout acc = Ret v <->
  v = acc + sum_values vout /\ Forall (fun o => 0 <= nValue o <= MAX_MONEY) vout /\ v <= MAX_MONEY.
Proof.
  revert acc. induction vout as [|o vout IH]; intros acc Hacc; cbn [value_out_loop sum_values fold_right].
  { split; [intros [= <-]; split; [lia|]; split; [constructor|lia]|]. intros (-> & _ & _). f_equal. lia. }
  rewrite Forall_cons_iff. destruct (MoneyRange (nValue o)) eqn:Ho; cbn [negb orb].
  2:{ split; [done|]. intros (_ & (Hr & _) & _). apply MoneyRange_spec in Hr. congruence. }
  apply MoneyRange_spec in Ho. rewrite money_add_i64 by done.
  destruct (MoneyRange (acc + nValue o)) eqn:Hs; cbn [negb].
  - apply MoneyRange_spec in Hs. rewrite IH by done. fold (sum_values vout). intuition lia.
  - split; [done|]. intros (-> & (_ & Hr) & Hm). exfalso.
    assert (MoneyRange (acc + nValue o) = true) as E; [|congruence]. apply MoneyRange_spec.
    pose proof (sum_values_nonneg vout ltac:(eapply Forall_impl; [|exact Hr]; cbn; lia)).
    fold (sum_values vout) in Hm. lia.
Qed.

Lemma GetValueOut_spec tx v : GetValueOut tx = Ret v <-> v = sum_values (tx_vout tx) /\ outs_in_range (tx_vout tx).
Proof.
  unfold GetValueOut, outs_in_range. rewrite value_out_loop_spec by (unfold MAX_MONEY, COIN; lia).
  rewrite Z.add_0_l. intuition (subst; auto).
Qed.
