(* ===== verification/LockTime.v ===== *)
(** * Lock times ([IsFinalTx], [CheckFinalTx] and the sequence locks of
      [validation.cpp])

    When a transaction may enter a block: its absolute lock time, and the
    relative lock times of its inputs (BIP 68). *)

From S2P Require Import Prelude ArithUint256 Chain MedianTime Tx.
From stdpp Require Import list gmap.
#[local] Open Scope Z_scope.

Definition LOCKTIME_THRESHOLD : Z := 500000000.
Definition LOCKTIME_VERIFY_SEQUENCE : Z := 1.
Definition LOCKTIME_MEDIAN_TIME_PAST : Z := 2.

Definition IsFinalTx (tx : CTransaction) (nBlockHeight nBlockTime : Z) : bool :=
  if nLockTime tx =? 0 then true
  else if nLockTime tx <? (if nLockTime tx <? LOCKTIME_THRESHOLD then nBlockHeight else nBlockTime) then true
  else forallb (fun txin => nSequence txin =? SEQUENCE_FINAL) (vin tx).

(** [CheckFinalTx]; [adjustedTime] is [GetAdjustedTime()]. *)
Definition CheckFinalTx (m : index) (chainActive : CChain) (adjustedTime : Z) (tx : CTransaction) (flags : Z) : outcome bool :=
  let flags := Z.max flags 0 in
  let nBlockHeight := Height chainActive + 1 in
  nBlockTime ← (if negb (Z.land flags LOCKTIME_MEDIAN_TIME_PAST =? 0)
                then tip ← deref (Tip chainActive); GetMedianTimePast m tip
                else Ret adjustedTime);
  Ret (IsFinalTx tx nBlockHeight nBlockTime).

(** The loop over the inputs, with the heights of the outputs they spend. *)
Fixpoint sequence_loop (m : index) (block : ptr) (l : list (CTxIn * Z)) (nMinHeight nMinTime : Z) : outcome (Z * Z) :=
  match l with
  | [] => Ret (nMinHeight, nMinTime)
  | (txin, nCoinHeight) :: l' =>
      if negb (Z.land (nSequence txin) SEQUENCE_LOCKTIME_DISABLE_FLAG =? 0)
      then sequence_loop m block l' nMinHeight nMinTime
      else if negb (Z.land (nSequence txin) SEQUENCE_LOCKTIME_TYPE_FLAG =? 0)
      then a ← GetAncestor m block (Z.max (i32 (nCoinHeight - 1)) 0);
           p ← deref a;
           nCoinTime ← GetMedianTimePast m p;
           let lock := u32 (Z.shiftl (Z.land (nSequence txin) SEQUENCE_LOCKTIME_MASK) SEQUENCE_LOCKTIME_GRANULARITY) in
           sequence_loop m block l' nMinHeight (Z.max nMinTime (i64 (nCoinTime + lock - 1)))
      else let lock := Z.land (nSequence txin) SEQUENCE_LOCKTIME_MASK in
           sequence_loop m block l' (Z.max nMinHeight (i32 (nCoinHeight + lock - 1))) nMinTime
  end.

(** [CalculateSequenceLocks]; its callers do not use the heights it clears. *)
Definition CalculateSequenceLocks (m : index) (tx : CTransaction) (flags : Z) (prevHeights : list Z) (block : ptr)
  : outcome (Z * Z) :=
  assert_ (length prevHeights =? length (vin tx))%nat;;
  let fEnforceBIP68 := (2 <=? u32 (tx_nVersion tx)) && negb (Z.land flags LOCKTIME_VERIFY_SEQUENCE =? 0) in
  if negb fEnforceBIP68 then Ret (-1, -1)
  else sequence_loop m block (zip (vin tx) prevHeights) (-1) (-1).

Definition EvaluateSequenceLocks (m : index) (block : ptr) (lockPair : Z * Z) : outcome bool :=
  b ← deref (m !! block);
  prev ← deref (pprev b);
  nBlockTime ← GetMedianTimePast m prev;
  Ret (negb ((nHeight b <=? lockPair.1) || (nBlockTime <=? lockPair.2))).

Definition SequenceLocks (m : index) (tx : CTransaction) (flags : Z) (prevHeights : list Z) (block : ptr) : outcome bool :=
  lockPair ← CalculateSequenceLocks m tx flags prevHeights block;
  EvaluateSequenceLocks m block lockPair.

(** ** Specification: relative lock times

    An input is unlocked in a block of height [h] whose parent has median time
    [T] when the lock has passed since the block of the output it spends, in
    blocks or in units of 512 seconds. *)

Definition relative_lock (txin : CTxIn) : Z := nSequence txin mod 65536.
Definition lock_disabled (txin : CTxIn) : bool := Z.testbit (nSequence txin) 31.
Definition lock_is_time (txin : CTxIn) : bool := Z.testbit (nSequence txin) 22.

Definition input_unlocked (m : index) (block : ptr) (h T : Z) (txin : CTxIn) (coinHeight : Z) : Prop :=
  lock_disabled txin = true \/
  (lock_disabled txin = false /\ lock_is_time txin = false /\ coinHeight + relative_lock txin <= h) \/
  (lock_disabled txin = false /\ lock_is_time txin = true /\
   exists p t, ancestor m block (Z.max (coinHeight - 1) 0) = Some p /\ GetMedianTimePast m p = Ret t /\
     t + 512 * relative_lock txin <= T).

(** ** Lemmas *)

Lemma flag_tests s :
  negb (Z.land s SEQUENCE_LOCKTIME_DISABLE_FLAG =? 0) = Z.testbit s 31 /\
  negb (Z.land s SEQUENCE_LOCKTIME_TYPE_FLAG =? 0) = Z.testbit s 22 /\
  Z.land s SEQUENCE_LOCKTIME_MASK = s mod 65536 /\
  u32 (Z.shiftl (Z.land s SEQUENCE_LOCKTIME_MASK) SEQUENCE_LOCKTIME_GRANULARITY) = 512 * (s mod 65536).
Proof.
  unfold SEQUENCE_LOCKTIME_DISABLE_FLAG, SEQUENCE_LOCKTIME_TYPE_FLAG, SEQUENCE_LOCKTIME_MASK, SEQUENCE_LOCKTIME_GRANULARITY.
  rewrite !land_pow2_eqb, !negb_involutive by lia. change 65535 with (2 ^ 16 - 1). rewrite land_ones_mod by lia.
  change (2 ^ 16) with 65536. pose proof (Z.mod_pos_bound s 65536 ltac:(lia)).
  split_and!; try done. rewrite Z.shiftl_mul_pow2 by lia. change (2 ^ 9) with 512. rewrite wrapU_small by (unfold inU; lia). lia.
Qed.

(** Times are 32-bit, and the heights of an index fit an [int]. *)
Definition index_ranges (m : index) : Prop :=
  forall p b, m !! p = Some b -> inU 32 (nTime b) /\ nHeight b < 2 ^ 30.

Lemma median_range m p t : wf_index m -> index_ranges m -> GetMedianTimePast m p = Ret t -> 0 <= t < 2 ^ 32.
Proof.
  intros Hm Hr. unfold GetMedianTimePast. destruct (median_times _ m (Some p)) as [l|] eqn:El; [|done]. cbn [mbind outcome_bind].
  destruct (sorting.merge_sort Z.le l !! _) as [x|] eqn:Ex; [|done]. intros [= <-]. apply list_elem_of_lookup_2 in Ex.
  rewrite (sorting.merge_sort_Permutation Z.le l) in Ex. assert (Forall (fun t => 0 <= t < 2 ^ 32) l) as Hl.
  { clear Ex. revert l El. generalize (Some p). generalize nMedianTimeSpan. intros i. induction i as [|i IH]; intros o l El; [by injection El as <-|].
    destruct o as [q|]; [|by injection El as <-]. cbn [median_times] in El. destruct (m !! q) as [b|] eqn:Eb; [|done]. cbn [deref mbind outcome_bind] in El.
    destruct (median_times i m (pprev b)) as [r|] eqn:Er; [|done]. injection El as <-. apply Forall_app. split; [by eapply IH|].
    apply Forall_singleton. by destruct (Hr q b Eb). }
  rewrite Forall_forall in Hl. by apply Hl.
Qed.

Section Locks.
Context (m : index) (Hm : wf_index m) (Hr : index_ranges m) (block : ptr) (b : CBlockIndex) (Hb : m !! block = Some b).

(** The loop computes the last height and time at which some input is locked. *)
Lemma sequence_loop_spec l a t : Forall (fun x => 0 <= x.2 <= nHeight b) l ->
  exists a' t', sequence_loop m block l a t = Ret (a', t') /\
    forall h T, (a' < h /\ t' < T) <-> (a < h /\ t < T /\ Forall (fun x => input_unlocked m block h T x.1 x.2) l).
Proof.
  intros Hl. revert a t. induction Hl as [|[i c] l Hc Hl IH]; intros a t; cbn [sequence_loop].
  { exists a, t. split; [done|]. intros h T. rewrite Forall_nil. tauto. }
  destruct (flag_tests (nSequence i)) as (-> & -> & Em & Eg). rewrite Eg, Em. clear Em Eg. cbn [fst snd] in *.
  pose proof (Z.mod_pos_bound (nSequence i) 65536 ltac:(lia)) as Hmod. destruct (Hr block b Hb) as [_ Hh].
  destruct (Z.testbit (nSequence i) 31) eqn:E31; [|destruct (Z.testbit (nSequence i) 22) eqn:E22].
  - destruct (IH a t) as (a' & t' & E & HI). exists a', t'. split; [done|]. intros h T. rewrite HI, Forall_cons. cbn [fst snd].
    assert (input_unlocked m block h T i c) by (by left). tauto.
  - rewrite (wrapS_small 32) by (unfold inS; lia). rewrite (GetAncestor_spec m Hm block b) by done. cbn [mbind outcome_bind].
    destruct (ancestor_total m Hm block b (Z.max (c - 1) 0) Hb ltac:(lia)) as (p & bp & Ea & Hp & _). rewrite Ea. cbn [deref mbind outcome_bind].
    destruct (GetMedianTimePast_total m Hm p bp Hp) as [tp Etp]. rewrite Etp. cbn [mbind outcome_bind].
    pose proof (median_range m p tp Hm Hr Etp). rewrite (wrapS_small 64) by (unfold inS; lia).
    destruct (IH a (Z.max t (tp + 512 * (nSequence i mod 65536) - 1))) as (a' & t' & E & HI). exists a', t'. split; [done|].
    intros h T. rewrite HI, Forall_cons. cbn [fst snd]. assert (input_unlocked m block h T i c <-> tp + 512 * (nSequence i mod 65536) <= T) as ->; [|rewrite Z.max_lub_lt_iff; intuition lia].
    unfold input_unlocked, lock_disabled, lock_is_time, relative_lock. rewrite E31, E22. split.
    + intros [?|[(_ & ? & _)|(_ & _ & p' & t0 & Ea' & Et & ?)]]; [done|done|]. rewrite Ea in Ea'. injection Ea' as <-. rewrite Etp in Et. by injection Et as <-.
    + intros ?. right. right. split; [done|]. split; [done|]. by exists p, tp.
  - rewrite (wrapS_small 32) by (unfold inS; lia). destruct (IH (Z.max a (c + nSequence i mod 65536 - 1)) t) as (a' & t' & E & HI).
    exists a', t'. split; [done|]. intros h T. rewrite HI, Forall_cons. cbn [fst snd].
    assert (input_unlocked m block h T i c <-> c + nSequence i mod 65536 <= h) as ->; [|rewrite Z.max_lub_lt_iff; intuition lia].
    unfold input_unlocked, lock_disabled, lock_is_time, relative_lock. rewrite E31, E22. split; [|by auto].
    intros [?|[(_ & _ & ?)|(_ & ? & _)]]; done.
Qed.
End Locks.

(** ** Properties *)

(** C32: The sequence locks are the relative lock times of BIP 68.  For a block of
    the index with a parent, and the heights of the outputs a transaction
    spends, the check ends without a failed assertion, and it accepts exactly
    when the rule is not enforced (an old version, or the flag is not set) or
    every input is unlocked at the height of the block and the median time of
    its parent. *)
Theorem sequence_locks_are_bip68 m tx flags prevHeights block b prev T :
  wf_index m -> index_ranges m -> m !! block = Some b -> pprev b = Some prev -> GetMedianTimePast m prev = Ret T ->
  length prevHeights = length (vin tx) -> Forall (fun h => 0 <= h <= nHeight b) prevHeights ->
  exists r, SequenceLocks m tx flags prevHeights block = Ret r /\
    (r = true <-> ((2 <= u32 (tx_nVersion tx) /\ Z.testbit flags 0 = true) ->
                   Forall2 (input_unlocked m block (nHeight b) T) (vin tx) prevHeights)).
Proof.
  intros Hm Hr Hb Hprev HT Hlen Hh. unfold SequenceLocks, CalculateSequenceLocks. rewrite (proj2 (Nat.eqb_eq _ _) Hlen).
  cbn [assert_ mbind outcome_bind]. pose proof (median_range m prev T Hm Hr HT). pose proof (wf_nonneg m Hm block b Hb).
  assert (forall lp, EvaluateSequenceLocks m block lp = Ret (negb ((nHeight b <=? lp.1) || (T <=? lp.2)))) as Hev.
  { intros lp. unfold EvaluateSequenceLocks. rewrite Hb. cbn [deref mbind outcome_bind]. rewrite Hprev. cbn [deref mbind outcome_bind]. by rewrite HT. }
  assert (forall lp : Z * Z, negb ((nHeight b <=? lp.1) || (T <=? lp.2)) = true <-> lp.1 < nHeight b /\ lp.2 < T) as Hlt.
  { intros lp. rewrite negb_true_iff, orb_false_iff, !Z.leb_gt. done. }
  change LOCKTIME_VERIFY_SEQUENCE with (2 ^ 0). rewrite land_pow2_eqb, negb_involutive by lia.
  destruct ((2 <=? u32 (tx_nVersion tx)) && Z.testbit flags 0) eqn:E; cbn [negb].
  - apply andb_true_iff in E as [E1%Z.leb_le E2].
    destruct (sequence_loop_spec m Hm Hr block b Hb (zip (vin tx) prevHeights) (-1) (-1)) as (a' & t' & -> & H').
    { apply Forall_forall. intros [i h] Hi%elem_of_zip_r. rewrite Forall_forall in Hh. by apply Hh. }
    cbn [mbind outcome_bind]. rewrite Hev. eexists. split; [done|]. rewrite Hlt. cbn [fst snd]. rewrite H'.
    assert (Forall (fun x => input_unlocked m block (nHeight b) T x.1 x.2) (zip (vin tx) prevHeights) <->
      Forall2 (input_unlocked m block (nHeight b) T) (vin tx) prevHeights) as ->.
    { clear -Hlen. revert prevHeights Hlen. induction (vin tx) as [|i l IH]; intros [|h hs] Hlen; try done.
      cbn [zip zip_with]. rewrite Forall_cons, Forall2_cons. rewrite <- (IH hs) by (cbn in Hlen; lia). done. }
    split; [tauto|]. intros Hf. split; [lia|]. split; [lia|]. by apply Hf.
  - cbn [mbind outcome_bind]. rewrite Hev. eexists. split; [done|]. rewrite Hlt. cbn [fst snd]. split; [|lia]. intros _ [E1 E2].
    rewrite E2, andb_true_r in E. apply Z.leb_gt in E. lia.
Qed.

Lemma demo_ranges : index_ranges (tIndex demo_tree).
Proof.
  assert (map_Forall (fun _ b => (0 <= nTime b < 2 ^ 32) /\ nHeight b < 2 ^ 30) (tIndex demo_tree)) as H.
  { apply (bool_decide_unpack _). vm_compute. exact I. }
  intros p b Hb. exact (H p b Hb).
Qed.

Definition locked_tx (sequence : Z) : CTransaction :=
  mkTransaction 2 [mkTxIn (mkOutPoint [1] 0) [] sequence []] [] 0 [].

Lemma sequence_locks_are_bip68_witness :
  exists r, SequenceLocks (tIndex demo_tree) (locked_tx 2) 1 [2] 4%nat = Ret r /\
    (r = true <-> ((2 <= u32 2 /\ Z.testbit 1 0 = true) ->
       Forall2 (input_unlocked (tIndex demo_tree) 4%nat (nHeight (demo_block 4)) 160) (vin (locked_tx 2)) [2])).
Proof.
  apply (sequence_locks_are_bip68 (tIndex demo_tree) (locked_tx 2) 1 [2] 4%nat (demo_block 4) 3%nat 160).
  - apply demo_tree_wf.
  - apply demo_ranges.
  - vm_compute. reflexivity.
  - vm_compute. reflexivity.
  - vm_compute. reflexivity.
  - reflexivity.
  - apply Forall_cons_2; [vm_compute; split; discriminate|constructor].
Defined.

Lemma IsFinalTx_mono tx h t h' t' : h <= h' -> t <= t' -> IsFinalTx tx h t = true -> IsFinalTx tx h' t' = true.
Proof.
  intros Hh Ht. unfold IsFinalTx. destruct (nLockTime tx =? 0); [done|].
  destruct (Z.ltb_spec (nLockTime tx) (if nLockTime tx <? LOCKTIME_THRESHOLD then h else t)) as [Hlt|Hge].
  - intros _. rewrite (proj2 (Z.ltb_lt _ _)); [done|]. destruct (nLockTime tx <? LOCKTIME_THRESHOLD); lia.
  - intros Hf. match goal with |- (if ?x then _ else _) = _ => by destruct x end.
Qed.

(** C38: The median time past never goes back, and a final transaction stays
    final.  In a well-formed index whose headers are later than the median time
    of their parent, the median time of a block is defined, is the time of one
    of its last eleven blocks, and is not less than that of any of its
    ancestors; so a transaction that is final after a block is final after each
    of its descendants. *)
Theorem final_stays_final m p b h q bq tx : wf_index m -> times_ok m -> m !! p = Some b -> ancestor m p h = Some q ->
  m !! q = Some bq ->
  exists T t, GetMedianTimePast m p = Ret T /\ GetMedianTimePast m q = Ret t /\ t <= T /\
    (exists i pi bi, (i < 11)%nat /\ walk_back m i p = Some pi /\ m !! pi = Some bi /\ T = GetBlockTime bi) /\
    (IsFinalTx tx (nHeight bq + 1) t = true -> IsFinalTx tx (nHeight b + 1) T = true).
Proof.
  intros Hm Hok Hp Ha Hq. destruct (GetMedianTimePast_total m Hm p b Hp) as [T ET]. destruct (GetMedianTimePast_total m Hm q bq Hq) as [t Et].
  exists T, t. assert (t <= T) as Hle by (by eapply median_ancestor). split_and!; [done|done|done|by eapply median_is_time|].
  apply IsFinalTx_mono; [|done]. destruct (ancestor_height m Hm p h q Ha) as (b' & Hq' & Eh).
  pose proof (ancestor_range m p b h q Hp Ha). rewrite Hq in Hq'. injection Hq' as <-. lia.
Qed.

Lemma final_stays_final_witness : exists T t,
  GetMedianTimePast (tIndex timed_tree) 3%nat = Ret T /\ GetMedianTimePast (tIndex timed_tree) 1%nat = Ret t /\ t <= T.
Proof.
  destruct (final_stays_final (tIndex timed_tree) 3%nat (default (newIndex [] (demo_header 0 0 0)) (tIndex timed_tree !! 3%nat)) 1 1%nat
    (default (newIndex [] (demo_header 0 0 0)) (tIndex timed_tree !! 1%nat)) (locked_tx 2)) as (T & t & H1 & H2 & H3 & _).
  - exact (wt_index _ timed_tree_wf).
  - exact timed_tree_times.
  - vm_compute. reflexivity.
  - vm_compute. reflexivity.
  - vm_compute. reflexivity.
  - exists T, t. split; [exact H1|]. split; [exact H2|exact H3].
Defined.
