(* ===== verification/Script.v ===== *)
(** * Scripts ([script/script.h], [script/script.cpp])

    The byte format of scripts: instructions with their operands, pushing
    data and numbers, script numbers, the templates the validation rules look
    for, and the count of signature operations.  An iterator [pc] into a
    script is the rest of the script from there. *)

From S2P Require Import Prelude ArithUint256 StrEncodings Uint256 Amount Tx.
From stdpp Require Import list.
#[local] Open Scope Z_scope.

(** ** Opcodes *)

Definition OP_0 : Z := 0.
Definition OP_PUSHDATA1 : Z := 76.
Definition OP_PUSHDATA2 : Z := 77.
Definition OP_PUSHDATA4 : Z := 78.
Definition OP_1 : Z := 81.
Definition OP_16 : Z := 96.
Definition OP_DUP : Z := 118.
Definition OP_EQUAL : Z := 135.
Definition OP_EQUALVERIFY : Z := 136.
Definition OP_HASH160 : Z := 169.
Definition OP_CHECKSIG : Z := 172.
Definition OP_CHECKSIGVERIFY : Z := 173.
Definition OP_CHECKMULTISIG : Z := 174.
Definition OP_CHECKMULTISIGVERIFY : Z := 175.
Definition OP_INVALIDOPCODE : Z := 255.
Definition MAX_PUBKEYS_PER_MULTISIG : Z := 20.

Definition ReadLE16 (ptr : list Z) : Z := Z.lor (ptr.[0]) (Z.shiftl (ptr.[1]) 8).
Definition WriteLE16 (x : Z) : list Z := [u8 x; u8 (Z.shiftr x 8)].

(** ** Script numbers *)

(** The loop [while(absvalue)]; a 64-bit value has eight bytes. *)
Fixpoint magnitude (fuel : nat) (absvalue : Z) : list Z :=
  match fuel with
  | O => []
  | S fuel' => if absvalue =? 0 then [] else Z.land absvalue 255 :: magnitude fuel' (Z.shiftr absvalue 8)
  end.

Definition back (l : list Z) : Z := default 0 (last l).

Definition serialize (value : Z) : list Z :=
  if value =? 0 then []
  else let neg := value <? 0 in
       let absvalue := u64 (if neg then i64 (- value) else value) in
       let result := magnitude 8 absvalue in
       if negb (Z.land (back result) 128 =? 0) then result ++ [if neg then 128 else 0]
       else if neg then removelast result ++ [Z.lor (back result) 128]
       else result.

(** The loop [for (i = 0; i != vch.size(); ++i)]. *)
Fixpoint set_vch_loop (i : Z) (vch : list Z) (result : Z) : Z :=
  match vch with
  | [] => result
  | b :: vch' => set_vch_loop (i + 1) vch' (i64 (Z.lor result (i64 (Z.shiftl b (8 * i)))))
  end.

Definition set_vch (vch : list Z) : Z :=
  match vch with
  | [] => 0
  | _ => let result := set_vch_loop 0 vch 0 in
         if negb (Z.land (back vch) 128 =? 0)
         then i64 (- i64 (Z.land (u64 result) (u64 (Z.lnot (Z.shiftl 128 (8 * (Z.of_nat (length vch) - 1)))))))
         else result
  end.

(** The constructor from a vector; [Abort] is the exception
    [scriptnum_error]. *)
Definition CScriptNum_of (vch : list Z) (fRequireMinimal : bool) (nMaxNumSize : nat) : outcome Z :=
  if (nMaxNumSize <? length vch)%nat then Abort
  else if fRequireMinimal && negb (length vch =? 0)%nat && (Z.land (back vch) 127 =? 0)
          && ((length vch <=? 1)%nat || (Z.land (vch.[length vch - 2]) 128 =? 0))
  then Abort
  else Ret (set_vch vch).

Definition getint (m_value : Z) : Z :=
  if 2 ^ 31 - 1 <? m_value then 2 ^ 31 - 1 else if m_value <? - 2 ^ 31 then - 2 ^ 31 else m_value.

(** [operator+=] and [operator-=] with their assertions. *)
Definition num_add (m_value rhs : Z) : outcome Z :=
  assert_ ((rhs =? 0) || ((0 <? rhs) && (m_value <=? i64 (2 ^ 63 - 1 - rhs)))
           || ((rhs <? 0) && (i64 (- 2 ^ 63 - rhs) <=? m_value)));;
  Ret (i64 (m_value + rhs)).
Definition num_sub (m_value rhs : Z) : outcome Z :=
  assert_ ((rhs =? 0) || ((0 <? rhs) && (i64 (- 2 ^ 63 + rhs) <=? m_value))
           || ((rhs <? 0) && (m_value <=? i64 (2 ^ 63 - 1 + rhs))));;
  Ret (i64 (m_value - rhs)).

(** ** Building scripts *)

(** [operator<<(const std::vector<unsigned char>&)]: what it appends. *)
Definition push_vch (b : list Z) : CScript :=
  let size := Z.of_nat (length b) in
  (if size <? OP_PUSHDATA1 then [u8 size]
   else if size <=? 255 then [OP_PUSHDATA1; u8 size]
   else if size <=? 65535 then OP_PUSHDATA2 :: WriteLE16 size
   else OP_PUSHDATA4 :: WriteLE32 size) ++ b.

(** [operator<<(int64_t)]: what it appends. *)
Definition push_int64 (n : Z) : CScript :=
  if (n =? -1) || ((1 <=? n) && (n <=? 16)) then [u8 (n + (OP_1 - 1))]
  else if n =? 0 then [OP_0]
  else push_vch (serialize n).

Definition DecodeOP_N (opcode : Z) : outcome Z :=
  if opcode =? OP_0 then Ret 0
  else (assert_ ((OP_1 <=? opcode) && (opcode <=? OP_16));; Ret (opcode - (OP_1 - 1))).
Definition EncodeOP_N (n : Z) : outcome Z :=
  assert_ ((0 <=? n) && (n <=? 16));; Ret (if n =? 0 then OP_0 else OP_1 + n - 1).

(** ** Reading scripts *)

(** [GetOp2]: the opcode, its operand and the rest; [None] where it returns
    [false].  The one caller that uses where [pc] stands after that has a variant
    of its own, with the signature hash. *)
Definition GetOp2 (pc : CScript) : option (Z * list Z * CScript) :=
  match pc with
  | [] => None
  | opcode :: pc =>
      if opcode <=? OP_PUSHDATA4
      then '(nSize, pc) ←
             (if opcode <? OP_PUSHDATA1 then Some (opcode, pc)
              else if opcode =? OP_PUSHDATA1 then (if (length pc <? 1)%nat then None else Some (pc.[0], drop 1 pc))
              else if opcode =? OP_PUSHDATA2 then (if (length pc <? 2)%nat then None else Some (ReadLE16 pc, drop 2 pc))
              else if (length pc <? 4)%nat then None else Some (ReadLE32 pc, drop 4 pc));
           if u32 (Z.of_nat (length pc)) <? nSize then None
           else Some (opcode, take (Z.to_nat nSize) pc, drop (Z.to_nat nSize) pc)
      else Some (opcode, [], pc)
  end.

(** The loop of [GetSigOpCount(bool)]. *)
Fixpoint sigop_loop (fuel : nat) (fAccurate : bool) (pc : CScript) (lastOpcode n : Z) : outcome Z :=
  match fuel with
  | O => match pc with [] => Ret n | _ => Abort end
  | S fuel' =>
      match GetOp2 pc with
      | None => Ret n
      | Some (opcode, _, pc) =>
          n ← (if (opcode =? OP_CHECKSIG) || (opcode =? OP_CHECKSIGVERIFY) then Ret (u32 (n + 1))
               else if (opcode =? OP_CHECKMULTISIG) || (opcode =? OP_CHECKMULTISIGVERIFY)
               then (if fAccurate && (OP_1 <=? lastOpcode) && (lastOpcode <=? OP_16)
                     then (k ← DecodeOP_N lastOpcode; Ret (u32 (n + k)))
                     else Ret (u32 (n + MAX_PUBKEYS_PER_MULTISIG)))
               else Ret n);
          sigop_loop fuel' fAccurate pc opcode n
      end
  end.
Definition GetSigOpCount (fAccurate : bool) (s : CScript) : outcome Z :=
  sigop_loop (length s) fAccurate s OP_INVALIDOPCODE 0.

Definition size_is (n : nat) (s : list Z) : bool := (length s =? n)%nat.

Definition IsPayToScriptHash (s : CScript) : bool :=
  size_is 23 s && (s.[0] =? OP_HASH160) && (s.[1] =? 20) && (s.[22] =? OP_EQUAL).
Definition IsPayToWitnessScriptHash (s : CScript) : bool :=
  size_is 34 s && (s.[0] =? OP_0) && (s.[1] =? 32).

Definition IsWitnessProgram (s : CScript) : outcome (option (Z * list Z)) :=
  if (length s <? 4)%nat || (42 <? length s)%nat then Ret None
  else if negb (s.[0] =? OP_0) && ((s.[0] <? OP_1) || (OP_16 <? s.[0])) then Ret None
  else if s.[1] + 2 =? Z.of_nat (length s)
  then (version ← DecodeOP_N (s.[0]); Ret (Some (version, drop 2 s)))
  else Ret None.

(** The data the last instruction pushes, as the loops of
    [GetSigOpCount(scriptSig)] compute it; [None] where they return early. *)
Fixpoint last_push (fuel : nat) (pc : CScript) (data : list Z) : outcome (option (list Z)) :=
  match pc, fuel with
  | [], _ => Ret (Some data)
  | _, O => Abort
  | _, S fuel' =>
      match GetOp2 pc with
      | None => Ret None
      | Some (opcode, data, pc) => if OP_16 <? opcode then Ret None else last_push fuel' pc data
      end
  end.

Definition GetSigOpCount_P2SH (scriptSig s : CScript) : outcome Z :=
  if negb (IsPayToScriptHash s) then GetSigOpCount true s
  else data ← last_push (length scriptSig) scriptSig [];
       match data with None => Ret 0 | Some subscript => GetSigOpCount true subscript end.

Fixpoint push_only_loop (fuel : nat) (pc : CScript) : outcome bool :=
  match pc, fuel with
  | [], _ => Ret true
  | _, O => Abort
  | _, S fuel' =>
      match GetOp2 pc with
      | None => Ret false
      | Some (opcode, _, pc) => if OP_16 <? opcode then Ret false else push_only_loop fuel' pc
      end
  end.
Definition IsPushOnly (s : CScript) : outcome bool := push_only_loop (length s) s.

(** [Find]. *)
Fixpoint find_loop (fuel : nat) (op : Z) (pc : CScript) (nFound : Z) : outcome Z :=
  match pc, fuel with
  | [], _ => Ret nFound
  | _, O => Abort
  | _, S fuel' =>
      match GetOp2 pc with
      | None => Ret nFound
      | Some (opcode, _, pc) => find_loop fuel' op pc (if opcode =? op then nFound + 1 else nFound)
      end
  end.
Definition Find (op : Z) (s : CScript) : outcome Z := find_loop (length s) op s 0.

(** ** Lemmas on script numbers *)

(** The number a vector denotes: its bytes, least significant first, with the
    highest bit as the sign. *)
Definition num_value (vch : list Z) : Z :=
  let n := Z.of_nat (length vch) - 1 in
  if 128 <=? back vch then - (le_bytes vch - 128 * 256 ^ n) else le_bytes vch.

(** No shorter vector denotes the same number. *)
Definition minimal (vch : list Z) : Prop :=
  vch = [] \/ back vch mod 128 <> 0 \/ ((2 <= length vch)%nat /\ 128 <= vch.[length vch - 2]).

Lemma back_snoc l t : back (l ++ [t]) = t.
Proof. unfold back. by rewrite last_snoc. Qed.

Lemma le_bytes_app a b : le_bytes (a ++ b) = le_bytes a + 256 ^ Z.of_nat (length a) * le_bytes b.
Proof.
  induction a as [|x a IH]; [cbn [length app le_bytes]; change (256 ^ Z.of_nat 0) with 1; lia|].
  cbn [app le_bytes length]. rewrite IH, Nat2Z.inj_succ, Z.pow_succ_r by lia. change (2 ^ 8) with 256. lia.
Qed.

Lemma le_bytes_bound l : is_bytes l -> 0 <= le_bytes l < 256 ^ Z.of_nat (length l).
Proof.
  induction 1 as [|x l Hx Hl IH]; [by cbn|]. cbn [le_bytes length]. rewrite Nat2Z.inj_succ, Z.pow_succ_r by lia.
  unfold inU in Hx. change (2 ^ 8) with 256 in *. lia.
Qed.

Lemma byte_sign t : inU 8 t -> (Z.land t 128 =? 0) = (t <? 128) /\ Z.land t 127 = t mod 128.
Proof.
  intros Ht. split; [|apply (land_ones_mod t 7); lia]. unfold inU in Ht. change (2 ^ 8) with 256 in Ht.
  apply eqb_prop. refine (check_below 256 (fun t => Bool.eqb (Z.land t 128 =? 0) (t <? 128)) t _ Ht). reflexivity.
Qed.

Lemma magnitude_le L fuel : is_bytes L -> back L <> 0 -> (length L <= fuel)%nat -> magnitude fuel (le_bytes L) = L.
Proof.
  intros HL. revert fuel. induction HL as [|x L Hx HL IH]; intros fuel Hb Hf; [done|].
  destruct fuel as [|fuel]; cbn [length] in Hf; [lia|]. cbn [magnitude le_bytes]. unfold inU in Hx. change (2 ^ 8) with 256 in *.
  pose proof (le_bytes_bound L HL). assert (x + 256 * le_bytes L <> 0 /\ (L <> [] -> back L <> 0)) as [Hne Hb'].
  { destruct L as [|y L]; [change (x <> 0) in Hb; cbn [le_bytes]; split; [lia|done]|]. change (back (y :: L) <> 0) in Hb. split; [|by intros _].
    specialize (IH (length (y :: L)) Hb (le_n _)). intros E. assert (le_bytes (y :: L) = 0) as E0 by lia. by rewrite E0 in IH. }
  rewrite (proj2 (Z.eqb_neq _ _) Hne). f_equal.
  - change 255 with (2 ^ 8 - 1). rewrite land_ones_mod by lia. change (2 ^ 8) with 256. divlia.
  - rewrite Z.shiftr_div_pow2 by lia. change (2 ^ 8) with 256. replace ((x + 256 * le_bytes L) / 256) with (le_bytes L) by divlia.
    destruct L as [|y L]; [by destruct fuel|]. apply IH; [by apply Hb'|lia].
Qed.

(** Every positive number below [2^64] is the value of bytes that end in one
    that is not zero. *)
Lemma le_bytes_exists k a : 0 < a < 256 ^ Z.of_nat k -> exists l t, is_bytes l /\ 0 < t < 256 /\
  a = le_bytes (l ++ [t]) /\ (length l < k)%nat.
Proof.
  revert a. induction k as [|k IH]; intros a Ha; [cbn in Ha; lia|]. rewrite Nat2Z.inj_succ, Z.pow_succ_r in Ha by lia.
  destruct (Z.eq_dec (a / 256) 0) as [E|E].
  - exists [], a. cbn. split; [constructor|]. divlia.
  - destruct (IH (a / 256)) as (l & t & Hl & Ht & Ea & Hk); [divlia|]. exists (a mod 256 :: l), t.
    split; [constructor; [unfold inU; divlia|done]|]. split; [done|]. cbn [app le_bytes length]. rewrite <- Ea. change (2 ^ 8) with 256. split; [divlia|lia].
Qed.

Lemma num_value_snoc l t : inU 8 t -> num_value (l ++ [t]) =
  if 128 <=? t then - (le_bytes l + (t - 128) * 256 ^ Z.of_nat (length l)) else le_bytes l + t * 256 ^ Z.of_nat (length l).
Proof.
  intros Ht. unfold num_value. rewrite back_snoc, length_app, le_bytes_app. cbn [length le_bytes].
  replace (Z.of_nat (length l + 1) - 1) with (Z.of_nat (length l)) by lia. destruct (128 <=? t); lia.
Qed.

Lemma pow256_8 n : (n <= 7)%nat -> 128 * 256 ^ Z.of_nat n <= 2 ^ 63.
Proof. intros Hn. do 8 (destruct n as [|n]; [vm_compute; discriminate|]). lia. Qed.

(** The magnitude of a minimal vector, and how [serialize] stores it. *)
Lemma minimal_cases l t : is_bytes l -> inU 8 t -> minimal (l ++ [t]) -> (length l <= 7)%nat ->
  let a := le_bytes l + (t mod 128) * 256 ^ Z.of_nat (length l) in
  0 < a < 2 ^ 63 /\
  (t mod 128 <> 0 /\ magnitude 8 a = l ++ [t mod 128] \/
   t mod 128 = 0 /\ magnitude 8 a = l /\ 128 <= back l < 256).
Proof.
  intros Hl Ht Hm Hn a. pose proof (le_bytes_bound l Hl) as Hb. pose proof (pow256_8 _ Hn) as Hp.
  unfold inU in Ht. change (2 ^ 8) with 256 in *. pose proof (Z.mod_pos_bound t 128 ltac:(lia)) as Hmod.
  assert (a < 2 ^ 63) as Ha by (subst a; nia).
  destruct (Z.eq_dec (t mod 128) 0) as [E|E].
  - destruct Hm as [Hm|[Hm|[Hlen Hs]]]; [by destruct l|by rewrite back_snoc in Hm|].
    rewrite length_app in Hlen, Hs. cbn [length] in Hlen, Hs.
    destruct (@List.exists_last Z l) as (l' & s & ->); [by destruct l; cbn in Hlen; [lia|]|].
    apply Forall_app in Hl as [Hl' [Hs8 _]%Forall_cons]. rewrite length_app in Hs, Hn. cbn [length] in Hs, Hn.
    replace (length l' + 1 + 1 - 2)%nat with (length l') in Hs by lia. unfold get in Hs.
    rewrite <- app_assoc in Hs. cbn [app] in Hs. rewrite list_lookup_middle in Hs by done. change (128 <= s) in Hs. unfold inU in Hs8. change (2 ^ 8) with 256 in Hs8.
    assert (a = le_bytes (l' ++ [s])) as Ea by (subst a; rewrite E; lia). pose proof (le_bytes_bound l' Hl').
    assert (0 < le_bytes (l' ++ [s])) as Hpos.
    { rewrite le_bytes_app. cbn [le_bytes]. assert (0 < 256 ^ Z.of_nat (length l')) by (apply Z.pow_pos_nonneg; lia). nia. }
    split; [lia|]. right. split; [done|]. rewrite back_snoc. split; [|lia]. rewrite Ea. apply magnitude_le.
    + apply Forall_app. split; [done|]. apply Forall_singleton. unfold inU. lia.
    + rewrite back_snoc. lia.
    + rewrite length_app. cbn. lia.
  - assert (a = le_bytes (l ++ [t mod 128])) as Ea by (subst a; rewrite le_bytes_app; cbn [le_bytes]; lia).
    assert (0 < 256 ^ Z.of_nat (length l)) by (apply Z.pow_pos_nonneg; lia). split; [subst a; nia|]. left. split; [done|].
    rewrite Ea. apply magnitude_le; [|by rewrite back_snoc|rewrite length_app; cbn; lia].
    apply Forall_app. split; [done|]. apply Forall_singleton. unfold inU. change (2 ^ 8) with 256. lia.
Qed.

Lemma num_value_sign l t : inU 8 t -> num_value (l ++ [t]) =
  let a := le_bytes l + (t mod 128) * 256 ^ Z.of_nat (length l) in if 128 <=? t then - a else a.
Proof.
  intros Ht. rewrite num_value_snoc by done. unfold inU in Ht. change (2 ^ 8) with 256 in Ht. cbv zeta.
  destruct (Z.leb_spec 128 t); [do 3 f_equal|do 2 f_equal]; divlia.
Qed.

Lemma serialize_minimal vch : is_bytes vch -> minimal vch -> (length vch <= 8)%nat -> serialize (num_value vch) = vch.
Proof.
  intros Hb Hm Hn. destruct vch as [|t l _] using rev_ind; [done|].
  apply Forall_app in Hb as [Hl [Ht _]%Forall_cons]. rewrite length_app in Hn. cbn [length] in Hn.
  destruct (minimal_cases l t Hl Ht Hm ltac:(lia)) as [Ha Hc]. rewrite num_value_sign by done. cbv zeta in *.
  set (a := le_bytes l + _) in *. clearbody a. unfold serialize.
  set (v := if 128 <=? t then - a else a).
  assert (v <> 0 /\ (v <? 0) = (128 <=? t)) as [Hv Hs] 
    by (subst v; destruct (128 <=? t); (split; [lia|]); [apply Z.ltb_lt|apply Z.ltb_ge]; lia).
  rewrite (proj2 (Z.eqb_neq _ _) Hv), Hs.
  replace (u64 (if 128 <=? t then i64 (- v) else v)) with a.
  2:{ subst v. destruct (128 <=? t); rewrite ?Z.opp_involutive, ?(wrapS_small 64), (wrapU_small 64) by (unfold inS, inU; lia); done. }
  assert (Hlor : forall x, 0 <= x < 128 -> Z.lor x 128 = x + 128)
    by (intros x Hx; exact (lor_disjoint_add x 1 7 ltac:(lia) Hx)).
  unfold inU in Ht. change (2 ^ 8) with 256 in Ht. destruct Hc as [[Ht0 ->]|(Ht0 & -> & Hbk)].
  - rewrite back_snoc. destruct (byte_sign (t mod 128)) as [-> _]; [unfold inU; divlia|].
    rewrite (proj2 (Z.ltb_lt _ _)) by divlia. cbn [negb]. rewrite removelast_last, Hlor by divlia.
    destruct (Z.leb_spec 128 t); do 2 f_equal; divlia.
  - destruct (byte_sign (back l)) as [-> _]; [unfold inU; lia|]. rewrite (proj2 (Z.ltb_ge _ _)) by lia. cbn [negb].
    destruct (Z.leb_spec 128 t); do 2 f_equal; divlia.
Qed.

Lemma minimal_exists v : - 2 ^ 63 < v < 2 ^ 63 ->
  exists vch, is_bytes vch /\ minimal vch /\ (length vch <= 8)%nat /\ num_value vch = v.
Proof.
  intros Hv. destruct (Z.eq_dec v 0) as [->|Hne]; [exists []; split_and!; [constructor|by left|cbn; lia|done]|].
  destruct (le_bytes_exists 8 (Z.abs v)) as (l & t & Hl & Ht & Ea & Hk); [change (256 ^ Z.of_nat 8) with (2 ^ 64); lia|].
  rewrite le_bytes_app in Ea. cbn [le_bytes] in Ea. pose proof (le_bytes_bound l Hl) as Hb.
  set (sgn := if v <? 0 then 128 else 0). assert (v = if v <? 0 then - Z.abs v else Z.abs v) as Ev by (destruct (Z.ltb_spec v 0); lia).
  destruct (Z.ltb_spec t 128).
  - exists (l ++ [t + sgn]). assert (inU 8 (t + sgn)) as Hi by (subst sgn; unfold inU; destruct (v <? 0); change (2 ^ 8) with 256; lia).
    split_and!; [by apply Forall_app; split; [|apply Forall_singleton]| |rewrite length_app; cbn; lia|].
    + right. left. rewrite back_snoc. subst sgn. destruct (v <? 0); divlia.
    + rewrite num_value_snoc, Ev by done. subst sgn. destruct (v <? 0).
      * rewrite (proj2 (Z.leb_le _ _)) by lia. lia.
      * rewrite (proj2 (Z.leb_gt _ _)) by lia. lia.
  - exists ((l ++ [t]) ++ [sgn]). assert (inU 8 sgn) as Hi by (subst sgn; unfold inU; destruct (v <? 0); change (2 ^ 8) with 256; lia).
    assert (length l <= 6)%nat.
    { destruct (decide (length l = 7%nat)) as [E|]; [|lia]. rewrite E in Ea. change (256 ^ Z.of_nat 7) with (2 ^ 56) in Ea. lia. }
    split_and!.
    + apply Forall_app; split; [apply Forall_app; split; [done|]|]; apply Forall_singleton; [unfold inU; lia|done].
    + right. right. rewrite !length_app. cbn [length]. split; [lia|]. replace (length l + 1 + 1 - 2)%nat with (length l) by lia.
      unfold get. rewrite <- app_assoc. cbn [app]. rewrite list_lookup_middle by done. done.
    + rewrite !length_app. cbn. lia.
    + rewrite num_value_snoc, Ev, le_bytes_app by done. cbn [le_bytes]. subst sgn. destruct (v <? 0); [change (128 <=? 128) with true|change (128 <=? 0) with false]; cbn iota; lia.
Qed.

Lemma u64_lor a b : u64 (Z.lor a b) = Z.lor (u64 a) (u64 b).
Proof. unfold wrapU. rewrite <- !Z.land_ones by lia. apply Z.land_lor_distr_l. Qed.

Lemma u64_i64 z : u64 (i64 z) = u64 z.
Proof.
  unfold wrapS, wrapU. change (64 - 1) with 63. rewrite Zminus_mod_idemp_l. f_equal. lia.
Qed.

Lemma set_vch_loop_spec vch (i : nat) r : is_bytes vch -> (i + length vch <= 8)%nat -> inS 64 r -> 0 <= u64 r < 256 ^ Z.of_nat i ->
  u64 (set_vch_loop (Z.of_nat i) vch r) = u64 r + 256 ^ Z.of_nat i * le_bytes vch /\ inS 64 (set_vch_loop (Z.of_nat i) vch r).
Proof.
  intros Hb. revert i r. induction Hb as [|b vch Hb Hv IH]; intros i r Hi Hr Hu; cbn [set_vch_loop le_bytes length] in *; [split; [lia|done]|].
  unfold inU in Hb. change (2 ^ 8) with 256 in *. replace (Z.of_nat i + 1) with (Z.of_nat (S i)) by lia.
  assert (256 ^ Z.of_nat i = 2 ^ (8 * Z.of_nat i)) as Ep by (rewrite Z.pow_mul_r by lia; done).
  assert (256 * 256 ^ Z.of_nat i <= 2 ^ 64) as Hp.
  { rewrite <- Z.pow_succ_r by lia. change (2 ^ 64) with (256 ^ 8). apply Z.pow_le_mono_r; lia. }
  assert (u64 (i64 (Z.lor r (i64 (Z.shiftl b (8 * Z.of_nat i))))) = u64 r + b * 256 ^ Z.of_nat i) as E.
  { rewrite u64_i64, u64_lor, u64_i64, (wrapU_small 64 (Z.shiftl _ _)).
    - rewrite lor_disjoint_add by (rewrite <- ?Ep; lia). by rewrite Ep.
    - unfold inU. rewrite Z.shiftl_mul_pow2, <- Ep by lia. nia. }
  destruct (IH (S i) (i64 (Z.lor r (i64 (Z.shiftl b (8 * Z.of_nat i)))))) as [E1 Hs]; [lia|by apply wrapS_range| |].
  - rewrite E, Nat2Z.inj_succ, Z.pow_succ_r by lia. nia.
  - split; [|done]. rewrite E1, E, Nat2Z.inj_succ, Z.pow_succ_r by lia. lia.
Qed.

(** Clearing a bit that is set. *)
Lemma clear_bit m k : 0 <= k -> 2 ^ k <= m < 2 ^ (k + 1) -> m < 2 ^ 64 ->
  Z.land m (u64 (Z.lnot (2 ^ k))) = m - 2 ^ k.
Proof.
  intros Hk Hm H64. unfold wrapU. rewrite <- Z.land_ones, (Z.land_comm (Z.lnot _)), Z.land_assoc by lia.
  rewrite Z.land_ones, Z.mod_small by lia. rewrite <- Z.ldiff_land. rewrite Z.add_1_r, Z.pow_succ_r in Hm by lia.
  assert (m = Z.lor (m - 2 ^ k) (Z.shiftl 1 k)) as E.
  { rewrite lor_disjoint_add by lia. lia. }
  rewrite E at 1. rewrite Z.shiftl_1_l. apply Z.bits_inj'. intros n Hn. rewrite Z.ldiff_spec, Z.lor_spec.
  destruct (decide (n = k)) as [->|Hne].
  - rewrite Z.pow2_bits_true, andb_false_r by lia. symmetry.
    destruct (Z.eq_dec (m - 2 ^ k) 0) as [->|]; [apply Z.bits_0|]. apply Z.bits_above_log2; [lia|]. apply Z.log2_lt_pow2; lia.
  - rewrite Z.pow2_bits_false by lia. cbn [negb]. by rewrite orb_false_r, andb_true_r.
Qed.

Lemma set_vch_spec vch : is_bytes vch -> (length vch <= 8)%nat -> set_vch vch = num_value vch.
Proof.
  intros Hb Hn. destruct vch as [|t l _] using rev_ind; [done|]. pose proof (le_bytes_bound _ Hb) as Hbd.
  destruct (set_vch_loop_spec (l ++ [t]) 0 0 Hb ltac:(lia)) as [E Hs]; [unfold inS; lia|by vm_compute|].
  change (Z.of_nat 0) with 0 in *. change (u64 0) with 0 in E. change (256 ^ 0) with 1 in E. rewrite Z.add_0_l, Z.mul_1_l in E.
  apply Forall_app in Hb as [Hl [Ht _]%Forall_cons]. unfold set_vch. replace (match l ++ [t] with [] => _ | _ => _ end)
    with (let result := set_vch_loop 0 (l ++ [t]) 0 in
      if negb (Z.land (back (l ++ [t])) 128 =? 0)
      then i64 (- i64 (Z.land (u64 result) (u64 (Z.lnot (Z.shiftl 128 (8 * (Z.of_nat (length (l ++ [t])) - 1)))))))
      else result) by (by destruct l). cbv zeta.
  rewrite length_app in *. cbn [length] in *. rewrite back_snoc. destruct (byte_sign t Ht) as [-> _].
  rewrite num_value_snoc by done. pose proof (le_bytes_bound l Hl) as Hbl. pose proof (pow256_8 (length l) ltac:(lia)) as Hp.
  rewrite le_bytes_app in E. cbn [le_bytes] in E. unfold inU in Ht. change (2 ^ 8) with 256 in *.
  replace (Z.of_nat (length l + 1) - 1) with (Z.of_nat (length l)) by lia. set (P := 256 ^ Z.of_nat (length l)) in *.
  assert (P = 2 ^ (8 * Z.of_nat (length l))) as EP by (subst P; rewrite Z.pow_mul_r by lia; done).
  destruct (Z.ltb_spec t 128); cbn [negb].
  - rewrite (proj2 (Z.leb_gt 128 t)) by lia. rewrite <- (wrapS_small 64 _ ltac:(lia) Hs), <- wrapS_wrapU, E.
    rewrite wrapS_small by (unfold inS; nia). lia.
  - rewrite (proj2 (Z.leb_le 128 t)) by lia. rewrite E.
    replace (Z.shiftl 128 (8 * Z.of_nat (length l))) with (2 ^ (8 * Z.of_nat (length l) + 7))
      by (rewrite Z.shiftl_mul_pow2, Z.pow_add_r by lia; lia).
    assert (2 ^ (8 * Z.of_nat (length l) + 7) = 128 * P) as E7 by (rewrite EP, Z.pow_add_r by lia; lia).
    assert (2 ^ (8 * Z.of_nat (length l) + 7 + 1) = 256 * P) as E8 by (rewrite EP, !Z.pow_add_r by lia; lia).
    rewrite clear_bit, E7 by (rewrite ?E7, ?E8; nia).
    rewrite (wrapS_small 64 (_ - _)), wrapS_small by (unfold inS; nia). lia.
Qed.

(** The test of the constructor. *)
Lemma CScriptNum_of_minimal vch n : is_bytes vch -> (length vch <= n)%nat ->
  CScriptNum_of vch true n = Ret (set_vch vch) /\ minimal vch \/ CScriptNum_of vch true n = Abort /\ ~ minimal vch.
Proof.
  intros Hb Hn. unfold CScriptNum_of. rewrite (proj2 (Nat.ltb_ge n (length vch))) by lia.
  destruct vch as [|t l _] using rev_ind; [left; split; [done|by left]|]. rewrite back_snoc.
  apply Forall_app in Hb as [Hl [Ht _]%Forall_cons]. destruct (byte_sign t Ht) as [_ ->].
  assert (length (l ++ [t]) <> 0)%nat as Hne by (rewrite length_app; cbn; lia).
  rewrite (proj2 (Nat.eqb_neq _ 0) Hne). cbn [andb negb]. unfold minimal. rewrite back_snoc.
  destruct (Z.eqb_spec (t mod 128) 0) as [E|E]; cbn [andb]; [|left; split; [done|by right; left]].
  destruct (Nat.leb_spec (length (l ++ [t])) 1) as [H1|H1]; cbn [orb].
  { right. split; [done|]. intros [H|[H|[H _]]]; [by destruct l|done|lia]. }
  set (s := (l ++ [t]).[length (l ++ [t]) - 2]). assert (inU 8 s) as Hs.
  { subst s. unfold get. destruct ((l ++ [t]) !! _) as [x|] eqn:Ex; [|by vm_compute]. cbn.
    apply (list_elem_of_lookup_2 _ _ _) in Ex. apply elem_of_app in Ex as [Ex|Ex%list_elem_of_singleton]; [|by subst].
    eapply Forall_forall in Hl; done. }
  destruct (byte_sign s Hs) as [-> _]. destruct (Z.ltb_spec s 128).
  - right. split; [done|]. intros [H'|[H'|[_ H']]]; [by destruct l|done|lia].
  - left. split; [done|]. right. right. split; [lia|done].
Qed.

(** ** Lemmas on instructions *)

Lemma u16_roundtrip x r : 0 <= x < 65536 -> ReadLE16 (WriteLE16 x ++ r) = x.
Proof.
  intros Hx. change (Z.lor (u8 x) (Z.shiftl (u8 (Z.shiftr x 8)) 8) = x).
  rewrite lor_disjoint_add by (try apply wrapU_range; lia). unfold wrapU. rewrite Z.shiftr_div_pow2 by lia.
  change (2 ^ 8) with 256. divlia.
Qed.

(** The end of [GetOp2], where the operand is followed by [rest]. *)
Lemma operand_here op (b rest : list Z) x : Z.of_nat (length b + length rest) < 2 ^ 32 -> x = Z.of_nat (length b) ->
  (if u32 (Z.of_nat (length (b ++ rest))) <? x then None
   else Some (op : Z, take (Z.to_nat x) (b ++ rest), drop (Z.to_nat x) (b ++ rest))) = Some (op, b, rest).
Proof.
  intros Hlen ->. rewrite (wrapU_small 32) by (unfold inU; rewrite length_app; lia). rewrite length_app.
  rewrite (proj2 (Z.ltb_ge _ _)) by lia. by rewrite Nat2Z.id, take_app_length, drop_app_length.
Qed.

Lemma GetOp2_push (b rest : list Z) : Z.of_nat (length b + length rest) < 2 ^ 32 ->
  exists op, op <= OP_PUSHDATA4 /\ GetOp2 (push_vch b ++ rest) = Some (op, b, rest).
Proof.
  intros Hlen. unfold push_vch. set (n := Z.of_nat (length b)). rewrite <- app_assoc.
  destruct (Z.ltb_spec n OP_PUSHDATA1); [|destruct (Z.leb_spec n 255); [|destruct (Z.leb_spec n 65535)]].
  - unfold OP_PUSHDATA1 in *. rewrite (wrapU_small 8) by (unfold inU; lia). exists n. split; [unfold OP_PUSHDATA4; lia|].
    cbn [app GetOp2]. unfold OP_PUSHDATA1, OP_PUSHDATA4. rewrite (proj2 (Z.leb_le n 78)), (proj2 (Z.ltb_lt n 76)) by lia. by apply operand_here.
  - rewrite (wrapU_small 8) by (unfold inU; lia). exists OP_PUSHDATA1. split; [by vm_compute|]. by apply (operand_here OP_PUSHDATA1 b rest n).
  - exists OP_PUSHDATA2. split; [by vm_compute|].
    apply (operand_here OP_PUSHDATA2 b rest (ReadLE16 (WriteLE16 n ++ b ++ rest))); [done|]. apply u16_roundtrip. lia.
  - exists OP_PUSHDATA4. split; [by vm_compute|].
    apply (operand_here OP_PUSHDATA4 b rest (ReadLE32 (WriteLE32 n ++ b ++ rest))); [done|]. apply LE32_roundtrip. unfold inU. lia.
Qed.

(** An instruction takes at least one byte. *)
Lemma GetOp2_shorter pc op d pc' : GetOp2 pc = Some (op, d, pc') -> (length pc' < length pc)%nat.
Proof.
  destruct pc as [|o pc]; [done|]. cbn [GetOp2 length]. destruct (o <=? OP_PUSHDATA4); [|intros [= <- <- <-]; lia].
  assert (forall (r : option (Z * CScript)), (forall n q, r = Some (n, q) -> (length q <= length pc)%nat) ->
    ('(nSize, pc) ← r; if u32 (Z.of_nat (length pc)) <? nSize then None
      else Some (o, take (Z.to_nat nSize) pc, drop (Z.to_nat nSize) pc)) = Some (op, d, pc') -> (length pc' < S (length pc))%nat) as Hr.
  { intros [[n q]|] Hq; [|done]. cbn [mbind option_bind]. specialize (Hq _ _ eq_refl). destruct (_ <? n); [done|].
    intros [= _ _ <-]. rewrite length_drop. lia. }
  apply Hr. intros n q. repeat case_match; intros; simplify_eq; rewrite ?length_drop; lia.
Qed.

(** ** Counting signature operations *)

(** What one instruction adds to the count. *)
Definition sigop_weight (fAccurate : bool) (lastOpcode opcode : Z) : Z :=
  if (opcode =? OP_CHECKSIG) || (opcode =? OP_CHECKSIGVERIFY) then 1
  else if (opcode =? OP_CHECKMULTISIG) || (opcode =? OP_CHECKMULTISIGVERIFY)
  then (if fAccurate && (OP_1 <=? lastOpcode) && (lastOpcode <=? OP_16) then lastOpcode - (OP_1 - 1) else 20)
  else 0.

Lemma sigop_weight_bound acc last op : 0 <= sigop_weight acc last op <= sigop_weight false last op /\ sigop_weight acc last op <= 20.
Proof.
  unfold sigop_weight. destruct (_ || _); [lia|]. destruct (_ || _); [|lia]. cbn [andb].
  destruct acc; cbn [andb]; [|lia]. unfold OP_1, OP_16. destruct (Z.leb_spec 81 last), (Z.leb_spec last 96); cbn [andb]; lia.
Qed.

(** The instructions of a script, up to the first that cannot be read. *)
Fixpoint instructions (fuel : nat) (pc : CScript) : list Z :=
  match fuel with
  | O => []
  | S fuel' => match GetOp2 pc with None => [] | Some (op, _, pc) => op :: instructions fuel' pc end
  end.

Fixpoint total_weight (acc : bool) (last : Z) (ops : list Z) : Z :=
  match ops with [] => 0 | op :: ops' => sigop_weight acc last op + total_weight acc op ops' end.

Lemma instructions_length fuel pc : (length pc <= fuel)%nat -> (length (instructions fuel pc) <= length pc)%nat.
Proof.
  revert pc. induction fuel as [|fuel IH]; intros pc Hf; cbn [instructions length]; [lia|].
  destruct (GetOp2 pc) as [[[op d] pc']|] eqn:E; cbn [length]; [|lia]. apply GetOp2_shorter in E. specialize (IH pc' ltac:(lia)). lia.
Qed.

Lemma total_weight_bound acc last ops : 0 <= total_weight acc last ops <= total_weight false last ops /\
  total_weight acc last ops <= 20 * Z.of_nat (length ops).
Proof.
  revert last. induction ops as [|op ops IH]; intros last; cbn [total_weight length]; [lia|].
  specialize (IH op). pose proof (sigop_weight_bound acc last op). lia.
Qed.

Lemma sigop_loop_spec fuel acc pc last n : (length pc <= fuel)%nat -> 0 <= n ->
  n + total_weight acc last (instructions fuel pc) < 2 ^ 32 ->
  sigop_loop fuel acc pc last n = Ret (n + total_weight acc last (instructions fuel pc)).
Proof.
  revert pc last n. induction fuel as [|fuel IH]; intros pc last n Hf Hn Hb.
  { destruct pc; cbn in Hf; [|lia]. cbn. f_equal. lia. }
  cbn [sigop_loop instructions] in *. destruct (GetOp2 pc) as [[[op d] pc']|] eqn:E; [|cbn; f_equal; lia].
  apply GetOp2_shorter in E. cbn [total_weight] in *. pose proof (sigop_weight_bound acc last op) as Hw.
  pose proof (total_weight_bound acc op (instructions fuel pc')) as Ht.
  match goal with |- mbind _ ?x = _ => assert (x = Ret (n + sigop_weight acc last op)) as -> end.
  { unfold sigop_weight in *. destruct ((op =? OP_CHECKSIG) || _); [by rewrite (wrapU_small 32) by (unfold inU; lia)|].
    destruct ((op =? OP_CHECKMULTISIG) || _); [|by rewrite Z.add_0_r].
    destruct (acc && (OP_1 <=? last) && (last <=? OP_16)) eqn:Ea.
    - unfold DecodeOP_N. rewrite <- andb_assoc in Ea. apply andb_true_iff in Ea as [_ Ea].
      rewrite (proj2 (Z.eqb_neq last OP_0)); [|apply andb_true_iff in Ea as [Ea%Z.leb_le _]; unfold OP_1, OP_0 in *; lia].
      rewrite Ea. cbn [assert_ mbind outcome_bind]. by rewrite (wrapU_small 32) by (unfold inU; lia).
    - unfold MAX_PUBKEYS_PER_MULTISIG. by rewrite (wrapU_small 32) by (unfold inU; lia). }
  cbn [mbind outcome_bind]. rewrite IH by lia. f_equal. lia.
Qed.

Lemma GetSigOpCount_spec acc s : Z.of_nat (length s) < 2 ^ 27 ->
  GetSigOpCount acc s = Ret (total_weight acc OP_INVALIDOPCODE (instructions (length s) s)) /\
  0 <= total_weight acc OP_INVALIDOPCODE (instructions (length s) s) <= 20 * Z.of_nat (length s).
Proof.
  intros Hs. pose proof (total_weight_bound acc OP_INVALIDOPCODE (instructions (length s) s)) as Hb.
  pose proof (instructions_length (length s) s (le_n _)). split; [|lia].
  unfold GetSigOpCount. rewrite sigop_loop_spec by lia. done.
Qed.

Lemma last_push_total fuel pc d : (length pc <= fuel)%nat -> exists r, last_push fuel pc d = Ret r.
Proof.
  revert pc d. induction fuel as [|fuel IH]; intros [|x pc] d Hf; cbn [length] in Hf; [by eexists|lia|by eexists|].
  cbn [last_push]. destruct (GetOp2 (x :: pc)) as [[[op d'] pc']|] eqn:E; [|by eexists].
  apply GetOp2_shorter in E. cbn [length] in E. destruct (OP_16 <? op); [by eexists|]. apply IH. lia.
Qed.

(** A script that pushes [ds] and then [d]: the last data is [d]. *)
Definition pushes (ds : list (list Z)) : CScript := concat (map push_vch ds).

Lemma push_vch_ne b : push_vch b <> [].
Proof. unfold push_vch, WriteLE16, WriteLE32. by repeat case_match. Qed.

Lemma last_push_pushes ds d0 fuel : (length (pushes ds) <= fuel)%nat -> Z.of_nat (length (pushes ds)) < 2 ^ 31 ->
  last_push fuel (pushes ds) d0 = Ret (Some (default d0 (last ds))).
Proof.
  revert d0 fuel. induction ds as [|d ds IH]; intros d0 fuel Hf Hl; [by destruct fuel|].
  change (pushes (d :: ds)) with (push_vch d ++ pushes ds) in *. rewrite length_app in Hf, Hl.
  assert (length d <= length (push_vch d))%nat by (unfold push_vch; rewrite length_app; lia).
  destruct (GetOp2_push d (pushes ds)) as (op & Hop & E); [lia|]. pose proof (push_vch_ne d) as Hne.
  destruct (push_vch d) as [|x p] eqn:Ep; [done|]. destruct fuel as [|fuel]; cbn [length] in Hf; [lia|].
  cbn [app last_push]. cbn [app] in E. rewrite E. unfold OP_PUSHDATA4, OP_16 in *. rewrite (proj2 (Z.ltb_ge 96 op)) by lia.
  rewrite IH by (cbn [length] in Hl; lia). do 2 f_equal. rewrite last_cons. by destruct (last ds).
Qed.

(** ** Properties *)

(** Script numbers have one minimal encoding.  Every 64-bit number but the
    least is encoded in at most eight bytes and read back; and with the minimal
    encoding required, a vector is accepted exactly when it is the encoding of
    the number it is read as, so that two different vectors never denote the
    same number. *)
Theorem script_num_canonical :
  (forall v, - 2 ^ 63 < v < 2 ^ 63 ->
     is_bytes (serialize v) /\ (length (serialize v) <= 8)%nat /\ CScriptNum_of (serialize v) true 8 = Ret v) /\
  (forall vch n v, is_bytes vch -> (n <= 8)%nat ->
     CScriptNum_of vch true n = Ret v <-> (length vch <= n)%nat /\ - 2 ^ 63 < v < 2 ^ 63 /\ vch = serialize v).
Proof.
  assert (forall v, - 2 ^ 63 < v < 2 ^ 63 -> exists vch, is_bytes vch /\ minimal vch /\ (length vch <= 8)%nat /\
    num_value vch = v /\ serialize v = vch) as Hex.
  { intros v Hv. destruct (minimal_exists v Hv) as (vch & Hb & Hm & Hl & E). exists vch. split_and!; try done.
    rewrite <- E. by apply serialize_minimal. }
  split.
  - intros v Hv. destruct (Hex v Hv) as (vch & Hb & Hm & Hl & E & ->). split_and!; [done|done|].
    destruct (CScriptNum_of_minimal vch 8 Hb Hl) as [[-> _]|[_ ?]]; [|done]. by rewrite set_vch_spec, E.
  - intros vch n v Hb Hn. split.
    + intros H. assert (length vch <= n)%nat as Hl.
      { unfold CScriptNum_of in H. destruct (Nat.ltb_spec n (length vch)); [done|lia]. }
      destruct (CScriptNum_of_minimal vch n Hb Hl) as [[E Hm]|[E _]]; rewrite E in H; [|done]. injection H as H.
      rewrite set_vch_spec in H by (done || lia). split; [done|]. split; [|by rewrite <- H, serialize_minimal by (done || lia)].
      destruct vch as [|t l _] using rev_ind; [cbn in H; lia|]. apply Forall_app in Hb as [Hlb [Ht _]%Forall_cons].
      rewrite length_app in Hl. cbn in Hl. destruct (minimal_cases l t Hlb Ht Hm ltac:(lia)) as [Ha _].
      rewrite num_value_sign in H by done. cbv zeta in H. destruct (128 <=? t); lia.
    + intros (Hl & Hv & ->). destruct (Hex v Hv) as (vch & Hb' & Hm & Hl' & E & Es). rewrite Es in *.
      destruct (CScriptNum_of_minimal vch n Hb' Hl) as [[-> _]|[_ ?]]; [|done]. by rewrite set_vch_spec, E.
Qed.

Lemma script_num_canonical_witness : CScriptNum_of [255; 0] true 4 = Ret 255 /\ [255; 0] = serialize 255 /\
  CScriptNum_of (serialize (-255)) true 8 = Ret (-255).
Proof.
  split; [|split; [reflexivity|]].
  - apply (proj2 script_num_canonical); [by repeat constructor|lia|]. cbn [length]. split; [lia|]. split; [lia|reflexivity].
  - apply (proj1 script_num_canonical). lia.
Defined.

(** What is pushed on a script is read back.  The data pushed by [<<] comes
    back as the operand of one push instruction, whatever its size and whatever
    follows; a number pushed by [<<] comes back as the opcode of the small
    integers or as data that denotes it. *)
Theorem script_push_roundtrip (rest : CScript) :
  (forall b, Z.of_nat (length b + length rest) < 2 ^ 32 ->
     exists op, op <= OP_PUSHDATA4 /\ GetOp2 (push_vch b ++ rest) = Some (op, b, rest)) /\
  (forall n, - 2 ^ 63 < n < 2 ^ 63 -> Z.of_nat (length rest) < 2 ^ 31 ->
     exists op d, GetOp2 (push_int64 n ++ rest) = Some (op, d, rest) /\
       (OP_PUSHDATA4 < op /\ d = [] /\ op = n + (OP_1 - 1) \/ op <= OP_PUSHDATA4 /\ CScriptNum_of d true 8 = Ret n)).
Proof.
  split; [intros b; apply GetOp2_push|]. intros n Hn Hr. unfold push_int64, OP_1.
  destruct ((n =? -1) || ((1 <=? n) && (n <=? 16))) eqn:E.
  - assert (n = -1 \/ 1 <= n <= 16) as Hs by lia. rewrite (wrapU_small 8) by (unfold inU; lia).
    exists (n + (81 - 1)), []. cbn [app GetOp2]. unfold OP_PUSHDATA4. rewrite (proj2 (Z.leb_gt _ _)) by lia. split; [done|]. left. split_and!; [lia|done|lia].
  - destruct (Z.eqb_spec n 0) as [->|Hne].
    + exists 0, []. split; [|by right; vm_compute]. change ((if u32 (Z.of_nat (length rest)) <? 0 then None else Some (0, take 0 rest, drop 0 rest)) = Some (0, [], rest)).
      rewrite (proj2 (Z.ltb_ge _ _)); [done|]. by apply wrapU_range.
    + destruct (minimal_exists n Hn) as (d & Hb & Hm & Hl & Hd). pose proof (serialize_minimal d Hb Hm Hl) as Es. rewrite Hd in Es.
      rewrite Es. destruct (GetOp2_push d rest) as (op & Hop & Hg); [lia|]. exists op, d. split; [done|]. right. split; [done|].
      destruct (CScriptNum_of_minimal d 8 Hb Hl) as [[-> _]|[_ ?]]; [|done]. by rewrite set_vch_spec, Hd.
Qed.

Lemma script_push_roundtrip_witness :
  (exists op, op <= OP_PUSHDATA4 /\ GetOp2 (push_vch (replicate 300 7) ++ [OP_CHECKSIG]) = Some (op, replicate 300 7, [OP_CHECKSIG])) /\
  exists op d, GetOp2 (push_int64 (-1000) ++ [OP_CHECKSIG]) = Some (op, d, [OP_CHECKSIG]).
Proof.
  split.
  - apply (proj1 (script_push_roundtrip [OP_CHECKSIG])). vm_compute. reflexivity.
  - destruct (proj2 (script_push_roundtrip [OP_CHECKSIG]) (-1000) ltac:(lia) ltac:(vm_compute; reflexivity)) as (op & d & E & _).
    by exists op, d.
Defined.

(** Counting signature operations ends with a count that cannot overflow.
    On every script shorter than [2^27] bytes, the count is at most twenty per
    byte, and counting accurately never gives more; and for a pay-to-script-hash
    output spent by a script that pushes data, the count is that of the script
    pushed last. *)
Theorem sigop_count_bounds (s : CScript) (Hs : Z.of_nat (length s) < 2 ^ 27) :
  (exists n m, GetSigOpCount false s = Ret n /\ GetSigOpCount true s = Ret m /\ 0 <= m <= n /\ n <= 20 * Z.of_nat (length s)) /\
  (forall ds redeem, IsPayToScriptHash s = true -> Z.of_nat (length (pushes (ds ++ [redeem]))) < 2 ^ 27 ->
     GetSigOpCount_P2SH (pushes (ds ++ [redeem])) s = GetSigOpCount true redeem).
Proof.
  split.
  - destruct (GetSigOpCount_spec false s Hs) as [-> Hf]. destruct (GetSigOpCount_spec true s Hs) as [-> Ht].
    eexists _, _. split_and!; try done; try lia. apply total_weight_bound.
  - intros ds redeem Hp Hl. unfold GetSigOpCount_P2SH. rewrite Hp. cbn [negb].
    rewrite last_push_pushes by lia. by rewrite last_snoc.
Qed.

Lemma sigop_count_bounds_witness : let s := OP_HASH160 :: 20 :: replicate 20 7 ++ [OP_EQUAL] in
  IsPayToScriptHash s = true /\
  GetSigOpCount_P2SH (pushes [[1]; [OP_1 + 1; OP_CHECKMULTISIG]]) s = GetSigOpCount true [OP_1 + 1; OP_CHECKMULTISIG].
Proof.
  intros s. split; [reflexivity|].
  apply (proj2 (sigop_count_bounds s ltac:(vm_compute; reflexivity)) [[1]]); vm_compute; reflexivity.
Defined.
