(* ===== verification/Hashes.v ===== *)
(** * Hash functions ([crypto/sha256.cpp], [crypto/sha1.cpp],
      [crypto/ripemd160.cpp], [hash.h])

    The classes [CSHA256], [CSHA1] and [CRIPEMD160]: the transformation of a
    64-byte chunk in its portable form, and the buffering of [Write] and
    [Finalize], which is the same code in the three of them and is written
    here once for any transformation.  The unrolled rounds of the source, in
    which the variables rotate from one call of [Round] to the next, are
    loops over the number of the round.

    [CSHA256] is shown to compute the hash of FIPS 180-4, whatever pieces the
    message is written in. *)

From S2P Require Import Prelude ArithUint256 StrEncodings Script.
From stdpp Require Import list.
#[local] Open Scope Z_scope.

(** ** Reading and writing integers *)

Definition ReadBE32 (ptr : list Z) : Z :=
  Z.lor (Z.shiftl (ptr.[0]) 24) (Z.lor (Z.shiftl (ptr.[1]) 16) (Z.lor (Z.shiftl (ptr.[2]) 8) (ptr.[3]))).
Definition WriteBE32 (x : Z) : list Z :=
  [u8 (Z.shiftr x 24); u8 (Z.shiftr x 16); u8 (Z.shiftr x 8); u8 x].
Definition WriteBE64 (x : Z) : list Z := WriteBE32 (Z.shiftr x 32) ++ WriteBE32 x.
Definition WriteLE64 (x : Z) : list Z := WriteLE32 x ++ WriteLE32 (Z.shiftr x 32).

(** [x << n] and [~x] on [uint32_t], and the rotations. *)
Definition shl32 (x n : Z) : Z := u32 (Z.shiftl x n).
Definition not32 (x : Z) : Z := u32 (Z.lnot x).
Definition rotr (n x : Z) : Z := Z.lor (Z.shiftr x n) (shl32 x (32 - n)).
Definition rotl (n x : Z) : Z := Z.lor (shl32 x n) (Z.shiftr x (32 - n)).

(** The sixteen words of a chunk. *)
Definition words (read : list Z -> Z) (chunk : list Z) : list Z := map (fun i => read (drop (4 * i) chunk)) (seq 0 16).

(** The element [j] of the variables as call number [i] of [Round] names
    them: each call shifts the names by one. *)
Definition rotated (n i j : nat) : nat := ((j + n * 80 - i) mod n)%nat.

(** ** SHA-256 *)

Definition sha256_K : list Z :=
  [0x428A2F98; 0x71374491; 0xB5C0FBCF; 0xE9B5DBA5; 0x3956C25B; 0x59F111F1; 0x923F82A4; 0xAB1C5ED5;
   0xD807AA98; 0x12835B01; 0x243185BE; 0x550C7DC3; 0x72BE5D74; 0x80DEB1FE; 0x9BDC06A7; 0xC19BF174;
   0xE49B69C1; 0xEFBE4786; 0x0FC19DC6; 0x240CA1CC; 0x2DE92C6F; 0x4A7484AA; 0x5CB0A9DC; 0x76F988DA;
   0x983E5152; 0xA831C66D; 0xB00327C8; 0xBF597FC7; 0xC6E00BF3; 0xD5A79147; 0x06CA6351; 0x14292967;
   0x27B70A85; 0x2E1B2138; 0x4D2C6DFC; 0x53380D13; 0x650A7354; 0x766A0ABB; 0x81C2C92E; 0x92722C85;
   0xA2BFE8A1; 0xA81A664B; 0xC24B8B70; 0xC76C51A3; 0xD192E819; 0xD6990624; 0xF40E3585; 0x106AA070;
   0x19A4C116; 0x1E376C08; 0x2748774C; 0x34B0BCB5; 0x391C0CB3; 0x4ED8AA4A; 0x5B9CCA4F; 0x682E6FF3;
   0x748F82EE; 0x78A5636F; 0x84C87814; 0x8CC70208; 0x90BEFFFA; 0xA4506CEB; 0xBEF9A3F7; 0xC67178F2].

Definition Ch (x y z : Z) : Z := Z.lxor z (Z.land x (Z.lxor y z)).
Definition Maj (x y z : Z) : Z := Z.lor (Z.land x y) (Z.land z (Z.lor x y)).
Definition Sigma0 (x : Z) : Z := Z.lxor (Z.lxor (rotr 2 x) (rotr 13 x)) (rotr 22 x).
Definition Sigma1 (x : Z) : Z := Z.lxor (Z.lxor (rotr 6 x) (rotr 11 x)) (rotr 25 x).
Definition sigma0 (x : Z) : Z := Z.lxor (Z.lxor (rotr 7 x) (rotr 18 x)) (Z.shiftr x 3).
Definition sigma1 (x : Z) : Z := Z.lxor (Z.lxor (rotr 17 x) (rotr 19 x)) (Z.shiftr x 10).

(** The new [d] and [h]. *)
Definition sha256_Round (a b c d e f g h k w : Z) : Z * Z :=
  let t1 := u32 (h + Sigma1 e + Ch e f g + k + w) in
  let t2 := u32 (Sigma0 a + Maj a b c) in
  (u32 (d + t1), u32 (t1 + t2)).

Definition sha256_Initialize : list Z :=
  [0x6a09e667; 0xbb67ae85; 0x3c6ef372; 0xa54ff53a; 0x510e527f; 0x9b05688c; 0x1f83d9ab; 0x5be0cd19].

(** Call number [i] of [Round]: [w], then the variables. *)
Definition sha256_expand (i : nat) (w : list Z) : list Z :=
  if (i <? 16)%nat then w
  else <[(i mod 16)%nat := u32 (w.[i mod 16] + (sigma1 (w.[(i + 14) mod 16]) + w.[(i + 9) mod 16] + sigma0 (w.[(i + 1) mod 16])))]> w.
Definition sha256_call (i : nat) (v w : list Z) : list Z :=
  let r j := v.[rotated 8 i j] in
  let '(d, h) := sha256_Round (r 0%nat) (r 1%nat) (r 2%nat) (r 3%nat) (r 4%nat) (r 5%nat) (r 6%nat) (r 7%nat) (sha256_K.[i]) (w.[i mod 16]) in
  <[rotated 8 i 3 := d]> (<[rotated 8 i 7 := h]> v).

Definition sha256_Transform (s chunk : list Z) : list Z :=
  let '(v, _) := for_range 0 64 (fun i '(v, w) => let w := sha256_expand i w in (sha256_call i v w, w)) (s, words ReadBE32 chunk) in
  zip_with (fun x y => u32 (x + y)) s v.

(** ** SHA-1 *)

Definition sha1_Initialize : list Z := [0x67452301; 0xEFCDAB89; 0x98BADCFE; 0x10325476; 0xC3D2E1F0].
Definition sha1_f1 (b c d : Z) : Z := Z.lxor d (Z.land b (Z.lxor c d)).
Definition sha1_f2 (b c d : Z) : Z := Z.lxor (Z.lxor b c) d.
Definition sha1_f3 (b c d : Z) : Z := Z.lor (Z.land b c) (Z.land d (Z.lor b c)).

(** The new [b] and [e]. *)
Definition sha1_Round (a b c d e f k w : Z) : Z * Z := (rotl 30 b, u32 (e + (rotl 5 a + f + k + w))).

Definition sha1_expand (i : nat) (w : list Z) : list Z :=
  if (i <? 16)%nat then w
  else <[(i mod 16)%nat := rotl 1 (Z.lxor (Z.lxor (Z.lxor (w.[i mod 16]) (w.[(i + 13) mod 16])) (w.[(i + 8) mod 16])) (w.[(i + 2) mod 16]))]> w.
Definition sha1_call (i : nat) (v w : list Z) : list Z :=
  let r j := v.[rotated 5 i j] in
  let '(f, k) := if (i <? 20)%nat then (sha1_f1, 0x5A827999) else if (i <? 40)%nat then (sha1_f2, 0x6ED9EBA1)
                 else if (i <? 60)%nat then (sha1_f3, 0x8F1BBCDC) else (sha1_f2, 0xCA62C1D6) in
  let '(b, e) := sha1_Round (r 0%nat) (r 1%nat) (r 2%nat) (r 3%nat) (r 4%nat) (f (r 1%nat) (r 2%nat) (r 3%nat)) k (w.[i mod 16]) in
  <[rotated 5 i 1 := b]> (<[rotated 5 i 4 := e]> v).

Definition sha1_Transform (s chunk : list Z) : list Z :=
  let '(v, _) := for_range 0 80 (fun i '(v, w) => let w := sha1_expand i w in (sha1_call i v w, w)) (s, words ReadBE32 chunk) in
  zip_with (fun x y => u32 (x + y)) s v.

(** ** RIPEMD-160 *)

Definition ripemd160_Initialize : list Z := [0x67452301; 0xEFCDAB89; 0x98BADCFE; 0x10325476; 0xC3D2E1F0].
Definition ripemd160_f1 (x y z : Z) : Z := Z.lxor (Z.lxor x y) z.
Definition ripemd160_f2 (x y z : Z) : Z := Z.lor (Z.land x y) (Z.land (not32 x) z).
Definition ripemd160_f3 (x y z : Z) : Z := Z.lxor (Z.lor x (not32 y)) z.
Definition ripemd160_f4 (x y z : Z) : Z := Z.lor (Z.land x z) (Z.land y (not32 z)).
Definition ripemd160_f5 (x y z : Z) : Z := Z.lxor x (Z.lor y (not32 z)).

(** The new [a] and [c]. *)
Definition ripemd160_Round (a c e f x k r : Z) : Z * Z := (u32 (rotl r (u32 (a + f + x + k)) + e), rotl 10 c).

(** The five kinds of calls on either line, with their constants, and the
    word and the rotation of each call. *)
Definition ripemd160_left : list ((Z -> Z -> Z -> Z) * Z) :=
  [(ripemd160_f1, 0); (ripemd160_f2, 0x5A827999); (ripemd160_f3, 0x6ED9EBA1); (ripemd160_f4, 0x8F1BBCDC); (ripemd160_f5, 0xA953FD4E)].
Definition ripemd160_right : list ((Z -> Z -> Z -> Z) * Z) :=
  [(ripemd160_f5, 0x50A28BE6); (ripemd160_f4, 0x5C4DD124); (ripemd160_f3, 0x6D703EF3); (ripemd160_f2, 0x7A6D76E9); (ripemd160_f1, 0)].
Definition ripemd160_left_words : list Z :=
  [0; 1; 2; 3; 4; 5; 6; 7; 8; 9; 10; 11; 12; 13; 14; 15; 7; 4; 13; 1; 10; 6; 15; 3; 12; 0; 9; 5; 2; 14; 11; 8; 3; 10; 14; 4; 9; 15; 8; 1;
   2; 7; 0; 6; 13; 11; 5; 12; 1; 9; 11; 10; 0; 8; 12; 4; 13; 3; 7; 15; 14; 5; 6; 2; 4; 0; 5; 9; 7; 12; 2; 10; 14; 1; 3; 8; 11; 6; 15; 13].
Definition ripemd160_left_rolls : list Z :=
  [11; 14; 15; 12; 5; 8; 7; 9; 11; 13; 14; 15; 6; 7; 9; 8; 7; 6; 8; 13; 11; 9; 7; 15; 7; 12; 15; 9; 11; 7; 13; 12; 11; 13; 6; 7; 14; 9; 13;
   15; 14; 8; 13; 6; 5; 12; 7; 5; 11; 12; 14; 15; 14; 15; 9; 8; 9; 14; 5; 6; 8; 6; 5; 12; 9; 15; 5; 11; 6; 8; 13; 12; 5; 12; 13; 14; 11; 8; 5; 6].
Definition ripemd160_right_words : list Z :=
  [5; 14; 7; 0; 9; 2; 11; 4; 13; 6; 15; 8; 1; 10; 3; 12; 6; 11; 3; 7; 0; 13; 5; 10; 14; 15; 8; 12; 4; 9; 1; 2; 15; 5; 1; 3; 7; 14; 6; 9;
   11; 8; 12; 2; 10; 0; 4; 13; 8; 6; 4; 1; 3; 11; 15; 0; 5; 12; 2; 13; 9; 7; 10; 14; 12; 15; 10; 4; 1; 5; 8; 7; 6; 2; 13; 14; 0; 3; 9; 11].
Definition ripemd160_right_rolls : list Z :=
  [8; 9; 9; 11; 13; 15; 15; 5; 7; 7; 8; 11; 14; 14; 12; 6; 9; 13; 15; 7; 12; 8; 9; 11; 7; 7; 12; 7; 6; 15; 13; 11; 9; 7; 15; 11; 8; 6; 6;
   14; 12; 13; 5; 14; 13; 13; 7; 5; 15; 5; 8; 11; 14; 14; 6; 14; 6; 9; 12; 9; 12; 5; 15; 8; 8; 5; 12; 9; 12; 5; 14; 6; 8; 13; 6; 5; 15; 13; 11; 11].

Definition ripemd160_call (kinds : list ((Z -> Z -> Z -> Z) * Z)) (idx rolls w : list Z) (i : nat) (v : list Z) : list Z :=
  let r j := v.[rotated 5 i j] in
  let '(f, k) := default (ripemd160_f1, 0) (kinds !! (i / 16)%nat) in
  let '(a, c) := ripemd160_Round (r 0%nat) (r 2%nat) (r 4%nat) (f (r 1%nat) (r 2%nat) (r 3%nat)) (w.[Z.to_nat (idx.[i])]) k (rolls.[i]) in
  <[rotated 5 i 0 := a]> (<[rotated 5 i 2 := c]> v).

Definition ripemd160_Transform (s chunk : list Z) : list Z :=
  let w := words ReadLE32 chunk in
  let v1 := for_range 0 80 (ripemd160_call ripemd160_left ripemd160_left_words ripemd160_left_rolls w) s in
  let v2 := for_range 0 80 (ripemd160_call ripemd160_right ripemd160_right_words ripemd160_right_rolls w) s in
  [u32 (s.[1] + v1.[2] + v2.[3]); u32 (s.[2] + v1.[3] + v2.[4]); u32 (s.[3] + v1.[4] + v2.[0]);
   u32 (s.[4] + v1.[0] + v2.[1]); u32 (s.[0] + v1.[1] + v2.[2])].

(** ** The hashers

    What the three classes differ in. *)

Record algorithm := mkAlgorithm {
  Initialize : list Z;
  Transform : list Z -> list Z -> list Z;
  write_size : Z -> list Z;         (* the writer of [sizedesc] *)
  write_word : Z -> list Z          (* and of the words of the digest *)
}.
Definition sha256_algorithm : algorithm := mkAlgorithm sha256_Initialize sha256_Transform WriteBE64 WriteBE32.
Definition sha1_algorithm : algorithm := mkAlgorithm sha1_Initialize sha1_Transform WriteBE64 WriteBE32.
Definition ripemd160_algorithm : algorithm := mkAlgorithm ripemd160_Initialize ripemd160_Transform WriteLE64 WriteLE32.

(** [s], [buf] and [bytes] of an object. *)
Record hasher := mkHasher { h_s : list Z; h_buf : list Z; h_bytes : Z }.

(** [memcpy(buf + bufsize, data, len(data))]. *)
Definition copy_to (buf : list Z) (bufsize : nat) (data : list Z) : list Z :=
  take bufsize buf ++ data ++ drop (bufsize + length data) buf.

Section Hasher.
Variable alg : algorithm.

(** The constructor; [buf] is not initialized, so it is an argument. *)
Definition hasher_new (buf : list Z) : hasher := mkHasher (Initialize alg) buf 0.
Definition hasher_Reset (this : hasher) : hasher := mkHasher (Initialize alg) (h_buf this) 0.

(** The loop [while (end >= data + 64)]: [s], [bytes] and the rest of the
    data after it. *)
Fixpoint Write_loop (fuel : nat) (s : list Z) (bytes : Z) (data : list Z) : list Z * Z * list Z :=
  match fuel with
  | O => (s, bytes, data)
  | S fuel' =>
      if (64 <=? length data)%nat
      then Write_loop fuel' (Transform alg s (take 64 data)) (u64 (bytes + 64)) (drop 64 data)
      else (s, bytes, data)
  end.

Definition hasher_Write (this : hasher) (data : list Z) : hasher :=
  let bufsize := Z.to_nat (h_bytes this mod 64) in
  let '(this, data, bufsize) :=
    if negb (bufsize =? 0)%nat && (64 <=? bufsize + length data)%nat
    then let buf := copy_to (h_buf this) bufsize (take (64 - bufsize) data) in
         (mkHasher (Transform alg (h_s this) buf) buf (u64 (h_bytes this + Z.of_nat (64 - bufsize))), drop (64 - bufsize) data, 0%nat)
    else (this, data, bufsize) in
  let '(s, bytes, data) := Write_loop (length data) (h_s this) (h_bytes this) data in
  match data with
  | [] => mkHasher s (h_buf this) bytes
  | _ => mkHasher s (copy_to (h_buf this) bufsize data) (u64 (bytes + Z.of_nat (length data)))
  end.

(** [pad]: the first bytes of [{0x80}]. *)
Definition pad : list Z := 0x80 :: replicate 63 0.

Definition hasher_Finalize (this : hasher) : list Z :=
  let sizedesc := write_size alg (u64 (Z.shiftl (h_bytes this) 3)) in
  let this' := hasher_Write this (take (Z.to_nat (1 + (119 - h_bytes this mod 64) mod 64)) pad) in
  let this'' := hasher_Write this' sizedesc in
  concat (map (write_word alg) (h_s this'')).

(** [Class().Write(data).Finalize(hash)]. *)
Definition hash_of (data : list Z) : list Z := hasher_Finalize (hasher_Write (hasher_new (replicate 64 0)) data).
End Hasher.

Definition CSHA256_hash : list Z -> list Z := hash_of sha256_algorithm.
Definition CSHA1_hash : list Z -> list Z := hash_of sha1_algorithm.
Definition CRIPEMD160_hash : list Z -> list Z := hash_of ripemd160_algorithm.

(** [CHash256] and [CHash160] of [hash.h], on one piece. *)
Definition CHash256 (data : list Z) : list Z := CSHA256_hash (CSHA256_hash data).
Definition CHash160 (data : list Z) : list Z := CRIPEMD160_hash (CSHA256_hash data).

(** The digests as the tests write them. *)
Definition hex (l : list Z) : list Z := HexStr l false.

(** ** Specification

    The message with its padding is cut into blocks, and the transformation
    is applied to one after the other. *)

Fixpoint blocks (n : nat) (m : list Z) : list (list Z) :=
  match n with O => [] | S n' => take 64 m :: blocks n' (drop 64 m) end.

(** Section 5.1.1 of FIPS 180-4 in bytes: a one bit, as few zero bits as
    needed, and the length in bits. *)
Definition md_padded (size : Z -> list Z) (m : list Z) : list Z :=
  m ++ [0x80] ++ replicate (Z.to_nat ((55 - Z.of_nat (length m)) mod 64)) 0 ++ size (8 * Z.of_nat (length m)).

Definition md_hash (alg : algorithm) (m : list Z) : list Z :=
  let p := md_padded (write_size alg) m in
  concat (map (write_word alg) (foldl (Transform alg) (Initialize alg) (blocks (length p / 64) p))).

(** Section 6.2.2: the message schedule and the rounds.  Words are written
    as the standard has them. *)
Definition fips_Ch (x y z : Z) : Z := Z.lxor (Z.land x y) (Z.land (not32 x) z).
Definition fips_Maj (x y z : Z) : Z := Z.lxor (Z.lxor (Z.land x y) (Z.land x z)) (Z.land y z).

Fixpoint fips_schedule (n : nat) (M : list Z) : list Z :=
  match n with
  | O => M
  | S n' =>
      let W := fips_schedule n' M in
      let t := (16 + n')%nat in
      W ++ [u32 (sigma1 (W.[t - 2]) + W.[t - 7] + sigma0 (W.[t - 15]) + W.[t - 16])]
  end.

Definition fips_round (W : list Z) (t : nat) (v : list Z) : list Z :=
  match v with
  | [a; b; c; d; e; f; g; h] =>
      let T1 := u32 (h + Sigma1 e + fips_Ch e f g + sha256_K.[t] + W.[t]) in
      let T2 := u32 (Sigma0 a + fips_Maj a b c) in
      [u32 (T1 + T2); a; b; c; u32 (d + T1); e; f; g]
  | _ => v
  end.

Definition fips_compress (H chunk : list Z) : list Z :=
  let W := fips_schedule 48 (words ReadBE32 chunk) in
  zip_with (fun x y => u32 (x + y)) H (for_range 0 64 (fips_round W) H).

Definition fips_sha256 (m : list Z) : list Z := md_hash (mkAlgorithm sha256_Initialize fips_compress WriteBE64 WriteBE32) m.

(** ** Buffering *)

Lemma blocks_app k a b j : length a = (64 * k)%nat -> blocks (k + j) (a ++ b) = blocks k a ++ blocks j b.
Proof.
  revert a. induction k as [|k IH]; intros a Ha; [by destruct a|]. cbn [plus blocks].
  rewrite take_app_le, drop_app_le by lia. rewrite IH by (rewrite length_drop; lia). done.
Qed.

Lemma blocks_prefix n a b : (64 * n <= length a)%nat -> blocks n (a ++ b) = blocks n a.
Proof.
  revert a. induction n as [|n IH]; intros a Ha; [done|]. cbn [blocks].
  rewrite take_app_le, drop_app_le by lia. by rewrite IH by (rewrite length_drop; lia).
Qed.

Section Buffering.
Variable alg : algorithm.
Abbreviation T := (Transform alg).

(** The blocks that were processed, and what is left in the buffer. *)
Record represents (h : hasher) (m : list Z) : Prop := {
  rp_s : h_s h = foldl T (Initialize alg) (blocks (length m / 64) m);
  rp_bytes : h_bytes h = Z.of_nat (length m);
  rp_size : length (h_buf h) = 64%nat;
  rp_buf : take (length m mod 64) (h_buf h) = drop (64 * (length m / 64)) m
}.

Lemma Write_loop_spec fuel s bytes data : (length data <= fuel)%nat -> 0 <= bytes -> bytes + Z.of_nat (length data) < 2 ^ 64 ->
  Write_loop alg fuel s bytes data =
  (foldl T s (blocks (length data / 64) data), bytes + Z.of_nat (64 * (length data / 64)), drop (64 * (length data / 64)) data).
Proof.
  revert s bytes data. induction fuel as [|fuel IH]; intros s bytes data Hf Hb Hl; cbn [Write_loop].
  { destruct data; [|cbn in Hf; lia]. cbn. f_equal. f_equal. lia. }
  destruct (Nat.leb_spec 64 (length data)).
  - rewrite IH; [|rewrite length_drop; lia|pose proof (wrapU_range 64 (bytes + 64) ltac:(lia)) as [? _]; lia|
      rewrite wrapU_small by (unfold inU; lia); rewrite length_drop; lia].
    rewrite length_drop, wrapU_small by (unfold inU; lia).
    replace (length data / 64)%nat with (S ((length data - 64) / 64))
      by (replace (length data) with (length data - 64 + 1 * 64)%nat at 2 by lia; rewrite Nat.div_add by lia; lia).
    cbn [blocks foldl]. f_equal; [f_equal; lia|]. rewrite drop_drop. f_equal. lia.
  - rewrite Nat.div_small by lia. cbn. f_equal. f_equal. lia.
Qed.

(** The second part of [Write]: the buffer is empty, or the data does not
    fill it. *)
Lemma Write_tail h m d : represents h m -> Z.of_nat (length m + length d) < 2 ^ 64 ->
  (length m mod 64 = 0 \/ length m mod 64 + length d < 64)%nat ->
  represents (let '(s, bytes, data) := Write_loop alg (length d) (h_s h) (h_bytes h) d in
              match data with
              | [] => mkHasher s (h_buf h) bytes
              | _ => mkHasher s (copy_to (h_buf h) (length m mod 64) data) (u64 (bytes + Z.of_nat (length data)))
              end) (m ++ d).
Proof.
  intros [Hs Hb Hz Hr] Hl Hc. rewrite Write_loop_spec by lia. 
  set (q := (length m / 64)%nat) in *. set (r := (length m mod 64)%nat) in *. set (k := (length d / 64)%nat).
  pose proof (Nat.div_mod (length m) 64 ltac:(lia)) as Em. fold q r in Em.
  pose proof (Nat.div_mod (length d) 64 ltac:(lia)) as Ed. fold k in Ed.
  pose proof (Nat.mod_upper_bound (length d) 64 ltac:(lia)) as Hdm. set (e := (length d mod 64)%nat) in *.
  pose proof (Nat.mod_upper_bound (length m) 64 ltac:(lia)) as Hmm. fold r in Hmm.
  assert (k = 0 \/ r = 0)%nat as Hkr by lia. assert (r + e < 64)%nat as Hre by lia.
  assert ((length (m ++ d) / 64 = q + k)%nat /\ (length (m ++ d) mod 64 = r + e)%nat) as [Eq Er].
  { rewrite length_app. replace (length m + length d)%nat with (r + e + (q + k) * 64)%nat by lia.
    rewrite Nat.div_add, Nat.Div0.mod_add, Nat.div_small, Nat.mod_small by lia. lia. }
  assert (foldl T (h_s h) (blocks k d) = foldl T (Initialize alg) (blocks (q + k) (m ++ d))) as Es.
  { rewrite Hs, <- foldl_app. f_equal. destruct Hkr as [->|Hr0]; [|symmetry; apply blocks_app; lia].
    rewrite Nat.add_0_r, blocks_prefix, app_nil_r by lia. done. }
  assert (length (drop (64 * k) d) = e) as Erest by (rewrite length_drop; lia).
  assert (drop (64 * q) m ++ drop (64 * k) d = drop (64 * (q + k)) (m ++ d)) as Edrop.
  { destruct Hkr as [->|Hr0]; [rewrite Nat.add_0_r, drop_app_le by lia; done|].
    rewrite drop_app_ge by lia. rewrite (drop_ge m) by lia. cbn [app]. f_equal. lia. }
  destruct (drop (64 * k) d) as [|x rest] eqn:Ex; cbn [length] in Erest; split; cbn [h_s h_buf h_bytes]; rewrite ?Eq, ?Er.
  - done.
  - rewrite length_app. lia.
  - done.
  - rewrite <- Erest, Nat.add_0_r, <- Edrop, app_nil_r. done.
  - done.
  - rewrite wrapU_small by (unfold inU; cbn [length]; lia). cbn [length]. rewrite length_app. lia.
  - unfold copy_to. rewrite !length_app, length_take, length_drop. cbn [length]. lia.
  - unfold copy_to. rewrite <- Edrop, <- Hr, app_assoc. apply take_app_length'. rewrite length_app, length_take. cbn [length]. lia.
Qed.

(** Writing data to a hasher of a message gives a hasher of the longer
    message. *)
Lemma Write_represents h m d : represents h m -> Z.of_nat (length m + length d) < 2 ^ 64 -> represents (hasher_Write alg h d) (m ++ d).
Proof.
  intros Hrep Hl. pose proof Hrep as [Hs Hb Hz Hr]. unfold hasher_Write. rewrite Hb.
  replace (Z.to_nat (Z.of_nat (length m) mod 64)) with (length m mod 64)%nat by (change 64 with (Z.of_nat 64); rewrite <- Nat2Z.inj_mod, Nat2Z.id; done).
  pose proof (Nat.div_mod (length m) 64 ltac:(lia)) as Em. pose proof (Nat.mod_upper_bound (length m) 64 ltac:(lia)) as Hmm.
  set (r := (length m mod 64)%nat) in *. set (q := (length m / 64)%nat) in *. destruct (negb (r =? 0)%nat && (64 <=? r + length d)%nat) eqn:E.
  - apply andb_true_iff in E as [E1%negb_true_iff%Nat.eqb_neq E2%Nat.leb_le]. set (d1 := take (64 - r) d). set (d2 := drop (64 - r) d).
    assert (length d1 = 64 - r)%nat as Hd1 by (subst d1; rewrite length_take; lia).
    assert (length (m ++ d1) = (q + 1) * 64)%nat as Hmd by (rewrite length_app; lia).
    assert (length (m ++ d1) / 64 = q + 1 /\ length (m ++ d1) mod 64 = 0)%nat as [Eq Er]
      by (rewrite Hmd, Nat.div_mul, Nat.Div0.mod_mul by lia; done).
    assert (copy_to (h_buf h) r d1 = drop (64 * q) m ++ d1) as Ebuf.
    { unfold copy_to. rewrite Hr, (drop_ge (h_buf h)), app_nil_r by lia. done. }
    set (h1 := mkHasher (T (h_s h) (copy_to (h_buf h) r d1)) (copy_to (h_buf h) r d1) (u64 (Z.of_nat (length m) + Z.of_nat (64 - r)))).
    assert (represents h1 (m ++ d1)) as Hrep1.
    { split; subst h1; cbn [h_s h_buf h_bytes]; rewrite ?Eq, ?Er, ?Ebuf.
      - rewrite Hs. rewrite <- (take_drop (64 * q) m) at 3. rewrite <- app_assoc, blocks_app by (rewrite length_take; lia).
        rewrite foldl_app. rewrite <- (take_drop (64 * q) m) at 1. rewrite blocks_prefix by (rewrite length_take; lia). cbn [blocks foldl].
        f_equal. symmetry. apply take_ge. rewrite length_app, length_drop. lia.
      - rewrite wrapU_small by (unfold inU; lia). lia.
      - rewrite length_app, length_drop. lia.
      - rewrite (drop_ge (m ++ d1)) by lia. done. }
    replace (m ++ d) with ((m ++ d1) ++ d2) by (rewrite <- app_assoc; subst d1 d2; by rewrite take_drop).
    pose proof (Write_tail h1 (m ++ d1) d2 Hrep1) as Ht. rewrite Er in Ht. apply Ht; [|by left].
    subst d2. rewrite length_drop. lia.
  - apply Write_tail; auto. apply andb_false_iff in E as [E%negb_false_iff%Nat.eqb_eq|E%Nat.leb_gt]; fold r; lia.
Qed.

Lemma new_represents buf : length buf = 64%nat -> represents (hasher_new alg buf) [].
Proof. intros Hb. split; done. Qed.

Lemma Writes_represent h m pieces : represents h m -> Z.of_nat (length m + length (concat pieces)) < 2 ^ 64 ->
  represents (foldl (hasher_Write alg) h pieces) (m ++ concat pieces).
Proof.
  revert h m. induction pieces as [|d pieces IH]; intros h m Hrep Hl; cbn [foldl concat] in *; [by rewrite app_nil_r|].
  rewrite length_app in Hl. rewrite app_assoc. apply IH; [apply Write_represents; [done|lia]|rewrite length_app; lia].
Qed.

Lemma Finalize_spec h m : represents h m -> Z.of_nat (length m) < 2 ^ 61 -> (forall x, length (write_size alg x) = 8%nat) ->
  hasher_Finalize alg h = md_hash alg m.
Proof.
  intros Hrep Hl H8. unfold hasher_Finalize, md_hash. rewrite (rp_bytes _ _ Hrep). set (L := Z.of_nat (length m)) in *.
  assert (u64 (Z.shiftl L 3) = 8 * L) as -> by (rewrite Z.shiftl_mul_pow2, wrapU_small by (unfold inU; lia); lia).
  assert ((119 - L mod 64) mod 64 = (55 - L) mod 64) as ->
    by (replace (119 - L mod 64) with (55 - L mod 64 + 1 * 64) by lia; rewrite Z_mod_plus_full, Zminus_mod_idemp_r; done).
  pose proof (Z.mod_pos_bound (55 - L) 64 ltac:(lia)) as Hm. set (n := (55 - L) mod 64) in *.
  assert (take (Z.to_nat (1 + n)) pad = [0x80] ++ replicate (Z.to_nat n) 0) as ->.
  { replace (Z.to_nat (1 + n)) with (S (Z.to_nat n)) by lia. unfold pad. change (take (S ?k) (?x :: ?l)) with (x :: take k l).
    rewrite take_replicate, Nat.min_l by lia. done. }
  set (p1 := [0x80] ++ replicate (Z.to_nat n) 0).
  assert (length p1 <= 64)%nat as Hp by (subst p1; rewrite length_app, length_replicate; cbn [length]; lia).
  assert (represents (hasher_Write alg (hasher_Write alg h p1) (write_size alg (8 * L))) (md_padded (write_size alg) m)) as Hfin.
  { unfold md_padded. fold L n. rewrite !app_assoc. rewrite <- (app_assoc m). fold p1.
    apply Write_represents; [apply Write_represents; [done|lia]|rewrite length_app, H8; lia]. }
  rewrite (rp_s _ _ Hfin). done.
Qed.
End Buffering.

(** ** Sizes of the digests *)

Section Sizes.
Variables (alg : algorithm) (n : nat).
Hypothesis Hinit : length (Initialize alg) = n.
Hypothesis Htransform : forall s chunk, length s = n -> length (Transform alg s chunk) = n.
Hypothesis Hword : forall x, is_bytes (write_word alg x) /\ length (write_word alg x) = 4%nat.

Lemma Write_loop_state fuel s bytes data : length s = n -> length (Write_loop alg fuel s bytes data).1.1 = n.
Proof. revert s bytes data. induction fuel as [|fuel IH]; intros s bytes data Hs; cbn [Write_loop]; [done|]. case_match; auto. Qed.

Lemma Write_state h data : length (h_s h) = n -> length (h_s (hasher_Write alg h data)) = n.
Proof.
  intros Hs. unfold hasher_Write. destruct (negb _ && _); cbn [h_s h_bytes];
    match goal with |- context [Write_loop alg ?f ?s ?b ?d] => pose proof (Write_loop_state f s b d) as Hl; destruct (Write_loop alg f s b d) as [[s' b'] d'] end;
    cbn [fst] in Hl; destruct d'; cbn [h_s]; auto.
Qed.

Lemma hash_of_size data : is_bytes (hash_of alg data) /\ length (hash_of alg data) = (4 * n)%nat.
Proof.
  unfold hash_of, hasher_Finalize. set (st := h_s _). assert (length st = n) as <- by (do 3 apply Write_state; done).
  clearbody st. clear Hinit Htransform. induction st as [|x st [IHb IHl]]; cbn [map concat]; [split; [apply Forall_nil; done|done]|].
  destruct (Hword x) as [Hb Hl]. split; [by apply Forall_app|]. rewrite length_app, IHl, Hl. cbn [length]. lia.
Qed.
End Sizes.

Lemma word_bytes a b c d : is_bytes [u8 a; u8 b; u8 c; u8 d].
Proof. repeat (apply Forall_cons; split; [by apply wrapU_range|]). done. Qed.

(** The calls of [Round] keep the number of variables. *)
Lemma calls_length {B} n (call : nat -> list Z -> B -> list Z) (expand : nat -> B -> B) k s w : (forall i v w, length (call i v w) = length v) ->
  length s = n -> length (for_range 0 k (fun i '(v, w) => let w := expand i w in (call i v w, w)) (s, w)).1 = n.
Proof.
  intros Hc Hs. apply (for_range_ind (fun _ st => length st.1 = n)); [lia|done|]. intros i [v w'] _ Hv. cbn [fst]. by rewrite Hc.
Qed.

Lemma CSHA256_size data : is_bytes (CSHA256_hash data) /\ length (CSHA256_hash data) = 32%nat.
Proof.
  apply (hash_of_size sha256_algorithm 8); [done| |intros x; split; [apply word_bytes|done]]. intros s c Hs. cbn [Transform sha256_algorithm].
  unfold sha256_Transform. pose proof (calls_length 8 sha256_call sha256_expand 64 s (words ReadBE32 c)) as Hl.
  destruct (for_range 0 64 _ _) as [v w]. rewrite length_zip_with, Hs. cbn [fst] in Hl. rewrite Hl; [done| |done].
  intros i v' w'. unfold sha256_call, sha256_Round. by rewrite !length_insert.
Qed.

Lemma CSHA1_size data : is_bytes (CSHA1_hash data) /\ length (CSHA1_hash data) = 20%nat.
Proof.
  apply (hash_of_size sha1_algorithm 5); [done| |intros x; split; [apply word_bytes|done]]. intros s c Hs. cbn [Transform sha1_algorithm].
  unfold sha1_Transform. pose proof (calls_length 5 sha1_call sha1_expand 80 s (words ReadBE32 c)) as Hl.
  destruct (for_range 0 80 _ _) as [v w]. rewrite length_zip_with, Hs. cbn [fst] in Hl. rewrite Hl; [done| |done].
  intros i v' w'. unfold sha1_call. repeat case_match; by rewrite ?length_insert.
Qed.

Lemma CRIPEMD160_size data : is_bytes (CRIPEMD160_hash data) /\ length (CRIPEMD160_hash data) = 20%nat.
Proof. apply (hash_of_size ripemd160_algorithm 5); [done|done|intros x; split; [apply word_bytes|done]]. Qed.

(** The padding fills the last block. *)
Lemma md_padded_length size m : (forall x, length (size x) = 8%nat) -> (length (md_padded size m) mod 64 = 0)%nat.
Proof.
  intros H8. unfold md_padded. rewrite !length_app, length_replicate, H8. cbn [length].
  pose proof (Z.mod_pos_bound (55 - Z.of_nat (length m)) 64 ltac:(lia)).
  pose proof (Z.div_mod (55 - Z.of_nat (length m)) 64 ltac:(lia)).
  apply Nat2Z.inj. rewrite Nat2Z.inj_mod, !Nat2Z.inj_add, Z2Nat.id by lia.
  symmetry. apply (Z.mod_unique_pos _ _ (- ((55 - Z.of_nat (length m)) / 64) + 1)); lia.
Qed.

(** ** The rounds of SHA-256 *)

Lemma Maj_fips x y z : Maj x y z = fips_Maj x y z.
Proof.
  apply Z.bits_inj'. intros n Hn. unfold Maj, fips_Maj. rewrite !Z.lxor_spec, !Z.lor_spec, !Z.land_spec, !Z.lor_spec.
  by destruct (Z.testbit x n), (Z.testbit y n), (Z.testbit z n).
Qed.

Lemma Ch_fips x y z : inU 32 z -> Ch x y z = fips_Ch x y z.
Proof.
  intros Hz. apply Z.bits_inj'. intros n Hn. unfold Ch, fips_Ch, not32, wrapU.
  rewrite !Z.lxor_spec, !Z.land_spec, !Z.lxor_spec.
  destruct (Z.ltb_spec n 32).
  - rewrite Z.mod_pow2_bits_low, Z.lnot_spec by lia. by destruct (Z.testbit x n), (Z.testbit y n), (Z.testbit z n).
  - assert (Z.testbit z n = false) as ->; [|by rewrite !andb_false_r, ?xorb_false_l, ?xorb_false_r].
    unfold inU in Hz. destruct (decide (z = 0)) as [->|]; [apply Z.bits_0|]. apply Z.bits_above_log2; [lia|].
    apply Z.lt_le_trans with 32; [apply Z.log2_lt_pow2; lia|lia].
Qed.

Lemma fips_schedule_length n M : length (fips_schedule n M) = (length M + n)%nat.
Proof. induction n as [|n IH]; cbn [fips_schedule]; [lia|]. rewrite length_app, IH. cbn [length]. lia. Qed.

Lemma fips_schedule_stable n k M t : length M = 16%nat -> (t < 16 + n)%nat -> (fips_schedule (k + n) M).[t] = (fips_schedule n M).[t].
Proof.
  intros HM Ht. induction k as [|k IH]; [done|]. cbn [Nat.add fips_schedule]. rewrite <- IH.
  unfold get. rewrite lookup_app_l; [done|]. rewrite fips_schedule_length. lia.
Qed.

(** The recurrence of the schedule. *)
Lemma fips_schedule_rec M t : length M = 16%nat -> (16 <= t < 64)%nat -> let W := fips_schedule 48 M in
  W.[t] = u32 (sigma1 (W.[t - 2]) + W.[t - 7] + sigma0 (W.[t - 15]) + W.[t - 16]).
Proof.
  intros HM Ht W. subst W. remember (t - 16)%nat as n eqn:En. assert (t = 16 + n)%nat as -> by lia.
  assert (forall u, (u < 16 + S n)%nat -> (fips_schedule 48 M).[u] = (fips_schedule (S n) M).[u]) as E1
    by (intros u Hu; rewrite <- (fips_schedule_stable (S n) (47 - n)) by lia; f_equal; f_equal; lia).
  assert (forall u, (u < 16 + n)%nat -> (fips_schedule 48 M).[u] = (fips_schedule n M).[u]) as E2
    by (intros u Hu; rewrite <- (fips_schedule_stable n (48 - n)) by lia; f_equal; f_equal; lia).
  rewrite E1 by lia. rewrite !E2 by lia. cbn [fips_schedule]. apply get_lookup.
  rewrite lookup_app_r by (rewrite fips_schedule_length; lia). rewrite fips_schedule_length, HM.
  replace (16 + n - (16 + n))%nat with 0%nat by lia. by replace (16 + n - 16)%nat with n by lia.
Qed.

(** The sixteen words that are kept before call [i]. *)
Definition window (W : list Z) (i : nat) (w : list Z) : Prop :=
  length w = 16%nat /\ forall t, (t < Nat.max 16 i)%nat -> (Nat.max 16 i <= t + 16)%nat -> w.[t mod 16] = W.[t].

Lemma mod16_shift i t : (exists a b, i + a * 16 = t + b * 16)%nat -> (i mod 16 = t mod 16)%nat.
Proof.
  intros (a & b & E). rewrite <- (Nat.Div0.mod_add i a 16), <- (Nat.Div0.mod_add t b 16). by rewrite E.
Qed.

Lemma expand_window M i w : length M = 16%nat -> (i < 64)%nat -> let W := fips_schedule 48 M in
  window W i w -> window W (S i) (sha256_expand i w) /\ (sha256_expand i w).[i mod 16] = W.[i].
Proof.
  intros HM Hi W [Hl Hw]. unfold sha256_expand. destruct (Nat.ltb_spec i 16).
  - split; [split; [done|]; intros t H1 H2; apply Hw; lia|]. apply Hw; lia.
  - assert (i mod 16 < length w)%nat as Him by (rewrite Hl; apply Nat.mod_upper_bound; lia).
    assert (u32 (w.[i mod 16] + (sigma1 (w.[(i + 14) mod 16]) + w.[(i + 9) mod 16] + sigma0 (w.[(i + 1) mod 16]))) = W.[i]) as ->.
    { pose proof (fips_schedule_rec M i HM ltac:(lia)) as Hrec. cbn zeta in Hrec. fold W in Hrec. rewrite Hrec.
      rewrite (mod16_shift i (i - 16)), (mod16_shift (i + 14) (i - 2)), (mod16_shift (i + 9) (i - 7)), (mod16_shift (i + 1) (i - 15))
        by (exists 0%nat, 1%nat; lia).
      rewrite !Hw by lia. f_equal. lia. }
    split; [split; [by rewrite length_insert|]|by apply get_insert_eq].
    intros t H1 H2. destruct (decide (t = i)) as [->|Hne]; [by apply get_insert_eq|].
    rewrite get_insert_ne; [apply Hw; lia|]. intros E.
    pose proof (Nat.div_mod i 16 ltac:(lia)). pose proof (Nat.div_mod t 16 ltac:(lia)). lia.
Qed.

(** The variables of the source before call [i], in the standard's order. *)
Definition named (i : nat) (v : list Z) : list Z := map (fun j => v.[rotated 8 i j]) (seq 0 8).

Lemma rotated_inj i j k : (i <= 64)%nat -> (j < 8)%nat -> (k < 8)%nat -> rotated 8 i j = rotated 8 i k -> j = k.
Proof.
  unfold rotated. intros Hi Hj Hk E. pose proof (Nat.div_mod (j + 8 * 80 - i) 8 ltac:(lia)). pose proof (Nat.div_mod (k + 8 * 80 - i) 8 ltac:(lia)). lia.
Qed.

Lemma rotated_0 i : (i < 64)%nat -> rotated 8 (S i) 0 = rotated 8 i 7.
Proof.
  intros Hi. unfold rotated. replace (7 + 8 * 80 - i)%nat with (0 + 8 * 80 - S i + 1 * 8)%nat by lia. by rewrite Nat.Div0.mod_add.
Qed.

Lemma rotated_lt i j : (rotated 8 i j < 8)%nat.
Proof. apply Nat.mod_upper_bound. lia. Qed.

Lemma call_named W i v w : length v = 8%nat -> (i < 64)%nat -> Forall (inU 32) (named i v) -> w.[i mod 16] = W.[i] ->
  length (sha256_call i v w) = 8%nat /\ named (S i) (sha256_call i v w) = fips_round W i (named i v) /\ Forall (inU 32) (fips_round W i (named i v)).
Proof.
  intros Hl Hi Hu Hw. unfold sha256_call, sha256_Round. rewrite Hw. unfold named in *. cbn [map seq] in *.
  repeat match goal with H : Forall _ (_ :: _) |- _ => apply Forall_cons in H as [? H] end.
  cbn [fips_round]. rewrite <- Ch_fips, <- Maj_fips by done.
  set (T1 := u32 _). set (T2 := u32 _).
  split; [by rewrite !length_insert|]. split; [|repeat (apply Forall_cons; split; [first [done|apply wrapU_range; lia]|]); done].
  rewrite rotated_0 by done.
  change (rotated 8 (S i) 1) with (rotated 8 i 0). change (rotated 8 (S i) 2) with (rotated 8 i 1). change (rotated 8 (S i) 3) with (rotated 8 i 2).
  change (rotated 8 (S i) 4) with (rotated 8 i 3). change (rotated 8 (S i) 5) with (rotated 8 i 4). change (rotated 8 (S i) 6) with (rotated 8 i 5).
  change (rotated 8 (S i) 7) with (rotated 8 i 6).
  assert (forall j k x l, (j < 8)%nat -> (k < 8)%nat -> j <> k -> (<[rotated 8 i j := x]> l).[rotated 8 i k] = l.[rotated 8 i k]) as Hne
    by (intros j k x l Hj Hk Hjk; apply get_insert_ne; intros E; apply Hjk, (rotated_inj i); lia || done).
  assert (forall j x l, length l = 8%nat -> (<[rotated 8 i j := x]> l).[rotated 8 i j] = x) as Heq
    by (intros j x l Hll; apply get_insert_eq; rewrite Hll; apply rotated_lt).
  rewrite (Heq 3%nat) by (by rewrite length_insert). rewrite (Hne 3%nat 7%nat), Heq by (lia || done).
  rewrite (Hne 3%nat 0%nat), (Hne 3%nat 1%nat), (Hne 3%nat 2%nat), (Hne 3%nat 4%nat), (Hne 3%nat 5%nat), (Hne 3%nat 6%nat) by lia.
  rewrite (Hne 7%nat 0%nat), (Hne 7%nat 1%nat), (Hne 7%nat 2%nat), (Hne 7%nat 4%nat), (Hne 7%nat 5%nat), (Hne 7%nat 6%nat) by lia. done.
Qed.

Lemma fips_round_length W t v : length v = 8%nat -> length (fips_round W t v) = 8%nat.
Proof. intros. do 9 (destruct v as [|? v]; try done). Qed.

(** The transformation of the source is the compression function. *)
Lemma Transform_compress s chunk : length s = 8%nat -> Forall (inU 32) s -> sha256_Transform s chunk = fips_compress s chunk.
Proof.
  intros Hl Hu. unfold sha256_Transform, fips_compress. set (M := words ReadBE32 chunk). set (W := fips_schedule 48 M).
  assert (length M = 16%nat) as HM by done.
  set (body := fun i '(v, w) => let w := sha256_expand i w in (sha256_call i v w, w)).
  set (I := fun (i : nat) (st : list Z * list Z) => length st.1 = 8%nat /\ Forall (inU 32) (named i st.1) /\ window W i st.2 /\
                                                  named i st.1 = for_range 0 i (fips_round W) s).
  assert (named 0 s = s) as E0 by (do 9 (destruct s as [|? s]; try done)).
  assert (I 64%nat (for_range 0 64 body (s, M))) as (H1 & _ & _ & H4).
  { apply for_range_ind; [lia|unfold I; cbn [fst snd]; rewrite E0|].
    - split; [done|]. split; [done|]. split; [|done]. split; [done|]. intros t Ht _. rewrite Nat.mod_small by lia.
      symmetry. by apply (fips_schedule_stable 0 48).
    - intros i [v w] Hi (Hv & Hvu & Hw & E). cbn [fst snd] in *. destruct (expand_window M i w HM ltac:(lia) Hw) as [Hw' Ew].
      destruct (call_named W i v (sha256_expand i w) Hv ltac:(lia) Hvu Ew) as (C1 & C2 & C3).
      unfold I, body. cbn [fst snd]. split; [done|]. split; [by rewrite C2|]. split; [done|].
      rewrite C2, E, for_range_S_r by lia. done. }
  destruct (for_range 0 64 body (s, M)) as [v w]. cbn [fst snd] in *. rewrite <- H4. f_equal.
  do 9 (destruct v as [|? v]; try done).
Qed.

Lemma compress_state s chunk : length s = 8%nat -> length (fips_compress s chunk) = 8%nat /\ Forall (inU 32) (fips_compress s chunk).
Proof.
  intros Hl. unfold fips_compress. set (W := fips_schedule _ _). set (v := for_range 0 64 (fips_round W) s).
  assert (length v = 8%nat) as Hv.
  { subst v. apply (for_range_ind (fun _ v => length v = 8%nat)); [lia|done|]. intros. by apply fips_round_length. }
  split; [rewrite length_zip_with; lia|]. apply Forall_lookup. intros i x Hx.
  apply lookup_zip_with_Some in Hx as (a & b & -> & _). apply wrapU_range. lia.
Qed.

Lemma foldl_Transform l s : length s = 8%nat -> Forall (inU 32) s -> foldl sha256_Transform s l = foldl fips_compress s l.
Proof.
  revert s. induction l as [|c l IH]; intros s Hl Hu; cbn [foldl]; [done|]. rewrite Transform_compress by done.
  apply IH; by apply compress_state.
Qed.

Lemma sha256_Finalize h m : represents sha256_algorithm h m -> Z.of_nat (length m) < 2 ^ 61 ->
  hasher_Finalize sha256_algorithm h = fips_sha256 m.
Proof.
  intros Hrep Hl. rewrite (Finalize_spec _ _ m) by done. unfold fips_sha256, md_hash.
  cbn [sha256_algorithm Transform Initialize write_size write_word]. rewrite foldl_Transform; [done|done|].
  unfold sha256_Initialize. repeat (apply Forall_cons; split; [unfold inU; lia|]). done.
Qed.

Lemma CSHA256_fips data : Z.of_nat (length data) < 2 ^ 61 -> CSHA256_hash data = fips_sha256 data.
Proof.
  intros Hl. apply sha256_Finalize; [|done]. apply (Write_represents _ _ [] data); [by apply new_represents|cbn [length]; lia].
Qed.

(** C28: [CSHA256] computes SHA-256 as FIPS 180-4 defines it, of a message
    of less than [2^61] bytes.  However the message is cut into the pieces
    of the calls of [Write], and whatever the buffer held before, the digest
    is the one of the standard on the padded message, whose length is a
    multiple of the length of a block. *)
Theorem sha256_is_fips buf pieces : length buf = 64%nat -> Z.of_nat (length (concat pieces)) < 2 ^ 61 ->
  hasher_Finalize sha256_algorithm (foldl (hasher_Write sha256_algorithm) (hasher_new sha256_algorithm buf) pieces) = fips_sha256 (concat pieces) /\
  (length (md_padded WriteBE64 (concat pieces)) mod 64 = 0)%nat.
Proof.
  intros Hb Hl. split; [|by apply md_padded_length]. apply sha256_Finalize; [|done].
  apply (Writes_represent _ _ []); [by apply new_represents|cbn [length]; lia].
Qed.

(** The constants are the first 32 bits of the fractional parts of the cube
    roots and of the square roots of the first primes (4.2.2 and 5.3.3). *)
Definition primes : list Z :=
  [2; 3; 5; 7; 11; 13; 17; 19; 23; 29; 31; 37; 41; 43; 47; 53; 59; 61; 67; 71; 73; 79; 83; 89; 97; 101; 103; 107; 109; 113; 127; 131; 137; 139;
   149; 151; 157; 163; 167; 173; 179; 181; 191; 193; 197; 199; 211; 223; 227; 229; 233; 239; 241; 251; 257; 263; 269; 271; 277; 281; 283; 293; 307; 311].
Definition is_root (n p c : Z) : bool :=
  existsb (fun k => let x := Z.of_nat k * 2 ^ 32 + c in (x ^ n <=? p * 2 ^ (32 * n)) && (p * 2 ^ (32 * n) <? (x + 1) ^ n)) (seq 0 8).

Example sha256_constants :
  forallb (fun '(p, c) => is_root 3 p c) (zip primes sha256_K) = true /\ forallb (fun '(p, c) => is_root 2 p c) (zip (take 8 primes) sha256_Initialize) = true.
Proof. by vm_compute. Qed.

(** "abc" in two pieces. *)
Lemma sha256_is_fips_witness :
  hasher_Finalize sha256_algorithm (foldl (hasher_Write sha256_algorithm) (hasher_new sha256_algorithm (replicate 64 7)) [str "a"; str "bc"]) =
  fips_sha256 (str "abc") /\
  hex (fips_sha256 (str "abc")) = str "ba7816bf8f01cfea414140de5dae2223b00361a396177a9cb410ff61f20015ad".
Proof.
  split; [|vm_compute; reflexivity].
  exact (proj1 (sha256_is_fips (replicate 64 7) [str "a"; str "bc"] ltac:(reflexivity) ltac:(vm_compute; reflexivity))).
Defined.

(** The vectors of the test suite for the other two. *)
Example ripemd160_abc : hex (CRIPEMD160_hash (str "abc")) = str "8eb208f7e05d987a9b044a8e98c6b087f15a0bfc".
Proof. vm_compute. reflexivity. Qed.
Example sha1_abc : hex (CSHA1_hash (str "abc")) = str "a9993e364706816aba3e25717850c26c9cd0d89d".
Proof. vm_compute. reflexivity. Qed.

(** The clients of this file use the hashes through the lemmas above. *)
#[global] Opaque CSHA256_hash CSHA1_hash CRIPEMD160_hash.
