(* ===== verification/Scrypt.v ===== *)
(** * Scrypt ([crypto/scrypt.cpp], [crypto/hmac_sha256.cpp])

    The hash of the proof of work: [scrypt_1024_1_1_256] in its portable
    form, with the [CHMAC_SHA256] and [PBKDF2_SHA256] it is made of, shown to
    be the scrypt of RFC 7914 with the parameters 1024, 1 and 1, over the
    PBKDF2 of RFC 8018 and the HMAC of RFC 2104. *)

From S2P Require Import Prelude ArithUint256 StrEncodings Script Hashes.
From stdpp Require Import list.
#[local] Open Scope Z_scope.

(** ** HMAC *)

Record CHMAC_SHA256 := mkHMAC { outer : hasher; inner : hasher }.

Definition CHMAC_SHA256_new (key : list Z) : CHMAC_SHA256 :=
  let rkey := if (length key <=? 64)%nat then key ++ replicate (64 - length key) 0 else CSHA256_hash key ++ replicate 32 0 in
  let fresh := hasher_new sha256_algorithm (replicate 64 0) in
  let rkey := map (Z.lxor 0x5c) rkey in
  let outer := hasher_Write sha256_algorithm fresh rkey in
  let rkey := map (Z.lxor (Z.lxor 0x5c 0x36)) rkey in
  mkHMAC outer (hasher_Write sha256_algorithm fresh rkey).

Definition CHMAC_SHA256_Write (this : CHMAC_SHA256) (data : list Z) : CHMAC_SHA256 :=
  mkHMAC (outer this) (hasher_Write sha256_algorithm (inner this) data).

Definition CHMAC_SHA256_Finalize (this : CHMAC_SHA256) : list Z :=
  let temp := hasher_Finalize sha256_algorithm (inner this) in
  hasher_Finalize sha256_algorithm (hasher_Write sha256_algorithm (outer this) temp).

(** ** PBKDF2 *)

(** The loop over [j]: [U] and [T]. *)
Definition pbkdf2_rounds (baseCtx : CHMAC_SHA256) (c : nat) (U : list Z) : list Z :=
  snd (for_range 2 (S c) (fun _ '(U, T) =>
    let U := CHMAC_SHA256_Finalize (CHMAC_SHA256_Write baseCtx U) in (U, zip_with Z.lxor T U)) (U, U)).

(** The contents of [buf]; the loop ends when [i * 32] reaches [dkLen]. *)
Definition PBKDF2_SHA256 (passwd salt : list Z) (c dkLen : nat) : list Z :=
  let baseCtx := CHMAC_SHA256_new passwd in
  let PShctx := CHMAC_SHA256_Write (CHMAC_SHA256_new passwd) salt in
  for_range 0 ((dkLen + 31) / 32) (fun i buf =>
    let ivec := WriteBE32 (u32 (Z.of_nat i + 1)) in
    let U := CHMAC_SHA256_Finalize (CHMAC_SHA256_Write PShctx ivec) in
    let T := pbkdf2_rounds baseCtx c U in
    let clen := Nat.min (dkLen - i * 32) 32 in
    buf ++ take clen T) [].

(** ** Salsa20/8 and scrypt *)

(** A statement [x_d ^= ROTL(x_a + x_b, r)]. *)
Definition salsa_step (x : list Z) (s : nat * nat * nat * Z) : list Z :=
  let '(d, a, b, r) := s in <[d := Z.lxor (x.[d]) (rotl r (u32 (x.[a] + x.[b])))]> x.

Definition salsa_columns : list (nat * nat * nat * Z) :=
  [(4, 0, 12, 7%Z); (9, 5, 1, 7%Z); (14, 10, 6, 7%Z); (3, 15, 11, 7%Z);
   (8, 4, 0, 9%Z); (13, 9, 5, 9%Z); (2, 14, 10, 9%Z); (7, 3, 15, 9%Z);
   (12, 8, 4, 13%Z); (1, 13, 9, 13%Z); (6, 2, 14, 13%Z); (11, 7, 3, 13%Z);
   (0, 12, 8, 18%Z); (5, 1, 13, 18%Z); (10, 6, 2, 18%Z); (15, 11, 7, 18%Z)]%nat.
Definition salsa_rows : list (nat * nat * nat * Z) :=
  [(1, 0, 3, 7%Z); (6, 5, 4, 7%Z); (11, 10, 9, 7%Z); (12, 15, 14, 7%Z);
   (2, 1, 0, 9%Z); (7, 6, 5, 9%Z); (8, 11, 10, 9%Z); (13, 12, 15, 9%Z);
   (3, 2, 1, 13%Z); (4, 7, 6, 13%Z); (9, 8, 11, 13%Z); (14, 13, 12, 13%Z);
   (0, 3, 2, 18%Z); (5, 4, 7, 18%Z); (10, 9, 8, 18%Z); (15, 14, 13, 18%Z)]%nat.

(** The new [B]. *)
Definition xor_salsa8 (B Bx : list Z) : list Z :=
  let B := zip_with Z.lxor B Bx in
  let x := for_range 0 4 (fun _ x => foldl salsa_step (foldl salsa_step x salsa_columns) salsa_rows) B in
  zip_with (fun b y => u32 (b + y)) B x.

(** [xor_salsa8(&X[0], &X[16]); xor_salsa8(&X[16], &X[0]);] *)
Definition scrypt_mix (X : list Z) : list Z :=
  let X := xor_salsa8 (take 16 X) (drop 16 X) ++ drop 16 X in
  take 16 X ++ xor_salsa8 (drop 16 X) (take 16 X).

(** The two loops over the scratchpad, of [rounds] steps each; [V] is given
    by its rows of 32 words. *)
Definition scrypt_loops (rounds : nat) (X : list Z) : list Z :=
  let '(X, V) := for_range 0 rounds (fun _ '(X, V) => (scrypt_mix X, V ++ [X])) (X, []) in
  for_range 0 rounds (fun _ X =>
    let j := Z.to_nat (Z.land (X.[16]) 1023) in scrypt_mix (zip_with Z.lxor X (default [] (V !! j)))) X.

(** The 80 bytes of [input] and the 32 bytes of [output]. *)
Definition scrypt_1024_1_1_256 (input : list Z) : list Z :=
  let B := PBKDF2_SHA256 input input 1 128 in
  let X := map (fun k => ReadLE32 (drop (4 * k) B)) (seq 0 32) in
  let X := scrypt_loops 1024 X in
  let B := concat (map WriteLE32 X) in
  PBKDF2_SHA256 input B 1 32.

(** ** Specification *)

(** RFC 2104 with SHA-256. *)
Definition hmac_key (K : list Z) : list Z :=
  let K' := if (length K <=? 64)%nat then K else fips_sha256 K in K' ++ replicate (64 - length K') 0.
Definition hmac (K m : list Z) : list Z :=
  fips_sha256 (map (Z.lxor 0x5c) (hmac_key K) ++ fips_sha256 (map (Z.lxor 0x36) (hmac_key K) ++ m)).

(** RFC 8018: [U_1] to [U_c] and their exclusive or; the blocks, cut to
    [dkLen] bytes. *)
Definition pbkdf2_U (P S : list Z) (i j : nat) : list Z := Nat.iter (j - 1) (hmac P) (hmac P (S ++ WriteBE32 (Z.of_nat i))).
Definition pbkdf2_F (P S : list Z) (c i : nat) : list Z :=
  foldl (zip_with Z.lxor) (pbkdf2_U P S i 1) (map (pbkdf2_U P S i) (seq 2 (c - 1))).
Definition pbkdf2 (P S : list Z) (c dkLen : nat) : list Z := take dkLen (concat (map (pbkdf2_F P S c) (seq 1 ((dkLen + 31) / 32)))).

(** The Salsa20 specification. *)
Definition quarterround (y0 y1 y2 y3 : Z) : Z * Z * Z * Z :=
  let z1 := Z.lxor y1 (rotl 7 (u32 (y0 + y3))) in
  let z2 := Z.lxor y2 (rotl 9 (u32 (z1 + y0))) in
  let z3 := Z.lxor y3 (rotl 13 (u32 (z2 + z1))) in
  let z0 := Z.lxor y0 (rotl 18 (u32 (z3 + z2))) in
  (z0, z1, z2, z3).
Definition columnround (x : list Z) : list Z :=
  match x with
  | [x0; x1; x2; x3; x4; x5; x6; x7; x8; x9; x10; x11; x12; x13; x14; x15] =>
      let '(y0, y4, y8, y12) := quarterround x0 x4 x8 x12 in
      let '(y5, y9, y13, y1) := quarterround x5 x9 x13 x1 in
      let '(y10, y14, y2, y6) := quarterround x10 x14 x2 x6 in
      let '(y15, y3, y7, y11) := quarterround x15 x3 x7 x11 in
      [y0; y1; y2; y3; y4; y5; y6; y7; y8; y9; y10; y11; y12; y13; y14; y15]
  | _ => x
  end.
Definition rowround (x : list Z) : list Z :=
  match x with
  | [x0; x1; x2; x3; x4; x5; x6; x7; x8; x9; x10; x11; x12; x13; x14; x15] =>
      let '(y0, y1, y2, y3) := quarterround x0 x1 x2 x3 in
      let '(y5, y6, y7, y4) := quarterround x5 x6 x7 x4 in
      let '(y10, y11, y8, y9) := quarterround x10 x11 x8 x9 in
      let '(y15, y12, y13, y14) := quarterround x15 x12 x13 x14 in
      [y0; y1; y2; y3; y4; y5; y6; y7; y8; y9; y10; y11; y12; y13; y14; y15]
  | _ => x
  end.
Definition salsa20_8 (x : list Z) : list Z := zip_with (fun a b => u32 (a + b)) x (Nat.iter 4 (fun x => rowround (columnround x)) x).

(** RFC 7914 with [r = 1]: [scryptBlockMix] on two blocks of 16 words, and
    [scryptROMix]. *)
Definition block_mix (B : list Z) : list Z :=
  let Y0 := salsa20_8 (zip_with Z.lxor (drop 16 B) (take 16 B)) in
  let Y1 := salsa20_8 (zip_with Z.lxor Y0 (drop 16 B)) in
  Y0 ++ Y1.
Definition ro_mix (N : nat) (B : list Z) : list Z :=
  let V i := Nat.iter i block_mix B in
  Nat.iter N (fun X => block_mix (zip_with Z.lxor X (V (Z.to_nat (X.[16] mod Z.of_nat N))))) (V N).
Definition scrypt (N : nat) (P S : list Z) (dkLen : nat) : list Z :=
  let B := pbkdf2 P S 1 128 in
  let X := ro_mix N (map (fun k => ReadLE32 (drop (4 * k) B)) (seq 0 32)) in
  pbkdf2 P (concat (map WriteLE32 X)) 1 dkLen.

(** ** HMAC and PBKDF2 *)

Lemma fips_size data : Z.of_nat (length data) < 2 ^ 61 -> length (fips_sha256 data) = 32%nat.
Proof. intros Hl. rewrite <- CSHA256_fips by done. apply CSHA256_size. Qed.

Lemma hmac_key_length K : Z.of_nat (length K) < 2 ^ 61 -> length (hmac_key K) = 64%nat.
Proof.
  intros Hl. unfold hmac_key. destruct (Nat.leb_spec (length K) 64); rewrite length_app, length_replicate; [lia|].
  rewrite fips_size by done. done.
Qed.

(** A context that has hashed the key and a message. *)
Definition hmac_represents (K : list Z) (h : CHMAC_SHA256) (m : list Z) : Prop :=
  represents sha256_algorithm (outer h) (map (Z.lxor 0x5c) (hmac_key K)) /\
  represents sha256_algorithm (inner h) (map (Z.lxor 0x36) (hmac_key K) ++ m).

Lemma hmac_new K : Z.of_nat (length K) < 2 ^ 61 -> hmac_represents K (CHMAC_SHA256_new K) [].
Proof.
  intros Hl. unfold CHMAC_SHA256_new. pose proof (hmac_key_length K Hl) as H64.
  assert ((if (length K <=? 64)%nat then K ++ replicate (64 - length K) 0 else CSHA256_hash K ++ replicate 32 0) = hmac_key K) as ->.
  { unfold hmac_key. destruct (length K <=? 64)%nat; [done|]. rewrite CSHA256_fips, fips_size by done. done. }
  rewrite map_map. rewrite (map_ext (fun x => Z.lxor (Z.lxor 92 54) (Z.lxor 92 x)) (Z.lxor 54)).
  2:{ intros x. rewrite <- Z.lxor_assoc. done. }
  split; [|rewrite app_nil_r]; apply (Write_represents _ _ []); try (by apply new_represents); cbn [length]; rewrite length_map, H64; done.
Qed.

Lemma hmac_Write K h m d : Z.of_nat (length K) < 2 ^ 61 -> Z.of_nat (length m + length d) < 2 ^ 60 ->
  hmac_represents K h m -> hmac_represents K (CHMAC_SHA256_Write h d) (m ++ d).
Proof.
  intros HK Hl [Ho Hi]. split; [done|]. rewrite app_assoc. apply Write_represents; [done|].
  rewrite length_app, length_map, hmac_key_length by done. lia.
Qed.

Lemma hmac_Finalize K h m : Z.of_nat (length K) < 2 ^ 61 -> Z.of_nat (length m) < 2 ^ 60 ->
  hmac_represents K h m -> CHMAC_SHA256_Finalize h = hmac K m.
Proof.
  intros HK Hl [Ho Hi]. unfold CHMAC_SHA256_Finalize, hmac. pose proof (hmac_key_length K HK) as H64.
  assert (Z.of_nat (length (map (Z.lxor 54) (hmac_key K) ++ m)) < 2 ^ 61) as Hin by (rewrite length_app, length_map, H64; lia).
  rewrite (sha256_Finalize (inner h) _ Hi Hin). apply sha256_Finalize; [|rewrite length_app, length_map, H64, fips_size by done; done].
  apply Write_represents; [done|]. rewrite length_map, H64, fips_size by done. done.
Qed.

Lemma hmac_length K m : Z.of_nat (length K) < 2 ^ 61 -> Z.of_nat (length m) < 2 ^ 60 -> length (hmac K m) = 32%nat.
Proof.
  intros HK Hl. unfold hmac. pose proof (hmac_key_length K HK) as H64.
  apply fips_size. rewrite length_app, length_map, H64, fips_size; [done|]. rewrite length_app, length_map, H64. lia.
Qed.

Section PBKDF2.
Variables P S : list Z.
Hypothesis HP : Z.of_nat (length P) < 2 ^ 61.
Hypothesis HS : Z.of_nat (length S) < 2 ^ 59.

Lemma hmac_step U : length U = 32%nat -> CHMAC_SHA256_Finalize (CHMAC_SHA256_Write (CHMAC_SHA256_new P) U) = hmac P U.
Proof.
  intros HU. apply hmac_Finalize; [done|lia|]. apply (hmac_Write P _ []); [done|cbn [length]; lia|by apply hmac_new].
Qed.

Lemma pbkdf2_U_length i j : length (pbkdf2_U P S i j) = 32%nat.
Proof.
  unfold pbkdf2_U. induction (j - 1)%nat as [|n IH].
  - apply hmac_length; [done|]. rewrite length_app. cbn [length WriteBE32]. lia.
  - rewrite Nat.iter_succ. apply hmac_length; [done|]. rewrite IH. lia.
Qed.

Lemma pbkdf2_F_length c i : length (pbkdf2_F P S c i) = 32%nat.
Proof.
  unfold pbkdf2_F. generalize (pbkdf2_U_length i 1). generalize (pbkdf2_U P S i 1). generalize (seq 2 (c - 1)).
  intros l. induction l as [|j l IH]; intros T HT; cbn [map foldl]; [done|]. apply IH. rewrite length_zip_with, pbkdf2_U_length. lia.
Qed.

Lemma pbkdf2_rounds_spec c i : (1 <= c)%nat -> pbkdf2_rounds (CHMAC_SHA256_new P) c (pbkdf2_U P S i 1) = pbkdf2_F P S c i.
Proof.
  intros Hc. unfold pbkdf2_rounds, pbkdf2_F.
  match goal with |- context [for_range 2 _ ?body ?st] => assert (for_range 2 (Datatypes.S c) body st =
    (pbkdf2_U P S i (Datatypes.S c - 1), foldl (zip_with Z.lxor) (pbkdf2_U P S i 1) (map (pbkdf2_U P S i) (seq 2 (Datatypes.S c - 2))))) as -> end.
  { apply (for_range_ind (fun j st => st = (pbkdf2_U P S i (j - 1), foldl (zip_with Z.lxor) (pbkdf2_U P S i 1) (map (pbkdf2_U P S i) (seq 2 (j - 2)))))); [lia|done|].
    intros j [U T] Hj [= -> ->]. cbv zeta. rewrite hmac_step by apply pbkdf2_U_length.
    assert (hmac P (pbkdf2_U P S i (j - 1)) = pbkdf2_U P S i j) as ->
      by (unfold pbkdf2_U; rewrite <- Nat.iter_succ; f_equal; lia).
    replace (Datatypes.S j - 1)%nat with j by lia. f_equal. replace (Datatypes.S j - 2)%nat with (j - 2 + 1)%nat by lia.
    rewrite seq_app, map_app, foldl_app. replace (2 + (j - 2))%nat with j by lia. done. }
  cbn [snd]. do 3 f_equal.
Qed.

(** The blocks written so far. *)
Lemma PBKDF2_spec c dkLen : (1 <= c)%nat -> Z.of_nat dkLen < 2 ^ 32 -> PBKDF2_SHA256 P S c dkLen = pbkdf2 P S c dkLen.
Proof.
  intros Hc Hd. unfold PBKDF2_SHA256, pbkdf2. set (n := ((dkLen + 31) / 32)%nat).
  pose proof (Nat.div_mod (dkLen + 31) 32 ltac:(lia)) as Hn. pose proof (Nat.mod_upper_bound (dkLen + 31) 32 ltac:(lia)) as Hm. fold n in Hn.
  apply (for_range_ind (fun i buf => buf = take dkLen (concat (map (pbkdf2_F P S c) (seq 1 i))))); [lia|by destruct dkLen|].
  intros i buf Hi ->. cbv zeta.
  assert (CHMAC_SHA256_Finalize (CHMAC_SHA256_Write (CHMAC_SHA256_Write (CHMAC_SHA256_new P) S) (WriteBE32 (u32 (Z.of_nat i + 1)))) =
          pbkdf2_U P S (Datatypes.S i) 1) as ->.
  { rewrite wrapU_small by (unfold inU; lia). replace (Z.of_nat i + 1) with (Z.of_nat (Datatypes.S i)) by lia.
    apply hmac_Finalize; [done|rewrite length_app; cbn [length WriteBE32]; lia|].
    apply hmac_Write; [done|cbn [length WriteBE32]; lia|]. apply (hmac_Write P _ []); [done|cbn [length]; lia|by apply hmac_new]. }
  rewrite pbkdf2_rounds_spec by done. rewrite seq_S, map_app, concat_app. cbn [map concat]. rewrite app_nil_r.
  assert (length (concat (map (pbkdf2_F P S c) (seq 1 i))) = (i * 32)%nat) as Hl.
  { clear -HP HS. induction i as [|i IH]; [done|]. rewrite seq_S, map_app, concat_app, length_app, IH. cbn [map concat].
    rewrite app_nil_r, pbkdf2_F_length. lia. }
  rewrite take_app, Hl. f_equal. replace (1 + i)%nat with (Datatypes.S i) by lia.
  destruct (Nat.le_gt_cases (dkLen - i * 32) 32); [by rewrite Nat.min_l|]. rewrite Nat.min_r by lia.
  rewrite !take_ge by (rewrite pbkdf2_F_length; lia). done.
Qed.
End PBKDF2.

(** ** The mixing *)

(** A list of sixteen words, written out. *)
Ltac sixteen x := do 17 (destruct x as [|? x]; try done).

Lemma columns_spec x : length x = 16%nat -> foldl salsa_step x salsa_columns = columnround x.
Proof. intros Hx. sixteen x. Qed.

Lemma rows_spec x : length x = 16%nat -> foldl salsa_step x salsa_rows = rowround x.
Proof. intros Hx. sixteen x. Qed.

Lemma columnround_length x : length x = 16%nat -> length (columnround x) = 16%nat.
Proof. intros Hx. sixteen x. Qed.

Lemma rowround_length x : length x = 16%nat -> length (rowround x) = 16%nat.
Proof. intros Hx. sixteen x. Qed.

Lemma doublerounds_length n x : length x = 16%nat -> length (Nat.iter n (fun x => rowround (columnround x)) x) = 16%nat.
Proof. intros Hx. induction n as [|n IH]; [done|]. rewrite Nat.iter_succ. by apply rowround_length, columnround_length. Qed.

Lemma salsa20_8_length x : length x = 16%nat -> length (salsa20_8 x) = 16%nat.
Proof. intros Hx. unfold salsa20_8. rewrite length_zip_with, doublerounds_length by done. lia. Qed.

Lemma xor_salsa8_spec B Bx : length B = 16%nat -> length Bx = 16%nat -> xor_salsa8 B Bx = salsa20_8 (zip_with Z.lxor B Bx).
Proof.
  intros HB Hx. unfold xor_salsa8, salsa20_8. set (Y := zip_with Z.lxor B Bx).
  assert (length Y = 16%nat) as HY by (subst Y; rewrite length_zip_with; lia). clearbody Y. f_equal.
  apply (for_range_ind (fun i x => x = Nat.iter i (fun x => rowround (columnround x)) Y)); [lia|done|]. intros i x _ ->.
  pose proof (doublerounds_length i Y HY). rewrite columns_spec, rows_spec by auto using columnround_length. by rewrite Nat.iter_succ.
Qed.

Lemma block_mix_length B : length B = 32%nat -> length (block_mix B) = 32%nat.
Proof.
  intros HB. unfold block_mix. set (Y0 := salsa20_8 (zip_with _ (drop _ _) _)).
  assert (length Y0 = 16%nat) as HY by (apply salsa20_8_length; rewrite length_zip_with, length_take, length_drop; lia).
  rewrite length_app, HY, salsa20_8_length; [done|]. rewrite length_zip_with, length_drop. lia.
Qed.

Lemma xor_comm_lists (a b : list Z) : zip_with Z.lxor a b = zip_with Z.lxor b a.
Proof. revert b. induction a as [|x a IH]; intros [|y b]; try done. cbn [zip_with]. f_equal; [apply Z.lxor_comm|apply IH]. Qed.

Lemma scrypt_mix_spec X : length X = 32%nat -> scrypt_mix X = block_mix X.
Proof.
  intros HX. unfold scrypt_mix, block_mix. rewrite xor_salsa8_spec by (rewrite ?length_take, ?length_drop; lia).
  rewrite (xor_comm_lists (take 16 X)). set (Y0 := salsa20_8 _).
  assert (length Y0 = 16%nat) as HY by (apply salsa20_8_length; rewrite length_zip_with, length_take, length_drop; lia).
  rewrite (take_app_length' Y0), (drop_app_length' Y0) by done. f_equal.
  rewrite xor_salsa8_spec by (rewrite ?length_drop; lia). by rewrite xor_comm_lists.
Qed.

Lemma iter_mix_length i B : length B = 32%nat -> length (Nat.iter i block_mix B) = 32%nat.
Proof. intros HB. induction i as [|i IH]; [done|]. rewrite Nat.iter_succ. by apply block_mix_length. Qed.

Lemma fill_spec n X : length X = 32%nat ->
  for_range 0 n (fun _ '(X, V) => (scrypt_mix X, V ++ [X])) (X, []) = (Nat.iter n block_mix X, map (fun i => Nat.iter i block_mix X) (seq 0 n)).
Proof.
  intros HX. apply (for_range_ind (fun i st => st = (Nat.iter i block_mix X, map (fun i => Nat.iter i block_mix X) (seq 0 i)))); [lia|done|].
  intros i [Y V] _ [= -> ->]. rewrite scrypt_mix_spec by (by apply iter_mix_length). by rewrite seq_S, map_app.
Qed.

Lemma ro_mix_length N X : length X = 32%nat -> length (ro_mix N X) = 32%nat.
Proof.
  intros HX. unfold ro_mix. set (step := fun X0 : list Z => _). generalize (iter_mix_length N X HX). generalize (Nat.iter N block_mix X).
  intros Y HY. assert (forall k, length (Nat.iter k step Y) = 32%nat) as Hk; [|apply Hk].
  intros k. induction k as [|k IH]; [done|]. rewrite Nat.iter_succ. apply block_mix_length. rewrite length_zip_with, iter_mix_length, IH by done. lia.
Qed.

Lemma scrypt_loops_spec N X : (forall a, Z.land a 1023 = a mod Z.of_nat N) -> (0 < N)%nat -> length X = 32%nat -> scrypt_loops N X = ro_mix N X.
Proof.
  intros HN Hpos HX. unfold scrypt_loops, ro_mix. rewrite fill_spec by done. set (Y := Nat.iter N block_mix X).
  assert (length Y = 32%nat) as HY by (by apply iter_mix_length). clearbody Y. set (V := map _ (seq 0 N)).
  set (step := fun X0 : list Z => block_mix (zip_with Z.lxor X0 (Nat.iter (Z.to_nat (X0.[16] mod Z.of_nat N)) block_mix X))).
  refine (proj2 (for_range_ind (fun n S => length S = 32%nat /\ S = Nat.iter n step Y) 0 N _ Y _ _ _)); [lia|done|].
  intros i S _ [HS ES]. cbv zeta. rewrite HN. pose proof (Z.mod_pos_bound (S.[16]) (Z.of_nat N) ltac:(lia)) as Hmod.
  assert (V !! Z.to_nat (S.[16] mod Z.of_nat N) = Some (Nat.iter (Z.to_nat (S.[16] mod Z.of_nat N)) block_mix X)) as ->.
  { subst V. rewrite list_lookup_fmap, lookup_seq_lt by lia. done. }
  cbn [default from_option id].
  assert (length (zip_with Z.lxor S (Nat.iter (Z.to_nat (S.[16] mod Z.of_nat N)) block_mix X)) = 32%nat) as Hz
    by (rewrite length_zip_with, iter_mix_length by done; lia).
  rewrite scrypt_mix_spec by done. split; [by apply block_mix_length|]. rewrite Nat.iter_succ, <- ES. done.
Qed.

Lemma words_length l : length (concat (map WriteLE32 l)) = (4 * length l)%nat.
Proof. induction l as [|w l IH]; [done|]. cbn [map concat]. rewrite length_app, IH. cbn [length WriteLE32]. lia. Qed.

(** C29: the proof-of-work hash is scrypt.  On the 80 bytes of a header,
    [scrypt_1024_1_1_256] is the function of RFC 7914 with [N = 1024],
    [r = 1], [p = 1] and the header as password and salt. *)
Theorem scrypt_is_rfc7914 (input : list Z) (Hlen : length input = 80%nat) :
  scrypt_1024_1_1_256 input = scrypt 1024 input input 32.
Proof.
  unfold scrypt_1024_1_1_256, scrypt. rewrite (PBKDF2_spec input input) by (try rewrite Hlen; lia).
  set (X := map _ (seq 0 32)). assert (length X = 32%nat) as HX by done. clearbody X.
  rewrite scrypt_loops_spec; [|intros a; change 1023 with (Z.ones 10); by rewrite Z.land_ones|lia|done].
  cbv zeta. apply PBKDF2_spec; [rewrite Hlen; lia| |lia|lia]. rewrite words_length, ro_mix_length by done. lia.
Qed.

Lemma scrypt_is_rfc7914_witness : length (replicate 80 0) = 80%nat /\ scrypt_1024_1_1_256 (replicate 80 0) = scrypt 1024 (replicate 80 0) (replicate 80 0) 32.
Proof. split; [reflexivity|]. exact (scrypt_is_rfc7914 (replicate 80 0) eq_refl). Defined.
