(* ===== verification/Serialize.v ===== *)
(** * Serialization ([serialize.h] and the formats of [primitives/transaction.h])

    A stream is the list of its bytes: writing returns the bytes appended,
    reading consumes a prefix or fails where the source throws.  The file
    models the integer, compact-size and variable-length encodings, vectors,
    and transactions with and without witnesses.  Every format is shown to
    be read back from what was written, whatever follows it. *)

From S2P Require Import Prelude ArithUint256 StrEncodings Uint256 Amount Tx.
From stdpp Require Import list.
#[local] Open Scope Z_scope.

(** ** Readers *)

Definition reader (A : Type) : Type := list Z -> option (A * list Z).

#[export] Instance reader_ret : MRet reader := fun _ a s => Some (a, s).
#[export] Instance reader_bind : MBind reader :=
  fun _ _ f p s => match p s with Some (a, s') => f a s' | None => None end.
Definition throw {A} : reader A := fun _ => None.

(** [s.read(.., n)]. *)
Definition read (n : nat) : reader (list Z) :=
  fun s => if (length s <? n)%nat then None else Some (take n s, drop n s).

(** ** Integers *)

(** The [n] bytes of an integer, least significant first. *)
Fixpoint le_encode (n : nat) (z : Z) : list Z :=
  match n with O => [] | S n' => u8 z :: le_encode n' (Z.shiftr z 8) end.
Fixpoint le_decode (bs : list Z) : Z :=
  match bs with [] => 0 | b :: bs' => b + 256 * le_decode bs' end.

Definition ser_writedata8 (obj : Z) : list Z := le_encode 1 obj.
Definition ser_writedata16 (obj : Z) : list Z := le_encode 2 obj.
Definition ser_writedata32 (obj : Z) : list Z := le_encode 4 obj.
Definition ser_writedata64 (obj : Z) : list Z := le_encode 8 obj.
Definition ser_readdata8 : reader Z := bs ← read 1; mret (le_decode bs).
Definition ser_readdata16 : reader Z := bs ← read 2; mret (le_decode bs).
Definition ser_readdata32 : reader Z := bs ← read 4; mret (le_decode bs).
Definition ser_readdata64 : reader Z := bs ← read 8; mret (le_decode bs).

(** ** Compact sizes *)

Definition MAX_SIZE : Z := 33554432.

Definition GetSizeOfCompactSize (nSize : Z) : Z :=
  if nSize <? 253 then 1 else if nSize <=? 65535 then 3 else if nSize <=? 4294967295 then 5 else 9.

Definition WriteCompactSize (nSize : Z) : list Z :=
  if nSize <? 253 then ser_writedata8 nSize
  else if nSize <=? 65535 then ser_writedata8 253 ++ ser_writedata16 nSize
  else if nSize <=? 4294967295 then ser_writedata8 254 ++ ser_writedata32 nSize
  else ser_writedata8 255 ++ ser_writedata64 nSize.

Definition ReadCompactSize : reader Z :=
  chSize ← ser_readdata8;
  nSizeRet ← (if chSize <? 253 then mret chSize
              else if chSize =? 253
              then n ← ser_readdata16; if n <? 253 then throw else mret n
              else if chSize =? 254
              then n ← ser_readdata32; if n <? 65536 then throw else mret n
              else n ← ser_readdata64; if n <? 4294967296 then throw else mret n);
  if MAX_SIZE <? nSizeRet then throw else mret nSizeRet.

(** ** Variable-length integers

    [WriteVarInt<I>] and [ReadVarInt<I>], where [wrap] is the conversion to
    the integer type [I] and [len] the size of the array [tmp].  The bytes are
    produced from the last to the first. *)

Fixpoint WriteVarInt_loop (room : nat) (n : Z) (first : bool) (acc : list Z) : outcome (list Z) :=
  match room with
  | O => Abort
  | S room' =>
      let acc := u8 (Z.lor (Z.land n 127) (if first then 0 else 128)) :: acc in
      if n <=? 127 then Ret acc
      else WriteVarInt_loop room' (Z.shiftr n 7 - 1) false acc
  end.
Definition WriteVarInt (sizeof : nat) (n : Z) : outcome (list Z) :=
  WriteVarInt_loop ((sizeof * 8 + 6) / 7) n true [].

Fixpoint ReadVarInt_loop (wrap : Z -> Z) (n : Z) (s : list Z) : option (Z * list Z) :=
  match s with
  | [] => None
  | chData :: s' =>
      let n := wrap (Z.lor (wrap (Z.shiftl n 7)) (Z.land chData 127)) in
      if negb (Z.land chData 128 =? 0) then ReadVarInt_loop wrap (wrap (n + 1)) s'
      else Some (n, s')
  end.
Definition ReadVarInt (wrap : Z -> Z) : reader Z := ReadVarInt_loop wrap 0.

(** ** Vectors *)

(** Vectors of bytes: the size and the bytes.  The blocks of five million
    bytes in which the source reads them are read one after the other. *)
Definition ser_bytes (v : list Z) : list Z := WriteCompactSize (Z.of_nat (length v)) ++ v.
Definition unser_bytes : reader (list Z) := nSize ← ReadCompactSize; read (Z.to_nat nSize).

(** Vectors of other elements. *)
Definition ser_vector {A} (ser : A -> list Z) (v : list A) : list Z :=
  WriteCompactSize (Z.of_nat (length v)) ++ concat (map ser v).
Fixpoint unser_n {A} (unser : reader A) (n : nat) : reader (list A) :=
  match n with O => mret [] | S n' => a ← unser; l ← unser_n unser n'; mret (a :: l) end.
Definition unser_vector {A} (unser : reader A) : reader (list A) :=
  nSize ← ReadCompactSize; unser_n unser (Z.to_nat nSize).

(** ** Transactions *)

Definition ser_COutPoint (o : COutPoint) : list Z := op_hash o ++ ser_writedata32 (op_n o).
Definition unser_COutPoint : reader COutPoint :=
  h ← read 32; n ← ser_readdata32; mret (mkOutPoint h n).

Definition ser_CTxIn (i : CTxIn) : list Z :=
  ser_COutPoint (prevout i) ++ ser_bytes (scriptSig i) ++ ser_writedata32 (nSequence i).
Definition unser_CTxIn : reader CTxIn :=
  p ← unser_COutPoint; sg ← unser_bytes; q ← ser_readdata32; mret (mkTxIn p sg q []).

Definition ser_CTxOut (o : CTxOut) : list Z := ser_writedata64 (nValue o) ++ ser_bytes (scriptPubKey o).
Definition unser_CTxOut : reader CTxOut :=
  v ← ser_readdata64; sc ← unser_bytes; mret (mkTxOut (i64 v) sc).

Definition ser_witness (w : list (list Z)) : list Z := ser_vector ser_bytes w.
Definition unser_witness : reader (list (list Z)) := unser_vector unser_bytes.

Definition SerializeTransaction (fAllowWitness : bool) (tx : CTransaction) : list Z :=
  let flags := if fAllowWitness && HasWitness tx then 1 else 0 in
  ser_writedata32 (tx_nVersion tx)
  ++ (if negb (flags =? 0) then ser_vector ser_CTxIn [] ++ ser_writedata8 flags else [])
  ++ ser_vector ser_CTxIn (vin tx)
  ++ ser_vector ser_CTxOut (tx_vout tx)
  ++ (if negb (Z.land flags 1 =? 0) then concat (map (fun i => ser_witness (scriptWitness i)) (vin tx)) else [])
  ++ ser_writedata32 (nLockTime tx).

(** [for (i..) s >> tx.vin[i].scriptWitness.stack]. *)
Fixpoint unser_witnesses (vin : list CTxIn) : reader (list CTxIn) :=
  match vin with
  | [] => mret []
  | i :: vin' =>
      w ← unser_witness; r ← unser_witnesses vin';
      mret (mkTxIn (prevout i) (scriptSig i) (nSequence i) w :: r)
  end.

(** The fields read; the hash is computed from them by the caller. *)
Definition UnserializeTransaction (fAllowWitness : bool) : reader (Z * list CTxIn * list CTxOut * Z) :=
  v ← ser_readdata32;
  ins ← unser_vector unser_CTxIn;
  '(flags, ins, outs) ←
    (if (match ins with [] => true | _ => false end) && fAllowWitness
     then flags ← ser_readdata8;
          if negb (flags =? 0)
          then ins ← unser_vector unser_CTxIn; outs ← unser_vector unser_CTxOut; mret (flags, ins, outs)
          else mret (flags, [], [])
     else outs ← unser_vector unser_CTxOut; mret (0, ins, outs));
  '(flags, ins) ←
    (if negb (Z.land flags 1 =? 0) && fAllowWitness
     then ins ← unser_witnesses ins; mret (Z.lxor flags 1, ins)
     else mret (flags, ins));
  if negb (flags =? 0) then throw
  else lock ← ser_readdata32; mret (i32 v, ins, outs, lock).

(** [GetSerializeSize(tx, SER_NETWORK, PROTOCOL_VERSION | SERIALIZE_TRANSACTION_NO_WITNESS)]
    and with witnesses. *)
Definition GetSerializeSize (fAllowWitness : bool) (tx : CTransaction) : Z :=
  Z.of_nat (length (SerializeTransaction fAllowWitness tx)).

Definition WITNESS_SCALE_FACTOR : Z := 4.
Definition GetTransactionWeight (tx : CTransaction) : Z :=
  GetSerializeSize false tx * (WITNESS_SCALE_FACTOR - 1) + GetSerializeSize true tx.

(** ** Reading back what was written

    [reads p bs a]: from a stream that begins with [bs], [p] returns [a] and
    leaves what follows. *)

Definition reads {A} (p : reader A) (bs : list Z) (a : A) : Prop := forall rest, p (bs ++ rest) = Some (a, rest).

Create HintDb reads.

Lemma reads_ret {A} (a : A) : reads (mret a) [] a.
Proof. done. Qed.

Lemma reads_bind {A B} (p : reader A) (f : A -> reader B) b1 b2 a b :
  reads p b1 a -> reads (f a) b2 b -> reads (mbind f p) (b1 ++ b2) b.
Proof.
  intros Hp Hf rest. rewrite <- app_assoc. unfold mbind, reader_bind. rewrite Hp. apply Hf.
Qed.

(** Where a computation reads nothing itself. *)
Lemma reads_bind_ret {A B} (p : reader A) (f : A -> reader B) b1 a b :
  reads p b1 a -> f a = mret b -> reads (mbind f p) b1 b.
Proof. intros Hp Hf. rewrite <- (app_nil_r b1). eapply reads_bind; [done|]. rewrite Hf. apply reads_ret. Qed.

Lemma reads_read bs : reads (read (length bs)) bs bs.
Proof.
  intros rest. unfold read. rewrite length_app. rewrite (proj2 (Nat.ltb_ge _ _)) by lia.
  by rewrite take_app_length, drop_app_length.
Qed.

Lemma le_encode_length n z : length (le_encode n z) = n.
Proof. revert z. induction n as [|n IH]; intros z; [done|]. cbn [le_encode length]. by rewrite IH. Qed.

Lemma le_decode_encode n z : le_decode (le_encode n z) = z mod 256 ^ Z.of_nat n.
Proof.
  revert z. induction n as [|n IH]; intros z; cbn [le_encode le_decode]; [by rewrite Z.mod_1_r|].
  rewrite IH, Z.shiftr_div_pow2 by lia. change (2 ^ 8) with 256. unfold wrapU. change (2 ^ 8) with 256.
  rewrite Nat2Z.inj_succ, Z.pow_succ_r by lia. by rewrite Z.rem_mul_r by lia.
Qed.

Lemma reads_le n z : 0 <= z < 256 ^ Z.of_nat n -> reads (bs ← read n; mret (le_decode bs)) (le_encode n z) z.
Proof.
  intros Hz. apply reads_bind_ret with (le_encode n z).
  - rewrite <- (le_encode_length n z) at 1. apply reads_read.
  - by rewrite le_decode_encode, Z.mod_small.
Qed.

(** Signed integers are written as the unsigned ones they convert to. *)
Lemma le_encode_mod n z : le_encode n (z mod 256 ^ Z.of_nat n) = le_encode n z.
Proof.
  revert z. induction n as [|n IH]; intros z; [done|]. cbn [le_encode].
  rewrite Nat2Z.inj_succ, Z.pow_succ_r by lia. rewrite Z.rem_mul_r by lia.
  assert (0 < 256 ^ Z.of_nat n) by (apply Z.pow_pos_nonneg; lia). pose proof (Z.mod_pos_bound z 256 ltac:(lia)).
  f_equal.
  - unfold wrapU. change (2 ^ 8) with 256. rewrite (Z.mul_comm 256), Z_mod_plus_full. apply Z.mod_mod. lia.
  - rewrite !Z.shiftr_div_pow2 by lia. change (2 ^ 8) with 256. rewrite (Z.mul_comm 256), Z.div_add, Z.div_small by lia.
    rewrite Z.add_0_l. apply IH.
Qed.

Lemma reads_8 z : inU 8 z -> reads ser_readdata8 (ser_writedata8 z) z.
Proof. apply (reads_le 1). Qed.
Lemma reads_16 z : inU 16 z -> reads ser_readdata16 (ser_writedata16 z) z.
Proof. apply (reads_le 2). Qed.
Lemma reads_32 z : inU 32 z -> reads ser_readdata32 (ser_writedata32 z) z.
Proof. apply (reads_le 4). Qed.
Lemma reads_64 z : inU 64 z -> reads ser_readdata64 (ser_writedata64 z) z.
Proof. apply (reads_le 8). Qed.

Lemma reads_32_mod z : reads ser_readdata32 (ser_writedata32 z) (u32 z).
Proof. unfold ser_writedata32. rewrite <- le_encode_mod. apply (reads_le 4). by apply Z.mod_pos_bound. Qed.
Lemma reads_64_mod z : reads ser_readdata64 (ser_writedata64 z) (u64 z).
Proof. unfold ser_writedata64. rewrite <- le_encode_mod. apply (reads_le 8). by apply Z.mod_pos_bound. Qed.

Lemma reads_CompactSize n : 0 <= n <= MAX_SIZE -> reads ReadCompactSize (WriteCompactSize n) n.
Proof.
  unfold MAX_SIZE. intros Hn. unfold ReadCompactSize, WriteCompactSize.
  assert (forall b1 b2 ch p, reads ser_readdata8 b1 ch -> reads p b2 n ->
    (if ch <? 253 then mret ch else if ch =? 253 then m ← ser_readdata16; if m <? 253 then throw else mret m
     else if ch =? 254 then m ← ser_readdata32; if m <? 65536 then throw else mret m
     else m ← ser_readdata64; if m <? 4294967296 then throw else mret m) = p -> reads ReadCompactSize (b1 ++ b2) n) as Hgo.
  { intros b1 b2 ch p H1 H2 E. eapply reads_bind; [exact H1|]. rewrite E. eapply reads_bind_ret; [exact H2|].
    unfold MAX_SIZE. destruct (Z.ltb_spec 33554432 n); [lia|done]. }
  destruct (Z.ltb_spec n 253) as [L|L].
  { rewrite <- (app_nil_r (ser_writedata8 n)). eapply Hgo; [apply reads_8; unfold inU; lia|apply (reads_ret n)|].
    by rewrite (proj2 (Z.ltb_lt n 253)). }
  assert (forall p : reader Z, forall b k, reads p b n -> k <= n -> reads (m ← p; if m <? k then throw else mret m) b n) as Hchk.
  { intros p b k Hp Hk. eapply reads_bind_ret; [exact Hp|]. by rewrite (proj2 (Z.ltb_ge n k)). }
  destruct (Z.leb_spec n 65535).
  { eapply Hgo; [apply reads_8; by unfold inU| |reflexivity]. apply Hchk; [|lia]. apply reads_16. unfold inU. lia. }
  destruct (Z.leb_spec n 4294967295); [|lia].
  eapply Hgo; [apply reads_8; by unfold inU| |reflexivity]. apply Hchk; [|lia]. apply reads_32. unfold inU. lia.
Qed.

Definition sized {A} (v : list A) : Prop := Z.of_nat (length v) <= MAX_SIZE.

Lemma reads_bytes v : sized v -> reads unser_bytes (ser_bytes v) v.
Proof.
  intros Hv. eapply reads_bind; [apply reads_CompactSize; unfold sized in Hv; lia|]. rewrite Nat2Z.id. apply reads_read.
Qed.

Lemma reads_n {A} (p : reader A) (ser : A -> list Z) v : Forall (fun a => reads p (ser a) a) v ->
  reads (unser_n p (length v)) (concat (map ser v)) v.
Proof.
  induction 1 as [|a v Ha Hv IH]; [apply reads_ret|]. cbn [length unser_n map concat].
  eapply reads_bind; [exact Ha|]. by eapply reads_bind_ret.
Qed.

Lemma reads_vector {A} (p : reader A) (ser : A -> list Z) v : sized v -> Forall (fun a => reads p (ser a) a) v ->
  reads (unser_vector p) (ser_vector ser v) v.
Proof.
  intros Hs Hv. eapply reads_bind; [apply reads_CompactSize; unfold sized in Hs; lia|]. rewrite Nat2Z.id. by apply reads_n.
Qed.

#[export] Hint Resolve reads_8 reads_16 reads_32 reads_64 reads_bytes : reads.

Lemma WriteCompactSize_length n : 0 <= n -> Z.of_nat (length (WriteCompactSize n)) = GetSizeOfCompactSize n.
Proof.
  intros. unfold WriteCompactSize, GetSizeOfCompactSize. zbool; try lia; unfold ser_writedata8, ser_writedata16, ser_writedata32, ser_writedata64;
    by rewrite ?length_app, ?le_encode_length.
Qed.

(** *** Variable-length integers *)

Lemma varint_byte a (first : bool) : 0 <= a < 128 ->
  let b := u8 (Z.lor a (if first then 0 else 128)) in
  Z.land b 127 = a /\ negb (Z.land b 128 =? 0) = negb first.
Proof.
  intros Ha. cbv zeta. split; destruct first.
  - apply Z.eqb_eq. refine (check_below 128 (fun a => Z.land (u8 (Z.lor a 0)) 127 =? a) a _ Ha). by vm_compute.
  - apply Z.eqb_eq. refine (check_below 128 (fun a => Z.land (u8 (Z.lor a 128)) 127 =? a) a _ Ha). by vm_compute.
  - apply negb_false_iff. refine (check_below 128 (fun a => Z.land (u8 (Z.lor a 0)) 128 =? 0) a _ Ha). by vm_compute.
  - refine (check_below 128 (fun a => negb (Z.land (u8 (Z.lor a 128)) 128 =? 0)) a _ Ha). by vm_compute.
Qed.

(** Reading the byte written for the last seven bits of [n]. *)
Lemma varint_step wrap M n (first : bool) m rest : (forall z, 0 <= z < M -> wrap z = z) ->
  n + 1 < M \/ first = true -> 0 <= n < M -> 0 <= m -> m * 128 + n mod 128 = n ->
  ReadVarInt_loop wrap m (u8 (Z.lor (Z.land n 127) (if first then 0 else 128)) :: rest) =
  if first then Some (n, rest) else ReadVarInt_loop wrap (n + 1) rest.
Proof.
  intros Hwr Hf HM Hm Em. pose proof (Z.mod_pos_bound n 128 ltac:(lia)) as Hmod.
  rewrite (land_mask n 127 7) by done. change (2 ^ 7) with 128.
  destruct (varint_byte (n mod 128) first Hmod) as [Hlow Hhigh]. cbv zeta in Hlow, Hhigh.
  cbn [ReadVarInt_loop]. rewrite Hlow, Hhigh, Z.shiftl_mul_pow2 by lia. change (2 ^ 7) with 128.
  rewrite (Hwr (m * 128)) by lia. rewrite (lor_mul_l m _ 7) by lia. change (2 ^ 7) with 128. rewrite Em, (Hwr n) by lia.
  destruct first; [done|]. cbn [negb]. rewrite Hwr; [done|]. destruct Hf; [lia|done].
Qed.

(** What is written for [n] is read from [0] as [n]; with the continuation
    bits set it is read as [n + 1] and the reading goes on. *)
Lemma varint_loop wrap M room n (first : bool) acc : (forall z, 0 <= z < M -> wrap z = z) ->
  0 <= n < 128 ^ Z.of_nat (S room) -> n + 1 < M \/ first = true -> n < M ->
  exists bs, WriteVarInt_loop (S room) n first acc = Ret (bs ++ acc) /\ forall rest,
    ReadVarInt_loop wrap 0 (bs ++ rest) =
    if first then Some (n, rest) else ReadVarInt_loop wrap (n + 1) rest.
Proof.
  intros Hwr. revert n first acc. induction room as [|room IH]; intros n first acc Hn Hf HM.
  - change (128 ^ Z.of_nat 1) with 128 in Hn. cbn [WriteVarInt_loop]. destruct (Z.leb_spec n 127); [|lia].
    eexists [_]. split; [done|]. intros rest. apply (varint_step wrap M); try (done || lia). rewrite Z.mod_small; lia.
  - remember (S room) as r eqn:Er. cbn [WriteVarInt_loop]. destruct (Z.leb_spec n 127).
    { eexists [_]. split; [done|]. intros rest. apply (varint_step wrap M); try (done || lia). rewrite Z.mod_small; lia. }
    pose proof (Z.div_mod n 128 ltac:(lia)). pose proof (Z.mod_pos_bound n 128 ltac:(lia)).
    rewrite Z.shiftr_div_pow2 by lia. change (2 ^ 7) with 128.
    assert (1 <= n / 128) by (apply Z.div_le_lower_bound; lia).
    rewrite Nat2Z.inj_succ, Z.pow_succ_r in Hn by lia.
    assert (n / 128 < 128 ^ Z.of_nat r) by (apply Z.div_lt_upper_bound; lia).
    edestruct (IH (n / 128 - 1) false) as (bs & E & Hr); [lia|left; lia|lia|]. eexists (bs ++ [_]).
    rewrite E, <- app_assoc. split; [done|]. intros rest. rewrite <- app_assoc, Hr.
    replace (n / 128 - 1 + 1) with (n / 128) by lia. apply (varint_step wrap M); (done || lia).
Qed.

Lemma reads_VarInt wrap M sizeof n : (forall z, 0 <= z < M -> wrap z = z) -> 0 <= n < M ->
  forall room, ((sizeof * 8 + 6) / 7 = S room)%nat -> M <= 128 ^ Z.of_nat (S room) ->
  exists bs, WriteVarInt sizeof n = Ret bs /\ reads (ReadVarInt wrap) bs n.
Proof.
  intros Hw Hn room Hroom HM. destruct (varint_loop wrap M room n true [] Hw) as (bs & E & Hr); [lia|by right|lia|].
  exists bs. rewrite app_nil_r in E. unfold WriteVarInt. rewrite Hroom. split; [exact E|]. intros rest. apply Hr.
Qed.

Lemma reads_VarInt_u32 n : inU 32 n -> exists bs, WriteVarInt 4 n = Ret bs /\ reads (ReadVarInt (wrapU 32)) bs n.
Proof. intros. by apply (reads_VarInt _ (2 ^ 32)) with 4%nat; [apply wrapU_small| | |]. Qed.

Lemma reads_VarInt_i32 n : 0 <= n < 2 ^ 31 -> exists bs, WriteVarInt 4 n = Ret bs /\ reads (ReadVarInt (wrapS 32)) bs n.
Proof. intros. apply (reads_VarInt _ (2 ^ 31)) with 4%nat; [|done|done|done]. intros. apply wrapS_small; [lia|]. unfold inS. pow2_cbv. lia. Qed.

Lemma reads_VarInt_u64 n : inU 64 n -> exists bs, WriteVarInt 8 n = Ret bs /\ reads (ReadVarInt (wrapU 64)) bs n.
Proof. intros. by apply (reads_VarInt _ (2 ^ 64)) with 9%nat; [apply wrapU_small| | |]. Qed.

(** *** Transactions *)

Definition wf_txin (i : CTxIn) : Prop :=
  length (op_hash (prevout i)) = 32%nat /\ inU 32 (op_n (prevout i)) /\ sized (scriptSig i) /\ inU 32 (nSequence i) /\
  sized (scriptWitness i) /\ Forall sized (scriptWitness i).
Definition wf_txout (o : CTxOut) : Prop := inS 64 (nValue o) /\ sized (scriptPubKey o).
Record wf_tx (tx : CTransaction) : Prop := {
  wf_version : inS 32 (tx_nVersion tx);
  wf_locktime : inU 32 (nLockTime tx);
  wf_vin : sized (vin tx) /\ Forall wf_txin (vin tx);
  wf_vout : sized (tx_vout tx) /\ Forall wf_txout (tx_vout tx)
}.

(** An input as it is read, before its witness. *)
Definition strip (i : CTxIn) : CTxIn := mkTxIn (prevout i) (scriptSig i) (nSequence i) [].

Lemma reads_CTxIn i : wf_txin i -> reads unser_CTxIn (ser_CTxIn i) (strip i).
Proof.
  intros (Hh & Hn & Hs & Hq & _). eapply reads_bind.
  - eapply reads_bind; [rewrite <- Hh; apply reads_read|]. by eapply reads_bind_ret; [apply reads_32|].
  - eapply reads_bind; [by apply reads_bytes|]. eapply reads_bind_ret; [by apply reads_32|]. by destruct i as [[]].
Qed.

Lemma reads_CTxOut o : wf_txout o -> reads unser_CTxOut (ser_CTxOut o) o.
Proof.
  intros (Hv & Hs). eapply reads_bind; [apply reads_64_mod|]. eapply reads_bind_ret; [by apply reads_bytes|].
  rewrite wrapS_wrapU, wrapS_small by (done || lia). by destruct o.
Qed.

Lemma reads_vin v : sized v -> Forall wf_txin v ->
  reads (unser_vector unser_CTxIn) (ser_vector ser_CTxIn v) (map strip v).
Proof.
  intros Hs Hv. unfold ser_vector. rewrite <- (length_map strip).
  replace (map ser_CTxIn v) with (map ser_CTxIn (map strip v)) by (rewrite map_map; by apply map_ext).
  apply (reads_vector unser_CTxIn ser_CTxIn (map strip v)).
  - unfold sized in *. by rewrite length_map.
  - apply Forall_map. eapply Forall_impl; [exact Hv|]. cbn. intros i Hi. by apply (reads_CTxIn i).
Qed.

Lemma reads_witnesses v : Forall wf_txin v ->
  reads (unser_witnesses (map strip v)) (concat (map (fun i => ser_witness (scriptWitness i)) v)) v.
Proof.
  induction 1 as [|i v (_ & _ & _ & _ & Hs & Hw) Hv IH]; [apply reads_ret|]. cbn [map unser_witnesses concat].
  eapply reads_bind.
  - apply reads_vector; [exact Hs|]. eapply Forall_impl; [exact Hw|]. apply reads_bytes.
  - eapply reads_bind_ret; [exact IH|]. by destruct i.
Qed.

(** What is read back from a transaction: everything, or everything but the
    witnesses when they are not written. *)
Definition tx_fields (fAllowWitness : bool) (tx : CTransaction) : Z * list CTxIn * list CTxOut * Z :=
  (tx_nVersion tx, if fAllowWitness then vin tx else map strip (vin tx), tx_vout tx, nLockTime tx).

Lemma no_witness tx : HasWitness tx = false -> map strip (vin tx) = vin tx.
Proof.
  unfold HasWitness. induction (vin tx) as [|i v IH]; [done|]. cbn [existsb map].
  intros [Hi Hv]%orb_false_iff. rewrite IH by done. f_equal. destruct i as [? ? ? w]. cbn in Hi. by destruct w.
Qed.

Lemma reads_vout v : sized v -> Forall wf_txout v -> reads (unser_vector unser_CTxOut) (ser_vector ser_CTxOut v) v.
Proof. intros Hs Hv. apply reads_vector; [done|]. eapply Forall_impl; [exact Hv|]. apply reads_CTxOut. Qed.

(** The basic format. *)
Lemma reads_tx_basic fAllowWitness tx : wf_tx tx -> fAllowWitness && HasWitness tx = false ->
  vin tx <> [] \/ fAllowWitness = false ->
  reads (UnserializeTransaction fAllowWitness) (SerializeTransaction fAllowWitness tx) (tx_fields fAllowWitness tx).
Proof.
  intros [Hv Hl [Hsi Hi] [Hso Ho]] Hw Hne. unfold SerializeTransaction. rewrite Hw.
  change (Z.land 0 1 =? 0) with true. change (0 =? 0) with true. cbn [negb app].
  eapply reads_bind; [apply reads_32_mod|]. eapply reads_bind; [by apply reads_vin|].
  assert ((match map strip (vin tx) with [] => true | _ => false end) && fAllowWitness = false) as ->.
  { destruct Hne as [Hne| ->]; [|apply andb_false_r]. by destruct (vin tx). }
  eapply reads_bind; [eapply reads_bind_ret; [by apply reads_vout|reflexivity]|].
  change (Z.land 0 1 =? 0) with true. cbn [negb andb].
  rewrite <- (app_nil_l (ser_writedata32 (nLockTime tx))). eapply reads_bind; [apply reads_ret|].
  change (0 =? 0) with true. cbn [negb]. eapply reads_bind_ret; [by apply reads_32|].
  unfold tx_fields. rewrite wrapS_wrapU, wrapS_small by (done || lia). do 4 f_equal.
  destruct fAllowWitness; [|done]. by apply no_witness.
Qed.

(** The extended format. *)
Lemma reads_tx_witness tx : wf_tx tx -> HasWitness tx = true ->
  reads (UnserializeTransaction true) (SerializeTransaction true tx) (tx_fields true tx).
Proof.
  intros [Hv Hl [Hsi Hi] [Hso Ho]] Hw. unfold SerializeTransaction. rewrite Hw.
  change (Z.land (if true && true then 1 else 0) 1 =? 0) with false. change ((if true && true then 1 else 0) =? 0) with false. cbn [negb andb].
  eapply reads_bind; [apply reads_32_mod|]. rewrite <- app_assoc.
  eapply reads_bind; [apply (reads_vin []); [by unfold sized|constructor]|]. cbn [map andb].
  assert (forall b1 b2 b3 b4, ser_writedata8 1 ++ b1 ++ b2 ++ b3 ++ b4 = (ser_writedata8 1 ++ b1 ++ b2) ++ b3 ++ b4) as ->.
  { intros. by rewrite <- !app_assoc. }
  eapply reads_bind.
  { eapply reads_bind; [by apply reads_8|]. change (1 =? 0) with false. cbn [negb]. eapply reads_bind; [by apply reads_vin|].
    eapply reads_bind_ret; [by apply reads_vout|reflexivity]. }
  change (Z.land 1 1 =? 0) with false. cbn [negb andb]. eapply reads_bind.
  { eapply reads_bind_ret; [by apply reads_witnesses|reflexivity]. }
  change (Z.lxor 1 1 =? 0) with true. cbn [negb]. eapply reads_bind_ret; [by apply reads_32|].
  unfold tx_fields. by rewrite wrapS_wrapU, wrapS_small by (done || lia).
Qed.

Lemma reads_tx fAllowWitness tx : wf_tx tx -> vin tx <> [] \/ fAllowWitness = false ->
  reads (UnserializeTransaction fAllowWitness) (SerializeTransaction fAllowWitness tx) (tx_fields fAllowWitness tx).
Proof.
  intros Hwf Hvin. destruct (fAllowWitness && HasWitness tx) eqn:E; [|by apply reads_tx_basic].
  apply andb_true_iff in E as [-> E]. by apply reads_tx_witness.
Qed.

(** ** Theorems *)

(** A transaction is read back from its serialization, whatever follows it
    in the stream: all of it in the format with witnesses, everything but the
    witnesses in the one without.  With witnesses allowed this needs an
    input, since an empty list of inputs is the marker of the extended
    format. *)
Theorem transaction_roundtrip (fAllowWitness : bool) (tx : CTransaction) (rest : list Z)
  (Hwf : wf_tx tx) (Hvin : vin tx <> [] \/ fAllowWitness = false) :
  UnserializeTransaction fAllowWitness (SerializeTransaction fAllowWitness tx ++ rest) =
  Some (tx_fields fAllowWitness tx, rest).
Proof. by apply reads_tx. Qed.

Definition demo_wtx : CTransaction :=
  mkTransaction (-2) [mkTxIn (mkOutPoint (repeat 7 32) 1) [1; 2] SEQUENCE_FINAL [[5; 6]; []]] [mkTxOut 123456789 [118; 169]] 77 (repeat 9 32).

Lemma transaction_roundtrip_witness :
  UnserializeTransaction true (SerializeTransaction true demo_wtx ++ [1; 2; 3]) =
  Some (-2, vin demo_wtx, tx_vout demo_wtx, 77, [1; 2; 3]).
Proof.
  apply (transaction_roundtrip true demo_wtx [1; 2; 3]); [|by left].
  split; [by vm_compute|by vm_compute| |].
  - split; [by vm_compute|]. apply Forall_cons_2; [|apply Forall_nil_2]. split_and!; [by vm_compute..|].
    repeat (apply Forall_cons_2; [by vm_compute|]). apply Forall_nil_2.
  - split; [by vm_compute|]. apply Forall_cons_2; [|apply Forall_nil_2]. split; by vm_compute.
Defined.
