(* ===== verification/CheckTx.v ===== *)
(** * Checks of a transaction ([consensus/validation.h] and
      [CheckTransaction] in [validation.cpp])

    The record of what is wrong with a block or transaction, and the checks of
    a transaction that need no context. *)

From S2P Require Import Prelude ArithUint256 StrEncodings Uint256 Amount Tx Serialize.
From stdpp Require Import list.
#[local] Open Scope Z_scope.

(** ** Bodies with early returns

    [Continue] goes on, [Return] is a [return] statement, [Crash] a failed
    assertion or an exception. *)

Inductive run (R A : Type) : Type :=
| Continue (a : A)
| Return (r : R)
| Crash.
Arguments Continue {R A} a.
Arguments Return {R A} r.
Arguments Crash {R A}.

#[export] Instance run_ret {R} : MRet (run R) := fun _ => Continue.
#[export] Instance run_bind {R} : MBind (run R) :=
  fun _ _ f x => match x with Continue a => f a | Return r => Return r | Crash => Crash end.

Definition lift {R A} (o : outcome A) : run R A := match o with Ret a => Continue a | Abort => Crash end.
Definition finish {R} (x : run R R) : outcome R := match x with Continue r | Return r => Ret r | Crash => Abort end.

(** ** [CValidationState] *)

Definition REJECT_INVALID : Z := 0x10.
Definition REJECT_NONSTANDARD : Z := 0x40.

Inductive mode_state := MODE_VALID | MODE_INVALID | MODE_ERROR.
#[export] Instance mode_state_eq_dec : EqDecision mode_state.
Proof. solve_decision. Defined.

Record CValidationState := mkState {
  mode : mode_state;
  nDoS : Z;
  strRejectReason : list Z;
  chRejectCode : Z;
  corruptionPossible : bool;
  strDebugMessage : list Z
}.

Definition CValidationState_new : CValidationState := mkState MODE_VALID 0 [] 0 false [].

(** The result of a check: what it returns, and the state it leaves. *)
Abbreviation verdict := (bool * CValidationState)%type.

Definition DoS (level : Z) (ret : bool) (code : Z) (reason : list Z) (corruptionIn : bool) (debug : list Z)
    (st : CValidationState) : verdict :=
  match mode st with
  | MODE_ERROR => (ret, mkState MODE_ERROR (nDoS st) reason code corruptionIn debug)
  | _ => (ret, mkState MODE_INVALID (i32 (nDoS st + level)) reason code corruptionIn debug)
  end.
Definition Invalid (ret : bool) (code : Z) (reason debug : list Z) (st : CValidationState) : verdict :=
  DoS 0 ret code reason false debug st.
Definition Error (reason : list Z) (st : CValidationState) : verdict :=
  (false, mkState MODE_ERROR (nDoS st) (match mode st with MODE_VALID => reason | _ => strRejectReason st end)
            (chRejectCode st) (corruptionPossible st) (strDebugMessage st)).

Definition state_IsValid (st : CValidationState) : bool := bool_decide (mode st = MODE_VALID).
Definition state_IsInvalid (st : CValidationState) : bool := bool_decide (mode st = MODE_INVALID).
Definition state_IsError (st : CValidationState) : bool := bool_decide (mode st = MODE_ERROR).

(** ** [CheckTransaction] *)

Definition MAX_BLOCK_BASE_SIZE : Z := 1000000.

Fixpoint check_outputs (vout : list CTxOut) (nValueOut : Z) (st : CValidationState) : run verdict unit :=
  match vout with
  | [] => Continue tt
  | txout :: vout' =>
      if nValue txout <? 0 then Return (DoS 100 false REJECT_INVALID (str "bad-txns-vout-negative") false [] st)
      else if MAX_MONEY <? nValue txout then Return (DoS 100 false REJECT_INVALID (str "bad-txns-vout-toolarge") false [] st)
      else let nValueOut := i64 (nValueOut + nValue txout) in
           if negb (MoneyRange nValueOut)
           then Return (DoS 100 false REJECT_INVALID (str "bad-txns-txouttotal-toolarge") false [] st)
           else check_outputs vout' nValueOut st
  end.

(** [std::set<COutPoint>::insert]: elements neither of which is less are the
    same. *)
Definition set_insert (x : COutPoint) (s : list COutPoint) : bool * list COutPoint :=
  if existsb (fun y => negb (COutPoint_lt x y) && negb (COutPoint_lt y x)) s then (false, s) else (true, x :: s).

Fixpoint check_duplicates (vin : list CTxIn) (vInOutPoints : list COutPoint) (st : CValidationState) : run verdict unit :=
  match vin with
  | [] => Continue tt
  | txin :: vin' =>
      let '(inserted, s) := set_insert (prevout txin) vInOutPoints in
      if negb inserted then Return (DoS 100 false REJECT_INVALID (str "bad-txns-inputs-duplicate") false [] st)
      else check_duplicates vin' s st
  end.

Fixpoint check_prevouts (vin : list CTxIn) (st : CValidationState) : run verdict unit :=
  match vin with
  | [] => Continue tt
  | txin :: vin' =>
      if COutPoint_IsNull (prevout txin)
      then Return (DoS 10 false REJECT_INVALID (str "bad-txns-prevout-null") false [] st)
      else check_prevouts vin' st
  end.

Definition CheckTransaction (tx : CTransaction) (st : CValidationState) (fCheckDuplicateInputs : bool) : outcome verdict :=
  finish (
    if (length (vin tx) =? 0)%nat then Return (DoS 10 false REJECT_INVALID (str "bad-txns-vin-empty") false [] st)
    else if (length (tx_vout tx) =? 0)%nat then Return (DoS 10 false REJECT_INVALID (str "bad-txns-vout-empty") false [] st)
    else if MAX_BLOCK_BASE_SIZE <? GetSerializeSize false tx
    then Return (DoS 100 false REJECT_INVALID (str "bad-txns-oversize") false [] st)
    else
      _ ← check_outputs (tx_vout tx) 0 st;
      _ ← (if fCheckDuplicateInputs then check_duplicates (vin tx) [] st else Continue tt);
      _ ← (if IsCoinBase tx
           then txin ← lift (deref (vin tx !! 0%nat));
                if (length (scriptSig txin) <? 2)%nat || (100 <? length (scriptSig txin))%nat
                then Return (DoS 100 false REJECT_INVALID (str "bad-cb-length") false [] st) else Continue tt
           else check_prevouts (vin tx) st);
      Continue (true, st)).

(** ** Lemmas *)

Lemma memcmp_opp a b : length a = length b -> memcmp b a = - memcmp a b.
Proof.
  revert b. induction a as [|x a IH]; intros [|y b] Hl; try done. cbn [memcmp]. rewrite Z.eqb_sym.
  destruct (Z.eqb_spec x y); [apply IH; by injection Hl|lia].
Qed.

Lemma memcmp_eq a b : length a = length b -> memcmp a b = 0 -> a = b.
Proof.
  intros Hl Hc. pose proof (blob_eq_spec a b Hl) as H. unfold blob_eq, Compare in H. rewrite Hc in H. cbn in H.
  symmetry in H. by apply bool_decide_eq_true in H.
Qed.

Lemma outpoint_same a b : length (op_hash a) = length (op_hash b) ->
  negb (COutPoint_lt a b) && negb (COutPoint_lt b a) = bool_decide (a = b).
Proof.
  intros Hl. unfold COutPoint_lt, Compare. rewrite (memcmp_opp (op_hash a) (op_hash b)) by done.
  destruct a as [h n], b as [h' n']. cbn [op_hash op_n] in *. destruct (Z.eq_dec (memcmp h h') 0) as [E|E].
  - apply memcmp_eq in E as ->; [|done]. rewrite memcmp_refl.
    cbn. destruct (Z.ltb_spec n n'), (Z.ltb_spec n' n); cbn; symmetry.
    1-3: apply bool_decide_eq_false; intros [= ->]; lia.
    apply bool_decide_eq_true. f_equal. lia.
  - rewrite (bool_decide_false (mkOutPoint h n = _)).
    + destruct (Z.ltb_spec (memcmp h h') 0); [done|]. destruct (Z.ltb_spec (- memcmp h h') 0); [|lia]. cbn. by rewrite andb_false_r.
    + intros [= -> ->]. apply E, memcmp_refl.
Qed.

(** A rejection: the check returned false and the state says why. *)
Definition rejected (st : CValidationState) (v : verdict) : Prop :=
  v.1 = false /\ strRejectReason v.2 <> [] /\ chRejectCode v.2 = REJECT_INVALID /\
  (mode st <> MODE_ERROR -> mode v.2 = MODE_INVALID /\ (nDoS v.2 = i32 (nDoS st + 10) \/ nDoS v.2 = i32 (nDoS st + 100))).

Lemma DoS_rejected level reason st : level = 10 \/ level = 100 -> reason <> [] ->
  rejected st (DoS level false REJECT_INVALID reason false [] st).
Proof.
  intros Hl Hr. unfold rejected, DoS. destruct (mode st); cbn; split_and!; try done; intros _; (split; [done|]);
    destruct Hl as [-> | ->]; auto.
Qed.

(** A check that goes on exactly when [P] holds, and rejects otherwise. *)
Definition decides (st : CValidationState) (x : run verdict unit) (P : Prop) : Prop :=
  (x = Continue tt /\ P) \/ (exists v, x = Return v /\ rejected st v /\ ~ P).

Lemma check_outputs_spec vout acc st : 0 <= acc <= MAX_MONEY ->
  decides st (check_outputs vout acc st) (Forall (fun o => 0 <= nValue o <= MAX_MONEY) vout /\ acc + sum_values vout <= MAX_MONEY).
Proof.
  revert acc. induction vout as [|o vout IH]; intros acc Hacc; cbn [check_outputs sum_values fold_right].
  { left. split; [done|]. split; [constructor|lia]. }
  fold (sum_values vout). destruct (Z.ltb_spec (nValue o) 0); [|destruct (Z.ltb_spec MAX_MONEY (nValue o))].
  1-2: right; eexists; split; [done|]; split; [apply DoS_rejected; [by right|done]|]; intros [[? _]%Forall_cons _]; lia.
  rewrite money_add_i64 by lia. destruct (MoneyRange (acc + nValue o)) eqn:Em; cbn [negb].
  - apply MoneyRange_spec in Em. destruct (IH (acc + nValue o) Em) as [[-> [Hf Hs]]|(v & -> & Hr & Hn)].
    + left. split; [done|]. split; [constructor; [lia|done]|lia].
    + right. exists v. split; [done|]. split; [done|]. intros [[_ Hf]%Forall_cons Hs]. apply Hn. split; [done|lia].
  - right. eexists. split; [done|]. split; [apply DoS_rejected; [by right|done]|]. intros [[Ho Hf]%Forall_cons Hs].
    assert (MoneyRange (acc + nValue o) = true); [|congruence]. apply MoneyRange_spec.
    pose proof (sum_values_nonneg vout ltac:(eapply Forall_impl; [exact Hf|]; cbn; lia)). lia.
Qed.

Lemma check_duplicates_spec vin s st : Forall (fun i => length (op_hash (prevout i)) = 32%nat) vin ->
  Forall (fun o => length (op_hash o) = 32%nat) s ->
  decides st (check_duplicates vin s st) (NoDup (map prevout vin) /\ Forall (fun i => ~ prevout i ∈ s) vin).
Proof.
  intros Hv. revert s. induction Hv as [|i vin Hi Hv IH]; intros s Hs; cbn [check_duplicates map].
  { left. split; [done|]. split; constructor. }
  unfold set_insert. replace (existsb _ s) with (bool_decide (prevout i ∈ s)).
  2:{ induction Hs as [|o s Ho Hs IHs]; [done|]. cbn [existsb]. rewrite outpoint_same, <- IHs by congruence.
      rewrite <- bool_decide_or. apply bool_decide_ext. apply elem_of_cons. }
  case_bool_decide as Hin; cbn [negb].
  - right. eexists. split; [done|]. split; [apply DoS_rejected; [by right|done]|]. by intros [_ [? _]%Forall_cons].
  - assert (Forall (fun o => length (op_hash o) = 32%nat) (prevout i :: s)) as Hs' by (by constructor).
    assert (NoDup (map prevout vin) /\ Forall (fun j => ~ prevout j ∈ prevout i :: s) vin <->
      NoDup (prevout i :: map prevout vin) /\ Forall (fun j => ~ prevout j ∈ s) (i :: vin)) as Hiff.
    { rewrite NoDup_cons, Forall_cons. split.
      - intros [Hn Hf]. split_and!; [|done|done|].
        + intros Hi'. apply list_elem_of_fmap in Hi' as (j & E & Hj). rewrite Forall_forall in Hf. apply (Hf j Hj). rewrite <- E. apply list_elem_of_here.
        + eapply Forall_impl; [exact Hf|]. cbn. intros j Hj Hjs. apply Hj. by apply list_elem_of_further.
      - intros [[Hni Hn] [_ Hf]]. split; [done|]. apply Forall_forall. intros j Hj [E|Hjs]%elem_of_cons.
        + apply Hni. rewrite <- E. by apply (list_elem_of_fmap_2 prevout).
        + rewrite Forall_forall in Hf. by apply (Hf j Hj). }
    destruct (IH _ Hs') as [[-> HP]|(v & -> & Hr & Hn)]; [left|right; exists v]; rewrite <- Hiff; done.
Qed.

Lemma check_prevouts_spec vin st :
  decides st (check_prevouts vin st) (Forall (fun i => COutPoint_IsNull (prevout i) = false) vin).
Proof.
  induction vin as [|i vin IH]; cbn [check_prevouts]; [left; by split; [|constructor]|].
  destruct (COutPoint_IsNull (prevout i)) eqn:E.
  - right. eexists. split; [done|]. split; [apply DoS_rejected; [by left|done]|]. intros [? _]%Forall_cons. congruence.
  - destruct IH as [[-> HP]|(v & -> & Hr & Hn)]; [left|right; exists v].
    + split; [done|]. by constructor.
    + split; [done|]. split; [done|]. by intros [_ ?]%Forall_cons.
Qed.

(** What a transaction must be to pass, written without the order of the
    checks. *)
Record tx_acceptable (fCheckDuplicateInputs : bool) (tx : CTransaction) : Prop := {
  ta_vin : vin tx <> [];
  ta_vout : tx_vout tx <> [];
  ta_size : GetSerializeSize false tx <= MAX_BLOCK_BASE_SIZE;
  ta_money : outs_in_range (tx_vout tx);
  ta_distinct : fCheckDuplicateInputs = true -> NoDup (map prevout (vin tx));
  ta_coinbase : IsCoinBase tx = true -> forall i, vin tx = [i] -> (2 <= length (scriptSig i) <= 100)%nat;
  ta_spends : IsCoinBase tx = false -> Forall (fun i => COutPoint_IsNull (prevout i) = false) (vin tx)
}.

(** [decides] for a check that is made only under a flag. *)
Lemma decides_if st b x P : decides st x P -> decides st (if b : bool then x else Continue tt) (b = true -> P).
Proof.
  intros [[-> HP]|(v & -> & Hr & Hn)]; destruct b; [left|left|right; exists v|left]; split_and?; auto; done.
Qed.

Lemma coinbase_check_spec tx st :
  decides st
    (if IsCoinBase tx
     then txin ← lift (deref (vin tx !! 0%nat));
          if (length (scriptSig txin) <? 2)%nat || (100 <? length (scriptSig txin))%nat
          then Return (DoS 100 false REJECT_INVALID (str "bad-cb-length") false [] st) else Continue tt
     else check_prevouts (vin tx) st)
    ((IsCoinBase tx = true -> forall i, vin tx = [i] -> (2 <= length (scriptSig i) <= 100)%nat) /\
     (IsCoinBase tx = false -> Forall (fun i => COutPoint_IsNull (prevout i) = false) (vin tx))).
Proof.
  destruct (IsCoinBase tx) eqn:E.
  - unfold IsCoinBase in E. destruct (vin tx) as [|i [|]] eqn:Ev; try done. cbn [lookup list_lookup deref lift mbind run_bind].
    destruct (Nat.ltb_spec (length (scriptSig i)) 2), (Nat.ltb_spec 100 (length (scriptSig i))); cbn [orb].
    1-3: right; eexists; split; [done|]; split; [apply DoS_rejected; [by right|done]|]; intros [H' _];
      specialize (H' eq_refl i eq_refl); lia.
    left. split; [done|]. split; [|done]. intros _ j [= <-]. lia.
  - destruct (check_prevouts_spec (vin tx) st) as [[-> HP]|(v & -> & Hr & Hn)]; [left; by split|].
    right. exists v. split_and!; [done..|]. intros [_ H']. by apply Hn, H'.
Qed.

Lemma CheckTransaction_spec tx st dup : Forall (fun i => length (op_hash (prevout i)) = 32%nat) (vin tx) ->
  exists v, CheckTransaction tx st dup = Ret v /\
    ((v = (true, st) /\ tx_acceptable dup tx) \/ (rejected st v /\ ~ tx_acceptable dup tx)).
Proof.
  intros Hh. unfold CheckTransaction.
  destruct (Nat.eqb_spec (length (vin tx)) 0) as [E1|E1];
    [|destruct (Nat.eqb_spec (length (tx_vout tx)) 0) as [E2|E2];
      [|destruct (Z.ltb_spec MAX_BLOCK_BASE_SIZE (GetSerializeSize false tx)) as [E3|E3]]].
  1-3: eexists; (split; [reflexivity|]); right; split; [apply DoS_rejected; [auto|done]|].
  1: by intros [? _ _ _ _ _ _]; destruct (vin tx).
  1: by intros [_ ? _ _ _ _ _]; destruct (tx_vout tx).
  1: intros [_ _ ? _ _ _ _]; lia.
  destruct (check_outputs_spec (tx_vout tx) 0 st ltac:(unfold MAX_MONEY; vm_compute; split; discriminate))
    as [[-> HP]|(v & -> & Hr & Hn)].
  2:{ exists v. split; [done|]. right. split; [done|]. by intros [_ _ _ Hm _ _ _]. }
  destruct (decides_if st dup _ _ (check_duplicates_spec (vin tx) [] st Hh ltac:(constructor)))
    as [[-> HP2]|(v & -> & Hr & Hn)].
  2:{ exists v. split; [done|]. right. split; [done|]. intros [_ _ _ _ Hd _ _]. apply Hn. intros Hb. split; [auto|].
      apply Forall_forall. intros i _ Hi. by apply elem_of_nil in Hi. }
  cbn [mbind run_bind]. destruct (coinbase_check_spec tx st) as [[-> [HP3 HP4]]|(v & -> & Hr & Hn)].
  2:{ exists v. split; [done|]. right. split; [done|]. intros [_ _ _ _ _ Hc Hs]. by apply Hn. }
  exists (true, st). split; [done|]. left. split; [done|]. constructor; try done.
  1-2: intros E; rewrite E in *; done.
  intros Hb. by apply HP2.
Qed.

(** C25: [CheckTransaction] always returns. It accepts exactly the acceptable
    transactions (inputs and outputs, base size within the block limit, every
    output and their sum in the money range, no outpoint spent twice where
    that is asked for, a coinbase script of 2 to 100 bytes, no null outpoint
    elsewhere) and then leaves the state alone; otherwise it returns false,
    with a reason, and marks the state invalid with 10 or 100 points. *)
Theorem CheckTransaction_iff tx st dup : Forall (fun i => length (op_hash (prevout i)) = 32%nat) (vin tx) ->
  exists v, CheckTransaction tx st dup = Ret v /\
    ((v = (true, st) /\ tx_acceptable dup tx) \/ (rejected st v /\ ~ tx_acceptable dup tx)).
Proof. apply CheckTransaction_spec. Qed.

Definition spend_tx : CTransaction :=
  mkTransaction 1 [mkTxIn (mkOutPoint (repeat 7 32) 1) [81] SEQUENCE_FINAL []; mkTxIn (mkOutPoint (repeat 7 32) 0) [] SEQUENCE_FINAL []]
    [mkTxOut 60 [83]; mkTxOut MAX_MONEY [83]] 0 (repeat 2 32).

Lemma CheckTransaction_iff_witness :
  CheckTransaction spend_tx CValidationState_new true =
    Ret (false, mkState MODE_INVALID 100 (str "bad-txns-txouttotal-toolarge") REJECT_INVALID false []) /\
  ~ tx_acceptable true spend_tx.
Proof.
  split; [vm_compute; reflexivity|].
  destruct (CheckTransaction_iff spend_tx CValidationState_new true ltac:(repeat constructor)) as (v & Hv & [[-> _]|[_ Hn]]);
    [|exact Hn].
  vm_compute in Hv. discriminate Hv.
Defined.
