(* ===== verification/Coins.v ===== *)
(** * The coin database: [coins.{h,cpp}] and [CCoinsViewDB] of [txdb.cpp]

    The unspent outputs are kept per transaction ([CCoins]) in a stack of
    views: the database at the bottom, and caches ([CCoinsViewCache]) above
    it, each of which reads through to the view below it and writes its dirty
    entries to it when flushed.  The interface between the layers is the
    class [CoinsView]: operations, and the laws that relate them to an
    abstract map of unspent outputs.  The database is an instance, and a
    cache over an instance is again one; so every cache of a stack of any
    depth implements the abstract map.

    An exception ([std::logic_error]) and a failed assertion are [Abort].  The
    [mutable] fields that the C++ [const] methods fill are threaded through
    those methods.  The accounting of memory ([cachedCoinsUsage]), which only
    decides when a flush happens, is not modelled. *)

From S2P Require Import Prelude ArithUint256 StrEncodings Uint256 Amount Tx.
From stdpp Require Import list gmap.
#[local] Open Scope Z_scope.

(** ** [CCoins] *)

Record CCoins := mkCoins {
  fCoinBase : bool;
  vout : list CTxOut;
  cHeight : Z;
  cVersion : Z
}.
#[export] Instance CCoins_eq_dec : EqDecision CCoins.
Proof. solve_decision. Defined.

(** [CCoins()] and [Clear]. *)
Definition CCoins_empty : CCoins := mkCoins false [] 0 0.
Definition set_vout (v : list CTxOut) (c : CCoins) : CCoins :=
  mkCoins (fCoinBase c) v (cHeight c) (cVersion c).

(** The loop of [Cleanup], on the vector read backwards. *)
Fixpoint pop_nulls (rev_vout : list CTxOut) : list CTxOut :=
  match rev_vout with
  | o :: rest => if CTxOut_IsNull o then pop_nulls rest else rev_vout
  | [] => []
  end.
Definition Cleanup (c : CCoins) : CCoins := set_vout (reverse (pop_nulls (reverse (vout c)))) c.

Definition ClearUnspendable (c : CCoins) : CCoins :=
  Cleanup (set_vout (map (fun o => if IsUnspendable (scriptPubKey o) then CTxOut_null else o) (vout c)) c).

(** [FromTx], and the constructor from a transaction. *)
Definition FromTx (tx : CTransaction) (nHeightIn : Z) : CCoins :=
  ClearUnspendable (mkCoins (IsCoinBase tx) (tx_vout tx) nHeightIn (tx_nVersion tx)).

Definition IsAvailable (nPos : Z) (c : CCoins) : bool :=
  match vout c !! Z.to_nat nPos with Some o => negb (CTxOut_IsNull o) | None => false end.

Definition IsPruned (c : CCoins) : bool := forallb CTxOut_IsNull (vout c).

Definition CCoins_eq (a b : CCoins) : bool :=
  if IsPruned a && IsPruned b then true
  else Bool.eqb (fCoinBase a) (fCoinBase b) && (cHeight a =? cHeight b) && (cVersion a =? cVersion b)
       && bool_decide (vout a = vout b).

Definition Spend (nPos : Z) (c : CCoins) : bool * CCoins :=
  match vout c !! Z.to_nat nPos with
  | None => (false, c)
  | Some o => if CTxOut_IsNull o then (false, c)
              else (true, Cleanup (set_vout (<[Z.to_nat nPos := CTxOut_null]> (vout c)) c))
  end.

(** ** Cache entries

    [dirty] and [fresh] are the bits of [flags]. *)

Record CCoinsCacheEntry := mkEntry { coins : CCoins; dirty : bool; fresh : bool }.
Abbreviation CCoinsMap := (gmap uint256 CCoinsCacheEntry).

Definition set_coins (c : CCoins) (e : CCoinsCacheEntry) : CCoinsCacheEntry := mkEntry c (dirty e) (fresh e).
Definition CCoinsCacheEntry_empty : CCoinsCacheEntry := mkEntry CCoins_empty false false.

(** ** The interface of a view

    [GetCoins], [HaveCoins] and [GetBestBlock] return the view as well, since
    a cache fills itself; [BatchWrite] returns its [bool]. *)

Class CoinsViewOps (V : Type) := {
  GetCoins : uint256 -> V -> option CCoins * V;
  HaveCoins : uint256 -> V -> bool * V;
  GetBestBlock : V -> uint256 * V;
  BatchWrite : CCoinsMap -> uint256 -> V -> outcome (bool * V)
}.

(** Outputs in memory: a null output is the one [SetNull] makes, and the last
    output is not null. *)
Definition canonical (v : list CTxOut) : Prop := Forall (fun o => CTxOut_IsNull o = true -> o = CTxOut_null) v.
Definition clean (v : list CTxOut) : Prop :=
  match reverse v with o :: _ => CTxOut_IsNull o = false | [] => True end.
Definition wf_coins (c : CCoins) : Prop := canonical (vout c) /\ clean (vout c).

(** What coins contribute to the abstract map: nothing, when all their
    outputs are spent. *)
Definition unspent (o : option CCoins) : option CCoins :=
  c ← o; if IsPruned c then None else Some c.

Definition put (txid : uint256) (o : option CCoins) (u : gmap uint256 CCoins) : gmap uint256 CCoins :=
  partial_alter (fun _ => o) txid u.

(** What a batch of entries does to the abstract map. *)
Definition batch_at (m : CCoinsMap) (u : gmap uint256 CCoins) (txid : uint256) : option CCoins :=
  match m !! txid with
  | Some e => if dirty e then unspent (Some (coins e)) else u !! txid
  | None => u !! txid
  end.

(** The laws.  A batch must be fit for the view: well-formed entries, and an
    entry marked [FRESH] only for transactions the view has no coins of. *)
Class CoinsView (V : Type) `{CoinsViewOps V} := {
  view_ok : V -> Prop;
  utxo : V -> gmap uint256 CCoins;
  best : V -> uint256;
  utxo_wf : forall v txid c, view_ok v -> utxo v !! txid = Some c -> wf_coins c /\ IsPruned c = false;
  GetCoins_law : forall txid v, view_ok v ->
    let '(o, v') := GetCoins txid v in
    view_ok v' /\ utxo v' = utxo v /\ best v' = best v /\
    unspent o = utxo v !! txid /\ (forall c, o = Some c -> wf_coins c);
  HaveCoins_law : forall txid v, view_ok v ->
    let '(b, v') := HaveCoins txid v in
    view_ok v' /\ utxo v' = utxo v /\ best v' = best v /\ b = bool_decide (is_Some (utxo v !! txid));
  GetBestBlock_law : forall v, view_ok v ->
    let '(h, v') := GetBestBlock v in view_ok v' /\ utxo v' = utxo v /\ best v' = best v /\ h = best v;
  BatchWrite_law : forall m h v, view_ok v ->
    (forall txid e, m !! txid = Some e -> wf_coins (coins e)) ->
    (forall txid e, m !! txid = Some e -> dirty e = true -> fresh e = true -> utxo v !! txid = None) ->
    exists v', BatchWrite m h v = Ret (true, v') /\ view_ok v' /\
      (forall txid, utxo v' !! txid = batch_at m (utxo v) txid) /\ (IsNull h = false -> best v' = h)
}.

(** ** The database

    [CCoinsViewDB]: the records of the key-value store under [DB_COINS] and
    [DB_BEST_BLOCK].  A batch is written atomically. *)

Record CCoinsViewDB := mkDB { db_coins : gmap uint256 CCoins; db_best : option uint256 }.

Definition db_GetBestBlock (db : CCoinsViewDB) : uint256 := default uint256_null (db_best db).

Definition db_write (kv : uint256 * CCoinsCacheEntry) (batch : gmap uint256 CCoins) : gmap uint256 CCoins :=
  if dirty kv.2
  then (if IsPruned (coins kv.2) then delete kv.1 batch else <[kv.1 := coins kv.2]> batch)
  else batch.

Definition db_BatchWrite (m : CCoinsMap) (hashBlock : uint256) (db : CCoinsViewDB) : CCoinsViewDB :=
  mkDB (foldr db_write (db_coins db) (map_to_list m))
       (if negb (IsNull hashBlock) then Some hashBlock else db_best db).

#[export] Instance CCoinsViewDB_ops : CoinsViewOps CCoinsViewDB := {
  GetCoins txid db := (db_coins db !! txid, db);
  HaveCoins txid db := (bool_decide (is_Some (db_coins db !! txid)), db);
  GetBestBlock db := (db_GetBestBlock db, db);
  BatchWrite m h db := Ret (true, db_BatchWrite m h db)
}.

(** ** The cache *)

Record CCoinsViewCache (V : Type) := mkCache {
  base : V;
  hasModifier : bool;
  hashBlock : uint256;
  cacheCoins : CCoinsMap
}.
Arguments mkCache {V} base hasModifier hashBlock cacheCoins.
Arguments base {V} c.
Arguments hasModifier {V} c.
Arguments hashBlock {V} c.
Arguments cacheCoins {V} c.

Section Cache.
Context {V : Type} `{CoinsViewOps V}.
Implicit Types (c : CCoinsViewCache V).

(** [CCoinsViewCache(baseIn)]. *)
Definition newCache (baseIn : V) : CCoinsViewCache V := mkCache baseIn false uint256_null ∅.

Definition set_cacheCoins (m : CCoinsMap) c : CCoinsViewCache V := mkCache (base c) (hasModifier c) (hashBlock c) m.
Definition set_base (b : V) c : CCoinsViewCache V := mkCache b (hasModifier c) (hashBlock c) (cacheCoins c).
Definition set_hasModifier (f : bool) c : CCoinsViewCache V := mkCache (base c) f (hashBlock c) (cacheCoins c).

(** [FetchCoins]: the entry found or loaded, if any. *)
Definition FetchCoins (txid : uint256) c : option CCoinsCacheEntry * CCoinsViewCache V :=
  match cacheCoins c !! txid with
  | Some e => (Some e, c)
  | None =>
      let '(o, b) := GetCoins txid (base c) in
      let c := set_base b c in
      match o with
      | None => (None, c)
      | Some tmp => let e := mkEntry tmp false (IsPruned tmp) in
                    (Some e, set_cacheCoins (<[txid := e]> (cacheCoins c)) c)
      end
  end.

Definition AccessCoins (txid : uint256) c : option CCoins * CCoinsViewCache V :=
  let '(o, c) := FetchCoins txid c in (coins <$> o, c).

Definition cache_GetCoins (txid : uint256) c : option CCoins * CCoinsViewCache V :=
  let '(o, c) := FetchCoins txid c in (coins <$> o, c).

Definition cache_HaveCoins (txid : uint256) c : bool * CCoinsViewCache V :=
  let '(o, c) := FetchCoins txid c in
  (match o with Some e => match vout (coins e) with [] => false | _ => true end | None => false end, c).

Definition HaveCoinsInCache (txid : uint256) c : bool := bool_decide (is_Some (cacheCoins c !! txid)).

Definition cache_GetBestBlock c : uint256 * CCoinsViewCache V :=
  if IsNull (hashBlock c)
  then let '(h, b) := GetBestBlock (base c) in (h, mkCache b (hasModifier c) h (cacheCoins c))
  else (hashBlock c, c).

Definition SetBestBlock (hashBlockIn : uint256) c : CCoinsViewCache V :=
  mkCache (base c) (hasModifier c) hashBlockIn (cacheCoins c).

(** [CCoinsModifier(cache, it, usage)]; the iterator is the key. *)
Definition CCoinsModifier c : outcome (CCoinsViewCache V) :=
  assert_ (negb (hasModifier c));; Ret (set_hasModifier true c).

(** [~CCoinsModifier]. *)
Definition CCoinsModifier_end (txid : uint256) c : outcome (CCoinsViewCache V) :=
  assert_ (hasModifier c);;
  let c := set_hasModifier false c in
  e ← deref (cacheCoins c !! txid);
  let e := set_coins (Cleanup (coins e)) e in
  Ret (if fresh e && IsPruned (coins e)
       then set_cacheCoins (delete txid (cacheCoins c)) c
       else set_cacheCoins (<[txid := e]> (cacheCoins c)) c).

Definition ModifyCoins (txid : uint256) c : outcome (CCoinsViewCache V) :=
  assert_ (negb (hasModifier c));;
  let '(e, c) :=
    match cacheCoins c !! txid with
    | Some e => (e, c)
    | None =>
        let '(o, b) := GetCoins txid (base c) in
        (match o with
         | None => mkEntry CCoins_empty false true
         | Some tmp => mkEntry tmp false (IsPruned tmp)
         end, set_base b c)
    end in
  CCoinsModifier (set_cacheCoins (<[txid := mkEntry (coins e) true (fresh e)]> (cacheCoins c)) c).

Definition ModifyNewCoins (txid : uint256) (coinbase : bool) c : outcome (CCoinsViewCache V) :=
  assert_ (negb (hasModifier c));;
  let e := default CCoinsCacheEntry_empty (cacheCoins c !! txid) in
  fr ← (if negb coinbase
        then (assert_ (IsPruned (coins e));; Ret (if negb (dirty e) then true else fresh e))
        else Ret (fresh e));
  CCoinsModifier (set_cacheCoins (<[txid := mkEntry CCoins_empty true fr]> (cacheCoins c)) c).

(** The life of a modifier: what the caller does to the coins it refers to,
    then the destructor. *)
Definition modify {A} (txid : uint256) (f : CCoins -> outcome (A * CCoins)) c : outcome (A * CCoinsViewCache V) :=
  e ← deref (cacheCoins c !! txid);
  '(a, cs) ← f (coins e);
  c ← CCoinsModifier_end txid (set_cacheCoins (<[txid := set_coins cs e]> (cacheCoins c)) c);
  Ret (a, c).

(** One iteration of [BatchWrite]. *)
Definition batch_step (kv : uint256 * CCoinsCacheEntry) c : outcome (CCoinsViewCache V) :=
  let '(txid, e) := kv in
  if dirty e
  then match cacheCoins c !! txid with
       | None =>
           if fresh e && IsPruned (coins e) then Ret c
           else Ret (set_cacheCoins (<[txid := mkEntry (coins e) true (fresh e)]> (cacheCoins c)) c)
       | Some itUs =>
           if fresh e && negb (IsPruned (coins itUs)) then Abort
           else if fresh itUs && IsPruned (coins e)
                then Ret (set_cacheCoins (delete txid (cacheCoins c)) c)
                else Ret (set_cacheCoins (<[txid := mkEntry (coins e) true (fresh itUs)]> (cacheCoins c)) c)
       end
  else Ret c.

Fixpoint batch_loop (m : list (uint256 * CCoinsCacheEntry)) c : outcome (CCoinsViewCache V) :=
  match m with
  | [] => Ret c
  | kv :: m' => c ← batch_step kv c; batch_loop m' c
  end.

Definition cache_BatchWrite (m : CCoinsMap) (hashBlockIn : uint256) c : outcome (bool * CCoinsViewCache V) :=
  assert_ (negb (hasModifier c));;
  c ← batch_loop (map_to_list m) c;
  Ret (true, SetBestBlock hashBlockIn c).

Definition Flush c : outcome (bool * CCoinsViewCache V) :=
  '(fOk, b) ← BatchWrite (cacheCoins c) (hashBlock c) (base c);
  Ret (fOk, set_cacheCoins ∅ (set_base b c)).

Definition Uncache (hash : uint256) c : CCoinsViewCache V :=
  match cacheCoins c !! hash with
  | Some e => if negb (dirty e) && negb (fresh e) then set_cacheCoins (delete hash (cacheCoins c)) c else c
  | None => c
  end.

Definition GetCacheSize c : Z := Z.of_nat (size (cacheCoins c)).

Definition GetOutputFor (input : CTxIn) c : outcome (CTxOut * CCoinsViewCache V) :=
  let '(o, c) := AccessCoins (op_hash (prevout input)) c in
  cs ← deref o;
  assert_ (IsAvailable (op_n (prevout input)) cs);;
  out ← deref (vout cs !! Z.to_nat (op_n (prevout input)));
  Ret (out, c).

Fixpoint value_in_loop (vin : list CTxIn) (nResult : Z) c : outcome (Z * CCoinsViewCache V) :=
  match vin with
  | [] => Ret (nResult, c)
  | i :: vin' => '(o, c) ← GetOutputFor i c; value_in_loop vin' (i64 (nResult + nValue o)) c
  end.
Definition GetValueIn (tx : CTransaction) c : outcome (Z * CCoinsViewCache V) :=
  if IsCoinBase tx then Ret (0, c) else value_in_loop (vin tx) 0 c.

Fixpoint have_inputs_loop (vin : list CTxIn) c : bool * CCoinsViewCache V :=
  match vin with
  | [] => (true, c)
  | i :: vin' =>
      let '(o, c) := AccessCoins (op_hash (prevout i)) c in
      match o with
      | Some cs => if IsAvailable (op_n (prevout i)) cs then have_inputs_loop vin' c else (false, c)
      | None => (false, c)
      end
  end.
Definition HaveInputs (tx : CTransaction) c : bool * CCoinsViewCache V :=
  if negb (IsCoinBase tx) then have_inputs_loop (vin tx) c else (true, c).

End Cache.

#[export] Instance CCoinsViewCache_ops {V} `{CoinsViewOps V} : CoinsViewOps (CCoinsViewCache V) := {
  GetCoins := cache_GetCoins;
  HaveCoins := cache_HaveCoins;
  GetBestBlock := cache_GetBestBlock;
  BatchWrite := cache_BatchWrite
}.

(** ** Lemmas on coins *)

Lemma pop_nulls_head v : match pop_nulls v with o :: _ => CTxOut_IsNull o = false | [] => True end.
Proof. induction v as [|o v IH]; simpl; [done|]. by destruct (CTxOut_IsNull o) eqn:E. Qed.

Lemma pop_nulls_split v : exists n, v = n ++ pop_nulls v /\ Forall (fun o => CTxOut_IsNull o = true) n.
Proof.
  induction v as [|o v (n & E & Hn)]; simpl; [by exists []|].
  destruct (CTxOut_IsNull o) eqn:Eo; [|by exists []]. exists (o :: n). split; [simpl; by f_equal|by constructor].
Qed.

(** [Cleanup] cuts a tail of null outputs. *)
Lemma Cleanup_split c : exists n, vout c = vout (Cleanup c) ++ n /\ Forall (fun o => CTxOut_IsNull o = true) n.
Proof.
  destruct (pop_nulls_split (reverse (vout c))) as (n & E & Hn). exists (reverse n).
  split; [|by apply Forall_reverse]. cbn [Cleanup set_vout vout].
  by rewrite <- reverse_app, <- E, reverse_involutive.
Qed.

Lemma Cleanup_clean c : clean (vout (Cleanup c)).
Proof. unfold clean, Cleanup. cbn [set_vout vout]. rewrite reverse_involutive. apply pop_nulls_head. Qed.

Lemma Cleanup_wf c : canonical (vout c) -> wf_coins (Cleanup c).
Proof.
  intros Hc. split; [|apply Cleanup_clean]. destruct (Cleanup_split c) as (n & E & _).
  unfold canonical in *. rewrite E in Hc. by apply Forall_app in Hc as [Hc _].
Qed.

Lemma Cleanup_id c : clean (vout c) -> Cleanup c = c.
Proof.
  unfold clean, Cleanup, set_vout. intros Hc. destruct c as [f v h n]. cbn [vout fCoinBase cHeight cVersion] in *.
  f_equal. rewrite <- (reverse_involutive v) at 2. f_equal. destruct (reverse v); [done|]. cbn. by rewrite Hc.
Qed.

Lemma IsPruned_Forall c : IsPruned c = true <-> Forall (fun o => CTxOut_IsNull o = true) (vout c).
Proof.
  unfold IsPruned. induction (vout c) as [|o v IH]; cbn [forallb]; [split; [constructor|done]|].
  rewrite andb_true_iff, Forall_cons. tauto.
Qed.

Lemma IsPruned_Cleanup c : IsPruned (Cleanup c) = IsPruned c.
Proof.
  apply eq_true_iff_eq. rewrite !IsPruned_Forall. destruct (Cleanup_split c) as (n & E & Hn).
  rewrite E, Forall_app. tauto.
Qed.

Lemma clean_pruned c : clean (vout c) -> IsPruned c = true <-> vout c = [].
Proof.
  unfold clean. intros Hc. rewrite IsPruned_Forall. split; [|by intros ->].
  intros Hf. apply (Forall_reverse _ (vout c)) in Hf. destruct (reverse (vout c)) as [|o v] eqn:E.
  - apply (f_equal reverse) in E. by rewrite reverse_involutive in E.
  - inversion Hf. congruence.
Qed.

Lemma wf_empty : wf_coins CCoins_empty.
Proof. by split; [constructor|]. Qed.

Lemma unspent_pruned c : IsPruned c = true -> unspent (Some c) = None.
Proof. cbn. by intros ->. Qed.

Lemma unspent_Some o c : unspent o = Some c <-> o = Some c /\ IsPruned c = false.
Proof.
  destruct o as [d|]; [|split; [done|by intros [? ?]]]. cbn. destruct (IsPruned d) eqn:E.
  - split; [done|]. intros [[= ->] ?]. congruence.
  - split; [intros [= ->]; done|by intros [[= ->] _]].
Qed.

Lemma unspent_None_pruned c : unspent (Some c) = None -> IsPruned c = true.
Proof. cbn. by destruct (IsPruned c). Qed.

Lemma put_lookup txid o u k : put txid o u !! k = if decide (txid = k) then o else u !! k.
Proof.
  unfold put. destruct (decide (txid = k)) as [->|]; [by rewrite lookup_partial_alter_eq|].
  by rewrite lookup_partial_alter_ne.
Qed.

Lemma put_id txid u : put txid (u !! txid) u = u.
Proof. apply map_eq. intros k. rewrite put_lookup. by case_decide; subst. Qed.

(** ** The database implements the interface *)

Definition db_ok (db : CCoinsViewDB) : Prop :=
  map_Forall (fun _ c => wf_coins c /\ IsPruned c = false) (db_coins db).

Lemma batch_at_insert m u txid e k : m !! txid = None ->
  batch_at (<[txid := e]> m) u k =
  if decide (txid = k) then (if dirty e then unspent (Some (coins e)) else u !! k) else batch_at m u k.
Proof. intros. unfold batch_at. case_decide as E; [subst; by rewrite lookup_insert_eq|by rewrite lookup_insert_ne]. Qed.

Lemma db_writes l u k : NoDup l.*1 ->
  foldr db_write u l !! k = batch_at (list_to_map l) u k.
Proof.
  induction l as [|[txid e] l IH]; [by intros; unfold batch_at; cbn; rewrite ?lookup_empty|].
  cbn [fmap list_fmap foldr list_to_map fst]. intros [Hni Hnd]%NoDup_cons. cbn [uncurry].
  change (list_to_map ((txid, e) :: l)) with (<[txid := e]> (list_to_map l : CCoinsMap)).
  rewrite batch_at_insert by (by apply not_elem_of_list_to_map_1). unfold db_write at 1. cbn [fst snd].
  assert (batch_at (list_to_map l) u txid = u !! txid) as Hk.
  { unfold batch_at. by rewrite not_elem_of_list_to_map_1. }
  destruct (dirty e) eqn:Ed; [cbn [unspent mbind option_bind]; destruct (IsPruned (coins e))|].
  - case_decide as E; [subst; by rewrite lookup_delete_eq|]. rewrite lookup_delete_ne by done. auto.
  - case_decide as E; [subst; by rewrite lookup_insert_eq|]. rewrite lookup_insert_ne by done. auto.
  - rewrite IH by done. by case_decide; subst.
Qed.

Lemma db_BatchWrite_lookup m h db k : db_coins (db_BatchWrite m h db) !! k = batch_at m (db_coins db) k.
Proof. cbn. rewrite db_writes by apply NoDup_fst_map_to_list. by rewrite list_to_map_to_list. Qed.

Lemma db_GetCoins_law txid db : db_ok db ->
  unspent (db_coins db !! txid) = db_coins db !! txid /\ (forall c, db_coins db !! txid = Some c -> wf_coins c).
Proof.
  intros Hok. split; [|intros c Hc; by apply (Hok txid c)].
  destruct (db_coins db !! txid) as [c|] eqn:E; [|done]. cbn. by rewrite (proj2 (Hok _ _ E)).
Qed.

Lemma db_BatchWrite_ok m h db : db_ok db -> (forall txid e, m !! txid = Some e -> wf_coins (coins e)) ->
  db_ok (db_BatchWrite m h db).
Proof.
  intros Hok Hwf txid c. rewrite db_BatchWrite_lookup. unfold batch_at.
  destruct (m !! txid) as [e|] eqn:E; [|apply Hok].
  destruct (dirty e); [|apply Hok]. intros [[= <-] ?]%unspent_Some. eauto.
Qed.

#[export] Instance CCoinsViewDB_view : CoinsView CCoinsViewDB.
Proof.
  refine {| view_ok := db_ok; utxo := db_coins; best := db_GetBestBlock |}.
  - intros db txid c Hok Hc. by apply (Hok txid).
  - intros txid db Hok. cbn. destruct (db_GetCoins_law txid db Hok). auto 6.
  - done.
  - done.
  - intros m h db Hok Hwf _. exists (db_BatchWrite m h db). split; [done|].
    split; [by apply db_BatchWrite_ok|]. split; [intros; apply db_BatchWrite_lookup|].
    intros Hh. unfold db_GetBestBlock, db_BatchWrite. cbn [db_best]. by rewrite Hh.
Defined.

(** ** The cache implements the interface, over any view that does *)

Ltac cache_cbn :=
  cbn [base hasModifier hashBlock cacheCoins coins dirty fresh set_cacheCoins set_base set_hasModifier SetBestBlock set_coins].

Section CacheLaws.
Context {V : Type} `{CoinsView V}.
Implicit Types (c : CCoinsViewCache V) (e : CCoinsCacheEntry).

Record entry_ok (u : gmap uint256 CCoins) (txid : uint256) e : Prop := {
  entry_wf : wf_coins (coins e);
  entry_unmodified : dirty e = false -> unspent (Some (coins e)) = u !! txid;
  entry_fresh : fresh e = true -> u !! txid = None
}.

Definition entries_ok (u : gmap uint256 CCoins) (m : CCoinsMap) : Prop := map_Forall (entry_ok u) m.

Record cache_ok c : Prop := {
  cache_idle : hasModifier c = false;
  cache_base : view_ok (base c);
  cache_entries : entries_ok (utxo (base c)) (cacheCoins c)
}.

Definition overlay (m : CCoinsMap) (u : gmap uint256 CCoins) : gmap uint256 CCoins :=
  merge (fun oe b => match oe with Some e => unspent (Some (coins e)) | None => b end) m u.
Definition cache_utxo c : gmap uint256 CCoins := overlay (cacheCoins c) (utxo (base c)).
Definition cache_best c : uint256 := if IsNull (hashBlock c) then best (base c) else hashBlock c.

Lemma overlay_lookup m u k : overlay m u !! k =
  match m !! k with Some e => unspent (Some (coins e)) | None => u !! k end.
Proof. unfold overlay. rewrite lookup_merge. by destruct (m !! k), (u !! k). Qed.

Lemma overlay_empty u : overlay ∅ u = u.
Proof. apply map_eq. intros k. by rewrite overlay_lookup, lookup_empty. Qed.

Lemma overlay_insert m u k e : overlay (<[k := e]> m) u = put k (unspent (Some (coins e))) (overlay m u).
Proof.
  apply map_eq. intros j. rewrite put_lookup, !overlay_lookup. case_decide as E.
  - subst. by rewrite lookup_insert_eq.
  - by rewrite lookup_insert_ne.
Qed.

Lemma overlay_delete m u k : overlay (delete k m) u = put k (u !! k) (overlay m u).
Proof.
  apply map_eq. intros j. rewrite put_lookup, !overlay_lookup. case_decide as E.
  - subst. by rewrite lookup_delete_eq.
  - by rewrite lookup_delete_ne.
Qed.

Lemma entries_insert u m k e : entries_ok u m -> entry_ok u k e -> entries_ok u (<[k := e]> m).
Proof. intros. by apply map_Forall_insert_2. Qed.

Lemma entries_delete u m k : entries_ok u m -> entries_ok u (delete k m).
Proof. apply map_Forall_delete. Qed.

Lemma overlay_wf m u k (cs : CCoins) :
  (forall k (d : CCoins), u !! k = Some d -> wf_coins d /\ IsPruned d = false) -> entries_ok u m ->
  overlay m u !! k = Some cs -> wf_coins cs /\ IsPruned cs = false.
Proof.
  intros Hu Hm. rewrite overlay_lookup. destruct (m !! k) as [e|] eqn:E; [|apply Hu].
  intros [[= <-] ?]%unspent_Some. split; [|done]. apply (Hm _ _ E).
Qed.

(** A loaded entry. *)
Lemma loaded_ok u txid tmp : unspent (Some tmp) = u !! txid -> wf_coins tmp ->
  entry_ok u txid (mkEntry tmp false (IsPruned tmp)).
Proof. intros Hu Hw. split; [done|done|]. cbn. intros Hp. rewrite <- Hu. by apply unspent_pruned. Qed.

Lemma FetchCoins_spec txid c : cache_ok c ->
  let '(o, c') := FetchCoins txid c in
  cache_ok c' /\ cache_utxo c' = cache_utxo c /\ cache_best c' = cache_best c /\
  unspent (coins <$> o) = cache_utxo c !! txid /\ (forall e, o = Some e -> wf_coins (coins e)).
Proof.
  intros [Hi Hb He]. unfold FetchCoins, cache_utxo. rewrite overlay_lookup.
  destruct (cacheCoins c !! txid) as [e|] eqn:E.
  - split; [done|]. split; [done|]. split; [done|]. split; [done|]. intros ? [= <-]. apply (He _ _ E).
  - pose proof (GetCoins_law txid (base c) Hb) as HG. destruct (GetCoins txid (base c)) as [[tmp|] b].
    + destruct HG as (Hb' & Hu & Hbest & Ho & Hw). unfold cache_best. cache_cbn. rewrite Hu, Hbest.
      split; [|split; [|split; [done|split; [done|]]]].
      * split; cache_cbn; [done|done|]. rewrite Hu. apply entries_insert; [done|]. apply loaded_ok; auto.
      * rewrite overlay_insert. cbn [coins]. rewrite Ho. apply map_eq. intros k. rewrite put_lookup.
        case_decide; [subst; by rewrite overlay_lookup, E|done].
      * intros ? [= <-]. auto.
    + destruct HG as (Hb' & Hu & Hbest & Ho & Hw). unfold cache_best. cache_cbn. rewrite Hu, Hbest.
      split; [|done]. split; cache_cbn; [done|done|by rewrite Hu].
Qed.
(** *** Writing a batch *)

Lemma batch_step_spec txid e c : cache_ok c -> wf_coins (coins e) ->
  (dirty e = true -> fresh e = true -> cache_utxo c !! txid = None) ->
  exists c', batch_step (txid, e) c = Ret c' /\ cache_ok c' /\ base c' = base c /\
    cache_utxo c' = if dirty e then put txid (unspent (Some (coins e))) (cache_utxo c) else cache_utxo c.
Proof.
  intros [Hi Hb He] Hw Hf. unfold batch_step, cache_utxo in *.
  destruct (dirty e) eqn:Ed; [|by exists c; split_and!]. specialize (Hf eq_refl).
  rewrite overlay_lookup in Hf. destruct (cacheCoins c !! txid) as [us|] eqn:E.
  - destruct (He _ _ E) as [Hwu Hun Hfr].
    assert (fresh e && negb (IsPruned (coins us)) = false) as ->.
    { destruct (fresh e); [|done]. by rewrite (unspent_None_pruned _ (Hf eq_refl)). }
    destruct (fresh us && IsPruned (coins e)) eqn:Efp.
    + apply andb_true_iff in Efp as [Hfu Hp]. eexists. split; [done|]. split; [|split; [done|]].
      * split; cache_cbn; [done|done|by apply entries_delete].
      * cache_cbn. by rewrite overlay_delete, Hfr, unspent_pruned.
    + eexists. split; [done|]. split; [|split; [done|]].
      * split; cache_cbn; [done|done|]. apply entries_insert; [done|]. by split.
      * cache_cbn. by rewrite overlay_insert.
  - destruct (fresh e && IsPruned (coins e)) eqn:Efp.
    + apply andb_true_iff in Efp as [Hfe Hp]. exists c. split; [done|]. split; [done|]. split; [done|].
      rewrite unspent_pruned by done. apply map_eq. intros k. rewrite put_lookup. case_decide; [subst|done].
      by rewrite overlay_lookup, E, Hf.
    + eexists. split; [done|]. split; [|split; [done|]].
      * split; cache_cbn; [done|done|]. apply entries_insert; [done|]. by split.
      * cache_cbn. by rewrite overlay_insert.
Qed.

Lemma batch_loop_spec l c : cache_ok c -> NoDup l.*1 ->
  (forall txid e, (txid, e) ∈ l -> wf_coins (coins e)) ->
  (forall txid e, (txid, e) ∈ l -> dirty e = true -> fresh e = true -> cache_utxo c !! txid = None) ->
  exists c', batch_loop l c = Ret c' /\ cache_ok c' /\
    forall k, cache_utxo c' !! k = batch_at (list_to_map l) (cache_utxo c) k.
Proof.
  revert c. induction l as [|[txid e] l IH]; intros c Hok Hnd Hw Hf.
  { exists c. split; [done|]. split; [done|]. intros k. unfold batch_at. cbn. by rewrite lookup_empty. }
  apply NoDup_cons in Hnd as [Hni Hnd]. cbn [fst] in Hni.
  destruct (batch_step_spec txid e c Hok) as (c1 & E & Hok1 & _ & Hu).
  { eapply Hw, list_elem_of_here. }
  { intros. eapply Hf; [apply list_elem_of_here|done|done]. }
  cbn [batch_loop]. rewrite E. cbn [mbind outcome_bind].
  assert (forall k, k <> txid -> cache_utxo c1 !! k = cache_utxo c !! k) as Hne.
  { intros k Hk. rewrite Hu. destruct (dirty e); [|done]. rewrite put_lookup. by case_decide. }
  destruct (IH c1 Hok1 Hnd) as (c2 & E2 & Hok2 & Hu2).
  { intros ? ? Hin. eapply Hw. by apply list_elem_of_further. }
  { intros k e' Hin ? ?. rewrite Hne; [eapply Hf; [by apply list_elem_of_further|done|done]|].
    intros ->. apply Hni. by apply (list_elem_of_fmap_2 fst _ (txid, e')). }
  exists c2. split; [done|]. split; [done|]. intros k. rewrite Hu2.
  change (list_to_map ((txid, e) :: l)) with (<[txid := e]> (list_to_map l : CCoinsMap)).
  rewrite batch_at_insert by (by apply not_elem_of_list_to_map_1). case_decide as Ek.
  - subst k. unfold batch_at at 1. rewrite not_elem_of_list_to_map_1 by done. rewrite Hu.
    destruct (dirty e); [|done]. rewrite put_lookup. by case_decide.
  - unfold batch_at. by rewrite Hne.
Qed.

Lemma SetBestBlock_spec h c : cache_ok c -> cache_ok (SetBestBlock h c) /\
  cache_utxo (SetBestBlock h c) = cache_utxo c /\ (IsNull h = false -> cache_best (SetBestBlock h c) = h).
Proof.
  intros [Hi Hb He]. split; [by split|]. split; [done|]. intros Hh. unfold cache_best. cache_cbn. by rewrite Hh.
Qed.

Lemma cache_BatchWrite_spec m h c : cache_ok c ->
  (forall txid e, m !! txid = Some e -> wf_coins (coins e)) ->
  (forall txid e, m !! txid = Some e -> dirty e = true -> fresh e = true -> cache_utxo c !! txid = None) ->
  exists c', cache_BatchWrite m h c = Ret (true, c') /\ cache_ok c' /\
    (forall txid, cache_utxo c' !! txid = batch_at m (cache_utxo c) txid) /\ (IsNull h = false -> cache_best c' = h).
Proof.
  intros Hok Hw Hf. unfold cache_BatchWrite. rewrite (cache_idle _ Hok). cbn [negb assert_ mbind outcome_bind].
  destruct (batch_loop_spec (map_to_list m) c Hok) as (c1 & -> & Hok1 & Hu).
  { apply NoDup_fst_map_to_list. }
  { intros ? ? Hin%elem_of_map_to_list. eauto. }
  { intros ? ? Hin%elem_of_map_to_list. eauto. }
  rewrite list_to_map_to_list in Hu. destruct (SetBestBlock_spec h c1 Hok1) as (? & E & ?).
  eexists. split; [done|]. split; [done|]. rewrite E. by split.
Qed.

(** *** Reading *)

Lemma cache_GetCoins_law txid c : cache_ok c ->
  let '(o, c') := cache_GetCoins txid c in
  cache_ok c' /\ cache_utxo c' = cache_utxo c /\ cache_best c' = cache_best c /\
  unspent o = cache_utxo c !! txid /\ (forall d : CCoins, o = Some d -> wf_coins d).
Proof.
  intros Hok. unfold cache_GetCoins. pose proof (FetchCoins_spec txid c Hok) as HF.
  destruct (FetchCoins txid c) as [o c']. destruct HF as (? & ? & ? & ? & Hw). split_and!; try done.
  intros d Hd. destruct o as [e|]; [|done]. injection Hd as <-. by apply Hw.
Qed.

Lemma cache_HaveCoins_law txid c : cache_ok c ->
  let '(b, c') := cache_HaveCoins txid c in
  cache_ok c' /\ cache_utxo c' = cache_utxo c /\ cache_best c' = cache_best c /\
  b = bool_decide (is_Some (cache_utxo c !! txid)).
Proof.
  intros Hok. unfold cache_HaveCoins. pose proof (FetchCoins_spec txid c Hok) as HF.
  destruct (FetchCoins txid c) as [o c']. destruct HF as (? & ? & ? & Ho & Hw). split_and!; try done.
  rewrite <- Ho. destruct o as [e|]; [|done]. destruct (Hw e eq_refl) as [_ Hc%clean_pruned]. cbn [fmap option_fmap option_map].
  destruct (IsPruned (coins e)) eqn:Ep.
  - by rewrite unspent_pruned, (proj1 Hc).
  - assert (unspent (Some (coins e)) = Some (coins e)) as -> by (by apply unspent_Some).
    rewrite bool_decide_true by eauto. destruct (vout (coins e)); [|done]. by apply Hc.
Qed.

Lemma cache_GetBestBlock_law c : cache_ok c ->
  let '(h, c') := cache_GetBestBlock c in
  cache_ok c' /\ cache_utxo c' = cache_utxo c /\ cache_best c' = cache_best c /\ h = cache_best c.
Proof.
  intros [Hi Hb He]. unfold cache_GetBestBlock, cache_best, cache_utxo. destruct (IsNull (hashBlock c)) eqn:Eh.
  - pose proof (GetBestBlock_law (base c) Hb) as HG. destruct (GetBestBlock (base c)) as [h b].
    destruct HG as (Hb' & Hu & Hbest & ->). cache_cbn. rewrite Hu, Hbest. split; [|split; [done|split; [|done]]].
    + split; cache_cbn; [done|done|by rewrite Hu].
    + by destruct (IsNull (best (base c))).
  - cache_cbn. rewrite Eh. done.
Qed.

(** *** Modifying *)

Lemma cache_utxo_insert txid e c : cache_utxo (set_cacheCoins (<[txid := e]> (cacheCoins c)) c)
  = put txid (unspent (Some (coins e))) (cache_utxo c).
Proof. unfold cache_utxo. cache_cbn. apply overlay_insert. Qed.

(** A cache whose modifier refers to [txid]. *)
Record modifying (txid : uint256) c0 e c : Prop := {
  mod_active : hasModifier c = true;
  mod_base : view_ok (base c);
  mod_entries : entries_ok (utxo (base c)) (cacheCoins c);
  mod_entry : cacheCoins c !! txid = Some e;
  mod_dirty : dirty e = true;
  mod_rest : forall k, k <> txid -> cache_utxo c !! k = cache_utxo c0 !! k;
  mod_best : cache_best c = cache_best c0
}.

Lemma ModifyCoins_spec txid c : cache_ok c -> exists e c', ModifyCoins txid c = Ret c' /\
  modifying txid c e c' /\ unspent (Some (coins e)) = cache_utxo c !! txid.
Proof.
  intros [Hi Hb He]. unfold ModifyCoins, CCoinsModifier. rewrite Hi. cbn [negb assert_ mbind outcome_bind].
  assert (forall e b, view_ok b -> utxo b = utxo (base c) -> best b = best (base c) ->
    wf_coins (coins e) -> (fresh e = true -> utxo (base c) !! txid = None) ->
    modifying txid c (mkEntry (coins e) true (fresh e))
      (set_hasModifier true (set_cacheCoins (<[txid := mkEntry (coins e) true (fresh e)]> (cacheCoins c)) (set_base b c)))) as Hmod.
  { intros e b Hb' Hu Hbest Hw Hf. split; cache_cbn; [done|done| |by rewrite lookup_insert_eq|done| |].
    - rewrite Hu. apply entries_insert; [done|]. by split.
    - intros k Hk. unfold cache_utxo. cache_cbn. rewrite Hu, !overlay_lookup. by rewrite lookup_insert_ne.
    - unfold cache_best. cache_cbn. by rewrite Hbest. }
  unfold cache_utxo. rewrite overlay_lookup. destruct (cacheCoins c !! txid) as [e|] eqn:E.
  - exists (mkEntry (coins e) true (fresh e)). destruct (He _ _ E) as [Hw Hun Hf]. cache_cbn. rewrite Hi. cbn [negb assert_ mbind outcome_bind].
    eexists. split; [done|]. split; [|done]. destruct c. by apply Hmod.
  - pose proof (GetCoins_law txid (base c) Hb) as HG. destruct (GetCoins txid (base c)) as [o b].
    destruct HG as (Hb' & Hu & Hbest & Ho & Hw).
    set (e := match o with Some tmp => mkEntry tmp false (IsPruned tmp) | None => mkEntry CCoins_empty false true end).
    exists (mkEntry (coins e) true (fresh e)). cache_cbn. rewrite Hi. cbn [negb assert_ mbind outcome_bind].
    eexists. split; [done|]. assert (unspent (Some (coins e)) = utxo (base c) !! txid) as Hun by (by destruct o).
    split; [|done]. apply Hmod; try done.
    + destruct o as [tmp|]; [by apply Hw|apply wf_empty].
    + intros Hf. rewrite <- Hun. apply unspent_pruned. by destruct o.
Qed.

Lemma ModifyNewCoins_spec txid coinbase c : cache_ok c -> coinbase = true \/ cache_utxo c !! txid = None ->
  exists e c', ModifyNewCoins txid coinbase c = Ret c' /\ modifying txid c e c' /\ coins e = CCoins_empty.
Proof.
  intros [Hi Hb He] Hnew. unfold ModifyNewCoins, CCoinsModifier. rewrite Hi. cbn [negb assert_ mbind outcome_bind].
  unfold cache_utxo in Hnew. rewrite overlay_lookup in Hnew.
  set (e := default CCoinsCacheEntry_empty (cacheCoins c !! txid)).
  assert (coinbase = false -> IsPruned (coins e) = true) as Hp.
  { intros ->. destruct Hnew as [|Hnew]; [done|]. subst e. destruct (cacheCoins c !! txid); [|done].
    by apply unspent_None_pruned. }
  set (fr := if negb coinbase then (if negb (dirty e) then true else fresh e) else fresh e).
  exists (mkEntry CCoins_empty true fr).
  assert ((if negb coinbase then assert_ (IsPruned (coins e));; Ret (if negb (dirty e) then true else fresh e)
           else Ret (fresh e)) = Ret fr) as ->.
  { subst fr. destruct coinbase; [done|]. cbn [negb]. by rewrite Hp. }
  cbn [mbind outcome_bind]. cache_cbn. rewrite Hi. cbn [negb assert_ mbind outcome_bind].
  eexists. split; [done|]. split; [|done]. split; cache_cbn; [done|done| |by rewrite lookup_insert_eq|done| |done].
  - apply entries_insert; [done|]. split; cbn [coins dirty fresh]; [apply wf_empty|done|]. intros Hfr.
    subst fr e. destruct (cacheCoins c !! txid) as [e|] eqn:E; cbn [default from_option id] in *.
    + destruct (He _ _ E) as [_ Hun Hf]. destruct coinbase; [by apply Hf|]. cbn [negb] in Hfr, Hp.
      destruct (dirty e) eqn:Ed; cbn [negb] in Hfr; [by apply Hf|]. rewrite <- Hun by done. apply unspent_pruned. by apply Hp.
    + destruct coinbase; [done|]. destruct Hnew as [|Hnew]; [done|exact Hnew].
  - intros k Hk. unfold cache_utxo. cache_cbn. rewrite !overlay_lookup. by rewrite lookup_insert_ne.
Qed.

Lemma modify_spec {A} txid (f : CCoins -> outcome (A * CCoins)) c0 e c a cs : modifying txid c0 e c ->
  f (coins e) = Ret (a, cs) -> canonical (vout cs) ->
  exists c', modify txid f c = Ret (a, c') /\ cache_ok c' /\
    cache_utxo c' = put txid (unspent (Some (Cleanup cs))) (cache_utxo c0) /\ cache_best c' = cache_best c0.
Proof.
  intros [Hm Hb He E Hd Hr Hbest] Hf Hc. unfold modify, CCoinsModifier_end. rewrite E. cbn [deref mbind outcome_bind].
  rewrite Hf. cbn [mbind outcome_bind]. cache_cbn. rewrite Hm. cbn [assert_ mbind outcome_bind]. rewrite lookup_insert_eq. cbn [deref mbind outcome_bind].
  cache_cbn. rewrite IsPruned_Cleanup. pose proof (Cleanup_wf cs Hc) as Hw. destruct (He _ _ E) as [_ _ Hfr].
  assert (forall k, k <> txid -> overlay (cacheCoins c) (utxo (base c)) !! k = cache_utxo c0 !! k) as Hr' by done.
  destruct (fresh e && IsPruned cs) eqn:Efp; (eexists; split; [done|]; split; [|split; [|done]]).
  - split; cache_cbn; [done|done|]. rewrite delete_insert_eq. by apply entries_delete.
  - apply andb_true_iff in Efp as [Hfe Hp]. unfold cache_utxo. cache_cbn. rewrite delete_insert_eq, overlay_delete, Hfr by done.
    rewrite unspent_pruned by (by rewrite IsPruned_Cleanup).
    apply map_eq. intros k. rewrite !put_lookup. case_decide; auto.
  - split; cache_cbn; [done|done|]. rewrite insert_insert_eq. apply entries_insert; [done|].
    split; [done|cache_cbn; by rewrite Hd|by intros; apply Hfr].
  - unfold cache_utxo. cache_cbn. rewrite insert_insert_eq, overlay_insert. cache_cbn.
    apply map_eq. intros k. rewrite !put_lookup. case_decide; auto.
Qed.

Lemma Flush_spec c : cache_ok c -> exists c', Flush c = Ret (true, c') /\ cache_ok c' /\
  cacheCoins c' = ∅ /\ utxo (base c') = cache_utxo c /\ cache_utxo c' = cache_utxo c /\
  (IsNull (hashBlock c) = false -> best (base c') = cache_best c /\ cache_best c' = cache_best c).
Proof.
  intros [Hi Hb He]. unfold Flush.
  destruct (BatchWrite_law (cacheCoins c) (hashBlock c) (base c) Hb) as (b & -> & Hb' & Hu & Hbest).
  { intros ? ? E. apply (He _ _ E). }
  { intros ? ? E ? ?. by apply (He _ _ E). }
  assert (utxo b = cache_utxo c) as Hub.
  { apply map_eq. intros k. rewrite Hu. unfold batch_at, cache_utxo. rewrite overlay_lookup.
    destruct (cacheCoins c !! k) as [e|] eqn:E; [|done]. destruct (dirty e) eqn:Ed; [done|]. symmetry. by apply (He _ _ E). }
  eexists. split; [done|]. cache_cbn. split; [|split; [done|split; [done|split]]].
  - split; cache_cbn; [done|done|]. apply map_Forall_empty.
  - unfold cache_utxo at 1. cache_cbn. by rewrite overlay_empty.
  - intros Hh. unfold cache_best. cache_cbn. rewrite Hh. auto.
Qed.

Lemma Uncache_spec txid c : cache_ok c ->
  cache_ok (Uncache txid c) /\ cache_utxo (Uncache txid c) = cache_utxo c /\ cache_best (Uncache txid c) = cache_best c.
Proof.
  intros [Hi Hb He]. unfold Uncache. destruct (cacheCoins c !! txid) as [e|] eqn:E; [|done].
  destruct (negb (dirty e) && negb (fresh e)) eqn:Ef; [|done]. apply andb_true_iff in Ef as [Hd Hf]. split; [|split; [|done]].
  - split; cache_cbn; [done|done|by apply entries_delete].
  - unfold cache_utxo. cache_cbn. rewrite overlay_delete. destruct (He _ _ E) as [_ Hun _].
    rewrite <- Hun by (by destruct (dirty e)). apply map_eq. intros k. rewrite put_lookup.
    case_decide; [subst; by rewrite overlay_lookup, E|done].
Qed.

End CacheLaws.

#[export] Instance CCoinsViewCache_view {V} `{CoinsView V} : CoinsView (CCoinsViewCache V).
Proof.
  refine {| view_ok := cache_ok; utxo := cache_utxo; best := cache_best |}.
  - intros c txid cs [_ Hb He]. apply overlay_wf; [|done]. intros k d. by apply utxo_wf.
  - apply cache_GetCoins_law.
  - apply cache_HaveCoins_law.
  - apply cache_GetBestBlock_law.
  - apply cache_BatchWrite_spec.
Defined.

(** ** Theorems *)

Lemma newCache_ok {V} `{CoinsView V} (b : V) : view_ok b -> view_ok (newCache b).
Proof. intros Hb. split; [done|exact Hb|]. apply map_Forall_empty. Qed.

Definition demo_txid : uint256 := repeat 7 32.
Definition demo_coins : CCoins := mkCoins true [mkTxOut 5 [81]; CTxOut_null; mkTxOut 9 [82]] 3 1.
Definition demo_db : CCoinsViewDB := mkDB {[ demo_txid := demo_coins ]} None.

Lemma demo_db_ok : view_ok demo_db.
Proof. apply map_Forall_singleton. repeat split; repeat constructor; done. Qed.

(** C8: a cache over any view that keeps the interface (in particular over the
    database, or over another cache) is a map of unspent outputs.  Reading
    returns what the map holds and does not change it, whatever it loads;
    dropping an unmodified entry does not change it; and flushing succeeds,
    without the exception for a misapplied [FRESH] flag, and leaves exactly
    this map in the view below. *)
Theorem cache_refines_utxo {V : Type} `{CoinsView V} (c : CCoinsViewCache V) (txid : uint256) (Hok : view_ok c) :
  (let '(o, c') := AccessCoins txid c in
   view_ok c' /\ utxo c' = utxo c /\ best c' = best c /\ unspent o = utxo c !! txid) /\
  (let '(b, c') := HaveCoins txid c in
   view_ok c' /\ utxo c' = utxo c /\ b = bool_decide (is_Some (utxo c !! txid))) /\
  (view_ok (Uncache txid c) /\ utxo (Uncache txid c) = utxo c /\ best (Uncache txid c) = best c) /\
  (exists c', Flush c = Ret (true, c') /\ view_ok c' /\ utxo c' = utxo c /\ utxo (base c') = utxo c /\
     (IsNull (hashBlock c) = false -> best (base c') = best c)).
Proof.
  split; [|split; [|split]].
  - pose proof (cache_GetCoins_law txid c Hok) as HG. unfold AccessCoins. unfold cache_GetCoins in HG.
    destruct (FetchCoins txid c) as [o c']. by destruct HG as (? & ? & ? & ? & _).
  - pose proof (cache_HaveCoins_law txid c Hok) as HG. cbn [HaveCoins CCoinsViewCache_ops].
    destruct (cache_HaveCoins txid c) as [b c']. by destruct HG as (? & ? & ? & ?).
  - by apply Uncache_spec.
  - destruct (Flush_spec c Hok) as (c' & ? & ? & _ & ? & ? & Hb). exists c'. split_and!; try done.
    intros Hn. by apply Hb.
Qed.

Lemma cache_refines_utxo_witness :
  let c := newCache (newCache demo_db) in
  (AccessCoins demo_txid c).1 = Some demo_coins /\
  exists c', Flush c = Ret (true, c') /\ view_ok c' /\ utxo c' = utxo c /\ utxo (base c') = utxo c /\
    (IsNull (hashBlock c) = false -> best (base c') = best c).
Proof.
  intros c. split; [vm_compute; reflexivity|].
  apply (cache_refines_utxo c demo_txid (newCache_ok _ (newCache_ok _ demo_db_ok))).
Defined.

(** Modifying coins through a cache changes the map at that transaction
    only, to the coins left by the modification (none when all outputs are
    spent).  The coins a modifier shows are those of the map, or pruned ones
    where the map has none; those of [ModifyNewCoins] are empty, and it needs
    that the map has no coins of a transaction that is not a coinbase. *)
Theorem cache_modification {V : Type} `{CoinsView V} {A : Type} (c : CCoinsViewCache V) (txid : uint256)
  (coinbase : bool) (f : CCoins -> outcome (A * CCoins)) (g : CCoins -> A * CCoins) (Hok : view_ok c)
  (Hf : forall cs, unspent (Some cs) = utxo c !! txid \/ cs = CCoins_empty -> f cs = Ret (g cs))
  (Hg : forall cs, wf_coins cs -> canonical (vout (g cs).2)) :
  (exists cs c', unspent (Some cs) = utxo c !! txid /\
     (c1 ← ModifyCoins txid c; modify txid f c1) = Ret ((g cs).1, c') /\ view_ok c' /\ best c' = best c /\
     utxo c' = put txid (unspent (Some (Cleanup (g cs).2))) (utxo c)) /\
  (coinbase = true \/ utxo c !! txid = None ->
   exists c', (c1 ← ModifyNewCoins txid coinbase c; modify txid f c1) = Ret ((g CCoins_empty).1, c') /\
     view_ok c' /\ best c' = best c /\
     utxo c' = put txid (unspent (Some (Cleanup (g CCoins_empty).2))) (utxo c)).
Proof.
  split.
  - destruct (ModifyCoins_spec txid c Hok) as (e & c1 & -> & Hm & Hu).
    assert (wf_coins (coins e)) as Hw by (eapply (mod_entries _ _ _ _ Hm), (mod_entry _ _ _ _ Hm)).
    destruct (modify_spec txid f c e c1 (g (coins e)).1 (g (coins e)).2 Hm) as (c' & ? & ? & ? & ?).
    + rewrite Hf by (by left). by destruct (g (coins e)).
    + by apply Hg.
    + exists (coins e), c'. split_and!; done.
  - intros Hn. destruct (ModifyNewCoins_spec txid coinbase c Hok Hn) as (e & c1 & -> & Hm & Hu).
    destruct (modify_spec txid f c e c1 (g (coins e)).1 (g (coins e)).2 Hm) as (c' & ? & ? & ? & ?).
    + rewrite Hf by (by right). by destruct (g (coins e)).
    + rewrite Hu. apply Hg, wf_empty.
    + exists c'. by rewrite <- Hu.
Qed.

Lemma cache_modification_witness :
  let c := newCache demo_db in
  exists cs c', unspent (Some cs) = utxo c !! demo_txid /\
    (c1 ← ModifyCoins demo_txid c; modify demo_txid (fun cs => Ret (Spend 2 cs)) c1) = Ret ((Spend 2 cs).1, c') /\
    view_ok c' /\ best c' = best c /\ utxo c' = put demo_txid (unspent (Some (Cleanup (Spend 2 cs).2))) (utxo c).
Proof.
  intros c.
  refine (proj1 (cache_modification c demo_txid false (fun cs => Ret (Spend 2 cs)) (Spend 2) (newCache_ok _ demo_db_ok) _ _)).
  - done.
  - intros cs [Hw _]. unfold Spend. destruct (vout cs !! Z.to_nat 2) as [o|]; [|done]. destruct (CTxOut_IsNull o); [done|].
    cbn [snd]. apply Cleanup_wf. by apply Forall_insert.
Defined.
