(* ===== verification/TxInputs.v ===== *)
(** * Checks of the inputs of a transaction ([validation.cpp])

    The signature operations of a transaction and [Consensus::CheckTxInputs]:
    what a transaction must satisfy with respect to the unspent outputs. *)

From S2P Require Import Prelude ArithUint256 StrEncodings Uint256 Amount Params Tx Script Serialize CheckTx Coins.
From stdpp Require Import list gmap.
#[local] Open Scope Z_scope.

(** ** Signature operations *)

Definition SCRIPT_VERIFY_P2SH : Z := 2 ^ 0.
Definition SCRIPT_VERIFY_DERSIG : Z := 2 ^ 2.
Definition SCRIPT_VERIFY_NULLDUMMY : Z := 2 ^ 4.
Definition SCRIPT_VERIFY_CHECKLOCKTIMEVERIFY : Z := 2 ^ 9.
Definition SCRIPT_VERIFY_CHECKSEQUENCEVERIFY : Z := 2 ^ 10.
Definition SCRIPT_VERIFY_WITNESS : Z := 2 ^ 11.

(** The flags of [policy.h] that are standard and not mandatory: all of the
    standard ones, bits 1 to 15 but [SIGPUSHONLY]. *)
Definition STANDARD_NOT_MANDATORY_VERIFY_FLAGS : Z :=
  2 ^ 1 + 2 ^ 2 + 2 ^ 3 + 2 ^ 4 + 2 ^ 6 + 2 ^ 7 + 2 ^ 8 + 2 ^ 9 + 2 ^ 10 + 2 ^ 11 + 2 ^ 12 + 2 ^ 13 + 2 ^ 14 + 2 ^ 15.

Definition WitnessSigOps (witversion : Z) (witprogram : list Z) (witness : list (list Z)) : outcome Z :=
  if witversion =? 0
  then if (length witprogram =? 20)%nat then Ret 1
       else if (length witprogram =? 32)%nat && (0 <? length witness)%nat
       then subscript ← deref (last witness); GetSigOpCount true subscript
       else Ret 0
  else Ret 0.

(** The loop that reads the last push of a script of pushes. *)
Fixpoint last_data (fuel : nat) (pc : CScript) (data : list Z) : outcome (list Z) :=
  match pc, fuel with
  | [], _ => Ret data
  | _, O => Abort
  | _, S fuel' => match GetOp2 pc with None => Abort | Some (_, data, pc) => last_data fuel' pc data end
  end.

Definition CountWitnessSigOps (scriptSig scriptPubKey : CScript) (witness : list (list Z)) (flags : Z) : outcome Z :=
  if Z.land flags SCRIPT_VERIFY_WITNESS =? 0 then Ret 0
  else
    assert_ (negb (Z.land flags SCRIPT_VERIFY_P2SH =? 0));;
    program ← IsWitnessProgram scriptPubKey;
    match program with
    | Some (witnessversion, witnessprogram) => WitnessSigOps witnessversion witnessprogram witness
    | None =>
        pushes ← (if IsPayToScriptHash scriptPubKey then IsPushOnly scriptSig else Ret false);
        if (pushes : bool)
        then subscript ← last_data (length scriptSig) scriptSig [];
             program ← IsWitnessProgram subscript;
             match program with
             | Some (witnessversion, witnessprogram) => WitnessSigOps witnessversion witnessprogram witness
             | None => Ret 0
             end
        else Ret 0
    end.

Fixpoint sum_sigops (l : list CScript) (nSigOps : Z) : outcome Z :=
  match l with
  | [] => Ret nSigOps
  | s :: l' => k ← GetSigOpCount false s; sum_sigops l' (u32 (nSigOps + k))
  end.
Definition GetLegacySigOpCount (tx : CTransaction) : outcome Z :=
  nSigOps ← sum_sigops (map scriptSig (vin tx)) 0;
  sum_sigops (map scriptPubKey (tx_vout tx)) nSigOps.

Section Ops.
Context {V : Type} `{CoinsViewOps V}.
Implicit Types (c : CCoinsViewCache V).

Fixpoint p2sh_loop (vin : list CTxIn) (nSigOps : Z) c : outcome (Z * CCoinsViewCache V) :=
  match vin with
  | [] => Ret (nSigOps, c)
  | txin :: vin' =>
      '(prevout, c) ← GetOutputFor txin c;
      nSigOps ← (if IsPayToScriptHash (scriptPubKey prevout)
                 then k ← GetSigOpCount_P2SH (scriptSig txin) (scriptPubKey prevout); Ret (u32 (nSigOps + k))
                 else Ret nSigOps);
      p2sh_loop vin' nSigOps c
  end.
Definition GetP2SHSigOpCount (tx : CTransaction) c : outcome (Z * CCoinsViewCache V) :=
  if IsCoinBase tx then Ret (0, c) else p2sh_loop (vin tx) 0 c.

Fixpoint witness_loop (vin : list CTxIn) (flags nSigOps : Z) c : outcome (Z * CCoinsViewCache V) :=
  match vin with
  | [] => Ret (nSigOps, c)
  | txin :: vin' =>
      '(prevout, c) ← GetOutputFor txin c;
      k ← CountWitnessSigOps (scriptSig txin) (scriptPubKey prevout) (scriptWitness txin) flags;
      witness_loop vin' flags (i64 (nSigOps + k)) c
  end.

Definition GetTransactionSigOpCost (tx : CTransaction) (flags : Z) c : outcome (Z * CCoinsViewCache V) :=
  legacy ← GetLegacySigOpCount tx;
  let nSigOps := u32 (legacy * WITNESS_SCALE_FACTOR) in
  if IsCoinBase tx then Ret (nSigOps, c)
  else
    '(nSigOps, c) ← (if negb (Z.land flags SCRIPT_VERIFY_P2SH =? 0)
                     then '(k, c) ← GetP2SHSigOpCount tx c; Ret (i64 (nSigOps + u32 (k * WITNESS_SCALE_FACTOR)), c)
                     else Ret (nSigOps, c));
    witness_loop (vin tx) flags nSigOps c.

(** ** [CheckTxInputs] *)

Fixpoint inputs_loop (params : ParamsTree) (nSpendHeight : Z) (vin : list CTxIn) (nValueIn : Z) (st : CValidationState) c
  : run (verdict * CCoinsViewCache V) (Z * CCoinsViewCache V) :=
  match vin with
  | [] => Continue (nValueIn, c)
  | txin :: vin' =>
      let '(o, c) := AccessCoins (op_hash (prevout txin)) c in
      coins ← lift (deref o);
      _ ← (if fCoinBase coins
           then p ← lift (deref (GetConsensus params (u32 (cHeight coins))));
                if i32 (nSpendHeight - cHeight coins) <? nCoinbaseMaturity p
                then Return (Invalid false REJECT_INVALID (str "bad-txns-premature-spend-of-coinbase")
                        (str "tried to spend coinbase at depth " ++ i64tostr (i32 (nSpendHeight - cHeight coins))) st, c)
                else Continue tt
           else Continue tt);
      out ← lift (deref (vout coins !! Z.to_nat (op_n (prevout txin))));
      let nValueIn := i64 (nValueIn + nValue out) in
      if negb (MoneyRange (nValue out)) || negb (MoneyRange nValueIn)
      then Return (DoS 100 false REJECT_INVALID (str "bad-txns-inputvalues-outofrange") false [] st, c)
      else inputs_loop params nSpendHeight vin' nValueIn st c
  end.

Definition CheckTxInputs (params : ParamsTree) (tx : CTransaction) (st : CValidationState) (nSpendHeight : Z) c
  : outcome (verdict * CCoinsViewCache V) :=
  finish (
    let '(have, c) := HaveInputs tx c in
    if negb have then Return (Invalid false 0 [] (str "Inputs unavailable") st, c)
    else
      '(nValueIn, c) ← inputs_loop params nSpendHeight (vin tx) 0 st c;
      valueOut ← lift (GetValueOut tx);
      if nValueIn <? valueOut
      then Return (DoS 100 false REJECT_INVALID (str "bad-txns-in-belowout") false
              (str "value in (" ++ FormatMoney nValueIn ++ str ") < value out (" ++ FormatMoney valueOut ++ str ")") st, c)
      else
        let nTxFee := i64 (nValueIn - valueOut) in
        if nTxFee <? 0 then Return (DoS 100 false REJECT_INVALID (str "bad-txns-fee-negative") false [] st, c)
        else let nFees := i64 (0 + nTxFee) in
             if negb (MoneyRange nFees)
             then Return (DoS 100 false REJECT_INVALID (str "bad-txns-fee-outofrange") false [] st, c)
             else Continue ((true, st), c)).

End Ops.

(** ** Specification *)

(** The unspent output an outpoint names, with the coins it is part of. *)
Definition out_at (u : gmap uint256 CCoins) (o : COutPoint) : option (CCoins * CTxOut) :=
  cs ← u !! op_hash o;
  x ← vout cs !! Z.to_nat (op_n o);
  if CTxOut_IsNull x then None else Some (cs, x).

(** What a transaction spends, when all of it is there. *)
Definition spent (u : gmap uint256 CCoins) (vin : list CTxIn) : option (list (CCoins * CTxOut)) :=
  mapM (fun i => out_at u (prevout i)) vin.

Definition mature (params : ParamsTree) (nSpendHeight : Z) (cs : CCoins) : Prop :=
  fCoinBase cs = true -> exists p, GetConsensus params (cHeight cs) = Some p /\ cHeight cs + nCoinbaseMaturity p <= nSpendHeight.

Record pays (params : ParamsTree) (nSpendHeight : Z) (u : gmap uint256 CCoins) (tx : CTransaction)
    (l : list (CCoins * CTxOut)) : Prop := {
  pays_spent : spent u (vin tx) = Some l;
  pays_mature : Forall (mature params nSpendHeight) l.*1;
  pays_range : outs_in_range l.*2;
  pays_enough : sum_values (tx_vout tx) <= sum_values l.*2
}.

Lemma out_at_Some u o cs x : out_at u o = Some (cs, x) <->
  u !! op_hash o = Some cs /\ vout cs !! Z.to_nat (op_n o) = Some x /\ CTxOut_IsNull x = false.
Proof.
  unfold out_at. split.
  - intros (d & Hd & (y & Hy & E)%bind_Some)%bind_Some. destruct (CTxOut_IsNull y) eqn:En; [done|]. by injection E as -> ->.
  - intros (-> & Hx & Hn). cbn. rewrite Hx. cbn. by rewrite Hn.
Qed.

Lemma GetConsensus_some t k : t <> NoParams -> is_Some (GetConsensus t k).
Proof.
  induction t as [|l IHl p r IHr]; [done|]. intros _. cbn [GetConsensus].
  destruct (_ && _) eqn:El; [apply IHl; by intros ->; rewrite andb_false_r in El|].
  destruct ((nHeightEffective p <? k) && _) eqn:Er; [|by eexists].
  destruct IHr as [q ->]; [by intros ->; rewrite andb_false_r in Er|]. destruct (nHeightEffective q <=? k); by eexists.
Qed.

Section Spec.
Context {V : Type} `{CoinsView V}.
Implicit Types (c : CCoinsViewCache V).

(** Reading fills a cache and changes nothing else. *)
Definition reads c c' : Prop := view_ok c' /\ utxo c' = utxo c /\ best c' = best c.

Lemma reads_trans c c1 c2 : reads c c1 -> reads c1 c2 -> reads c c2.
Proof. intros (_ & E1 & E2) (? & E3 & E4). split; [done|]. split; congruence. Qed.

Lemma AccessCoins_reads txid c : view_ok c ->
  exists o c', AccessCoins txid c = (o, c') /\ reads c c' /\ unspent o = utxo c !! txid.
Proof.
  intros Hok. pose proof (FetchCoins_spec txid c Hok) as HF. unfold AccessCoins.
  destruct (FetchCoins txid c) as [o c']. destruct HF as (? & ? & ? & ? & _). by exists (coins <$> o), c'.
Qed.

Lemma access_out o c : view_ok c ->
  exists r c', AccessCoins (op_hash o) c = (r, c') /\ reads c c' /\
    match out_at (utxo c) o with
    | Some (cs, x) => r = Some cs /\ IsAvailable (op_n o) cs = true /\ vout cs !! Z.to_nat (op_n o) = Some x
    | None => forall cs, r = Some cs -> IsAvailable (op_n o) cs = false
    end.
Proof.
  intros Hok. destruct (AccessCoins_reads (op_hash o) c Hok) as (r & c' & E & Hr & Hu). exists r, c'. split; [done|]. split; [done|].
  unfold out_at. rewrite <- Hu. destruct r as [cs|]; [|done].
  unfold unspent. cbn [mbind option_bind]. unfold IsAvailable. destruct (vout cs !! Z.to_nat (op_n o)) as [x|] eqn:Ex.
  - destruct (IsPruned cs) eqn:Ep; cbn [mbind option_bind].
    + intros ? [= <-]. rewrite Ex. apply IsPruned_Forall in Ep. rewrite Forall_forall in Ep.
      apply list_elem_of_lookup_2 in Ex. by rewrite (Ep x Ex).
    + rewrite Ex. cbn [mbind option_bind]. destruct (CTxOut_IsNull x) eqn:En; [intros ? [= <-]|]; by rewrite ?Ex, ?En.
  - destruct (IsPruned cs); cbn [mbind option_bind]; rewrite ?Ex; cbn [mbind option_bind]; intros ? [= <-]; by rewrite Ex.
Qed.

Lemma spent_cons u i vin : spent u (i :: vin) = (x ← out_at u (prevout i); l ← spent u vin; Some (x :: l)).
Proof. done. Qed.

Lemma have_inputs_spec vin c : view_ok c ->
  exists c', have_inputs_loop vin c = (bool_decide (is_Some (spent (utxo c) vin)), c') /\ reads c c'.
Proof.
  revert c. induction vin as [|i vin IH]; intros c Hok; cbn [have_inputs_loop].
  { exists c. split; [|done]. by rewrite bool_decide_true by (by eexists). }
  destruct (access_out (prevout i) c Hok) as (r & c1 & -> & Hr & Ho). rewrite spent_cons.
  destruct (out_at (utxo c) (prevout i)) as [[cs x]|].
  - destruct Ho as (-> & -> & _). destruct (IH c1 (proj1 Hr)) as (c2 & -> & Hr2). exists c2.
    split; [|by eapply reads_trans]. f_equal. destruct Hr as (_ & -> & _). cbn [mbind option_bind]. apply bool_decide_ext.
    destruct (spent (utxo c) vin) as [l|]; cbn; [|done]. split; intros _; by eexists.
  - exists c1. split; [|done]. cbn. destruct r as [cs|]; [by rewrite (Ho cs eq_refl)|done].
Qed.

(** A reading loop that goes on exactly under [P], and otherwise returns
    [false]. *)
Definition settles c (x : run (verdict * CCoinsViewCache V) (Z * CCoinsViewCache V)) (v : Z) (P : Prop) : Prop :=
  (exists c', x = Continue (v, c') /\ reads c c' /\ P) \/
  (exists st' c', x = Return ((false, st'), c') /\ reads c c' /\ ~ P).

Context (params : ParamsTree) (Hparams : params <> NoParams).
Context (h : Z) (Hh : 0 <= h < 2 ^ 31).

Lemma mature_check cs st c : 0 <= cHeight cs < 2 ^ 31 ->
  let x := (if fCoinBase cs
    then p ← lift (deref (GetConsensus params (u32 (cHeight cs))));
         if i32 (h - cHeight cs) <? nCoinbaseMaturity p
         then Return (Invalid false REJECT_INVALID (str "bad-txns-premature-spend-of-coinbase")
                 (str "tried to spend coinbase at depth " ++ i64tostr (i32 (h - cHeight cs))) st, c)
         else Continue tt
    else Continue tt) in
  (x = Continue tt /\ mature params h cs) \/ (exists st', x = Return ((false, st'), c) /\ ~ mature params h cs).
Proof.
  intros Hc. cbn zeta. unfold mature. destruct (fCoinBase cs); [|by left].
  rewrite wrapU_small by (unfold inU; pow2_cbv; lia). rewrite wrapS_small by (unfold inS; pow2_cbv; lia).
  destruct (GetConsensus_some params (cHeight cs) Hparams) as [p Hp]. rewrite Hp. cbn [deref lift mbind run_bind].
  destruct (Z.ltb_spec (h - cHeight cs) (nCoinbaseMaturity p)).
  - right. unfold Invalid, DoS. destruct (mode st); eexists; (split; [reflexivity|]); intros Hm; destruct (Hm eq_refl) as (p' & [= <-] & ?); lia.
  - left. split; [done|]. intros _. exists p. split; [done|lia].
Qed.

Lemma inputs_loop_spec vin acc st c l : view_ok c -> map_Forall (fun _ cs => 0 <= cHeight cs < 2 ^ 31) (utxo c) ->
  spent (utxo c) vin = Some l -> 0 <= acc <= MAX_MONEY ->
  settles c (inputs_loop params h vin acc st c) (acc + sum_values l.*2)
    (Forall (mature params h) l.*1 /\ Forall (fun o => 0 <= nValue o <= MAX_MONEY) l.*2 /\ acc + sum_values l.*2 <= MAX_MONEY).
Proof.
  revert acc c l. induction vin as [|i vin IH]; intros acc c l Hok Hg Hl Hacc; cbn [inputs_loop].
  { injection Hl as <-. left. exists c. cbn. rewrite Z.add_0_r. split; [done|]. split; [done|]. split; [constructor|]. split; [constructor|lia]. }
  rewrite spent_cons in Hl. destruct (access_out (prevout i) c Hok) as (r & c1 & -> & Hr & Ho).
  destruct (out_at (utxo c) (prevout i)) as [[cs x]|] eqn:Eo; [|done]. cbn [mbind option_bind] in Hl.
  destruct (spent (utxo c) vin) as [l'|] eqn:El; [|done]. injection Hl as <-. destruct Ho as (-> & _ & Ex).
  assert (0 <= cHeight cs < 2 ^ 31) as Hc.
  { apply out_at_Some in Eo as (? & _). by eapply Hg. }
  cbn [lift deref mbind run_bind]. rewrite Ex. pose proof (mature_check cs st c1 Hc) as Hm. cbn zeta in Hm.
  cbn [fmap list_fmap fst snd sum_values fold_right]. fold (sum_values l'.*2). destruct Hm as [[-> Hm]|(st' & -> & Hm)].
  2:{ right. exists st', c1. split_and!; [done..|]. by intros ([? _]%Forall_cons & _). }
  cbn [lift deref mbind run_bind]. destruct (MoneyRange (nValue x)) eqn:Ev; cbn [negb orb].
  2:{ right. unfold DoS. destruct (mode st); eexists _, c1; (split_and!; [done..|]);
        intros (_ & [Hx _]%Forall_cons & _); apply MoneyRange_spec in Hx; congruence. }
  apply MoneyRange_spec in Ev. rewrite money_add_i64 by done. destruct (MoneyRange (acc + nValue x)) eqn:Es; cbn [negb].
  - apply MoneyRange_spec in Es. destruct Hr as (Hok1 & Hu1 & Hb1). rewrite <- Hu1 in El, Hg.
    destruct (IH (acc + nValue x) c1 l' Hok1 Hg El Es) as [(c2 & E & Hr2 & HP)|(st' & c2 & E & Hr2 & HP)]; rewrite E.
    + left. exists c2. rewrite Z.add_assoc. split; [done|]. split; [by eapply reads_trans|]. rewrite !Forall_cons. tauto.
    + right. exists st', c2. split; [done|]. split; [by eapply reads_trans|]. rewrite Z.add_assoc, !Forall_cons. tauto.
  - right. unfold DoS. destruct (mode st); eexists _, c1; (split_and!; [done..|]);
      intros (_ & [_ Hx]%Forall_cons & Hs); (assert (MoneyRange (acc + nValue x) = true); [|congruence]); apply MoneyRange_spec;
      pose proof (sum_values_nonneg l'.*2 ltac:(eapply Forall_impl; [exact Hx|]; cbn; lia)); lia.
Qed.

Lemma CheckTxInputs_spec tx st c : view_ok c -> map_Forall (fun _ cs => 0 <= cHeight cs < 2 ^ 31) (utxo c) ->
  IsCoinBase tx = false -> outs_in_range (tx_vout tx) ->
  exists v c', CheckTxInputs params tx st h c = Ret (v, c') /\ reads c c' /\
    ((v = (true, st) /\ exists l, pays params h (utxo c) tx l) \/ (v.1 = false /\ ~ exists l, pays params h (utxo c) tx l)).
Proof.
  intros Hok Hg Hcb Hout. unfold CheckTxInputs, HaveInputs. rewrite Hcb. cbn [negb].
  destruct (have_inputs_spec (vin tx) c Hok) as (c1 & -> & Hr). case_bool_decide as Hs; cbn [negb].
  2:{ eexists _, c1. split; [reflexivity|]. split; [done|]. right. split; [by unfold Invalid, DoS; destruct (mode st)|].
      intros [l [Hl _ _ _]]. apply Hs. by rewrite Hl. }
  destruct Hs as [l Hl]. pose proof Hr as (Hok1 & Hu1 & Hb1). rewrite <- Hu1 in Hg, Hl.
  assert (forall P : Prop, (forall l', pays params h (utxo c) tx l' -> l' = l -> P) -> ~ P -> ~ exists l', pays params h (utxo c) tx l') as Hno.
  { intros P HP Hn [l' Hp]. apply Hn, (HP l' Hp). destruct Hp as [E _ _ _]. rewrite <- Hu1 in E. congruence. }
  destruct (inputs_loop_spec (vin tx) 0 st c1 l Hok1 Hg Hl ltac:(unfold MAX_MONEY, COIN; lia))
    as [(c2 & -> & Hr2 & Hm & Hv & Hsum)|(st' & c2 & -> & Hr2 & Hn)]; cbn [mbind run_bind finish].
  2:{ exists (false, st'), c2. split; [done|]. split; [by eapply reads_trans|]. right. split; [done|].
      eapply Hno; [|exact Hn]. intros l' [_ ? [? ?] _] ->. done. }
  rewrite (proj2 (GetValueOut_spec tx _) (conj eq_refl Hout)). destruct Hout as [Hpos Hmax]. rewrite Z.add_0_l in *.
  assert (0 <= sum_values (tx_vout tx)) by (apply sum_values_nonneg; eapply Forall_impl; [exact Hpos|]; cbn; lia).
  change MAX_MONEY with 1000000000000000000 in *. cbn [lift mbind run_bind].
  destruct (Z.ltb_spec (sum_values l.*2) (sum_values (tx_vout tx))) as [Hlt|Hge].
  { eexists _, c2. split; [reflexivity|]. split; [by eapply reads_trans|]. right. split; [by unfold DoS; destruct (mode st)|].
    eapply Hno; [|exact (Zlt_not_le _ _ Hlt)]. by intros l' [_ _ _ ?] ->. }
  rewrite wrapS_small by (unfold inS; pow2_cbv; lia). destruct (Z.ltb_spec (sum_values l.*2 - sum_values (tx_vout tx)) 0); [lia|].
  rewrite Z.add_0_l, wrapS_small by (unfold inS; pow2_cbv; lia).
  rewrite (proj2 (MoneyRange_spec _)) by (change MAX_MONEY with 1000000000000000000; lia). cbn [negb].
  exists (true, st), c2. split; [done|]. split; [by eapply reads_trans|]. left. split; [done|]. exists l. by split; [rewrite <- Hu1|..].
Qed.

Lemma GetOutputFor_spec i c : view_ok c ->
  match out_at (utxo c) (prevout i) with
  | Some (_, x) => exists c', GetOutputFor i c = Ret (x, c') /\ reads c c'
  | None => GetOutputFor i c = Abort
  end.
Proof.
  intros Hok. unfold GetOutputFor. destruct (access_out (prevout i) c Hok) as (r & c1 & -> & Hr & Ho).
  destruct (out_at (utxo c) (prevout i)) as [[cs x]|].
  - destruct Ho as (-> & Ha & Ex). exists c1. split; [|done]. cbn [deref mbind outcome_bind]. rewrite Ha, Ex. done.
  - destruct r as [cs|]; [|done]. cbn [deref mbind outcome_bind]. by rewrite (Ho cs eq_refl).
Qed.

Lemma GetOutputFor_reads i c x c' : view_ok c -> GetOutputFor i c = Ret (x, c') -> reads c c'.
Proof.
  intros Hok E. pose proof (GetOutputFor_spec i c Hok) as Hs. rewrite E in Hs. destruct (out_at _ _) as [[? ?]|]; [|done].
  by destruct Hs as (? & [= -> ->] & ?).
Qed.

(** The sum wraps around, but not while the values are amounts of money. *)
Lemma value_in_spec vin acc c l : view_ok c -> spent (utxo c) vin = Some l -> 0 <= acc ->
  Forall (fun o => 0 <= nValue o <= MAX_MONEY) l.*2 -> acc + sum_values l.*2 <= MAX_MONEY ->
  exists c', value_in_loop vin acc c = Ret (acc + sum_values l.*2, c') /\ reads c c'.
Proof.
  revert acc c l. induction vin as [|i vin IH]; intros acc c l Hok Hl Hacc Hv Hs; cbn [value_in_loop].
  { injection Hl as <-. exists c. by rewrite Z.add_0_r. }
  rewrite spent_cons in Hl. pose proof (GetOutputFor_spec i c Hok) as Hi. destruct (out_at (utxo c) (prevout i)) as [[cs x]|]; [|done].
  cbn [mbind option_bind] in Hl. destruct (spent (utxo c) vin) as [l'|] eqn:El; [|done]. injection Hl as <-.
  destruct Hi as (c1 & -> & Hr). cbn [fmap list_fmap fst snd sum_values fold_right] in *. fold (sum_values l'.*2) in *.
  apply Forall_cons in Hv as [Hx Hv]. pose proof (sum_values_nonneg l'.*2 ltac:(eapply Forall_impl; [exact Hv|]; cbn; lia)).
  cbn [mbind outcome_bind]. rewrite money_add_i64 by lia. destruct Hr as (Hok1 & Hu1 & Hb1). rewrite <- Hu1 in El.
  destruct (IH (acc + nValue x) c1 l' Hok1 El) as (c2 & -> & Hr2); [lia|done|lia|]. exists c2.
  rewrite Z.add_assoc. split; [done|]. by eapply reads_trans.
Qed.

Lemma value_in_reads vin acc c v c' : view_ok c -> value_in_loop vin acc c = Ret (v, c') -> reads c c'.
Proof.
  revert acc c. induction vin as [|i vin IH]; intros acc c Hok; cbn [value_in_loop]; [by intros [= _ <-]|].
  destruct (GetOutputFor i c) as [[x c1]|] eqn:E; [|done]. apply GetOutputFor_reads in E; [|done]. cbn [mbind outcome_bind].
  intros Hp. eapply reads_trans; [exact E|]. eapply IH; [|exact Hp]. apply E.
Qed.

Lemma p2sh_loop_reads vin n c n' c' : view_ok c -> p2sh_loop vin n c = Ret (n', c') -> reads c c'.
Proof.
  revert n c. induction vin as [|i vin IH]; intros n c Hok; cbn [p2sh_loop]; [by intros [= _ <-]|].
  destruct (GetOutputFor i c) as [[x c1]|] eqn:E; [|done]. apply GetOutputFor_reads in E; [|done]. cbn [mbind outcome_bind].
  destruct (if IsPayToScriptHash _ then _ else _) as [k|]; [|done]. cbn [mbind outcome_bind]. intros Hp.
  eapply reads_trans; [exact E|]. eapply IH; [|exact Hp]. apply E.
Qed.

Lemma witness_loop_reads vin flags n c n' c' : view_ok c -> witness_loop vin flags n c = Ret (n', c') -> reads c c'.
Proof.
  revert n c. induction vin as [|i vin IH]; intros n c Hok; cbn [witness_loop]; [by intros [= _ <-]|].
  destruct (GetOutputFor i c) as [[x c1]|] eqn:E; [|done]. apply GetOutputFor_reads in E; [|done]. cbn [mbind outcome_bind].
  destruct (CountWitnessSigOps _ _ _ _) as [k|]; [|done]. cbn [mbind outcome_bind]. intros Hp.
  eapply reads_trans; [exact E|]. eapply IH; [|exact Hp]. apply E.
Qed.

Lemma SigOpCost_reads tx flags c n c' : view_ok c -> GetTransactionSigOpCost tx flags c = Ret (n, c') -> reads c c'.
Proof.
  intros Hok. unfold GetTransactionSigOpCost, GetP2SHSigOpCount. destruct (GetLegacySigOpCount tx) as [k|]; [|done]. cbn [mbind outcome_bind].
  destruct (IsCoinBase tx); [by intros [= _ <-]|]. destruct (negb _); cbn [mbind outcome_bind]; [|by apply witness_loop_reads].
  destruct (p2sh_loop (vin tx) 0 c) as [[p c1]|] eqn:E; [|done]. apply p2sh_loop_reads in E; [|done]. cbn [mbind outcome_bind].
  intros Hw. eapply reads_trans; [exact E|]. eapply witness_loop_reads; [|exact Hw]. apply E.
Qed.

End Spec.


Definition pay_tx (v : Z) : CTransaction :=
  mkTransaction 1 [mkTxIn (mkOutPoint demo_txid 2) [] SEQUENCE_FINAL []; mkTxIn (mkOutPoint demo_txid 0) [] SEQUENCE_FINAL []]
    [mkTxOut v [83]] 0 (repeat 2 32).

Lemma demo_heights : map_Forall (fun _ cs => 0 <= cHeight cs < 2 ^ 31) (utxo (newCache demo_db)).
Proof.
  change (utxo (newCache demo_db)) with (overlay ∅ (db_coins demo_db)). rewrite overlay_empty.
  apply map_Forall_singleton. cbn. lia.
Qed.

Definition accepts (h v : Z) : bool :=
  match CheckTxInputs CMainParams (pay_tx v) CValidationState_new h (newCache demo_db) with Ret (r, _) => r.1 | Abort => false end.

