(* ===== verification/Interpreter.v ===== *)
(** * The script interpreter ([script/interpreter.cpp], [script/interpreter.h])

    [EvalScript] as a stack machine: the encoding checks of signatures, keys
    and pushes, one definition per group of opcodes, the loop over the
    script, and [VerifyScript] with pay-to-script-hash and witness programs.

    A vector used as a stack is a list with its top first: [stacktop(-i)] is
    the [i]-th element.  [Continue] is a statement that goes on, and at the
    end [return set_success(serror)]; [Return e] is
    [return set_error(serror, e)]; [Crash] is a failed assertion.  An
    exception inside [EvalScript] ends in its [catch (...)], so it is
    [Return SCRIPT_ERR_UNKNOWN_ERROR]. *)

From S2P Require Import Prelude ArithUint256 StrEncodings Uint256 Amount Tx Script Serialize CheckTx TxInputs Hashes.
From stdpp Require Import list.
#[local] Open Scope Z_scope.

(** ** Errors, flags, opcodes *)

Inductive ScriptError :=
| SCRIPT_ERR_OK
| SCRIPT_ERR_UNKNOWN_ERROR
| SCRIPT_ERR_EVAL_FALSE
| SCRIPT_ERR_OP_RETURN
| SCRIPT_ERR_SCRIPT_SIZE
| SCRIPT_ERR_PUSH_SIZE
| SCRIPT_ERR_OP_COUNT
| SCRIPT_ERR_STACK_SIZE
| SCRIPT_ERR_SIG_COUNT
| SCRIPT_ERR_PUBKEY_COUNT
| SCRIPT_ERR_VERIFY
| SCRIPT_ERR_EQUALVERIFY
| SCRIPT_ERR_CHECKMULTISIGVERIFY
| SCRIPT_ERR_CHECKSIGVERIFY
| SCRIPT_ERR_NUMEQUALVERIFY
| SCRIPT_ERR_BAD_OPCODE
| SCRIPT_ERR_DISABLED_OPCODE
| SCRIPT_ERR_INVALID_STACK_OPERATION
| SCRIPT_ERR_INVALID_ALTSTACK_OPERATION
| SCRIPT_ERR_UNBALANCED_CONDITIONAL
| SCRIPT_ERR_NEGATIVE_LOCKTIME
| SCRIPT_ERR_UNSATISFIED_LOCKTIME
| SCRIPT_ERR_SIG_HASHTYPE
| SCRIPT_ERR_SIG_DER
| SCRIPT_ERR_MINIMALDATA
| SCRIPT_ERR_SIG_PUSHONLY
| SCRIPT_ERR_SIG_HIGH_S
| SCRIPT_ERR_SIG_NULLDUMMY
| SCRIPT_ERR_PUBKEYTYPE
| SCRIPT_ERR_CLEANSTACK
| SCRIPT_ERR_MINIMALIF
| SCRIPT_ERR_SIG_NULLFAIL
| SCRIPT_ERR_DISCOURAGE_UPGRADABLE_NOPS
| SCRIPT_ERR_DISCOURAGE_UPGRADABLE_WITNESS_PROGRAM
| SCRIPT_ERR_WITNESS_PROGRAM_WRONG_LENGTH
| SCRIPT_ERR_WITNESS_PROGRAM_WITNESS_EMPTY
| SCRIPT_ERR_WITNESS_PROGRAM_MISMATCH
| SCRIPT_ERR_WITNESS_MALLEATED
| SCRIPT_ERR_WITNESS_MALLEATED_P2SH
| SCRIPT_ERR_WITNESS_UNEXPECTED
| SCRIPT_ERR_WITNESS_PUBKEYTYPE
| SCRIPT_ERR_ERROR_COUNT.

Definition ScriptErrorString (serror : ScriptError) : list Z :=
  match serror with
  | SCRIPT_ERR_OK => str "No error"
  | SCRIPT_ERR_EVAL_FALSE => str "Script evaluated without error but finished with a false/empty top stack element"
  | SCRIPT_ERR_VERIFY => str "Script failed an OP_VERIFY operation"
  | SCRIPT_ERR_EQUALVERIFY => str "Script failed an OP_EQUALVERIFY operation"
  | SCRIPT_ERR_CHECKMULTISIGVERIFY => str "Script failed an OP_CHECKMULTISIGVERIFY operation"
  | SCRIPT_ERR_CHECKSIGVERIFY => str "Script failed an OP_CHECKSIGVERIFY operation"
  | SCRIPT_ERR_NUMEQUALVERIFY => str "Script failed an OP_NUMEQUALVERIFY operation"
  | SCRIPT_ERR_SCRIPT_SIZE => str "Script is too big"
  | SCRIPT_ERR_PUSH_SIZE => str "Push value size limit exceeded"
  | SCRIPT_ERR_OP_COUNT => str "Operation limit exceeded"
  | SCRIPT_ERR_STACK_SIZE => str "Stack size limit exceeded"
  | SCRIPT_ERR_SIG_COUNT => str "Signature count negative or greater than pubkey count"
  | SCRIPT_ERR_PUBKEY_COUNT => str "Pubkey count negative or limit exceeded"
  | SCRIPT_ERR_BAD_OPCODE => str "Opcode missing or not understood"
  | SCRIPT_ERR_DISABLED_OPCODE => str "Attempted to use a disabled opcode"
  | SCRIPT_ERR_INVALID_STACK_OPERATION => str "Operation not valid with the current stack size"
  | SCRIPT_ERR_INVALID_ALTSTACK_OPERATION => str "Operation not valid with the current altstack size"
  | SCRIPT_ERR_OP_RETURN => str "OP_RETURN was encountered"
  | SCRIPT_ERR_UNBALANCED_CONDITIONAL => str "Invalid OP_IF construction"
  | SCRIPT_ERR_NEGATIVE_LOCKTIME => str "Negative locktime"
  | SCRIPT_ERR_UNSATISFIED_LOCKTIME => str "Locktime requirement not satisfied"
  | SCRIPT_ERR_SIG_HASHTYPE => str "Signature hash type missing or not understood"
  | SCRIPT_ERR_SIG_DER => str "Non-canonical DER signature"
  | SCRIPT_ERR_MINIMALDATA => str "Data push larger than necessary"
  | SCRIPT_ERR_SIG_PUSHONLY => str "Only non-push operators allowed in signatures"
  | SCRIPT_ERR_SIG_HIGH_S => str "Non-canonical signature: S value is unnecessarily high"
  | SCRIPT_ERR_SIG_NULLDUMMY => str "Dummy CHECKMULTISIG argument must be zero"
  | SCRIPT_ERR_MINIMALIF => str "OP_IF/NOTIF argument must be minimal"
  | SCRIPT_ERR_SIG_NULLFAIL => str "Signature must be zero for failed CHECK(MULTI)SIG operation"
  | SCRIPT_ERR_DISCOURAGE_UPGRADABLE_NOPS => str "NOPx reserved for soft-fork upgrades"
  | SCRIPT_ERR_DISCOURAGE_UPGRADABLE_WITNESS_PROGRAM => str "Witness version reserved for soft-fork upgrades"
  | SCRIPT_ERR_PUBKEYTYPE => str "Public key is neither compressed or uncompressed"
  | SCRIPT_ERR_WITNESS_PROGRAM_WRONG_LENGTH => str "Witness program has incorrect length"
  | SCRIPT_ERR_WITNESS_PROGRAM_WITNESS_EMPTY => str "Witness program was passed an empty witness"
  | SCRIPT_ERR_WITNESS_PROGRAM_MISMATCH => str "Witness program hash mismatch"
  | SCRIPT_ERR_WITNESS_MALLEATED => str "Witness requires empty scriptSig"
  | SCRIPT_ERR_WITNESS_MALLEATED_P2SH => str "Witness requires only-redeemscript scriptSig"
  | SCRIPT_ERR_WITNESS_UNEXPECTED => str "Witness provided for non-witness script"
  | SCRIPT_ERR_WITNESS_PUBKEYTYPE => str "Using non-compressed keys in segwit"
  | _ => str "unknown error"
  end.

Definition SCRIPT_VERIFY_STRICTENC : Z := 2 ^ 1.
Definition SCRIPT_VERIFY_LOW_S : Z := 2 ^ 3.
Definition SCRIPT_VERIFY_SIGPUSHONLY : Z := 2 ^ 5.
Definition SCRIPT_VERIFY_MINIMALDATA : Z := 2 ^ 6.
Definition SCRIPT_VERIFY_DISCOURAGE_UPGRADABLE_NOPS : Z := 2 ^ 7.
Definition SCRIPT_VERIFY_CLEANSTACK : Z := 2 ^ 8.
Definition SCRIPT_VERIFY_DISCOURAGE_UPGRADABLE_WITNESS_PROGRAM : Z := 2 ^ 12.
Definition SCRIPT_VERIFY_MINIMALIF : Z := 2 ^ 13.
Definition SCRIPT_VERIFY_NULLFAIL : Z := 2 ^ 14.
Definition SCRIPT_VERIFY_WITNESS_PUBKEYTYPE : Z := 2 ^ 15.

Definition SIGHASH_ALL : Z := 1.
Definition SIGHASH_NONE : Z := 2.
Definition SIGHASH_SINGLE : Z := 3.
Definition SIGHASH_ANYONECANPAY : Z := 0x80.

Inductive SigVersion := SIGVERSION_BASE | SIGVERSION_WITNESS_V0.
#[export] Instance SigVersion_eq_dec : EqDecision SigVersion.
Proof. solve_decision. Defined.

(** The opcodes [Script.v] does not name. *)
Definition OP_1NEGATE : Z := 0x4f.
Definition OP_NOP : Z := 0x61.
Definition OP_IF : Z := 0x63.
Definition OP_NOTIF : Z := 0x64.
Definition OP_ELSE : Z := 0x67.
Definition OP_ENDIF : Z := 0x68.
Definition OP_VERIFY : Z := 0x69.
Definition OP_TOALTSTACK : Z := 0x6b.
Definition OP_FROMALTSTACK : Z := 0x6c.
Definition OP_2DROP : Z := 0x6d.
Definition OP_2DUP : Z := 0x6e.
Definition OP_3DUP : Z := 0x6f.
Definition OP_2OVER : Z := 0x70.
Definition OP_2ROT : Z := 0x71.
Definition OP_2SWAP : Z := 0x72.
Definition OP_IFDUP : Z := 0x73.
Definition OP_DEPTH : Z := 0x74.
Definition OP_DROP : Z := 0x75.
Definition OP_NIP : Z := 0x77.
Definition OP_OVER : Z := 0x78.
Definition OP_PICK : Z := 0x79.
Definition OP_ROLL : Z := 0x7a.
Definition OP_ROT : Z := 0x7b.
Definition OP_SWAP : Z := 0x7c.
Definition OP_TUCK : Z := 0x7d.
Definition OP_CAT : Z := 0x7e.
Definition OP_SUBSTR : Z := 0x7f.
Definition OP_LEFT : Z := 0x80.
Definition OP_RIGHT : Z := 0x81.
Definition OP_SIZE : Z := 0x82.
Definition OP_INVERT : Z := 0x83.
Definition OP_AND : Z := 0x84.
Definition OP_OR : Z := 0x85.
Definition OP_XOR : Z := 0x86.
Definition OP_1ADD : Z := 0x8b.
Definition OP_1SUB : Z := 0x8c.
Definition OP_2MUL : Z := 0x8d.
Definition OP_2DIV : Z := 0x8e.
Definition OP_NEGATE : Z := 0x8f.
Definition OP_ABS : Z := 0x90.
Definition OP_NOT : Z := 0x91.
Definition OP_0NOTEQUAL : Z := 0x92.
Definition OP_ADD : Z := 0x93.
Definition OP_SUB : Z := 0x94.
Definition OP_MUL : Z := 0x95.
Definition OP_DIV : Z := 0x96.
Definition OP_MOD : Z := 0x97.
Definition OP_LSHIFT : Z := 0x98.
Definition OP_RSHIFT : Z := 0x99.
Definition OP_BOOLAND : Z := 0x9a.
Definition OP_BOOLOR : Z := 0x9b.
Definition OP_NUMEQUAL : Z := 0x9c.
Definition OP_NUMEQUALVERIFY : Z := 0x9d.
Definition OP_NUMNOTEQUAL : Z := 0x9e.
Definition OP_LESSTHAN : Z := 0x9f.
Definition OP_GREATERTHAN : Z := 0xa0.
Definition OP_LESSTHANOREQUAL : Z := 0xa1.
Definition OP_GREATERTHANOREQUAL : Z := 0xa2.
Definition OP_MIN : Z := 0xa3.
Definition OP_MAX : Z := 0xa4.
Definition OP_WITHIN : Z := 0xa5.
Definition OP_RIPEMD160 : Z := 0xa6.
Definition OP_SHA1 : Z := 0xa7.
Definition OP_SHA256 : Z := 0xa8.
Definition OP_HASH256 : Z := 0xaa.
Definition OP_CODESEPARATOR : Z := 0xab.
Definition OP_NOP1 : Z := 0xb0.
Definition OP_CHECKLOCKTIMEVERIFY : Z := 0xb1.
Definition OP_CHECKSEQUENCEVERIFY : Z := 0xb2.
Definition OP_NOP4 : Z := 0xb3.
Definition OP_NOP10 : Z := 0xb9.

Definition MAX_SCRIPT_ELEMENT_SIZE : Z := 520.
Definition MAX_OPS_PER_SCRIPT : Z := 201.

(** ** What the interpreter calls *)

Abbreviation valtype := (list Z).
Abbreviation script_run := (run ScriptError).

(** The curve operations of [libsecp256k1], which [CPubKey] calls:
    [CheckLowS(vchSig)] and [Verify(pubkey, hash, vchSig)] of a valid key. *)
Class Crypto := {
  CheckLowS : list Z -> bool;
  Verify : list Z -> uint256 -> list Z -> bool
}.

(** [BaseSignatureChecker]: its virtual methods, and the methods of the base
    class. *)
Record BaseSignatureChecker := mkChecker {
  CheckSig : valtype -> valtype -> CScript -> SigVersion -> outcome bool;
  CheckLockTime : Z -> outcome bool;
  CheckSequence : Z -> outcome bool
}.
Definition BaseSignatureChecker_default : BaseSignatureChecker :=
  mkChecker (fun _ _ _ _ => Ret false) (fun _ => Ret false) (fun _ => Ret false).

(** Tests of flag bits, [if (!b) return set_error(serror, e)]. *)
Definition has (flags bits : Z) : bool := negb (Z.land flags bits =? 0).
Definition require (b : bool) (e : ScriptError) : script_run unit := if b then Continue tt else Return e.
(** A call that may throw. *)
Definition catch {A} (o : outcome A) : script_run A :=
  match o with Ret a => Continue a | Abort => Return SCRIPT_ERR_UNKNOWN_ERROR end.

(** ** Deleting from a script *)

(** The loop [while (... std::equal(b.begin(), b.end(), pc))]: [pc] and
    [nFound] after it. *)
Fixpoint skip_matches (fuel : nat) (b pc : CScript) (nFound : Z) : outcome (CScript * Z) :=
  if (length b <=? length pc)%nat && bool_decide (take (length b) pc = b)
  then match fuel with
       | O => Abort
       | S fuel' => skip_matches fuel' b (drop (length b) pc) (nFound + 1)
       end
  else Ret (pc, nFound).

(** The bytes from [pc2] to [pc]. *)
Definition bytes_between (pc2 pc : CScript) : CScript := take (length pc2 - length pc) pc2.

(** The loop [do ... while (GetOp(pc, opcode))]: [result], [pc2], [nFound]. *)
Fixpoint FindAndDelete_loop (fuel : nat) (b pc pc2 result : CScript) (nFound : Z) : outcome (CScript * CScript * Z) :=
  let result := result ++ bytes_between pc2 pc in
  '(pc, nFound) ← skip_matches (length pc) b pc nFound;
  let pc2 := pc in
  match GetOp2 pc with
  | None => Ret (result, pc2, nFound)
  | Some (_, _, pc) =>
      match fuel with O => Abort | S fuel' => FindAndDelete_loop fuel' b pc pc2 result nFound end
  end.

(** The script and the number of matches deleted. *)
Definition FindAndDelete (this b : CScript) : outcome (CScript * Z) :=
  match b with
  | [] => Ret (this, 0)
  | _ => '(result, pc2, nFound) ← FindAndDelete_loop (length this) b this this [] 0;
         Ret (if 0 <? nFound then result ++ pc2 else this, nFound)
  end.

(** ** Encodings *)

Fixpoint CastToBool (vch : valtype) : bool :=
  match vch with
  | [] => false
  | b :: vch' => if negb (b =? 0) then negb ((length vch' =? 0)%nat && (b =? 0x80)) else CastToBool vch'
  end.

Definition IsCompressedOrUncompressedPubKey (vchPubKey : valtype) : bool :=
  if (length vchPubKey <? 33)%nat then false
  else if vchPubKey.[0] =? 4 then size_is 65 vchPubKey
  else if (vchPubKey.[0] =? 2) || (vchPubKey.[0] =? 3) then size_is 33 vchPubKey
  else false.

Definition IsCompressedPubKey (vchPubKey : valtype) : bool :=
  if negb (size_is 33 vchPubKey) then false
  else if negb (vchPubKey.[0] =? 2) && negb (vchPubKey.[0] =? 3) then false
  else true.

Definition IsValidSignatureEncoding (sig : valtype) : bool :=
  let size := Z.of_nat (length sig) in
  if size <? 9 then false
  else if 73 <? size then false
  else if negb (sig.[0] =? 0x30) then false
  else if negb (sig.[1] =? size - 3) then false
  else let lenR := sig.[3] in
  if size <=? 5 + lenR then false
  else let lenS := sig.[Z.to_nat (5 + lenR)] in
  if negb (lenR + lenS + 7 =? size) then false
  else if negb (sig.[2] =? 2) then false
  else if lenR =? 0 then false
  else if has (sig.[4]) 0x80 then false
  else if (1 <? lenR) && (sig.[4] =? 0) && negb (has (sig.[5]) 0x80) then false
  else if negb (sig.[Z.to_nat (lenR + 4)] =? 2) then false
  else if lenS =? 0 then false
  else if has (sig.[Z.to_nat (lenR + 6)]) 0x80 then false
  else if (1 <? lenS) && (sig.[Z.to_nat (lenR + 6)] =? 0) && negb (has (sig.[Z.to_nat (lenR + 7)]) 0x80) then false
  else true.

Definition IsDefinedHashtypeSignature (vchSig : valtype) : bool :=
  if (length vchSig =? 0)%nat then false
  else let nHashType := u8 (Z.land (back vchSig) (Z.lnot SIGHASH_ANYONECANPAY)) in
       if (nHashType <? SIGHASH_ALL) || (SIGHASH_SINGLE <? nHashType) then false else true.

Definition CheckMinimalPush (data : valtype) (opcode : Z) : bool :=
  if (length data =? 0)%nat then opcode =? OP_0
  else if size_is 1 data && (1 <=? data.[0]) && (data.[0] <=? 16) then opcode =? OP_1 + (data.[0] - 1)
  else if size_is 1 data && (data.[0] =? 0x81) then opcode =? OP_1NEGATE
  else if (length data <=? 75)%nat then opcode =? Z.of_nat (length data)
  else if Z.of_nat (length data) <=? 255 then opcode =? OP_PUSHDATA1
  else if Z.of_nat (length data) <=? 65535 then opcode =? OP_PUSHDATA2
  else true.

(** [operator-] with its assertion. *)
Definition num_neg (m_value : Z) : outcome Z := assert_ (negb (m_value =? - 2 ^ 63));; Ret (i64 (- m_value)).

Definition vchFalse : valtype := [].
Definition vchTrue : valtype := [1].
Definition vch_bool (b : bool) : valtype := if b then vchTrue else vchFalse.

(** ** The machine

    The local variables of [EvalScript] that change, [pc] apart.
    [pbegincodehash] is the rest of the script from there. *)

Record machine := mkMachine {
  stack : list valtype;
  altstack : list valtype;
  vfExec : list bool;
  pbegincodehash : CScript;
  nOpCount : Z
}.
Definition set_stack (st : list valtype) (m : machine) : machine :=
  mkMachine st (altstack m) (vfExec m) (pbegincodehash m) (nOpCount m).
Definition set_altstack (st : list valtype) (m : machine) : machine :=
  mkMachine (stack m) st (vfExec m) (pbegincodehash m) (nOpCount m).
Definition set_vfExec (l : list bool) (m : machine) : machine :=
  mkMachine (stack m) (altstack m) l (pbegincodehash m) (nOpCount m).
Definition set_pbegincodehash (pc : CScript) (m : machine) : machine :=
  mkMachine (stack m) (altstack m) (vfExec m) pc (nOpCount m).
Definition set_nOpCount (n : Z) (m : machine) : machine :=
  mkMachine (stack m) (altstack m) (vfExec m) (pbegincodehash m) n.

(** [stack.size()] as an [int]; [stacktop(-i)], an exception out of range;
    [popstack]. *)
Definition isize (st : list valtype) : Z := i32 (Z.of_nat (length st)).
Definition stacktop (i : Z) (st : list valtype) : script_run valtype :=
  match st !! Z.to_nat (i - 1) with Some v => Continue v | None => Return SCRIPT_ERR_UNKNOWN_ERROR end.
Definition popstack (st : list valtype) : script_run (list valtype) :=
  match st with [] => Return SCRIPT_ERR_UNKNOWN_ERROR | _ :: st => Continue st end.
Definition invalid_stack {A} : script_run A := Return SCRIPT_ERR_INVALID_STACK_OPERATION.

(** The cases that read and write the stack only and depend on nothing else;
    the last one is the [default] of the [switch]. *)
Definition stack_op (opcode : Z) (st : list valtype) : script_run (list valtype) :=
  if opcode =? OP_2DROP then match st with _ :: _ :: st => Continue st | _ => invalid_stack end
  else if opcode =? OP_2DUP then match st with x2 :: x1 :: st => Continue (x2 :: x1 :: x2 :: x1 :: st) | _ => invalid_stack end
  else if opcode =? OP_3DUP then
    match st with x3 :: x2 :: x1 :: st => Continue (x3 :: x2 :: x1 :: x3 :: x2 :: x1 :: st) | _ => invalid_stack end
  else if opcode =? OP_2OVER then
    match st with x4 :: x3 :: x2 :: x1 :: st => Continue (x2 :: x1 :: x4 :: x3 :: x2 :: x1 :: st) | _ => invalid_stack end
  else if opcode =? OP_2ROT then
    match st with x6 :: x5 :: x4 :: x3 :: x2 :: x1 :: st => Continue (x2 :: x1 :: x6 :: x5 :: x4 :: x3 :: st) | _ => invalid_stack end
  else if opcode =? OP_2SWAP then
    match st with x4 :: x3 :: x2 :: x1 :: st => Continue (x2 :: x1 :: x4 :: x3 :: st) | _ => invalid_stack end
  else if opcode =? OP_IFDUP then
    match st with vch :: st => Continue (if CastToBool vch then vch :: vch :: st else vch :: st) | _ => invalid_stack end
  else if opcode =? OP_DEPTH then Continue (serialize (i64 (Z.of_nat (length st))) :: st)
  else if opcode =? OP_DROP then match st with _ :: st => Continue st | _ => invalid_stack end
  else if opcode =? OP_DUP then match st with vch :: st => Continue (vch :: vch :: st) | _ => invalid_stack end
  else if opcode =? OP_NIP then match st with x2 :: _ :: st => Continue (x2 :: st) | _ => invalid_stack end
  else if opcode =? OP_OVER then match st with x2 :: x1 :: st => Continue (x1 :: x2 :: x1 :: st) | _ => invalid_stack end
  else if opcode =? OP_ROT then match st with x3 :: x2 :: x1 :: st => Continue (x1 :: x3 :: x2 :: st) | _ => invalid_stack end
  else if opcode =? OP_SWAP then match st with x2 :: x1 :: st => Continue (x1 :: x2 :: st) | _ => invalid_stack end
  else if opcode =? OP_TUCK then match st with x2 :: x1 :: st => Continue (x2 :: x1 :: x2 :: st) | _ => invalid_stack end
  else if opcode =? OP_SIZE then
    match st with vch :: st => Continue (serialize (i64 (Z.of_nat (length vch))) :: vch :: st) | _ => invalid_stack end
  else if (opcode =? OP_EQUAL) || (opcode =? OP_EQUALVERIFY) then
    match st with
    | vch2 :: vch1 :: st =>
        let fEqual := bool_decide (vch1 = vch2) in
        if opcode =? OP_EQUALVERIFY
        then if fEqual then Continue st else Return SCRIPT_ERR_EQUALVERIFY
        else Continue (vch_bool fEqual :: st)
    | _ => invalid_stack
    end
  else Return SCRIPT_ERR_BAD_OPCODE.

(** The cases that only do arithmetic, on the numbers the operands denote. *)
Definition unary_num (opcode bn : Z) : outcome Z :=
  if opcode =? OP_1ADD then num_add bn 1
  else if opcode =? OP_1SUB then num_sub bn 1
  else if opcode =? OP_NEGATE then num_neg bn
  else if opcode =? OP_ABS then (if bn <? 0 then num_neg bn else Ret bn)
  else if opcode =? OP_NOT then Ret (Z.b2z (bn =? 0))
  else if opcode =? OP_0NOTEQUAL then Ret (Z.b2z (negb (bn =? 0)))
  else Abort.

Definition binary_num (opcode bn1 bn2 : Z) : outcome Z :=
  if opcode =? OP_ADD then Ret (i64 (bn1 + bn2))
  else if opcode =? OP_SUB then Ret (i64 (bn1 - bn2))
  else if opcode =? OP_BOOLAND then Ret (Z.b2z (negb (bn1 =? 0) && negb (bn2 =? 0)))
  else if opcode =? OP_BOOLOR then Ret (Z.b2z (negb (bn1 =? 0) || negb (bn2 =? 0)))
  else if opcode =? OP_NUMEQUAL then Ret (Z.b2z (bn1 =? bn2))
  else if opcode =? OP_NUMEQUALVERIFY then Ret (Z.b2z (bn1 =? bn2))
  else if opcode =? OP_NUMNOTEQUAL then Ret (Z.b2z (negb (bn1 =? bn2)))
  else if opcode =? OP_LESSTHAN then Ret (Z.b2z (bn1 <? bn2))
  else if opcode =? OP_GREATERTHAN then Ret (Z.b2z (bn2 <? bn1))
  else if opcode =? OP_LESSTHANOREQUAL then Ret (Z.b2z (bn1 <=? bn2))
  else if opcode =? OP_GREATERTHANOREQUAL then Ret (Z.b2z (bn2 <=? bn1))
  else if opcode =? OP_MIN then Ret (if bn1 <? bn2 then bn1 else bn2)
  else if opcode =? OP_MAX then Ret (if bn2 <? bn1 then bn1 else bn2)
  else Abort.

Definition hash_op (opcode : Z) (vch : valtype) : valtype :=
  if opcode =? OP_RIPEMD160 then CRIPEMD160_hash vch
  else if opcode =? OP_SHA1 then CSHA1_hash vch
  else if opcode =? OP_SHA256 then CSHA256_hash vch
  else if opcode =? OP_HASH160 then CHash160 vch
  else CHash256 vch.

(** The groups of opcodes that share a case. *)
Definition in_list (opcode : Z) (l : list Z) : bool := existsb (Z.eqb opcode) l.
Definition disabled_opcode (opcode : Z) : bool :=
  in_list opcode [OP_CAT; OP_SUBSTR; OP_LEFT; OP_RIGHT; OP_INVERT; OP_AND; OP_OR; OP_XOR; OP_2MUL; OP_2DIV; OP_MUL;
                  OP_DIV; OP_MOD; OP_LSHIFT; OP_RSHIFT].
Definition unary_opcode (opcode : Z) : bool :=
  in_list opcode [OP_1ADD; OP_1SUB; OP_NEGATE; OP_ABS; OP_NOT; OP_0NOTEQUAL].
Definition binary_opcode (opcode : Z) : bool :=
  in_list opcode [OP_ADD; OP_SUB; OP_BOOLAND; OP_BOOLOR; OP_NUMEQUAL; OP_NUMEQUALVERIFY; OP_NUMNOTEQUAL; OP_LESSTHAN;
                  OP_GREATERTHAN; OP_LESSTHANOREQUAL; OP_GREATERTHANOREQUAL; OP_MIN; OP_MAX].
Definition hash_opcode (opcode : Z) : bool :=
  in_list opcode [OP_RIPEMD160; OP_SHA1; OP_SHA256; OP_HASH160; OP_HASH256].

Section Eval.
Context `{Crypto}.
Variable flags : Z.
Variable checker : BaseSignatureChecker.
Variable sigversion : SigVersion.

Definition IsLowDERSignature (vchSig : valtype) : script_run unit :=
  require (IsValidSignatureEncoding vchSig) SCRIPT_ERR_SIG_DER;;
  require (CheckLowS (removelast vchSig)) SCRIPT_ERR_SIG_HIGH_S.

Definition CheckSignatureEncoding (vchSig : valtype) : script_run unit :=
  if (length vchSig =? 0)%nat then Continue tt
  else if has flags (Z.lor (Z.lor SCRIPT_VERIFY_DERSIG SCRIPT_VERIFY_LOW_S) SCRIPT_VERIFY_STRICTENC)
          && negb (IsValidSignatureEncoding vchSig)
  then Return SCRIPT_ERR_SIG_DER
  else
    (if has flags SCRIPT_VERIFY_LOW_S then IsLowDERSignature vchSig else Continue tt);;
    (if has flags SCRIPT_VERIFY_STRICTENC && negb (IsDefinedHashtypeSignature vchSig)
     then Return SCRIPT_ERR_SIG_HASHTYPE else Continue tt).

Definition CheckPubKeyEncoding (vchPubKey : valtype) : script_run unit :=
  if has flags SCRIPT_VERIFY_STRICTENC && negb (IsCompressedOrUncompressedPubKey vchPubKey)
  then Return SCRIPT_ERR_PUBKEYTYPE
  else if has flags SCRIPT_VERIFY_WITNESS_PUBKEYTYPE && bool_decide (sigversion = SIGVERSION_WITNESS_V0)
          && negb (IsCompressedPubKey vchPubKey)
  then Return SCRIPT_ERR_WITNESS_PUBKEYTYPE
  else Continue tt.

Definition fRequireMinimal : bool := has flags SCRIPT_VERIFY_MINIMALDATA.

(** [CScriptNum(vch, fRequireMinimal, nMaxNumSize)], which may throw. *)
Definition script_num (nMaxNumSize : nat) (vch : valtype) : script_run Z :=
  catch (CScriptNum_of vch fRequireMinimal nMaxNumSize).

(** The end of [OP_CHECKLOCKTIMEVERIFY] and [OP_CHECKSEQUENCEVERIFY] where
    they are not enabled, and of the other reserved opcodes. *)
Definition reserved_nop (m : machine) : script_run machine :=
  require (negb (has flags SCRIPT_VERIFY_DISCOURAGE_UPGRADABLE_NOPS)) SCRIPT_ERR_DISCOURAGE_UPGRADABLE_NOPS;;
  Continue m.

Definition op_CHECKLOCKTIMEVERIFY (m : machine) : script_run machine :=
  if negb (has flags SCRIPT_VERIFY_CHECKLOCKTIMEVERIFY) then reserved_nop m
  else match stack m with
       | [] => invalid_stack
       | vch :: _ =>
           nLockTime ← script_num 5 vch;
           require (negb (nLockTime <? 0)) SCRIPT_ERR_NEGATIVE_LOCKTIME;;
           ok ← lift (CheckLockTime checker nLockTime);
           require ok SCRIPT_ERR_UNSATISFIED_LOCKTIME;;
           Continue m
       end.

Definition op_CHECKSEQUENCEVERIFY (m : machine) : script_run machine :=
  if negb (has flags SCRIPT_VERIFY_CHECKSEQUENCEVERIFY) then reserved_nop m
  else match stack m with
       | [] => invalid_stack
       | vch :: _ =>
           nSequence ← script_num 5 vch;
           require (negb (nSequence <? 0)) SCRIPT_ERR_NEGATIVE_LOCKTIME;;
           if negb (Z.land nSequence SEQUENCE_LOCKTIME_DISABLE_FLAG =? 0) then Continue m
           else
             ok ← lift (CheckSequence checker nSequence);
             require ok SCRIPT_ERR_UNSATISFIED_LOCKTIME;;
             Continue m
       end.

(** [OP_IF] and [OP_NOTIF]. *)
Definition op_IF (opcode : Z) (fExec : bool) (m : machine) : script_run machine :=
  if fExec
  then match stack m with
       | [] => Return SCRIPT_ERR_UNBALANCED_CONDITIONAL
       | vch :: st =>
           (if bool_decide (sigversion = SIGVERSION_WITNESS_V0) && has flags SCRIPT_VERIFY_MINIMALIF
            then require (negb (1 <? length vch)%nat) SCRIPT_ERR_MINIMALIF;;
                 require (negb (size_is 1 vch && negb (vch.[0] =? 1))) SCRIPT_ERR_MINIMALIF
            else Continue tt);;
           let fValue := if opcode =? OP_NOTIF then negb (CastToBool vch) else CastToBool vch in
           Continue (set_vfExec (fValue :: vfExec m) (set_stack st m))
       end
  else Continue (set_vfExec (false :: vfExec m) m).

(** [OP_PICK] and [OP_ROLL]. *)
Definition op_PICK (opcode : Z) (st : list valtype) : script_run (list valtype) :=
  match st with
  | vch :: ((_ :: _) as st') =>
      bn ← script_num 4 vch;
      let n := getint bn in
      require (negb ((n <? 0) || (isize st' <=? n))) SCRIPT_ERR_INVALID_STACK_OPERATION;;
      vch ← stacktop (n + 1) st';
      Continue (vch :: if opcode =? OP_ROLL then delete (Z.to_nat n) st' else st')
  | _ => invalid_stack
  end.

Definition unary_op (opcode : Z) (st : list valtype) : script_run (list valtype) :=
  match st with
  | vch :: st =>
      bn ← script_num 4 vch;
      bn ← lift (unary_num opcode bn);
      Continue (serialize bn :: st)
  | _ => invalid_stack
  end.

Definition binary_op (opcode : Z) (st : list valtype) : script_run (list valtype) :=
  match st with
  | vch2 :: vch1 :: st =>
      bn1 ← script_num 4 vch1;
      bn2 ← script_num 4 vch2;
      bn ← lift (binary_num opcode bn1 bn2);
      if opcode =? OP_NUMEQUALVERIFY
      then if CastToBool (serialize bn) then Continue st else Return SCRIPT_ERR_NUMEQUALVERIFY
      else Continue (serialize bn :: st)
  | _ => invalid_stack
  end.

Definition op_WITHIN (st : list valtype) : script_run (list valtype) :=
  match st with
  | vch3 :: vch2 :: vch1 :: st =>
      bn1 ← script_num 4 vch1;
      bn2 ← script_num 4 vch2;
      bn3 ← script_num 4 vch3;
      Continue (vch_bool ((bn2 <=? bn1) && (bn1 <? bn3)) :: st)
  | _ => invalid_stack
  end.

(** Dropping the signature from the code it signs, [SIGVERSION_BASE] only. *)
Definition drop_signature (scriptCode : CScript) (vchSig : valtype) : script_run CScript :=
  if bool_decide (sigversion = SIGVERSION_BASE)
  then '(scriptCode, _) ← lift (FindAndDelete scriptCode (push_vch vchSig)); Continue scriptCode
  else Continue scriptCode.

Definition op_CHECKSIG (opcode : Z) (m : machine) : script_run (list valtype) :=
  match stack m with
  | vchPubKey :: vchSig :: st =>
      scriptCode ← drop_signature (pbegincodehash m) vchSig;
      CheckSignatureEncoding vchSig;;
      CheckPubKeyEncoding vchPubKey;;
      fSuccess ← lift (CheckSig checker vchSig vchPubKey scriptCode sigversion);
      require (negb (negb fSuccess && has flags SCRIPT_VERIFY_NULLFAIL && negb (length vchSig =? 0)%nat)) SCRIPT_ERR_SIG_NULLFAIL;;
      if opcode =? OP_CHECKSIGVERIFY
      then if (fSuccess : bool) then Continue st else Return SCRIPT_ERR_CHECKSIGVERIFY
      else Continue (vch_bool fSuccess :: st)
  | _ => invalid_stack
  end.

(** ** [OP_CHECKMULTISIG] and [OP_CHECKMULTISIGVERIFY] *)

(** The loop [for (int k = 0; k < nSigsCount; k++)]; [n] iterations are left. *)
Fixpoint drop_signatures (n : nat) (st : list valtype) (i : Z) (scriptCode : CScript) : script_run CScript :=
  match n with
  | O => Continue scriptCode
  | S n' =>
      vchSig ← stacktop i st;
      scriptCode ← drop_signature scriptCode vchSig;
      drop_signatures n' st (i + 1) scriptCode
  end.

(** The loop [while (fSuccess && nSigsCount > 0)]: [fSuccess] after it. *)
Fixpoint multisig_loop (fuel : nat) (st : list valtype) (scriptCode : CScript) (isig ikey nSigsCount nKeysCount : Z)
    (fSuccess : bool) : script_run bool :=
  if fSuccess && (0 <? nSigsCount)
  then match fuel with
       | O => Crash
       | S fuel' =>
           vchSig ← stacktop isig st;
           vchPubKey ← stacktop ikey st;
           CheckSignatureEncoding vchSig;;
           CheckPubKeyEncoding vchPubKey;;
           fOk ← lift (CheckSig checker vchSig vchPubKey scriptCode sigversion);
           let isig := if (fOk : bool) then isig + 1 else isig in
           let nSigsCount := if fOk then nSigsCount - 1 else nSigsCount in
           let nKeysCount := nKeysCount - 1 in
           multisig_loop fuel' st scriptCode isig (ikey + 1) nSigsCount nKeysCount
             (if nKeysCount <? nSigsCount then false else fSuccess)
       end
  else Continue fSuccess.

(** The loop [while (i-- > 1)]; [n] iterations are left. *)
Fixpoint multisig_cleanup (n : nat) (fSuccess : bool) (ikey2 : Z) (st : list valtype) : script_run (list valtype) :=
  match n with
  | O => Continue st
  | S n' =>
      (if negb fSuccess && has flags SCRIPT_VERIFY_NULLFAIL && (ikey2 =? 0)
       then vch ← stacktop 1 st; require (length vch =? 0)%nat SCRIPT_ERR_SIG_NULLFAIL
       else Continue tt);;
      let ikey2 := if 0 <? ikey2 then ikey2 - 1 else ikey2 in
      st ← popstack st;
      multisig_cleanup n' fSuccess ikey2 st
  end.

Definition op_CHECKMULTISIG (opcode : Z) (m : machine) : script_run machine :=
  let st := stack m in
  require (negb (isize st <? 1)) SCRIPT_ERR_INVALID_STACK_OPERATION;;
  vch ← stacktop 1 st;
  bn ← script_num 4 vch;
  let nKeysCount := getint bn in
  require (negb ((nKeysCount <? 0) || (MAX_PUBKEYS_PER_MULTISIG <? nKeysCount))) SCRIPT_ERR_PUBKEY_COUNT;;
  let m := set_nOpCount (i32 (nOpCount m + nKeysCount)) m in
  require (negb (MAX_OPS_PER_SCRIPT <? nOpCount m)) SCRIPT_ERR_OP_COUNT;;
  let ikey := 2 in
  let ikey2 := nKeysCount + 2 in
  let i := 2 + nKeysCount in
  require (negb (isize st <? i)) SCRIPT_ERR_INVALID_STACK_OPERATION;;
  vch ← stacktop i st;
  bn ← script_num 4 vch;
  let nSigsCount := getint bn in
  require (negb ((nSigsCount <? 0) || (nKeysCount <? nSigsCount))) SCRIPT_ERR_SIG_COUNT;;
  let isig := i + 1 in
  let i := isig + nSigsCount in
  require (negb (isize st <? i)) SCRIPT_ERR_INVALID_STACK_OPERATION;;
  scriptCode ← drop_signatures (Z.to_nat nSigsCount) st isig (pbegincodehash m);
  fSuccess ← multisig_loop (Z.to_nat nKeysCount) st scriptCode isig ikey nSigsCount nKeysCount true;
  st ← multisig_cleanup (Z.to_nat (i - 1)) fSuccess ikey2 st;
  match st with
  | [] => invalid_stack
  | vch :: st =>
      require (negb (has flags SCRIPT_VERIFY_NULLDUMMY && negb (length vch =? 0)%nat)) SCRIPT_ERR_SIG_NULLDUMMY;;
      if opcode =? OP_CHECKMULTISIGVERIFY
      then if (fSuccess : bool) then Continue (set_stack st m) else Return SCRIPT_ERR_CHECKMULTISIGVERIFY
      else Continue (set_stack (vch_bool fSuccess :: st) m)
  end.

(** ** The loop of [EvalScript] *)

(** [switch (opcode)]; [pc] is past the instruction. *)
Definition exec_op (opcode : Z) (fExec : bool) (pc : CScript) (m : machine) : script_run machine :=
  let on_stack f := st ← f (stack m); Continue (set_stack st m) in
  if (opcode =? OP_1NEGATE) || ((OP_1 <=? opcode) && (opcode <=? OP_16))
  then Continue (set_stack (serialize (opcode - (OP_1 - 1)) :: stack m) m)
  else if opcode =? OP_NOP then Continue m
  else if opcode =? OP_CHECKLOCKTIMEVERIFY then op_CHECKLOCKTIMEVERIFY m
  else if opcode =? OP_CHECKSEQUENCEVERIFY then op_CHECKSEQUENCEVERIFY m
  else if (opcode =? OP_NOP1) || ((OP_NOP4 <=? opcode) && (opcode <=? OP_NOP10)) then reserved_nop m
  else if (opcode =? OP_IF) || (opcode =? OP_NOTIF) then op_IF opcode fExec m
  else if opcode =? OP_ELSE then
    match vfExec m with
    | [] => Return SCRIPT_ERR_UNBALANCED_CONDITIONAL
    | b :: l => Continue (set_vfExec (negb b :: l) m)
    end
  else if opcode =? OP_ENDIF then
    match vfExec m with [] => Return SCRIPT_ERR_UNBALANCED_CONDITIONAL | _ :: l => Continue (set_vfExec l m) end
  else if opcode =? OP_VERIFY then
    match stack m with
    | [] => invalid_stack
    | vch :: st => if CastToBool vch then Continue (set_stack st m) else Return SCRIPT_ERR_VERIFY
    end
  else if opcode =? OP_RETURN then Return SCRIPT_ERR_OP_RETURN
  else if opcode =? OP_TOALTSTACK then
    match stack m with [] => invalid_stack | vch :: st => Continue (set_altstack (vch :: altstack m) (set_stack st m)) end
  else if opcode =? OP_FROMALTSTACK then
    match altstack m with
    | [] => Return SCRIPT_ERR_INVALID_ALTSTACK_OPERATION
    | vch :: alt => Continue (set_altstack alt (set_stack (vch :: stack m) m))
    end
  else if (opcode =? OP_PICK) || (opcode =? OP_ROLL) then on_stack (op_PICK opcode)
  else if unary_opcode opcode then on_stack (unary_op opcode)
  else if binary_opcode opcode then on_stack (binary_op opcode)
  else if opcode =? OP_WITHIN then on_stack op_WITHIN
  else if hash_opcode opcode then
    match stack m with [] => invalid_stack | vch :: st => Continue (set_stack (hash_op opcode vch :: st) m) end
  else if opcode =? OP_CODESEPARATOR then Continue (set_pbegincodehash pc m)
  else if (opcode =? OP_CHECKSIG) || (opcode =? OP_CHECKSIGVERIFY) then st ← op_CHECKSIG opcode m; Continue (set_stack st m)
  else if (opcode =? OP_CHECKMULTISIG) || (opcode =? OP_CHECKMULTISIGVERIFY) then op_CHECKMULTISIG opcode m
  else on_stack (stack_op opcode).

(** One iteration of [while (pc < pend)]. *)
Definition eval_step (pc : CScript) (m : machine) : script_run (CScript * machine) :=
  let fExec := forallb id (vfExec m) in
  match GetOp2 pc with
  | None => Return SCRIPT_ERR_BAD_OPCODE
  | Some (opcode, vchPushValue, pc) =>
      require (negb (MAX_SCRIPT_ELEMENT_SIZE <? Z.of_nat (length vchPushValue))) SCRIPT_ERR_PUSH_SIZE;;
      let m := if OP_16 <? opcode then set_nOpCount (i32 (nOpCount m + 1)) m else m in
      require (negb ((OP_16 <? opcode) && (MAX_OPS_PER_SCRIPT <? nOpCount m))) SCRIPT_ERR_OP_COUNT;;
      require (negb (disabled_opcode opcode)) SCRIPT_ERR_DISABLED_OPCODE;;
      m ← (if fExec && (0 <=? opcode) && (opcode <=? OP_PUSHDATA4)
           then require (negb (fRequireMinimal && negb (CheckMinimalPush vchPushValue opcode))) SCRIPT_ERR_MINIMALDATA;;
                Continue (set_stack (vchPushValue :: stack m) m)
           else if fExec || ((OP_IF <=? opcode) && (opcode <=? OP_ENDIF)) then exec_op opcode fExec pc m
           else Continue m);
      require (negb (1000 <? Z.of_nat (length (stack m) + length (altstack m)))) SCRIPT_ERR_STACK_SIZE;;
      Continue (pc, m)
  end.

Fixpoint eval_loop (fuel : nat) (pc : CScript) (m : machine) : script_run machine :=
  match pc with
  | [] => Continue m
  | _ => match fuel with
         | O => Crash
         | S fuel' => '(pc, m) ← eval_step pc m; eval_loop fuel' pc m
         end
  end.

(** The stack it leaves where it succeeds. *)
Definition EvalScript (st : list valtype) (script : CScript) : script_run (list valtype) :=
  require (negb (MAX_SCRIPT_SIZE <? Z.of_nat (length script))) SCRIPT_ERR_SCRIPT_SIZE;;
  m ← eval_loop (length script) script (mkMachine st [] [] script 0);
  require (length (vfExec m) =? 0)%nat SCRIPT_ERR_UNBALANCED_CONDITIONAL;;
  Continue (stack m).

End Eval.

(** ** [VerifyScript] *)

Section Verify.
Context `{Crypto}.
Variable flags : Z.
Variable checker : BaseSignatureChecker.

(** The script [scriptPubKey << OP_DUP << OP_HASH160 << program << ...]. *)
Definition pubkeyhash_script (program : list Z) : CScript :=
  [OP_DUP; OP_HASH160] ++ push_vch program ++ [OP_EQUALVERIFY; OP_CHECKSIG].

(** [stack.empty() || !CastToBool(stack.back())]. *)
Definition require_true (st : list valtype) : script_run unit :=
  match st with [] => Return SCRIPT_ERR_EVAL_FALSE | vch :: _ => require (CastToBool vch) SCRIPT_ERR_EVAL_FALSE end.

(** The script and the stack of a version 0 program. *)
Definition witness_v0 (witness : list valtype) (program : list Z) : script_run (CScript * list valtype) :=
  if (length program =? 32)%nat
  then match last witness with
       | None => Return SCRIPT_ERR_WITNESS_PROGRAM_WITNESS_EMPTY
       | Some scriptPubKey =>
           require (bool_decide (CSHA256_hash scriptPubKey = program)) SCRIPT_ERR_WITNESS_PROGRAM_MISMATCH;;
           Continue (scriptPubKey, rev (removelast witness))
       end
  else if (length program =? 20)%nat
  then require (length witness =? 2)%nat SCRIPT_ERR_WITNESS_PROGRAM_MISMATCH;;
       Continue (pubkeyhash_script program, rev witness)
  else Return SCRIPT_ERR_WITNESS_PROGRAM_WRONG_LENGTH.

Definition VerifyWitnessProgram (witness : list valtype) (witversion : Z) (program : list Z) : script_run unit :=
  if witversion =? 0
  then
    '(scriptPubKey, st) ← witness_v0 witness program;
    require (forallb (fun vch => negb (MAX_SCRIPT_ELEMENT_SIZE <? Z.of_nat (length vch))) st) SCRIPT_ERR_PUSH_SIZE;;
    st ← EvalScript flags checker SIGVERSION_WITNESS_V0 st scriptPubKey;
    require (length st =? 1)%nat SCRIPT_ERR_EVAL_FALSE;;
    require_true st
  else require (negb (has flags SCRIPT_VERIFY_DISCOURAGE_UPGRADABLE_WITNESS_PROGRAM))
         SCRIPT_ERR_DISCOURAGE_UPGRADABLE_WITNESS_PROGRAM.

(** The part [if (flags & SCRIPT_VERIFY_WITNESS)] for [script], with the
    [scriptSig] it asks for: [hadWitness] and the stack after it. *)
Definition verify_witness (script scriptSig allowed : CScript) (e : ScriptError) (witness st : list valtype)
    (hadWitness : bool) : script_run (bool * list valtype) :=
  if has flags SCRIPT_VERIFY_WITNESS
  then program ← lift (IsWitnessProgram script);
       match program with
       | Some (witnessversion, witnessprogram) =>
           require (bool_decide (scriptSig = allowed)) e;;
           VerifyWitnessProgram witness witnessversion witnessprogram;;
           Continue (true, drop (length st - 1) st)
       | None => Continue (hadWitness, st)
       end
  else Continue (hadWitness, st).

(** The part [if ((flags & SCRIPT_VERIFY_P2SH) && ...)]. *)
Definition verify_p2sh (scriptSig scriptPubKey : CScript) (witness st stackCopy : list valtype) (hadWitness : bool)
    : script_run (bool * list valtype) :=
  if has flags SCRIPT_VERIFY_P2SH && IsPayToScriptHash scriptPubKey
  then
    pushes ← lift (IsPushOnly scriptSig);
    require pushes SCRIPT_ERR_SIG_PUSHONLY;;
    match stackCopy with
    | [] => Crash
    | pubKey2 :: st =>
        st ← EvalScript flags checker SIGVERSION_BASE st pubKey2;
        require_true st;;
        verify_witness pubKey2 scriptSig (push_vch pubKey2) SCRIPT_ERR_WITNESS_MALLEATED_P2SH witness st hadWitness
    end
  else Continue (hadWitness, st).

Definition VerifyScript (scriptSig scriptPubKey : CScript) (witness : list valtype) : script_run unit :=
  (if has flags SCRIPT_VERIFY_SIGPUSHONLY
   then pushes ← lift (IsPushOnly scriptSig); require pushes SCRIPT_ERR_SIG_PUSHONLY
   else Continue tt);;
  st ← EvalScript flags checker SIGVERSION_BASE [] scriptSig;
  let stackCopy := if has flags SCRIPT_VERIFY_P2SH then st else [] in
  st ← EvalScript flags checker SIGVERSION_BASE st scriptPubKey;
  require_true st;;
  '(hadWitness, st) ← verify_witness scriptPubKey scriptSig [] SCRIPT_ERR_WITNESS_MALLEATED witness st false;
  '(hadWitness, st) ← verify_p2sh scriptSig scriptPubKey witness st stackCopy hadWitness;
  (if has flags SCRIPT_VERIFY_CLEANSTACK
   then lift (assert_ (has flags SCRIPT_VERIFY_P2SH));;
        lift (assert_ (has flags SCRIPT_VERIFY_WITNESS));;
        require (length st =? 1)%nat SCRIPT_ERR_CLEANSTACK
   else Continue tt);;
  if has flags SCRIPT_VERIFY_WITNESS
  then lift (assert_ (has flags SCRIPT_VERIFY_P2SH));;
       require (negb (negb hadWitness && negb (length witness =? 0)%nat)) SCRIPT_ERR_WITNESS_UNEXPECTED
  else Continue tt.

End Verify.

(** ** Examples

    A curve and a checker whose signatures begin with the first byte of the
    key. *)

Definition toy_crypto : Crypto := {| CheckLowS _ := true; Verify key _ sig := bool_decide (take 1 sig = take 1 key) |}.
Definition toy_checker : BaseSignatureChecker :=
  mkChecker (fun sig key _ _ => Ret (bool_decide (take 1 sig = take 1 key))) (fun n => Ret (n <=? 100)) (fun n => Ret (n <=? 10)).
