(* ===== verification/SoftFork.v ===== *)
(** * Script flags only restrict ([script/interpreter.cpp])

    Every verification flag is a soft fork: a script that is accepted under
    some flags is accepted under fewer of them.  The exception the code has
    is that [SCRIPT_VERIFY_DISCOURAGE_UPGRADABLE_NOPS] rejects the two
    lock-time opcodes where their own flag is off. *)

From S2P Require Import Prelude ArithUint256 StrEncodings Uint256 Amount Tx Script Serialize CheckTx TxInputs Hashes Interpreter.
From stdpp Require Import list.
#[local] Open Scope Z_scope.

(** ** Runs that accept less *)

(** Where [x] goes on, [y] goes on with the same result. *)
Definition keeps {R A} (x y : run R A) : Prop := forall a, x = Continue a -> y = Continue a.

Create HintDb keeps.

Lemma keeps_refl {R A} (x : run R A) : keeps x x.
Proof. by intros a. Qed.

Lemma keeps_Return {R A} (r : R) (y : run R A) : keeps (Return r) y.
Proof. by intros a. Qed.

Lemma keeps_bind {R A B} (x y : run R A) (f g : A -> run R B) :
  keeps x y -> (forall a, x = Continue a -> keeps (f a) (g a)) -> keeps (x ≫= f) (y ≫= g).
Proof.
  intros Hxy Hfg b. destruct x as [a|r|] eqn:Ex; try done. rewrite (Hxy a) by done. apply (Hfg a). done.
Qed.

Lemma keeps_require b b' e : (b = true -> b' = true) -> keeps (require b e) (require b' e).
Proof. intros Hb a. unfold require. destruct b; [by rewrite Hb|done]. Qed.

Lemma keeps_if {R A} (b : bool) (x x' y y' : run R A) :
  (b = true -> keeps x x') -> (b = false -> keeps y y') -> keeps (if b then x else y) (if b then x' else y').
Proof. destruct b; auto. Qed.

(** A check that only some flags ask for. *)
Lemma keeps_check {R A} (b b' : bool) (x x' y y' : run R A) :
  (b' = true -> b = true) -> keeps x x' -> keeps y y' -> (b = true -> b' = false -> keeps x y') ->
  keeps (if b then x else y) (if b' then x' else y').
Proof. destruct b, b'; auto. intros Hb. by specialize (Hb eq_refl). Qed.

(** A script number read under fewer flags. *)
Lemma keeps_catch {A} (x y : outcome A) : (forall a, x = Ret a -> y = Ret a) -> keeps (catch x) (catch y).
Proof. intros Hxy a. destruct x as [a'|] eqn:Ex; [|done]. by rewrite (Hxy a'). Qed.

#[export] Hint Resolve keeps_Return : keeps.

(** ** Fewer flags *)

(** [flags'] has only bits of [flags], and keeps the lock-time opcodes it
    would otherwise discourage. *)
Record fewer (flags flags' : Z) : Prop := {
  fewer_bits : Z.land flags' flags = flags';
  fewer_cltv : has flags' SCRIPT_VERIFY_DISCOURAGE_UPGRADABLE_NOPS = true ->
    has flags SCRIPT_VERIFY_CHECKLOCKTIMEVERIFY = true -> has flags' SCRIPT_VERIFY_CHECKLOCKTIMEVERIFY = true;
  fewer_csv : has flags' SCRIPT_VERIFY_DISCOURAGE_UPGRADABLE_NOPS = true ->
    has flags SCRIPT_VERIFY_CHECKSEQUENCEVERIFY = true -> has flags' SCRIPT_VERIFY_CHECKSEQUENCEVERIFY = true
}.

(** The combinations of flags the assertions of [VerifyScript] allow. *)
Definition flags_ok (flags : Z) : Prop :=
  (has flags SCRIPT_VERIFY_CLEANSTACK = true -> has flags SCRIPT_VERIFY_P2SH = true /\ has flags SCRIPT_VERIFY_WITNESS = true) /\
  (has flags SCRIPT_VERIFY_WITNESS = true -> has flags SCRIPT_VERIFY_P2SH = true).

Section Fewer.
Context `{Crypto}.
Variables flags flags' : Z.
Variable checker : BaseSignatureChecker.
Variable sigversion : SigVersion.
Hypothesis Hfewer : fewer flags flags'.

Lemma fewer_has bits : has flags' bits = true -> has flags bits = true.
Proof.
  unfold has. rewrite !negb_true_iff, !Z.eqb_neq. intros Hb E. apply Hb.
  rewrite <- (fewer_bits _ _ Hfewer), <- Z.land_assoc, E. apply Z.land_0_r.
Qed.

Lemma fewer_hasn bits : has flags bits = false -> has flags' bits = false.
Proof. rewrite <- !not_true_iff_false. intros Hn Hb. by apply Hn, fewer_has. Qed.

(** Splits a run and its counterpart alike; what is left are the conditions
    that mention the flags. *)
Ltac keeps_step :=
  match goal with
  | |- keeps ?x ?y => constr_eq x y; apply keeps_refl
  | |- keeps (Return _) _ => apply keeps_Return
  | |- keeps invalid_stack _ => apply keeps_Return
  | |- keeps (_ ≫= _) (_ ≫= _) => apply keeps_bind; [|intros ? ?]
  | |- keeps (require _ _) (require _ _) => apply keeps_require
  | |- keeps (if ?b then _ else _) (if ?b then _ else _) => apply keeps_if; intros ?
  | |- keeps (match ?x with _ => _ end) (match ?x with _ => _ end) => destruct x eqn:?
  end.
Ltac flag_cases :=
  repeat match goal with
  | |- context [has flags' ?b] => let E := fresh in destruct (has flags' b) eqn:E; [rewrite ?(fewer_has _ E)|]
  end; cbn; intros; repeat match goal with b : bool |- _ => destruct b end; try done.
Ltac keeps_auto := repeat keeps_step; eauto with keeps.

Lemma keeps_script_num n vch : keeps (script_num flags n vch) (script_num flags' n vch).
Proof.
  apply keeps_catch. intros a. unfold CScriptNum_of, fRequireMinimal. case_match; [done|].
  destruct (has flags' _) eqn:E; [by rewrite (fewer_has _ E)|]. cbn [andb]. case_match; congruence.
Qed.

Lemma keeps_CheckSignatureEncoding vch : keeps (CheckSignatureEncoding flags vch) (CheckSignatureEncoding flags' vch).
Proof.
  unfold CheckSignatureEncoding. keeps_step; [keeps_auto|].
  apply keeps_check; [|keeps_auto| |keeps_auto].
  - destruct (has flags' _) eqn:E; [by rewrite (fewer_has _ E)|done].
  - apply keeps_bind; [|intros ? ?]; apply keeps_check; try keeps_auto.
    + apply fewer_has.
    + by intros _ _ [] ?.
    + destruct (has flags' _) eqn:E; [by rewrite (fewer_has _ E)|done].
Qed.

Lemma keeps_CheckPubKeyEncoding vch :
  keeps (CheckPubKeyEncoding flags sigversion vch) (CheckPubKeyEncoding flags' sigversion vch).
Proof.
  unfold CheckPubKeyEncoding. apply keeps_check; [|keeps_auto| |keeps_auto].
  - destruct (has flags' _) eqn:E; [by rewrite (fewer_has _ E)|done].
  - apply keeps_check; try keeps_auto. destruct (has flags' SCRIPT_VERIFY_WITNESS_PUBKEYTYPE) eqn:E; [by rewrite (fewer_has _ E)|done].
Qed.

(** [reserved_nop] under fewer flags, and after a check that passed. *)
Lemma keeps_reserved_nop m : keeps (reserved_nop flags m) (reserved_nop flags' m).
Proof.
  unfold reserved_nop. keeps_auto. destruct (has flags' _) eqn:E; [by rewrite (fewer_has _ E)|done].
Qed.

Hint Resolve keeps_script_num keeps_CheckSignatureEncoding keeps_CheckPubKeyEncoding keeps_reserved_nop : keeps.

(** Where the flag of a lock-time opcode is dropped, the opcode does nothing. *)
Lemma reserved_nop_keeps m (x : script_run machine) :
  has flags' SCRIPT_VERIFY_DISCOURAGE_UPGRADABLE_NOPS = false -> (forall a, x = Continue a -> a = m) -> keeps x (reserved_nop flags' m).
Proof. intros Hd Hx a Ha. unfold reserved_nop. rewrite Hd. by rewrite (Hx a Ha). Qed.

Lemma bind_Continue_inv {R A B} (x : run R A) (f : A -> run R B) b :
  x ≫= f = Continue b -> exists a, x = Continue a /\ f a = Continue b.
Proof. destruct x; [by eexists|done|done]. Qed.

Ltac continue_inv :=
  repeat match goal with
  | Ha : _ ≫= _ = Continue _ |- _ => apply bind_Continue_inv in Ha as (? & ? & Ha)
  | Ha : context [match ?x with _ => _ end] |- _ => destruct x eqn:?; try done
  end.

Lemma keeps_CLTV m : keeps (op_CHECKLOCKTIMEVERIFY flags checker m) (op_CHECKLOCKTIMEVERIFY flags' checker m).
Proof.
  unfold op_CHECKLOCKTIMEVERIFY. destruct (has flags _) eqn:E; [destruct (has flags' _) eqn:E'|].
  - keeps_auto.
  - apply reserved_nop_keeps; [|intros a Ha; unfold invalid_stack in Ha; continue_inv; congruence].
    apply not_true_iff_false. intros Hd. by rewrite (fewer_cltv _ _ Hfewer) in E'.
  - rewrite (fewer_hasn _ E). apply keeps_reserved_nop.
Qed.

Lemma keeps_CSV m : keeps (op_CHECKSEQUENCEVERIFY flags checker m) (op_CHECKSEQUENCEVERIFY flags' checker m).
Proof.
  unfold op_CHECKSEQUENCEVERIFY. destruct (has flags _) eqn:E; [destruct (has flags' _) eqn:E'|].
  - keeps_auto.
  - apply reserved_nop_keeps; [|intros a Ha; unfold invalid_stack in Ha; continue_inv; congruence].
    apply not_true_iff_false. intros Hd. by rewrite (fewer_csv _ _ Hfewer) in E'.
  - rewrite (fewer_hasn _ E). apply keeps_reserved_nop.
Qed.

Lemma keeps_IF opcode fExec m : keeps (op_IF flags sigversion opcode fExec m) (op_IF flags' sigversion opcode fExec m).
Proof.
  unfold op_IF. keeps_auto. apply keeps_check; [|keeps_auto|keeps_auto|by intros _ _ [] ?].
  destruct (has flags' _) eqn:E; [by rewrite (fewer_has _ E)|by rewrite andb_false_r].
Qed.

Lemma keeps_PICK opcode st : keeps (op_PICK flags opcode st) (op_PICK flags' opcode st).
Proof. unfold op_PICK. keeps_auto. Qed.

Lemma keeps_unary opcode st : keeps (unary_op flags opcode st) (unary_op flags' opcode st).
Proof. unfold unary_op. keeps_auto. Qed.

Lemma keeps_binary opcode st : keeps (binary_op flags opcode st) (binary_op flags' opcode st).
Proof. unfold binary_op. keeps_auto. Qed.

Lemma keeps_WITHIN st : keeps (op_WITHIN flags st) (op_WITHIN flags' st).
Proof. unfold op_WITHIN. keeps_auto. Qed.

Lemma keeps_CHECKSIG opcode m :
  keeps (op_CHECKSIG flags checker sigversion opcode m) (op_CHECKSIG flags' checker sigversion opcode m).
Proof.
  unfold op_CHECKSIG. keeps_auto. destruct (has flags' _) eqn:E; [by rewrite (fewer_has _ E)|]. by rewrite andb_false_r.
Qed.

Lemma keeps_multisig_loop fuel st code isig ikey nSigs nKeys ok :
  keeps (multisig_loop flags checker sigversion fuel st code isig ikey nSigs nKeys ok)
        (multisig_loop flags' checker sigversion fuel st code isig ikey nSigs nKeys ok).
Proof.
  revert isig ikey nSigs nKeys ok. induction fuel as [|fuel IH]; intros; cbn [multisig_loop]; keeps_auto.
Qed.

Lemma keeps_multisig_cleanup n ok ikey2 st :
  keeps (multisig_cleanup flags n ok ikey2 st) (multisig_cleanup flags' n ok ikey2 st).
Proof.
  revert ikey2 st. induction n as [|n IH]; intros; cbn [multisig_cleanup]; keeps_auto.
  apply keeps_check; [|keeps_auto|keeps_auto|by intros _ _ [] ?].
  destruct (has flags' _) eqn:E; [by rewrite (fewer_has _ E)|by rewrite andb_false_r].
Qed.

Hint Resolve keeps_CLTV keeps_CSV keeps_IF keeps_PICK keeps_unary keeps_binary keeps_WITHIN keeps_CHECKSIG
  keeps_multisig_loop keeps_multisig_cleanup : keeps.

Lemma keeps_CHECKMULTISIG opcode m :
  keeps (op_CHECKMULTISIG flags checker sigversion opcode m) (op_CHECKMULTISIG flags' checker sigversion opcode m).
Proof.
  unfold op_CHECKMULTISIG. cbv zeta. keeps_auto. destruct (has flags' _) eqn:E; [by rewrite (fewer_has _ E)|done].
Qed.
Hint Resolve keeps_CHECKMULTISIG : keeps.

Lemma keeps_exec_op opcode fExec pc m :
  keeps (exec_op flags checker sigversion opcode fExec pc m) (exec_op flags' checker sigversion opcode fExec pc m).
Proof.
  unfold exec_op. cbv beta zeta.
  repeat (apply keeps_if; intros _;
    [first [apply keeps_CLTV | apply keeps_CSV | apply keeps_reserved_nop | apply keeps_IF | apply keeps_CHECKMULTISIG
           | apply keeps_bind; [first [apply keeps_PICK | apply keeps_unary | apply keeps_binary | apply keeps_WITHIN
               | apply keeps_CHECKSIG] | intros; apply keeps_refl]
           | apply keeps_refl]|]).
  apply keeps_refl.
Qed.

Lemma keeps_eval_step pc m :
  keeps (eval_step flags checker sigversion pc m) (eval_step flags' checker sigversion pc m).
Proof.
  unfold eval_step, fRequireMinimal. cbv zeta. keeps_auto; [|apply keeps_exec_op].
  destruct (has flags' _) eqn:E; [by rewrite (fewer_has _ E)|done].
Qed.

Lemma keeps_eval_loop fuel pc m :
  keeps (eval_loop flags checker sigversion fuel pc m) (eval_loop flags' checker sigversion fuel pc m).
Proof.
  revert pc m. induction fuel as [|fuel IH]; intros; cbn [eval_loop]; [keeps_auto|].
  destruct pc; [keeps_auto|]. apply keeps_bind; [apply keeps_eval_step|]. intros [pc' m'] _. apply IH.
Qed.

Lemma keeps_EvalScript st script :
  keeps (EvalScript flags checker sigversion st script) (EvalScript flags' checker sigversion st script).
Proof. unfold EvalScript. pose proof keeps_eval_loop. keeps_auto. Qed.

End Fewer.

(** ** Verifying *)

Section FewerVerify.
Context `{Crypto}.
Variables flags flags' : Z.
Variable checker : BaseSignatureChecker.
Hypothesis Hfewer : fewer flags flags'.

Ltac has_fewer := match goal with
  | E : has flags' ?b = true |- context [has flags ?b] => rewrite (fewer_has flags flags' Hfewer b E)
  end.

Lemma keeps_VerifyWitnessProgram witness version program :
  keeps (VerifyWitnessProgram flags checker witness version program) (VerifyWitnessProgram flags' checker witness version program).
Proof.
  unfold VerifyWitnessProgram. apply keeps_if; intros _.
  - apply keeps_bind; [apply keeps_refl|]. intros [script st] _. apply keeps_bind; [apply keeps_refl|]. intros _ _.
    apply keeps_bind; [by apply keeps_EvalScript|]. intros. apply keeps_refl.
  - apply keeps_require. destruct (has flags' _) eqn:E; [by has_fewer|done].
Qed.

(** Without the witness flag the state stays as it is; with it, nothing
    changes. *)
Lemma fewer_verify_witness script scriptSig allowed e witness st hw r :
  verify_witness flags checker script scriptSig allowed e witness st hw = Continue r ->
  verify_witness flags' checker script scriptSig allowed e witness st hw =
    Continue (if has flags' SCRIPT_VERIFY_WITNESS then r else (hw, st)).
Proof.
  unfold verify_witness. destruct (has flags' _) eqn:E; [|done]. has_fewer. revert r. apply keeps_bind; [apply keeps_refl|].
  intros [[v p]|] _; [|apply keeps_refl]. apply keeps_bind; [apply keeps_refl|]. intros _ _.
  apply keeps_bind; [apply keeps_VerifyWitnessProgram|]. intros. apply keeps_refl.
Qed.

(** Likewise for pay-to-script-hash. *)
Lemma fewer_verify_p2sh scriptSig scriptPubKey witness st st' copy hw hw' r :
  verify_p2sh flags checker scriptSig scriptPubKey witness st copy hw = Continue r ->
  flags_ok flags' -> (has flags' SCRIPT_VERIFY_WITNESS = true -> hw' = hw /\ st' = st) ->
  exists r', verify_p2sh flags' checker scriptSig scriptPubKey witness st'
      (if has flags' SCRIPT_VERIFY_P2SH then copy else []) hw' = Continue r' /\
    (has flags' SCRIPT_VERIFY_WITNESS = true -> r' = r).
Proof.
  intros Hr [_ Hok] Hsame. unfold verify_p2sh in *. destruct (has flags' SCRIPT_VERIFY_P2SH) eqn:E.
  2:{ eexists. split; [done|]. intros Hw. by specialize (Hok Hw). }
  rewrite (fewer_has flags flags' Hfewer _ E) in Hr. destruct (IsPayToScriptHash scriptPubKey); cbn [andb] in *.
  2:{ eexists. split; [done|]. intros Hw. destruct (Hsame Hw) as [-> ->]. congruence. }
  apply bind_Continue_inv in Hr as (b & -> & Hr). apply bind_Continue_inv in Hr as ([] & Hb & Hr).
  cbn [mbind run_bind]. rewrite Hb. destruct copy as [|pk2 copy]; [done|].
  apply bind_Continue_inv in Hr as (st2 & Hst2 & Hr). apply bind_Continue_inv in Hr as ([] & Ht & Hr).
  cbn [mbind run_bind]. rewrite (keeps_EvalScript flags flags' checker _ Hfewer _ _ _ Hst2). cbn [mbind run_bind]. rewrite Ht.
  assert (forall h, exists x, verify_witness flags checker pk2 scriptSig (push_vch pk2) SCRIPT_ERR_WITNESS_MALLEATED_P2SH witness st2 h
            = Continue x /\ (h = hw -> x = r)) as Hx.
  { intros h. revert Hr. unfold verify_witness. case_match; [|intros [= <-]; eexists; split; [done|by intros ->]].
    destruct (lift _) as [[[]|]| |]; cbn [mbind run_bind]; try done; [|intros [= <-]; eexists; split; [done|by intros ->]].
    intros Hr. by exists r. }
  destruct (Hx hw') as (x & Hx1 & Hx2). cbn [mbind run_bind]. rewrite (fewer_verify_witness _ _ _ _ _ _ _ _ Hx1).
  eexists. split; [done|]. intros Hw. rewrite Hw. apply Hx2, Hsame, Hw.
Qed.

End FewerVerify.


(** The side condition of [fewer] matters: without the lock time but with the
    upgradable opcodes discouraged, the same spend is refused. *)
Example discouraged_without_lock :
  VerifyScript (H := toy_crypto) (SCRIPT_VERIFY_P2SH + SCRIPT_VERIFY_DISCOURAGE_UPGRADABLE_NOPS) toy_checker
    [82; 83] [96; OP_CHECKLOCKTIMEVERIFY; 117; OP_ADD; 85; OP_EQUAL] [] = Return SCRIPT_ERR_DISCOURAGE_UPGRADABLE_NOPS.
Proof. vm_compute. reflexivity. Qed.
