(* ===== verification/ScriptSafety.v ===== *)
(** * Limits of the script interpreter ([script/interpreter.cpp])

    [EvalScript] always returns: no assertion of it fails and its loops end
    within the length of the script.  The stack elements stay byte strings of
    at most [MAX_SCRIPT_ELEMENT_SIZE] bytes, the two stacks together hold at
    most 1000 of them and at most [MAX_OPS_PER_SCRIPT] operations run. *)

From S2P Require Import Prelude ArithUint256 StrEncodings Uint256 Amount Tx Script Serialize CheckTx TxInputs Hashes Interpreter SoftFork.
From stdpp Require Import list.
#[local] Open Scope Z_scope.

(** ** What the interpreter relies on *)

(** A signature checker that always answers. *)
Class CheckerTotal (checker : BaseSignatureChecker) : Prop := {
  CheckSig_total sig key code version : exists b, CheckSig checker sig key code version = Ret b;
  CheckLockTime_total n : exists b, CheckLockTime checker n = Ret b;
  CheckSequence_total n : exists b, CheckSequence checker n = Ret b
}.

#[export] Instance default_total : CheckerTotal BaseSignatureChecker_default.
Proof. split; intros; by eexists. Qed.

(** ** Runs that do not crash *)

Definition holds {R A} (P : A -> Prop) (x : run R A) : Prop :=
  match x with Continue a => P a | Return _ => True | Crash => False end.

Lemma holds_bind {R A B} (Q : A -> Prop) (P : B -> Prop) (x : run R A) (f : A -> run R B) :
  holds Q x -> (forall a, Q a -> holds P (f a)) -> holds P (x ≫= f).
Proof. destruct x; cbn; auto. Qed.

Lemma holds_mono {R A} (P Q : A -> Prop) (x : run R A) : holds Q x -> (forall a, Q a -> P a) -> holds P x.
Proof. destruct x; cbn; auto. Qed.

Lemma holds_require (P : unit -> Prop) b e : (b = true -> P tt) -> holds P (require b e).
Proof. destruct b; cbn; auto. Qed.

Lemma holds_require_bind {A} (P : A -> Prop) b e (f : unit -> script_run A) :
  (b = true -> holds P (f tt)) -> holds P (require b e ≫= f).
Proof. destruct b; cbn; auto. Qed.

(** ** Stack elements *)

(** A stack element: bytes, within the size limit. *)
Definition elem (vch : valtype) : Prop := is_bytes vch /\ (length vch <= 520)%nat.

(** The stacks hold elements, the operations are within their limit. *)
Record wf_machine (m : machine) : Prop := {
  wf_stack : Forall elem (stack m);
  wf_altstack : Forall elem (altstack m);
  wf_nOpCount : 0 <= nOpCount m <= 201
}.

Create HintDb elem.

Lemma elem_bool b : elem (vch_bool b).
Proof. destruct b; (split; [|cbn; lia]); repeat constructor; done. Qed.

Lemma magnitude_bytes fuel a : is_bytes (magnitude fuel a) /\ (length (magnitude fuel a) <= fuel)%nat.
Proof.
  revert a. induction fuel as [|fuel IH]; intros a; cbn [magnitude]; [split; [constructor|cbn; lia]|].
  case_match; [split; [constructor|cbn [length]; lia]|]. destruct (IH (Z.shiftr a 8)) as [Hb Hl]. split; [|cbn [length]; lia].
  constructor; [|done]. change 255 with (Z.ones 8). rewrite Z.land_ones by lia. by apply wrapU_range.
Qed.

Lemma removelast_bytes l : is_bytes l -> is_bytes (removelast l) /\ inU 8 (back l).
Proof.
  intros Hl. destruct l as [|t l _] using rev_ind; [by split|]. rewrite removelast_last, back_snoc.
  by apply Forall_app in Hl as [? [? _]%Forall_cons].
Qed.

Lemma elem_serialize v : elem (serialize v).
Proof.
  unfold serialize. case_match; [split; [constructor|cbn; lia]|]. cbv zeta. set (r := magnitude 8 _).
  destruct (magnitude_bytes 8 (u64 (if v <? 0 then i64 (- v) else v))) as [Hb Hl]. fold r in Hb, Hl. clearbody r.
  case_match; [|case_match; [|split; [done|lia]]].
  - split; [|rewrite length_app; cbn; lia]. apply Forall_app. split; [done|]. apply Forall_singleton. case_match; done.
  - destruct (removelast_bytes r Hb) as [Hr Hk]. split.
    + apply Forall_app. split; [done|]. apply Forall_singleton.
      pose proof (check_below 256 (fun t => Z.lor t 128 <? 256) (back r) eq_refl Hk) as Hlt. apply Z.ltb_lt in Hlt.
      split; [|done]. apply Z.lor_nonneg. unfold inU in Hk. lia.
    + rewrite length_app. cbn [length]. destruct r as [|t r' _] using rev_ind; [cbn; lia|].
      rewrite removelast_last. rewrite length_app in Hl. cbn in Hl. lia.
Qed.

(** A number read from [n] bytes is below [2^(8n-1)]. *)
Lemma num_value_bound vch n : is_bytes vch -> (length vch <= n <= 8)%nat -> (0 < n)%nat -> Z.abs (num_value vch) < 128 * 256 ^ Z.of_nat (n - 1).
Proof.
  intros Hb Hn Hpos. assert (0 < 256 ^ Z.of_nat (n - 1)) by (apply Z.pow_pos_nonneg; lia).
  destruct vch as [|t l _] using rev_ind; [cbn; lia|]. apply Forall_app in Hb as [Hl [Ht _]%Forall_cons].
  rewrite length_app in Hn. cbn [length] in Hn. rewrite num_value_snoc by done. pose proof (le_bytes_bound l Hl) as Hbd.
  assert (256 ^ Z.of_nat (length l) <= 256 ^ Z.of_nat (n - 1)) by (apply Z.pow_le_mono_r; lia).
  unfold inU in Ht. change (2 ^ 8) with 256 in Ht. destruct (Z.leb_spec 128 t); nia.
Qed.

Lemma holds_script_num flags vch n : elem vch -> (0 < n <= 8)%nat ->
  holds (fun bn => Z.abs bn < 128 * 256 ^ Z.of_nat (n - 1)) (script_num flags n vch).
Proof.
  intros [Hb _] Hn. unfold script_num, CScriptNum_of. case_match eqn:E; [done|]. apply Nat.ltb_ge in E.
  case_match; [done|]. cbn. rewrite set_vch_spec by (auto; lia). apply num_value_bound; auto; lia.
Qed.

(** ** Operations *)

Lemma num_small bn : Z.abs bn < 128 * 256 ^ Z.of_nat (4 - 1) -> Z.abs bn < 2 ^ 31.
Proof. done. Qed.

(** An opcode of a list is not different from all of them. *)
Ltac in_list_done Ho :=
  unfold unary_opcode, binary_opcode, in_list in Ho; cbn [existsb] in Ho;
  repeat match goal with E : (_ =? _) = false |- _ => rewrite E in Ho; clear E end.

Lemma unary_num_total opcode bn : unary_opcode opcode = true -> Z.abs bn < 2 ^ 31 -> exists r, unary_num opcode bn = Ret r.
Proof.
  intros Ho Hbn.
  assert ((exists r, num_add bn 1 = Ret r) /\ (exists r, num_sub bn 1 = Ret r) /\ exists r, num_neg bn = Ret r) as (? & ? & ?).
  { unfold num_add, num_sub, num_neg. change (i64 (2 ^ 63 - 1 - 1)) with (2 ^ 63 - 2). change (i64 (- 2 ^ 63 + 1)) with (- 2 ^ 63 + 1).
    rewrite (proj2 (Z.leb_le bn (2 ^ 63 - 2))), (proj2 (Z.leb_le (- 2 ^ 63 + 1) bn)), (proj2 (Z.eqb_neq bn (- 2 ^ 63))) by lia.
    repeat split; by eexists. }
  unfold unary_num. repeat (case_match; [done || (by eexists) || (case_match; [done|by eexists])|]).
  by in_list_done Ho.
Qed.

Lemma binary_num_total opcode bn1 bn2 : binary_opcode opcode = true -> exists r, binary_num opcode bn1 bn2 = Ret r.
Proof.
  intros Ho. unfold binary_num. repeat (case_match; [by eexists|]). by in_list_done Ho.
Qed.

Ltac safe_step :=
  match goal with
  | |- holds _ (Return _) => exact I
  | |- holds _ invalid_stack => exact I
  | |- holds _ (Continue _) => cbn [holds]
  | |- holds _ (require _ _ ≫= _) => apply holds_require_bind; intros ?
  | |- holds _ (require _ _) => apply holds_require; intros ?
  | |- holds _ (script_num _ _ _ ≫= _) => eapply holds_bind; [apply holds_script_num; [|lia]|intros ? ?]
  | |- holds _ (match ?x with _ => _ end) => destruct x eqn:?
  | Hf : Forall elem (_ :: _) |- _ => apply Forall_cons in Hf as [? Hf]
  end.
Ltac safe := repeat safe_step; repeat (first [done | apply elem_bool | apply elem_serialize | apply Forall_cons_2]).

Lemma stack_op_safe opcode st : Forall elem st -> holds (Forall elem) (stack_op opcode st).
Proof. intros Hst. unfold stack_op. cbv zeta. repeat (case_match; [by safe; case_match; safe|]). by safe. Qed.

Lemma stacktop_safe i st : Forall elem st -> holds elem (stacktop i st).
Proof.
  intros Hst. unfold stacktop. destruct (st !! _) eqn:E; [|done]. cbn. by apply (proj1 (Forall_lookup _ _) Hst) in E.
Qed.

Lemma popstack_safe st : Forall elem st -> holds (Forall elem) (popstack st).
Proof. intros Hst. unfold popstack. safe. Qed.

Lemma op_PICK_safe flags opcode st : Forall elem st -> holds (Forall elem) (op_PICK flags opcode st).
Proof.
  intros Hst. unfold op_PICK. safe. cbv zeta. safe.
  eapply holds_bind; [by apply stacktop_safe, Forall_cons_2|]. intros v Hv. cbn [holds]. apply Forall_cons_2; [done|].
  case_match; [|by apply Forall_cons_2]. apply Forall_delete. by apply Forall_cons_2.
Qed.

Lemma unary_op_safe flags opcode st : unary_opcode opcode = true -> Forall elem st -> holds (Forall elem) (unary_op flags opcode st).
Proof.
  intros Ho Hst. unfold unary_op. safe. destruct (unary_num_total opcode a) as [r ->]; [done|by apply num_small|]. cbn. safe.
Qed.

Lemma binary_op_safe flags opcode st : binary_opcode opcode = true -> Forall elem st -> holds (Forall elem) (binary_op flags opcode st).
Proof.
  intros Ho Hst. unfold binary_op. safe. destruct (binary_num_total opcode a a0) as [r ->]; [done|]. cbn [lift mbind run_bind]. safe.
Qed.

Lemma op_WITHIN_safe flags st : Forall elem st -> holds (Forall elem) (op_WITHIN flags st).
Proof. intros Hst. unfold op_WITHIN. safe. Qed.

(** ** Deleting signatures *)

Lemma skip_matches_total fuel b pc n : b <> [] -> (length pc <= fuel)%nat ->
  exists pc' n', skip_matches fuel b pc n = Ret (pc', n') /\ (length pc' <= length pc)%nat.
Proof.
  intros Hb. revert pc n. induction fuel as [|fuel IH]; intros pc n Hf; cbn [skip_matches]; (case_match eqn:E; [|by eexists _, _]);
    apply andb_true_iff in E as [E _]; apply Nat.leb_le in E.
  - destruct b; [done|cbn in E; lia].
  - destruct (IH (drop (length b) pc) (n + 1)) as (pc' & n' & -> & Hl); rewrite length_drop in *; [destruct b; [done|cbn in *; lia]|].
    eexists _, _. split; [done|lia].
Qed.

Lemma FindAndDelete_loop_total fuel b pc pc2 result n : b <> [] -> (length pc <= fuel)%nat ->
  exists r, FindAndDelete_loop fuel b pc pc2 result n = Ret r.
Proof.
  intros Hb. revert pc pc2 result n. induction fuel as [|fuel IH]; intros pc pc2 result n Hf; cbn [FindAndDelete_loop];
    destruct (skip_matches_total (length pc) b pc n Hb (le_n _)) as (pc' & n' & -> & Hl); cbn [mbind outcome_bind];
    destruct (GetOp2 pc') as [[[op d] pc'']|] eqn:E; try (by eexists); apply GetOp2_shorter in E; [lia|]. apply IH. lia.
Qed.

Lemma FindAndDelete_total s b : exists r, FindAndDelete s b = Ret r.
Proof.
  unfold FindAndDelete. destruct b as [|x b]; [by eexists|].
  destruct (FindAndDelete_loop_total (length s) (x :: b) s s [] 0) as [[[r pc] n] ->]; [done|lia|by eexists].
Qed.

Lemma GetOp2_bytes pc op d pc' : is_bytes pc -> GetOp2 pc = Some (op, d, pc') -> is_bytes d /\ is_bytes pc'.
Proof.
  intros Hpc. destruct pc as [|o pc]; [done|]. apply Forall_cons in Hpc as [_ Hpc]. cbn [GetOp2].
  destruct (o <=? OP_PUSHDATA4); [|intros [= <- <- <-]; split; [constructor|done]].
  destruct (if o <? OP_PUSHDATA1 then _ else _) as [[n q]|] eqn:E; [|done]. cbn [mbind option_bind].
  assert (is_bytes q) as Hq by (unfold is_bytes in *; repeat case_match; simplify_eq; auto using Forall_drop).
  destruct (_ <? n); [done|]. intros [= <- <- <-]. split; [by apply Forall_take|by apply Forall_drop].
Qed.

Section Safety.
Context `{Crypto}.
Variable flags : Z.
Variable checker : BaseSignatureChecker.
Context {total : CheckerTotal checker}.
Variable sigversion : SigVersion.

Lemma drop_signature_safe code sig : holds (fun _ => True) (drop_signature sigversion code sig).
Proof.
  unfold drop_signature. case_match; [|done]. by destruct (FindAndDelete_total code (push_vch sig)) as [[c n] ->].
Qed.

Lemma drop_signatures_safe n st i code : Forall elem st -> holds (fun _ => True) (drop_signatures sigversion n st i code).
Proof.
  intros Hst. revert i code. induction n as [|n IH]; intros i code; [done|]. cbn [drop_signatures].
  eapply holds_bind; [by apply stacktop_safe|]. intros v _. eapply holds_bind; [apply drop_signature_safe|]. auto.
Qed.

(** The encoding checks go on or return. *)
Lemma CheckSignatureEncoding_safe vch : holds (fun _ => True) (CheckSignatureEncoding flags vch).
Proof. unfold CheckSignatureEncoding, IsLowDERSignature. repeat (case_match || (apply holds_bind with (fun _ => True); [|intros])); by safe. Qed.

Lemma CheckPubKeyEncoding_safe vch : holds (fun _ => True) (CheckPubKeyEncoding flags sigversion vch).
Proof. unfold CheckPubKeyEncoding. by repeat case_match. Qed.

Lemma op_CHECKSIG_safe opcode m : Forall elem (stack m) -> holds (Forall elem) (op_CHECKSIG flags checker sigversion opcode m).
Proof.
  intros Hst. unfold op_CHECKSIG. safe.
  eapply holds_bind; [apply drop_signature_safe|]. intros code _.
  eapply holds_bind; [apply CheckSignatureEncoding_safe|]. intros _ _.
  eapply holds_bind; [apply CheckPubKeyEncoding_safe|]. intros _ _.
  destruct (CheckSig_total l1 l code sigversion) as [b ->]. cbn [lift mbind run_bind]. safe.
Qed.

Lemma multisig_loop_safe fuel st code isig ikey nSigs nKeys ok : Forall elem st ->
  nKeys <= Z.of_nat fuel -> (ok = true -> nSigs <= nKeys) ->
  holds (fun _ => True) (multisig_loop flags checker sigversion fuel st code isig ikey nSigs nKeys ok).
Proof.
  intros Hst. revert isig ikey nSigs nKeys ok. induction fuel as [|fuel IH]; intros isig ikey nSigs nKeys ok Hf Hok;
    cbn [multisig_loop]; (case_match eqn:E; [|done]); apply andb_true_iff in E as [-> E%Z.ltb_lt]; specialize (Hok eq_refl); [lia|].
  eapply holds_bind; [by apply stacktop_safe|]. intros sig _. eapply holds_bind; [by apply stacktop_safe|]. intros key _.
  eapply holds_bind; [apply CheckSignatureEncoding_safe|]. intros _ _.
  eapply holds_bind; [apply CheckPubKeyEncoding_safe|]. intros _ _.
  destruct (CheckSig_total sig key code sigversion) as [b ->]. cbn [lift mbind run_bind]. cbv zeta.
  apply IH; [lia|]. case_match eqn:E'; [done|]. apply Z.ltb_ge in E'. by intros _.
Qed.

Lemma multisig_cleanup_safe n ok ikey2 st : Forall elem st -> holds (Forall elem) (multisig_cleanup flags n ok ikey2 st).
Proof.
  revert ikey2 st. induction n as [|n IH]; intros ikey2 st Hst; [done|]. cbn [multisig_cleanup].
  apply holds_bind with (fun _ => True).
  - case_match; [|done]. eapply holds_bind; [by apply stacktop_safe|]. intros. by safe.
  - intros _ _. cbv zeta. eapply holds_bind; [by apply popstack_safe|]. intros st' Hst'. by apply IH.
Qed.

Lemma op_CHECKMULTISIG_safe opcode m : wf_machine m -> holds wf_machine (op_CHECKMULTISIG flags checker sigversion opcode m).
Proof.
  intros [Hst Halt Hn]. unfold op_CHECKMULTISIG. cbv zeta. cbn [stack altstack nOpCount set_nOpCount pbegincodehash]. safe_step.
  eapply holds_bind; [by apply stacktop_safe|]. intros v Hv. safe_step; [done|].
  apply holds_require_bind. intros Hk. apply holds_require_bind. intros Hc. safe_step.
  eapply holds_bind; [by apply stacktop_safe|]. intros v2 Hv2. safe_step; [done|]. apply holds_require_bind. intros Hs. safe_step.
  apply negb_true_iff, orb_false_iff in Hk as [Hk1%Z.ltb_ge Hk2%Z.ltb_ge], Hs as [Hs1%Z.ltb_ge Hs2%Z.ltb_ge].
  apply negb_true_iff, Z.ltb_ge in Hc. unfold MAX_PUBKEYS_PER_MULTISIG, MAX_OPS_PER_SCRIPT in *.
  assert (0 <= i32 (nOpCount m + getint a) <= 201) as Hc' by (split; [rewrite wrapS_small; unfold inS; lia|done]).
  eapply holds_bind; [by apply drop_signatures_safe|]. intros code _.
  eapply holds_bind; [apply multisig_loop_safe; [done|lia|lia]|]. intros ok _.
  eapply holds_bind; [by apply multisig_cleanup_safe|]. intros st' Hst'. safe;
    (split; cbn [stack altstack nOpCount set_stack]; by safe).
Qed.

(** ** The loop *)

Lemma hash_op_elem opcode vch : elem (hash_op opcode vch).
Proof.
  unfold hash_op, CHash160, CHash256. pose proof CRIPEMD160_size. pose proof CSHA1_size. pose proof CSHA256_size.
  assert (forall d n, is_bytes d /\ length d = n -> (n <= 520)%nat -> elem d) as Hd by (intros d n [? ?] ?; split; [done|lia]).
  repeat case_match; eapply Hd; eauto; lia.
Qed.

Lemma on_stack_safe (x : script_run (list valtype)) m : wf_machine m -> holds (Forall elem) x ->
  holds wf_machine (st ← x; Continue (set_stack st m)).
Proof. intros [] Hx. eapply holds_bind; [done|]. intros st Hst. by split. Qed.

Lemma lock_opcode_safe m : wf_machine m ->
  holds wf_machine (op_CHECKLOCKTIMEVERIFY flags checker m) /\ holds wf_machine (op_CHECKSEQUENCEVERIFY flags checker m).
Proof.
  intros [Hst Halt Hn]. unfold op_CHECKLOCKTIMEVERIFY, op_CHECKSEQUENCEVERIFY, reserved_nop.
  destruct (stack m) eqn:E; [split; case_match; safe; by split; rewrite ?E|]. apply Forall_cons in Hst as [Hl Hst].
  split; (case_match; [safe; by split; rewrite ?E; try apply Forall_cons_2|]); safe; try (by split; rewrite ?E; try apply Forall_cons_2).
  - destruct (CheckLockTime_total a) as [b ->]. cbn [lift mbind run_bind]. safe. by split; rewrite ?E; try apply Forall_cons_2.
  - destruct (CheckSequence_total a) as [b ->]. cbn [lift mbind run_bind]. safe. by split; rewrite ?E; try apply Forall_cons_2.
Qed.

Lemma op_IF_safe opcode fExec m : wf_machine m -> holds wf_machine (op_IF flags sigversion opcode fExec m).
Proof.
  intros [Hst Halt Hn]. unfold op_IF. case_match; [|by split]. destruct (stack m) eqn:E; [done|]. apply Forall_cons in Hst as [_ Hst].
  apply holds_bind with (fun _ => True); [case_match; by safe|]. intros _ _. by split.
Qed.

Lemma exec_op_safe opcode fExec pc m : wf_machine m -> holds wf_machine (exec_op flags checker sigversion opcode fExec pc m).
Proof.
  intros Hm. pose proof Hm as [Hst Halt Hn]. unfold exec_op. cbv beta zeta.
  repeat (case_match;
    [first [by apply lock_opcode_safe | by apply op_IF_safe | by apply op_CHECKMULTISIG_safe
      | apply on_stack_safe; [done|first [by apply op_PICK_safe | by apply unary_op_safe | by apply binary_op_safe
          | by apply op_WITHIN_safe | by apply op_CHECKSIG_safe]]
      | unfold reserved_nop, invalid_stack; safe; split;
          cbn [stack altstack nOpCount set_stack set_altstack set_vfExec set_pbegincodehash]; safe; apply hash_op_elem]|]).
  apply on_stack_safe; [done|by apply stack_op_safe].
Qed.

(** One iteration: it consumes an instruction, and leaves a machine within
    the limits. *)
Lemma eval_step_safe pc m : is_bytes pc -> wf_machine m ->
  holds (fun '(pc', m') => is_bytes pc' /\ (length pc' < length pc)%nat /\ wf_machine m' /\
    (length (stack m') + length (altstack m') <= 1000)%nat) (eval_step flags checker sigversion pc m).
Proof.
  intros Hpc [Hst Halt Hn]. unfold eval_step. cbv zeta. destruct (GetOp2 pc) as [[[op d] pc']|] eqn:E; [|done].
  destruct (GetOp2_bytes _ _ _ _ Hpc E) as [Hd Hpc']. apply GetOp2_shorter in E.
  apply holds_require_bind. intros Hsz%negb_true_iff%Z.ltb_ge. unfold MAX_SCRIPT_ELEMENT_SIZE in Hsz.
  set (m' := if OP_16 <? op then set_nOpCount (i32 (nOpCount m + 1)) m else m).
  apply holds_require_bind. intros Hc. safe_step. unfold MAX_OPS_PER_SCRIPT in Hc.
  assert (wf_machine m') as Hm'.
  { subst m'. destruct (OP_16 <? op); [|by split]. cbn [nOpCount set_nOpCount] in Hc. split; [done..|]. cbn [nOpCount set_nOpCount].
    apply negb_true_iff, Z.ltb_ge in Hc. split; [|done]. rewrite wrapS_small; unfold inS; lia. }
  clearbody m'. apply holds_bind with wf_machine.
  - case_match; [|case_match; [by apply exec_op_safe|done]]. safe. destruct Hm'. split; cbn [stack altstack nOpCount set_stack]; [|done..].
    apply Forall_cons_2; [|done]. split; [done|lia].
  - intros m'' Hm''. apply holds_require_bind. intros Hl%negb_true_iff%Z.ltb_ge. cbn. split_and!; auto; lia.
Qed.

Lemma eval_loop_safe fuel pc m : is_bytes pc -> wf_machine m -> (length pc <= fuel)%nat ->
  holds (fun m' => wf_machine m' /\ (pc = [] /\ m' = m \/ (length (stack m') + length (altstack m') <= 1000)%nat))
    (eval_loop flags checker sigversion fuel pc m).
Proof.
  revert pc m. induction fuel as [|fuel IH]; intros [|x pc] m Hpc Hm Hf; cbn [length] in Hf; try lia; cbn [eval_loop]; try (cbn; auto).
  eapply holds_bind; [by apply eval_step_safe|]. intros [pc' m'] (Hpc' & Hl & Hm' & Hsz). cbn [length] in Hl.
  eapply holds_mono; [apply IH; auto; lia|]. intros m'' [Hw [[-> ->]|Hsz']]; auto.
Qed.

(** What a stack is after a script. *)
Definition within_limits (st : list valtype) (script : CScript) (st' : list valtype) : Prop :=
  Forall elem st' /\ (script = [] /\ st' = st \/ (length st' <= 1000)%nat).

Lemma EvalScript_limits st script : is_bytes script -> Forall elem st ->
  holds (within_limits st script) (EvalScript flags checker sigversion st script).
Proof.
  intros Hs Hst. unfold EvalScript. safe_step. eapply holds_bind; [apply eval_loop_safe; [done| |done]|].
  { split; cbn; [done|constructor|lia]. }
  intros m [[Hm _ _] Hsz]. safe_step. cbn. split; [done|]. destruct Hsz as [[? ->]|Hsz]; [by left|right; lia].
Qed.

(** C18: [EvalScript] always returns, whatever the script, the flags and the
    signatures: no assertion of it fails and it does not run on.  Where it
    succeeds the stack holds byte strings of at most 520 bytes, at most 1000
    of them unless the script is empty. *)
Theorem EvalScript_safe st script : is_bytes script -> Forall elem st ->
  match EvalScript flags checker sigversion st script with
  | Continue st' => Forall elem st' /\ (script = [] /\ st' = st \/ (length st' <= 1000)%nat)
  | Return _ => True
  | Crash => False
  end.
Proof. apply EvalScript_limits. Qed.

End Safety.

(** ** [VerifyScript] *)

Lemma push_only_loop_total fuel pc : (length pc <= fuel)%nat -> exists b, push_only_loop fuel pc = Ret b.
Proof.
  revert pc. induction fuel as [|fuel IH]; intros [|x pc] Hf; cbn [length] in Hf; [by eexists|lia|by eexists|].
  cbn [push_only_loop]. destruct (GetOp2 (x :: pc)) as [[[op d] pc']|] eqn:E; [|by eexists].
  case_match; [by eexists|]. apply GetOp2_shorter in E. cbn [length] in E. apply IH. lia.
Qed.

Lemma IsWitnessProgram_total s : exists r, IsWitnessProgram s = Ret r.
Proof.
  unfold IsWitnessProgram. case_match; [by eexists|]. case_match eqn:E; [by eexists|]. case_match; [|by eexists].
  unfold DecodeOP_N. destruct (s.[0] =? OP_0) eqn:E0; [by eexists|]. cbn [negb andb] in E. apply orb_false_iff in E as [E1 E2].
  rewrite Z.leb_antisym, E1, (Z.leb_antisym OP_16), E2. by eexists.
Qed.

Lemma push_vch_bytes b : is_bytes b -> is_bytes (push_vch b).
Proof.
  intros Hb. apply Forall_app. split; [|done]. unfold WriteLE16, WriteLE32.
  repeat case_match; repeat constructor; try apply wrapU_range; done.
Qed.

Section VerifySafety.
Context `{Crypto}.
Variable flags : Z.
Variable checker : BaseSignatureChecker.
Context {total : CheckerTotal checker}.

(** A pay-to-script-hash script fails on an empty stack. *)
Lemma p2sh_needs_stack s st : IsPayToScriptHash s = true -> EvalScript flags checker SIGVERSION_BASE [] s <> Continue st.
Proof.
  unfold IsPayToScriptHash. intros [[[Hl H0]%andb_true_iff _]%andb_true_iff _]%andb_true_iff. destruct s as [|op s]; [done|].
  cbn in H0. apply Z.eqb_eq in H0 as ->. unfold EvalScript. by destruct (require _ _).
Qed.

Lemma require_true_safe st : holds (fun _ => st <> []) (require_true st).
Proof. unfold require_true. destruct st; safe. Qed.

Lemma VerifyWitnessProgram_safe witness version program : Forall is_bytes witness -> is_bytes program ->
  holds (fun _ => True) (VerifyWitnessProgram flags checker witness version program).
Proof.
  intros Hw Hp. unfold VerifyWitnessProgram. case_match; [|by safe].
  apply holds_bind with (fun '(s, st) => is_bytes s /\ Forall is_bytes st).
  - unfold witness_v0. repeat (safe_step || case_match); cbn [holds]; split.
    + destruct (proj1 (last_Some _ _) Heqo) as [w ->]. by apply Forall_app in Hw as [_ [? _]%Forall_cons].
    + destruct (proj1 (last_Some _ _) Heqo) as [w ->]. rewrite removelast_last. by apply Forall_app in Hw as [?%Forall_rev _].
    + apply Forall_app. split; [by repeat constructor|]. apply Forall_app. split; [by apply push_vch_bytes|by repeat constructor].
    + by apply Forall_rev.
  - intros [s st] [Hs Hst]. safe_step. eapply holds_bind; [refine (EvalScript_limits _ _ _ _ _ Hs _)|].
    + apply Forall_forall. intros vch Hv. rewrite forallb_forall in H1. split; [by eapply Forall_forall in Hst|].
      apply list_elem_of_In, H1, negb_true_iff, Z.ltb_ge in Hv. unfold MAX_SCRIPT_ELEMENT_SIZE in Hv. lia.
    + intros st' _. safe_step. eapply holds_mono; [apply require_true_safe|done].
Qed.
Lemma verify_witness_safe script scriptSig allowed e witness st hw : Forall is_bytes witness -> is_bytes script ->
  holds (fun _ => True) (verify_witness flags checker script scriptSig allowed e witness st hw).
Proof.
  intros Hw Hs. unfold verify_witness. case_match; [|done]. destruct (IsWitnessProgram_total script) as [r Hr]. rewrite Hr.
  cbn [lift mbind run_bind]. destruct r as [[v program]|]; [|done]. safe_step.
  eapply holds_bind; [apply VerifyWitnessProgram_safe; [done|]|done].
  unfold IsWitnessProgram in Hr. do 3 (case_match; [try done|]; try done).
  destruct (DecodeOP_N _); [|done]. cbn in Hr. injection Hr as <- <-. by apply Forall_drop.
Qed.

(** The call ends with a verdict. *)
Definition returns {R A} (r : run R A) : Prop := r <> Crash.

(** [VerifyScript] always returns with the flags the code uses: none of
    its assertions can fail.  In particular the stack of a spend of a
    pay-to-script-hash output is never empty where the code takes the
    redeem script from it. *)
Theorem VerifyScript_returns scriptSig scriptPubKey witness :
  flags_ok flags -> is_bytes scriptSig -> is_bytes scriptPubKey -> Forall is_bytes witness ->
  returns (VerifyScript flags checker scriptSig scriptPubKey witness).
Proof.
  intros [Hok1 Hok2] Hsig Hpk Hw. enough (holds (fun _ => True) (VerifyScript flags checker scriptSig scriptPubKey witness)) as Hh
    by (by intros E; rewrite E in Hh).
  destruct (push_only_loop_total (length scriptSig) scriptSig (le_n _)) as [po Hpo]. fold (IsPushOnly scriptSig) in Hpo.
  unfold VerifyScript. rewrite Hpo. cbv zeta. cbn [lift].
  apply holds_bind with (fun _ => True); [case_match; cbn [mbind run_bind]; by safe|]. intros _ _.
  pose proof (EvalScript_limits flags checker SIGVERSION_BASE [] scriptSig Hsig ltac:(constructor)) as H1.
  destruct (EvalScript _ _ _ _ scriptSig) as [st1| |]; [|done..]. destruct H1 as [H1 _]. cbn [mbind run_bind].
  pose proof (EvalScript_limits flags checker SIGVERSION_BASE st1 scriptPubKey Hpk H1) as H2.
  destruct (EvalScript _ _ _ _ scriptPubKey) as [st2| |] eqn:E2; [|done..]. destruct H2 as [H2 _]. cbn [mbind run_bind].
  eapply holds_bind; [apply require_true_safe|]. intros ? Hne.
  eapply holds_bind; [by apply verify_witness_safe|]. intros [hw st3] _.
  eapply (holds_bind (fun _ => True)).
  - unfold verify_p2sh. rewrite Hpo. case_match eqn:E; [|done]. apply andb_true_iff in E as [E E']. rewrite E. cbn [lift mbind run_bind]. safe_step.
    destruct st1 as [|pk2 st1]; [by apply p2sh_needs_stack in E2|]. apply Forall_cons in H1 as [[Hb _] H1].
    eapply holds_bind; [exact (EvalScript_limits flags checker SIGVERSION_BASE st1 pk2 Hb H1)|]. intros st4 _.
    eapply holds_bind; [apply require_true_safe|]. intros ? ?. by apply verify_witness_safe.
  - intros [hw' st4] _. apply holds_bind with (fun _ => True).
    + case_match eqn:E; [|done]. destruct (Hok1 eq_refl) as [-> ->]. cbn. by safe.
    + intros _ _. case_match eqn:E; [|done]. rewrite (Hok2 eq_refl). cbn. by safe.
Qed.

End VerifySafety.

#[export] Instance toy_total : CheckerTotal toy_checker.
Proof. split; intros; by eexists. Qed.

(** A loop-free script that duplicates, hashes and compares. *)
Lemma EvalScript_safe_witness :
  exists st, EvalScript (H := toy_crypto) 0 toy_checker SIGVERSION_BASE [] [82; 118; OP_SHA256; 124; OP_SHA256; OP_EQUAL] = Continue st /\
    Forall elem st /\ length st = 1%nat.
Proof.
  pose proof (EvalScript_safe (H := toy_crypto) 0 toy_checker SIGVERSION_BASE [] [82; 118; OP_SHA256; 124; OP_SHA256; OP_EQUAL]
    ltac:(repeat constructor; done) ltac:(constructor)) as Hs.
  assert (EvalScript (H := toy_crypto) 0 toy_checker SIGVERSION_BASE [] [82; 118; OP_SHA256; 124; OP_SHA256; OP_EQUAL] = Continue [[1]]) as E
    by (vm_compute; reflexivity).
  rewrite E in Hs. exists [[1]]. split; [exact E|]. split; [exact (proj1 Hs)|reflexivity].
Defined.

(** A pay-to-script-hash spend with an input that pushes nothing. *)
Lemma VerifyScript_returns_witness :
  returns (VerifyScript (H := toy_crypto) SCRIPT_VERIFY_P2SH toy_checker [] ([OP_HASH160; 20] ++ replicate 20 7 ++ [OP_EQUAL]) []).
Proof.
  apply (VerifyScript_returns (H := toy_crypto) SCRIPT_VERIFY_P2SH toy_checker [] ([OP_HASH160; 20] ++ replicate 20 7 ++ [OP_EQUAL]) []).
  - split; vm_compute; discriminate.
  - constructor.
  - repeat constructor; done.
  - constructor.
Defined.
