(* ===== verification/Spending.v ===== *)
(** * What scripts ask of a spend ([script/interpreter.cpp])

    The scripts the network uses, against what they are meant to ask for:
    an output that is unspendable by [IsUnspendable] can be spent by nobody,
    pay-to-pubkey-hash asks for the key of the hash and a signature by it,
    and [OP_CHECKMULTISIG] asks for signatures by some of the keys in their
    order. *)

From S2P Require Import Prelude ArithUint256 StrEncodings Uint256 Amount Tx Script Serialize CheckTx TxInputs Hashes Interpreter SoftFork ScriptSafety.
From stdpp Require Import list.
#[local] Open Scope Z_scope.

Section Spending.
Context `{Crypto}.
Variable flags : Z.
Variable checker : BaseSignatureChecker.

(** ** Steps *)

(** A machine at the start of a script. *)
Definition start (st : list valtype) (script : CScript) : machine := mkMachine st [] [] script 0.

(** An instruction that is not a push, outside of a conditional. *)
Lemma eval_step_op v op pc m : OP_16 < op -> disabled_opcode op = false -> vfExec m = [] -> 0 <= nOpCount m < 201 ->
  eval_step flags checker v (op :: pc) m =
  (m' ← exec_op flags checker v op true pc (set_nOpCount (nOpCount m + 1) m);
   require (negb (1000 <? Z.of_nat (length (stack m') + length (altstack m')))) SCRIPT_ERR_STACK_SIZE;;
   Continue (pc, m')).
Proof.
  unfold OP_16. intros Hop Hd Hv Hn. unfold eval_step. cbn [GetOp2]. rewrite Hv. unfold OP_PUSHDATA4, OP_16, MAX_OPS_PER_SCRIPT.
  rewrite (proj2 (Z.leb_gt op 78)), (proj2 (Z.ltb_lt 96 op)), Hd by lia. cbn [length forallb nOpCount set_nOpCount require mbind run_bind].
  rewrite wrapS_small by (unfold inS; lia). rewrite (proj2 (Z.ltb_ge 201 _)) by lia. cbn [require negb andb orb mbind run_bind].
  by rewrite (proj2 (Z.leb_gt op 78)), andb_false_r by lia.
Qed.

(** A push of two to 75 bytes, outside of a conditional. *)
Lemma eval_step_push v d pc m : (2 <= length d <= 75)%nat -> Z.of_nat (length d + length pc) < 2 ^ 32 -> vfExec m = [] ->
  (length (stack m) + length (altstack m) < 1000)%nat ->
  eval_step flags checker v (push_vch d ++ pc) m = Continue (pc, set_stack (d :: stack m) m).
Proof.
  intros Hd Hl Hv Hs. set (n := Z.of_nat (length d)) in *. unfold push_vch, OP_PUSHDATA1. fold n. rewrite (proj2 (Z.ltb_lt n 76)) by lia.
  rewrite wrapU_small by (unfold inU; lia). cbn [app]. unfold eval_step. cbn [GetOp2]. unfold OP_PUSHDATA1, OP_PUSHDATA4.
  rewrite (proj2 (Z.leb_le n 78)), (proj2 (Z.ltb_lt n 76)) by lia. cbn [mbind option_bind].
  rewrite operand_here by (auto; lia). rewrite Hv. unfold MAX_SCRIPT_ELEMENT_SIZE, OP_16.
  fold n.  rewrite (proj2 (Z.ltb_ge 520 n)), (proj2 (Z.ltb_ge 96 n)) by lia. cbn [negb andb require mbind run_bind].
  replace (disabled_opcode n) with false.
  2:{ symmetry. apply negb_true_iff, (check_below 79 (fun n => negb (disabled_opcode n))); [done|lia]. }
  cbn [negb require mbind run_bind forallb andb]. rewrite (proj2 (Z.leb_le 0 n)), (proj2 (Z.leb_le n 78)) by lia. cbn [andb].
  replace (CheckMinimalPush d n) with true.
  2:{ unfold CheckMinimalPush, size_is. rewrite (proj2 (Nat.eqb_neq _ 0)), (proj2 (Nat.eqb_neq _ 1)), (proj2 (Nat.leb_le _ 75)) by lia.
      cbn [andb]. symmetry. apply Z.eqb_refl. }
  rewrite andb_false_r. cbn [negb require mbind run_bind stack altstack set_stack length].
  rewrite (proj2 (Z.ltb_ge 1000 _)) by lia. done.
Qed.

(** The input script, with its witness, unlocks the output script. *)
Definition spends (scriptSig scriptPubKey : list Z) (witness : list valtype) : Prop :=
  VerifyScript flags checker scriptSig scriptPubKey witness = Continue tt.

(** ** Unspendable outputs *)

Lemma EvalScript_unspendable v st s : IsUnspendable s = true -> exists e, EvalScript flags checker v st s = Return e.
Proof.
  unfold IsUnspendable. intros Hu. unfold EvalScript. destruct (MAX_SCRIPT_SIZE <? Z.of_nat (length s)); [by eexists|].
  destruct s as [|op s]; [done|]. rewrite orb_false_r in Hu. cbn in Hu. apply Z.eqb_eq in Hu as ->.
  cbn [negb require mbind run_bind length eval_loop]. rewrite eval_step_op; [|done..|cbn; lia]. by eexists.
Qed.

(** An output whose script is unspendable by [IsUnspendable] is accepted
    by [VerifyScript] for no input script, no witness, no flags and no
    signature, so dropping it from the unspent outputs, as the coins do,
    loses nothing. *)
Theorem unspendable_never_spent scriptSig scriptPubKey witness : IsUnspendable scriptPubKey = true ->
  ~ spends scriptSig scriptPubKey witness.
Proof.
  intros Hu HV. unfold spends, VerifyScript in HV. cbv zeta in HV. apply bind_Continue_inv in HV as (_ & _ & HV).
  apply bind_Continue_inv in HV as (st1 & _ & HV). apply bind_Continue_inv in HV as (st2 & H2 & _).
  destruct (EvalScript_unspendable SIGVERSION_BASE st1 scriptPubKey Hu) as [e He]. congruence.
Qed.

(** ** Pay to a public key hash *)

Lemma eval_loop_step v fuel pc m pc' m' : eval_step flags checker v pc m = Continue (pc', m') ->
  eval_loop flags checker v (S fuel) pc m = eval_loop flags checker v fuel pc' m'.
Proof. intros E. destruct pc; [done|]. cbn [eval_loop]. by rewrite E. Qed.

Lemma eval_loop_nil v fuel m : eval_loop flags checker v fuel [] m = Continue m.
Proof. by destruct fuel. Qed.

Lemma length_push_vch d : (length d <= 75)%nat -> length (push_vch d) = S (length d).
Proof.
  intros Hd. unfold push_vch, OP_PUSHDATA1. rewrite (proj2 (Z.ltb_lt (Z.of_nat (length d)) 76)) by lia. done.
Qed.

(** The input script of such a spend: a signature and a key. *)
Lemma EvalScript_sig_key v sig key : (2 <= length sig <= 75)%nat -> (2 <= length key <= 75)%nat ->
  EvalScript flags checker v [] (push_vch sig ++ push_vch key) = Continue [key; sig].
Proof.
  intros Hs Hk. unfold EvalScript, MAX_SCRIPT_SIZE. rewrite length_app, !length_push_vch by lia.
  rewrite (proj2 (Z.ltb_ge 10000 _)) by lia. cbn [negb require mbind run_bind plus].
  rewrite (eval_loop_step _ _ _ _ (push_vch key) (mkMachine [sig] [] [] (push_vch sig ++ push_vch key) 0)).
  2:{ apply eval_step_push; cbn; auto; rewrite ?length_push_vch; lia. }
  rewrite Nat.add_succ_r, <- (app_nil_r (push_vch key)) at 1.
  erewrite eval_loop_step; [|apply eval_step_push; cbn; auto; lia]. by rewrite eval_loop_nil.
Qed.

(** An instruction that leaves the machine [m'] behind. *)
Lemma eval_loop_op v fuel op pc m m' : OP_16 < op -> disabled_opcode op = false -> vfExec m = [] -> 0 <= nOpCount m < 201 ->
  exec_op flags checker v op true pc (set_nOpCount (nOpCount m + 1) m) = Continue m' ->
  (length (stack m') + length (altstack m') <= 1000)%nat ->
  eval_loop flags checker v (S fuel) (op :: pc) m = eval_loop flags checker v fuel pc m'.
Proof.
  intros Hop Hd Hv Hn E Hs. apply eval_loop_step. rewrite eval_step_op, E by done. cbn [mbind run_bind].
  by rewrite (proj2 (Z.ltb_ge 1000 _)) by lia.
Qed.

Lemma op_CHECKSIG_one v key sig alt ex code n st :
  op_CHECKSIG flags checker v OP_CHECKSIG (mkMachine [key; sig] alt ex code n) = Continue st -> exists b, st = [vch_bool b].
Proof.
  unfold op_CHECKSIG. cbn [stack pbegincodehash]. intros E. do 5 apply bind_Continue_inv in E as (? & _ & E).
  change (Continue [vch_bool x2] = @Continue ScriptError _ st) in E. injection E as <-. by eexists.
Qed.

(** The script with a key and a signature on the stack: it compares the hash
    of the key, and checks the signature. *)
Lemma EvalScript_pubkeyhash v h sig key : length h = 20%nat ->
  EvalScript flags checker v [key; sig] (pubkeyhash_script h) =
  if bool_decide (CHash160 key = h)
  then op_CHECKSIG flags checker v OP_CHECKSIG (mkMachine [key; sig] [] [] (pubkeyhash_script h) 4)
  else Return SCRIPT_ERR_EQUALVERIFY.
Proof.
  intros Hh. unfold EvalScript. assert (length (pubkeyhash_script h) = 25%nat) as ->.
  { unfold pubkeyhash_script. rewrite !length_app, length_push_vch by lia. rewrite Hh. done. }
  change (require (negb (MAX_SCRIPT_SIZE <? Z.of_nat 25)) SCRIPT_ERR_SCRIPT_SIZE) with (@Continue ScriptError unit tt).
  cbn [mbind run_bind]. set (s := pubkeyhash_script h). 
  assert (eval_loop flags checker v 25 s (start [key; sig] s) =
    eval_loop flags checker v 22 [OP_EQUALVERIFY; OP_CHECKSIG] (mkMachine [h; CHash160 key; key; sig] [] [] s 2)) as E.
  { subst s. unfold pubkeyhash_script at 1. cbn [app].
    erewrite eval_loop_op; [|done|done|done|cbn; lia|reflexivity|cbn; lia].
    erewrite eval_loop_op; [|done|done|done|cbn; lia|reflexivity|cbn; lia].
    erewrite eval_loop_step; [|apply eval_step_push; [lia|cbn; lia|done|cbn; lia]]. done. }
  unfold start in E. rewrite E. clear E. destruct (bool_decide (CHash160 key = h)) eqn:E.
  - erewrite eval_loop_op with (m' := mkMachine [key; sig] [] [] s 3); [|done|done|done|cbn; lia| |cbn; lia].
    2:{ change (exec_op _ _ _ _ _ _ _) with (st ← (if bool_decide (CHash160 key = h) then Continue [key; sig] else Return SCRIPT_ERR_EQUALVERIFY);
          Continue (mkMachine st [] [] s 3)). by rewrite E. }
    cbn [eval_loop]. rewrite eval_step_op; [|done|done|done|cbn; lia].
    change (exec_op flags checker v OP_CHECKSIG _ _ _)
      with (st ← op_CHECKSIG flags checker v OP_CHECKSIG (mkMachine [key; sig] [] [] s 4); Continue (mkMachine st [] [] s 4)).
    destruct (op_CHECKSIG _ _ _ _ _) as [st| |] eqn:Ec; [|done..]. apply op_CHECKSIG_one in Ec as [b ->]. done.
  - cbn [eval_loop]. rewrite eval_step_op; [|done|done|done|cbn; lia].
    change (exec_op _ _ _ _ _ _ _) with (st ← (if bool_decide (CHash160 key = h) then Continue [key; sig] else Return SCRIPT_ERR_EQUALVERIFY);
          Continue (mkMachine st [] [] s 3)). by rewrite E.
Qed.

(** Nothing longer than a script is in it. *)
Lemma FindAndDelete_longer s b : (length s < length b)%nat -> FindAndDelete s b = Ret (s, 0).
Proof.
  intros Hl. unfold FindAndDelete. destruct b as [|x b]; [done|].
  enough (forall fuel pc pc2 r, (length pc <= fuel)%nat -> (length pc <= length s)%nat ->
    exists r' pc2', FindAndDelete_loop fuel (x :: b) pc pc2 r 0 = Ret (r', pc2', 0)) as Hloop
    by (by destruct (Hloop (length s) s s [] (le_n _) (le_n _)) as (r' & pc2' & ->)).
  induction fuel as [|fuel IH]; intros pc pc2 r Hf Hs; cbn [FindAndDelete_loop];
    (assert (skip_matches (length pc) (x :: b) pc 0 = Ret (pc, 0)) as ->
      by (destruct (length pc) eqn:El; cbn [skip_matches]; rewrite (proj2 (Nat.leb_gt _ _)) by lia; done));
    cbn [mbind outcome_bind]; destruct (GetOp2 pc) as [[[op d] pc']|] eqn:E; try (by eexists _, _); apply GetOp2_shorter in E; [lia|].
  apply IH; lia.
Qed.

Lemma IsPushOnly_sig_key sig key : (length sig <= 75)%nat -> (length key <= 75)%nat ->
  IsPushOnly (push_vch sig ++ push_vch key) = Ret true.
Proof.
  intros Hs Hk. unfold IsPushOnly. rewrite length_app, !length_push_vch by done. cbn [plus push_only_loop].
  destruct (GetOp2_push sig (push_vch key)) as (op & Hop & ->); [rewrite length_push_vch; lia|].
  destruct (push_vch sig ++ push_vch key) eqn:E; [by apply app_eq_nil in E as [E%push_vch_ne _]|].
  unfold OP_PUSHDATA4, OP_16 in *. rewrite (proj2 (Z.ltb_ge 96 op)), Nat.add_succ_r by lia. cbn [push_only_loop].
  rewrite <- (app_nil_r (push_vch key)). destruct (GetOp2_push key []) as (op' & Hop' & ->); [cbn; lia|].
  unfold OP_PUSHDATA4, OP_16 in *. rewrite (proj2 (Z.ltb_ge 96 op')) by lia.
  destruct (push_vch key ++ []) eqn:E'; [by apply app_eq_nil in E' as [E'%push_vch_ne _]|]. by destruct (length sig + length key)%nat.
Qed.

Lemma IsPayToScriptHash_pubkeyhash h : length h = 20%nat -> IsPayToScriptHash (pubkeyhash_script h) = false.
Proof.
  intros Hh. unfold IsPayToScriptHash, size_is, pubkeyhash_script. rewrite !length_app, length_push_vch, Hh by lia. done.
Qed.

Lemma IsWitnessProgram_pubkeyhash h : length h = 20%nat -> IsWitnessProgram (pubkeyhash_script h) = Ret None.
Proof.
  intros Hh. unfold IsWitnessProgram, pubkeyhash_script. rewrite !length_app, length_push_vch, Hh by lia. done.
Qed.

(** The signature check of such a script. *)
Lemma op_CHECKSIG_true h sig key n : length h = 20%nat -> (25 <= length sig <= 75)%nat ->
  op_CHECKSIG flags checker SIGVERSION_BASE OP_CHECKSIG (mkMachine [key; sig] [] [] (pubkeyhash_script h) n) = Continue [vchTrue] <->
  CheckSignatureEncoding flags sig = Continue tt /\ CheckPubKeyEncoding flags SIGVERSION_BASE key = Continue tt /\
  CheckSig checker sig key (pubkeyhash_script h) SIGVERSION_BASE = Ret true.
Proof.
  intros Hh Hs. unfold op_CHECKSIG, drop_signature. cbn [stack pbegincodehash].
  rewrite bool_decide_true by done. rewrite FindAndDelete_longer.
  2:{ unfold pubkeyhash_script. rewrite !length_app, !length_push_vch by lia. cbn. lia. }
  cbn [lift mbind run_bind]. destruct (CheckSignatureEncoding flags sig) as [[]| |]; cbn [mbind run_bind]; [|intuition congruence..].
  destruct (CheckPubKeyEncoding _ _ key) as [[]| |]; cbn [mbind run_bind]; [|intuition congruence..].
  destruct (CheckSig _ _ _ _ _) as [[]|]; cbn [lift mbind run_bind negb andb require].
  - by split.
  - split; [|by intros (_ & _ & ?)]. by destruct (has _ _ && _).
  - split; [done|by intros (_ & _ & ?)].
Qed.

(** C19: a pay-to-pubkey-hash output is spent by a signature and a key exactly
    when the key has the hash, the encodings are the ones the flags ask for
    and the signature is by that key over the output's script.  With
    segregated witnesses enforced the input carries no witness. *)
Theorem pubkeyhash_spend_iff h sig key witness :
  flags_ok flags -> length h = 20%nat -> (25 <= length sig <= 75)%nat -> (2 <= length key <= 75)%nat ->
  spends (push_vch sig ++ push_vch key) (pubkeyhash_script h) witness <->
  CHash160 key = h /\
  CheckSignatureEncoding flags sig = Continue tt /\ CheckPubKeyEncoding flags SIGVERSION_BASE key = Continue tt /\
  CheckSig checker sig key (pubkeyhash_script h) SIGVERSION_BASE = Ret true /\
  (has flags SCRIPT_VERIFY_WITNESS = true -> witness = []).
Proof.
  intros [Hok1 Hok2] Hh Hs Hk. pose proof (op_CHECKSIG_true h sig key 4 Hh Hs) as Hop. unfold spends, VerifyScript.
  rewrite IsPushOnly_sig_key, EvalScript_sig_key by lia. cbn [lift require mbind run_bind]. 
  assert (forall b, (if b : bool then Continue tt else Continue tt) = @Continue ScriptError unit tt) as -> by (by intros []).
  cbn [mbind run_bind]. cbv zeta. rewrite EvalScript_pubkeyhash by done.
  destruct (bool_decide _) eqn:Eh; [apply bool_decide_eq_true in Eh|apply bool_decide_eq_false in Eh; by split; [|intros (? & _)]].
  destruct (op_CHECKSIG _ _ _ _ _) as [st| |] eqn:Ec; [|split; [done|intros (_ & ? & ? & ? & _); by discriminate (proj2 Hop)]..].
  destruct (op_CHECKSIG_one _ _ _ _ _ _ _ _ Ec) as [b ->]. cbn [mbind run_bind require_true].
  destruct b; [|split; [done|intros (_ & ? & ? & ? & _); by discriminate (proj2 Hop)]]. cbn [CastToBool vch_bool vchTrue Z.eqb negb length Nat.eqb andb require mbind run_bind].
  unfold verify_witness, verify_p2sh. rewrite IsPayToScriptHash_pubkeyhash, IsWitnessProgram_pubkeyhash, andb_false_r by done.
  destruct (proj1 Hop eq_refl) as (Hop1 & Hop2 & Hop3). change (require (negb _) SCRIPT_ERR_EVAL_FALSE) with (@Continue ScriptError unit tt).
  cbn [lift mbind run_bind]. destruct (has flags SCRIPT_VERIFY_WITNESS) eqn:Ew; cbn [mbind run_bind].
  - rewrite (Hok2 eq_refl). replace (if has flags SCRIPT_VERIFY_CLEANSTACK then _ else _) with (@Continue ScriptError unit tt) by by case_match.
    cbn [lift assert_ mbind run_bind]. destruct witness; cbn [length Nat.eqb negb andb require]; intuition congruence.
  - destruct (has flags SCRIPT_VERIFY_CLEANSTACK); [by destruct (Hok1 eq_refl)|]. cbn [mbind run_bind]. intuition congruence.
Qed.
End Spending.

(** ** [OP_CHECKMULTISIG] *)

Section Multisig.
Context `{Crypto}.
Variable flags : Z.
Variable checker : BaseSignatureChecker.
Variable v : SigVersion.

(** The signature is by the key, over the code. *)
Definition signs (code : CScript) (sig key : valtype) : Prop := CheckSig checker sig key code v = Ret true.

(** The code the signatures sign: what is left of it without them. *)
Fixpoint code_without (sigs : list valtype) (code : CScript) : script_run CScript :=
  match sigs with
  | [] => Continue code
  | sig :: sigs => code ← drop_signature v code sig; code_without sigs code
  end.

(** The signatures are by some of the keys, in their order. *)
Definition signed_by (code : CScript) (sigs keys : list valtype) : Prop :=
  exists keys', sublist keys' keys /\ Forall2 (signs code) sigs keys'.

(** The encodings of a signature and of a key are the ones the flags ask for. *)
Definition encoded (sigs keys : list valtype) : Prop :=
  Forall (fun sig => CheckSignatureEncoding flags sig = Continue tt) sigs /\
  Forall (fun key => CheckPubKeyEncoding flags v key = Continue tt) keys.

(** Taking the first key that fits loses no solution. *)
Lemma signed_by_first code sig sigs key keys : signs code sig key ->
  signed_by code (sig :: sigs) (key :: keys) <-> signed_by code sigs keys.
Proof.
  intros Hs. split; intros (ks & Hsub & Hf).
  - apply Forall2_cons_inv_l in Hf as (k & ks' & _ & Hf & ->). exists ks'. split; [|done].
    apply sublist_cons_r in Hsub as [Hsub|(ks'' & [= -> ->] & Hsub)]; [|done].
    etrans; [|exact Hsub]. by apply sublist_cons.
  - exists (key :: ks). split; [by apply sublist_skip|by constructor].
Qed.

Lemma signed_by_next code sig sigs key keys : ~ signs code sig key ->
  signed_by code (sig :: sigs) (key :: keys) <-> signed_by code (sig :: sigs) keys.
Proof.
  intros Hs. split; intros (ks & Hsub & Hf).
  - exists ks. split; [|done]. apply Forall2_cons_inv_l in Hf as (k & ks' & Hk & _ & ->).
    by apply sublist_cons_r in Hsub as [Hsub|(ks'' & [= -> ->] & Hsub)].
  - exists ks. split; [by apply sublist_cons|done].
Qed.

Lemma signed_by_length code sigs keys : signed_by code sigs keys -> (length sigs <= length keys)%nat.
Proof. intros (ks & Hsub & Hf). apply Forall2_length in Hf. apply sublist_length in Hsub. lia. Qed.

Lemma stacktop_drop i st x l : 1 <= i -> drop (Z.to_nat (i - 1)) st = x :: l -> stacktop i st = Continue x.
Proof.
  intros Hi Hd. unfold stacktop. assert (st !! Z.to_nat (i - 1) = Some x) as ->; [|done].
  rewrite <- (Nat.add_0_r (Z.to_nat (i - 1))), <- lookup_drop, Hd. done.
Qed.

Lemma drop_next i (st : list valtype) x l : 1 <= i -> drop (Z.to_nat (i - 1)) st = x :: l -> drop (Z.to_nat (i + 1 - 1)) st = l.
Proof.
  intros Hi Hd. replace (Z.to_nat (i + 1 - 1)) with (Z.to_nat (i - 1) + 1)%nat by lia. by rewrite <- drop_drop, Hd.
Qed.

Lemma multisig_loop_false fuel st code isig ikey nSigs nKeys :
  multisig_loop flags checker v fuel st code isig ikey nSigs nKeys false = Continue false.
Proof. by destruct fuel. Qed.

(** The loop, with the signatures and the keys that are left. *)
Lemma multisig_loop_spec `{!CheckerTotal checker} fuel st code isig ikey sigs keys l l' :
  1 <= isig -> 1 <= ikey -> drop (Z.to_nat (isig - 1)) st = sigs ++ l -> drop (Z.to_nat (ikey - 1)) st = keys ++ l' ->
  encoded sigs keys -> (length keys <= fuel)%nat -> (length sigs <= length keys)%nat ->
  exists ok, multisig_loop flags checker v fuel st code isig ikey (Z.of_nat (length sigs)) (Z.of_nat (length keys)) true = Continue ok /\
    (ok = true <-> signed_by code sigs keys).
Proof.
  revert isig ikey sigs keys. induction fuel as [|fuel IH]; intros isig ikey sigs keys Hi Hk Hds Hdk [Hes Hek] Hf Hle;
    (destruct sigs as [|sig sigs]; [eexists; split; [done|]; split; [|done]; intros _; exists []; split; [apply sublist_nil_l|constructor]|]);
    cbn [length] in *; [lia|]. destruct keys as [|key keys]; cbn [length] in *; [lia|].
  cbn [multisig_loop]. rewrite (proj2 (Z.ltb_lt 0 (Z.of_nat (S (length sigs))))) by lia. cbn [andb].
  rewrite (stacktop_drop isig st sig (sigs ++ l)), (stacktop_drop ikey st key (keys ++ l')) by done.
  apply Forall_cons in Hes as [He1 Hes], Hek as [He2 Hek]. cbn [mbind run_bind]. rewrite He1. cbn [mbind run_bind]. rewrite He2.
  destruct (CheckSig_total sig key code v) as [b Hb]. cbn [mbind run_bind]. rewrite Hb. cbn [lift mbind run_bind]. cbv zeta.
  pose proof (drop_next _ _ _ _ Hi Hds) as Hds'. pose proof (drop_next _ _ _ _ Hk Hdk) as Hdk'.
  replace (Z.of_nat (S (length keys)) - 1) with (Z.of_nat (length keys)) by lia. destruct b.
  - replace (Z.of_nat (S (length sigs)) - 1) with (Z.of_nat (length sigs)) by lia.
    rewrite (proj2 (Z.ltb_ge (Z.of_nat (length keys)) (Z.of_nat (length sigs)))) by lia.
    destruct (IH (isig + 1) (ikey + 1) sigs keys) as (ok & -> & Hok); try lia; try done. exists ok. split; [done|].
    by rewrite Hok, signed_by_first.
  - assert (~ signs code sig key) as Hn by (unfold signs; congruence).
    destruct (Z.ltb_spec (Z.of_nat (length keys)) (Z.of_nat (S (length sigs)))) as [Hlt|Hge].
    + rewrite multisig_loop_false. eexists. split; [done|]. rewrite signed_by_next by done. split; [done|].
      intros Hl%signed_by_length. cbn [length] in Hl. lia.
    + change (Z.of_nat (S (length sigs))) with (Z.of_nat (length (sig :: sigs))).
      destruct (IH isig (ikey + 1) (sig :: sigs) keys) as (ok & -> & Hok); cbn [length]; try lia; try done; [by split; [constructor|]|].
      exists ok. split; [done|]. by rewrite Hok, signed_by_next.
Qed.

Definition is_empty (vch : valtype) : bool := (length vch =? 0)%nat.

(** The clean-up pops everything, and refuses a signature that is not empty
    where the check failed and the flags ask for it. *)
Lemma multisig_cleanup_sigs ok sigs st :
  multisig_cleanup flags (length sigs) ok 0 (sigs ++ st) =
  if ok || negb (has flags SCRIPT_VERIFY_NULLFAIL) || forallb is_empty sigs then Continue st else Return SCRIPT_ERR_SIG_NULLFAIL.
Proof.
  induction sigs as [|sig sigs IH]; cbn [length multisig_cleanup app forallb]; [by rewrite orb_true_r|].
  change (stacktop 1 (sig :: sigs ++ st)) with (@Continue ScriptError _ sig). cbn [Z.eqb Z.ltb Z.compare popstack mbind run_bind].
  rewrite IH. unfold is_empty. destruct ok, (has flags SCRIPT_VERIFY_NULLFAIL); cbn [negb andb orb mbind run_bind]; try done.
  by destruct (length sig =? 0)%nat.
Qed.

Lemma multisig_cleanup_spec ok a sigs st :
  multisig_cleanup flags (length a + length sigs) ok (Z.of_nat (length a)) (a ++ sigs ++ st) =
  if ok || negb (has flags SCRIPT_VERIFY_NULLFAIL) || forallb is_empty sigs then Continue st else Return SCRIPT_ERR_SIG_NULLFAIL.
Proof.
  induction a as [|x a IH]; [exact (multisig_cleanup_sigs ok sigs st)|]. cbn [length plus multisig_cleanup app].
  rewrite (proj2 (Z.eqb_neq _ 0)), andb_false_r, (proj2 (Z.ltb_lt 0 _)) by lia. cbn [popstack mbind run_bind].
  by replace (Z.of_nat (S (length a)) - 1) with (Z.of_nat (length a)) by lia.
Qed.

Lemma drop_signatures_spec st i sigs l code : 1 <= i -> drop (Z.to_nat (i - 1)) st = sigs ++ l ->
  drop_signatures v (length sigs) st i code = code_without sigs code.
Proof.
  revert i code. induction sigs as [|sig sigs IH]; intros i code Hi Hd; [done|]. cbn [length drop_signatures code_without].
  rewrite (stacktop_drop _ _ sig (sigs ++ l)) by done. cbn [mbind run_bind].
  destruct (drop_signature v code sig); [|done..]. cbn [mbind run_bind]. apply IH; [lia|]. by apply drop_next in Hd.
Qed.

Lemma script_num_small n : 0 <= n <= 20 -> script_num flags 4 (serialize n) = Continue n /\ getint n = n.
Proof.
  intros Hn. split; [|unfold getint; repeat case_match; lia].
  pose proof (fun b => check_below 21 (fun n => if CScriptNum_of (serialize n) b 4 is Ret k then k =? n else false) n) as Hc.
  unfold script_num. specialize (Hc (fRequireMinimal flags)). destruct (fRequireMinimal flags); specialize (Hc eq_refl ltac:(lia));
    (destruct (CScriptNum_of _ _ _); [|done]); by apply Z.eqb_eq in Hc as ->.
Qed.

(** C17: [OP_CHECKMULTISIG] on [n] keys and [m] signatures, encoded as the
    flags ask: it succeeds exactly when the signatures are by some of the
    keys, in the order of the keys, so the greedy search of the code misses
    no assignment.  It pops its arguments and the extra one; where it fails
    and the flags ask for it, a signature that is not empty fails the
    script. *)
Theorem checkmultisig_spec `{!CheckerTotal checker} m keys sigs dummy st code :
  stack m = serialize (Z.of_nat (length keys)) :: keys ++ serialize (Z.of_nat (length sigs)) :: sigs ++ dummy :: st ->
  (length sigs <= length keys <= 20)%nat -> (length (stack m) <= 1000)%nat ->
  0 <= nOpCount m -> nOpCount m + Z.of_nat (length keys) <= 201 ->
  encoded sigs keys -> (has flags SCRIPT_VERIFY_NULLDUMMY = true -> dummy = []) ->
  code_without sigs (pbegincodehash m) = Continue code ->
  exists ok, (ok = true <-> signed_by code sigs keys) /\
    op_CHECKMULTISIG flags checker v OP_CHECKMULTISIG m =
    if ok || negb (has flags SCRIPT_VERIFY_NULLFAIL) || forallb is_empty sigs
    then Continue (set_stack (vch_bool ok :: st) (set_nOpCount (nOpCount m + Z.of_nat (length keys)) m))
    else Return SCRIPT_ERR_SIG_NULLFAIL.
Proof.
  intros Hst Hlen Hsz Hn Hn' Henc Hdummy Hcode. set (nk := Z.of_nat (length keys)) in *. set (ns := Z.of_nat (length sigs)) in *.
  destruct (script_num_small nk ltac:(lia)) as [Hnk Hnk']. destruct (script_num_small ns ltac:(lia)) as [Hns Hns'].
  assert (isize (stack m) = Z.of_nat (length (stack m))) as Hi by (apply wrapS_small; unfold inS; lia).
  assert (Z.of_nat (length (stack m)) = nk + ns + 3 + Z.of_nat (length st)) as Hl
    by (rewrite Hst; cbn [length]; rewrite !length_app; cbn [length]; rewrite length_app; cbn [length]; lia).
  assert (drop (Z.to_nat (2 - 1)) (stack m) = keys ++ serialize ns :: sigs ++ dummy :: st) as Hdk by (by rewrite Hst).
  assert (drop (Z.to_nat (2 + nk + 1 - 1)) (stack m) = sigs ++ dummy :: st) as Hds.
  { rewrite Hst. replace (Z.to_nat (2 + nk + 1 - 1)) with (S (length keys + 1)) by lia. cbn [drop].
    by rewrite drop_app_add. }
  destruct (multisig_loop_spec (length keys) (stack m) code (2 + nk + 1) 2 sigs keys (dummy :: st) (serialize ns :: sigs ++ dummy :: st))
    as (ok & Hloop & Hok); try lia; try done. fold nk ns in Hloop. exists ok. split; [done|].
  unfold op_CHECKMULTISIG. cbv zeta. cbn [nOpCount set_nOpCount pbegincodehash]. rewrite Hi, (proj2 (Z.ltb_ge _ 1)) by lia.
  rewrite (stacktop_drop 1 _ (serialize nk) (keys ++ serialize ns :: sigs ++ dummy :: st)) by (done || by rewrite Hst).
  cbn [negb require mbind run_bind]. rewrite Hnk. cbn [mbind run_bind]. rewrite Hnk'. unfold MAX_PUBKEYS_PER_MULTISIG, MAX_OPS_PER_SCRIPT.
  rewrite (proj2 (Z.ltb_ge nk 0)), (proj2 (Z.ltb_ge 20 nk)), (wrapS_small 32 (nOpCount m + nk)), (proj2 (Z.ltb_ge 201 _)) by (unfold inS; lia).
  rewrite (proj2 (Z.ltb_ge (Z.of_nat (length (stack m))) (2 + nk))) by lia. cbn [orb negb require mbind run_bind].
  rewrite (stacktop_drop (2 + nk) _ (serialize ns) (sigs ++ dummy :: st)); [|lia|].
  2:{ rewrite Hst. replace (Z.to_nat (2 + nk - 1)) with (S (length keys)) by lia. cbn [drop]. by rewrite drop_app_length. }
  cbn [mbind run_bind]. rewrite Hns. cbn [mbind run_bind]. rewrite Hns'.
  rewrite (proj2 (Z.ltb_ge ns 0)), (proj2 (Z.ltb_ge nk ns)), (proj2 (Z.ltb_ge (Z.of_nat (length (stack m))) (2 + nk + 1 + ns))) by lia.
  cbn [orb negb require mbind run_bind]. replace (Z.to_nat ns) with (length sigs) by lia. replace (Z.to_nat nk) with (length keys) by lia.
  rewrite (drop_signatures_spec _ _ sigs (dummy :: st)) by (done || lia). rewrite Hcode. cbn [mbind run_bind]. rewrite Hloop. cbn [mbind run_bind].
  rewrite Hst. set (a := serialize nk :: keys ++ [serialize ns]).
  replace (serialize nk :: keys ++ serialize ns :: sigs ++ dummy :: st) with (a ++ sigs ++ dummy :: st) by (subst a; cbn [app]; by rewrite <- app_assoc).
  assert (Z.of_nat (length a) = nk + 2) as Ha by (subst a; cbn [length]; rewrite length_app; cbn [length]; lia).
  replace (Z.to_nat (2 + nk + 1 + ns - 1)) with (length a + length sigs)%nat by lia. rewrite <- Ha, multisig_cleanup_spec.
  destruct (ok || negb _ || forallb is_empty sigs); [|done]. cbn [mbind run_bind].
  replace (has flags SCRIPT_VERIFY_NULLDUMMY && negb (length dummy =? 0)%nat) with false; [done|].
  destruct (has flags SCRIPT_VERIFY_NULLDUMMY); [|done]. by rewrite Hdummy.
Qed.
End Multisig.

(** ** Witnesses *)

Lemma unspendable_never_spent_witness : ~ spends (H := toy_crypto) 0 toy_checker [81] [106; 81] [].
Proof. exact (unspendable_never_spent (H := toy_crypto) 0 toy_checker [81] [106; 81] [] eq_refl). Defined.

(** A key, its hash and a signature of the right length. *)
Definition toy_key : valtype := 2 :: replicate 32 5.
Definition toy_keyhash : valtype := Eval vm_compute in CHash160 toy_key.
Definition toy_sig : valtype := 2 :: replicate 29 9.

Lemma pubkeyhash_spend_iff_witness :
  spends (H := toy_crypto) SCRIPT_VERIFY_P2SH toy_checker (push_vch toy_sig ++ push_vch toy_key) (pubkeyhash_script toy_keyhash) [].
Proof.
  apply (pubkeyhash_spend_iff (H := toy_crypto) SCRIPT_VERIFY_P2SH toy_checker toy_keyhash toy_sig toy_key []).
  - split; vm_compute; discriminate.
  - reflexivity.
  - vm_compute. lia.
  - vm_compute. lia.
  - split; [vm_compute; reflexivity|]. split; [reflexivity|]. split; [reflexivity|]. split; [reflexivity|]. discriminate.
Defined.

(** Two of three keys, and the signatures of the first and the third. *)
Definition toy_machine (sigs : list valtype) : machine :=
  mkMachine (serialize 3 :: [[4; 1]; [3; 1]; [2; 1]] ++ serialize 2 :: sigs ++ [[]]) [] [] [OP_CHECKMULTISIG] 1.

Lemma checkmultisig_spec_witness :
  exists ok, (ok = true <-> signed_by toy_checker SIGVERSION_BASE [OP_CHECKMULTISIG] [[4; 7]; [2; 7]] [[4; 1]; [3; 1]; [2; 1]]) /\
    op_CHECKMULTISIG (H := toy_crypto) 0 toy_checker SIGVERSION_BASE OP_CHECKMULTISIG (toy_machine [[4; 7]; [2; 7]]) =
    (if ok || negb (has 0 SCRIPT_VERIFY_NULLFAIL) || forallb is_empty [[4; 7]; [2; 7]]
     then Continue (set_stack [vch_bool ok] (set_nOpCount (1 + 3) (toy_machine [[4; 7]; [2; 7]]))) else Return SCRIPT_ERR_SIG_NULLFAIL) /\ ok = true.
Proof.
  destruct (checkmultisig_spec (H := toy_crypto) 0 toy_checker SIGVERSION_BASE (toy_machine [[4; 7]; [2; 7]]) [[4; 1]; [3; 1]; [2; 1]] [[4; 7]; [2; 7]] [] []
    [OP_CHECKMULTISIG]) as (ok & Hok & E).
  - reflexivity.
  - cbn. lia.
  - vm_compute. lia.
  - cbn. lia.
  - cbn. lia.
  - split; repeat constructor.
  - reflexivity.
  - vm_compute. reflexivity.
  - exists ok. split; [exact Hok|]. split; [exact E|]. apply Hok. exists [[4; 1]; [2; 1]]. split; repeat constructor.
Defined.
