(* ===== verification/SigHash.v ===== *)
(** * Signature hashes and the transaction signature checker
    ([script/interpreter.cpp], [pubkey.h])

    What a signature commits to, [SignatureHash], in the form the code
    serializes it and in the form of the original client that the tests keep
    as a reference; and the checker [EvalScript] runs with,
    [TransactionSignatureChecker].  Reading past the end of [vin] or [vout]
    is [Abort]. *)

From S2P Require Import Prelude ArithUint256 StrEncodings Uint256 Amount Tx LockTime Script Serialize CheckTx TxInputs.
From S2P Require Import Hashes Interpreter SoftFork ScriptSafety.
From stdpp Require Import list.
#[local] Open Scope Z_scope.

(** ** Serializing the script code *)

(** Where [GetOp2] leaves [pc], also where it returns [false]. *)
Definition GetOp2_pc (pc : CScript) : CScript :=
  match GetOp2 pc, pc with
  | Some (_, _, pc'), _ => pc'
  | None, [] => []
  | None, opcode :: pc =>
      if opcode <? OP_PUSHDATA1 then pc
      else if opcode =? OP_PUSHDATA1 then (if (length pc <? 1)%nat then pc else drop 1 pc)
      else if opcode =? OP_PUSHDATA2 then (if (length pc <? 2)%nat then pc else drop 2 pc)
      else if (length pc <? 4)%nat then pc else drop 4 pc
  end.

(** The loop that counts the separators, and the one that writes what is
    between them: the bytes written, [itBegin] and [it] after it. *)
Fixpoint count_separators (fuel : nat) (it : CScript) (nCodeSeparators : Z) : outcome Z :=
  match GetOp2 it with
  | None => Ret nCodeSeparators
  | Some (opcode, _, it) =>
      match fuel with
      | O => Abort
      | S fuel' => count_separators fuel' it (if opcode =? OP_CODESEPARATOR then u32 (nCodeSeparators + 1) else nCodeSeparators)
      end
  end.
Fixpoint write_between (fuel : nat) (itBegin it : CScript) (s : list Z) : outcome (list Z * CScript * CScript) :=
  match GetOp2 it with
  | None => Ret (s, itBegin, GetOp2_pc it)
  | Some (opcode, _, it) =>
      match fuel with
      | O => Abort
      | S fuel' =>
          if opcode =? OP_CODESEPARATOR
          then write_between fuel' it it (s ++ take (length itBegin - length it - 1) itBegin)
          else write_between fuel' itBegin it s
      end
  end.

Definition SerializeScriptCode (scriptCode : CScript) : outcome (list Z) :=
  nCodeSeparators ← count_separators (length scriptCode) scriptCode 0;
  '(s, itBegin, it) ← write_between (length scriptCode) scriptCode scriptCode [];
  Ret (WriteCompactSize (u32 (Z.of_nat (length scriptCode) - nCodeSeparators))
       ++ s ++ match itBegin with [] => [] | _ => bytes_between itBegin it end).

(** ** [CTransactionSignatureSerializer] *)

Record CTransactionSignatureSerializer := mkSerializer {
  txTo : CTransaction;
  scriptCode : CScript;
  nIn : nat;
  fAnyoneCanPay : bool;
  fHashSingle : bool;
  fHashNone : bool
}.
Definition CTransactionSignatureSerializer_new (tx : CTransaction) (code : CScript) (nIn : nat) (nHashTypeIn : Z)
    : CTransactionSignatureSerializer :=
  mkSerializer tx code nIn (has nHashTypeIn SIGHASH_ANYONECANPAY) (Z.land nHashTypeIn 0x1f =? SIGHASH_SINGLE)
    (Z.land nHashTypeIn 0x1f =? SIGHASH_NONE).

Definition SerializeInput (z : CTransactionSignatureSerializer) (nInput : nat) : outcome (list Z) :=
  let nInput := if fAnyoneCanPay z then nIn z else nInput in
  txin ← deref (vin (txTo z) !! nInput);
  let other := negb (nInput =? nIn z)%nat in
  script ← (if other then Ret (ser_bytes []) else SerializeScriptCode (scriptCode z));
  Ret (ser_COutPoint (prevout txin) ++ script
       ++ ser_writedata32 (if other && (fHashSingle z || fHashNone z) then 0 else nSequence txin)).

Definition SerializeOutput (z : CTransactionSignatureSerializer) (nOutput : nat) : outcome (list Z) :=
  if fHashSingle z && negb (nOutput =? nIn z)%nat then Ret (ser_CTxOut CTxOut_null)
  else txout ← deref (tx_vout (txTo z) !! nOutput); Ret (ser_CTxOut txout).

(** [for (i = first; i < first + n; i++) write(i)]. *)
Fixpoint write_each (write : nat -> outcome (list Z)) (n first : nat) : outcome (list Z) :=
  match n with
  | O => Ret []
  | S n' => bs ← write first; r ← write_each write n' (S first); Ret (bs ++ r)
  end.

Definition signature_Serialize (z : CTransactionSignatureSerializer) : outcome (list Z) :=
  let nInputs := if fAnyoneCanPay z then 1%nat else length (vin (txTo z)) in
  ins ← write_each (SerializeInput z) nInputs 0;
  let nOutputs := if fHashNone z then 0%nat else if fHashSingle z then S (nIn z) else length (tx_vout (txTo z)) in
  outs ← write_each (SerializeOutput z) nOutputs 0;
  Ret (ser_writedata32 (tx_nVersion (txTo z)) ++ WriteCompactSize (Z.of_nat nInputs) ++ ins
       ++ WriteCompactSize (Z.of_nat nOutputs) ++ outs ++ ser_writedata32 (nLockTime (txTo z))).

(** ** [SignatureHash] *)

Record PrecomputedTransactionData := mkPrecomputed { hashPrevouts : uint256; hashSequence : uint256; hashOutputs : uint256 }.

Definition uint256_one : uint256 := uint256S (str "0000000000000000000000000000000000000000000000000000000000000001").

Section Hashes.
Context `{Crypto}.

(** [CHashWriter::GetHash] of what was written is [CHash256] of it. *)
Definition GetPrevoutHash (tx : CTransaction) : uint256 := CHash256 (concat (map (fun i => ser_COutPoint (prevout i)) (vin tx))).
Definition GetSequenceHash (tx : CTransaction) : uint256 := CHash256 (concat (map (fun i => ser_writedata32 (nSequence i)) (vin tx))).
Definition GetOutputsHash (tx : CTransaction) : uint256 := CHash256 (concat (map ser_CTxOut (tx_vout tx))).

Definition PrecomputedTransactionData_new (tx : CTransaction) : PrecomputedTransactionData :=
  mkPrecomputed (GetPrevoutHash tx) (GetSequenceHash tx) (GetOutputsHash tx).

Definition anyone_can_pay (nHashType : Z) : bool := has nHashType SIGHASH_ANYONECANPAY.
Definition hash_kind (nHashType : Z) : Z := Z.land nHashType 0x1f.

(** The branch [if (sigversion == SIGVERSION_WITNESS_V0)]: what it hashes. *)
Definition witness_preimage (code : CScript) (tx : CTransaction) (nIn : nat) (nHashType amount : Z)
    (cache : option PrecomputedTransactionData) : outcome (list Z) :=
  let all_outputs := negb (hash_kind nHashType =? SIGHASH_SINGLE) && negb (hash_kind nHashType =? SIGHASH_NONE) in
  let hPrevouts := if negb (anyone_can_pay nHashType)
                   then match cache with Some c => hashPrevouts c | None => GetPrevoutHash tx end
                   else uint256_null in
  let hSequence := if negb (anyone_can_pay nHashType) && all_outputs
                   then match cache with Some c => hashSequence c | None => GetSequenceHash tx end
                   else uint256_null in
  hOutputs ← (if all_outputs then Ret (match cache with Some c => hashOutputs c | None => GetOutputsHash tx end)
              else if (hash_kind nHashType =? SIGHASH_SINGLE) && (nIn <? length (tx_vout tx))%nat
              then txout ← deref (tx_vout tx !! nIn); Ret (CHash256 (ser_CTxOut txout))
              else Ret uint256_null);
  txin ← deref (vin tx !! nIn);
  Ret (ser_writedata32 (tx_nVersion tx) ++ hPrevouts ++ hSequence ++ ser_COutPoint (prevout txin) ++ ser_bytes code
       ++ ser_writedata64 amount ++ ser_writedata32 (nSequence txin) ++ hOutputs ++ ser_writedata32 (nLockTime tx)
       ++ ser_writedata32 nHashType).

Definition SignatureHash (code : CScript) (tx : CTransaction) (nIn : nat) (nHashType amount : Z) (sigversion : SigVersion)
    (cache : option PrecomputedTransactionData) : outcome uint256 :=
  match sigversion with
  | SIGVERSION_WITNESS_V0 => bs ← witness_preimage code tx nIn nHashType amount cache; Ret (CHash256 bs)
  | SIGVERSION_BASE =>
      if (length (vin tx) <=? nIn)%nat then Ret uint256_one
      else if (hash_kind nHashType =? SIGHASH_SINGLE) && (length (tx_vout tx) <=? nIn)%nat then Ret uint256_one
      else
        bs ← signature_Serialize (CTransactionSignatureSerializer_new tx code nIn nHashType);
        Ret (CHash256 (bs ++ ser_writedata32 nHashType))
  end.

(** ** The signature hash of the original client, [SignatureHashOld] *)

Definition set_scriptSig (s : CScript) (i : CTxIn) : CTxIn := mkTxIn (prevout i) s (nSequence i) (scriptWitness i).
Definition set_nSequence (n : Z) (i : CTxIn) : CTxIn := mkTxIn (prevout i) (scriptSig i) n (scriptWitness i).

(** [for (i..) if (i != nIn) txTmp.vin[i].nSequence = 0]. *)
Definition others_update (nIn : nat) (ins : list CTxIn) : list CTxIn :=
  imap (fun i txin => if (i =? nIn)%nat then txin else set_nSequence 0 txin) ins.

Definition SignatureHashOld (code : CScript) (tx : CTransaction) (nIn : nat) (nHashType : Z) : outcome uint256 :=
  if (length (vin tx) <=? nIn)%nat then Ret uint256_one
  else
    '(code, _) ← FindAndDelete code [OP_CODESEPARATOR];
    let ins := map (set_scriptSig []) (vin tx) in
    let ins := alter (set_scriptSig code) nIn ins in
    let kind := hash_kind nHashType in
    if (kind =? SIGHASH_SINGLE) && (length (tx_vout tx) <=? nIn)%nat then Ret uint256_one
    else
      let ins := if (kind =? SIGHASH_NONE) || (kind =? SIGHASH_SINGLE) then others_update nIn ins else ins in
      let outs := if kind =? SIGHASH_NONE then []
                  else if kind =? SIGHASH_SINGLE
                  then imap (fun i o => if (i <? nIn)%nat then CTxOut_null else o) (take (nIn + 1) (tx_vout tx))
                  else tx_vout tx in
      ins ← (if anyone_can_pay nHashType then txin ← deref (ins !! nIn); Ret [txin] else Ret ins);
      let txTmp := mkTransaction (tx_nVersion tx) ins outs (nLockTime tx) (tx_hash tx) in
      Ret (CHash256 (SerializeTransaction false txTmp ++ ser_writedata32 nHashType)).

(** ** [CPubKey] *)

Definition GetLen (chHeader : Z) : nat :=
  if (chHeader =? 2) || (chHeader =? 3) then 33%nat
  else if (chHeader =? 4) || (chHeader =? 6) || (chHeader =? 7) then 65%nat
  else 0%nat.

(** [CPubKey(vch)]: the bytes stored, [[0xFF]] where it is invalid. *)
Definition CPubKey_of (vchPubKey : valtype) : list Z :=
  let len := match vchPubKey with [] => 0%nat | h :: _ => GetLen h end in
  if negb (len =? 0)%nat && (len =? length vchPubKey)%nat then vchPubKey else [0xFF].
Definition CPubKey_IsValid (pubkey : list Z) : bool := (0 <? GetLen (pubkey.[0]))%nat.

(** ** [TransactionSignatureChecker] *)

Definition transaction_CheckSig (tx : CTransaction) (nIn : nat) (amount : Z) (txdata : option PrecomputedTransactionData)
    (vchSigIn vchPubKey : valtype) (code : CScript) (sigversion : SigVersion) : outcome bool :=
  let pubkey := CPubKey_of vchPubKey in
  if negb (CPubKey_IsValid pubkey) then Ret false
  else match last vchSigIn with
       | None => Ret false
       | Some nHashType =>
           sighash ← SignatureHash code tx nIn nHashType amount sigversion txdata;
           Ret (Verify pubkey sighash (removelast vchSigIn))
       end.

Definition transaction_CheckLockTime (tx : CTransaction) (nIn : nat) (lock : Z) : outcome bool :=
  if negb (((nLockTime tx <? LOCKTIME_THRESHOLD) && (lock <? LOCKTIME_THRESHOLD))
           || ((LOCKTIME_THRESHOLD <=? nLockTime tx) && (LOCKTIME_THRESHOLD <=? lock)))
  then Ret false
  else if nLockTime tx <? lock then Ret false
  else txin ← deref (vin tx !! nIn); Ret (negb (SEQUENCE_FINAL =? nSequence txin)).

Definition transaction_CheckSequence (tx : CTransaction) (nIn : nat) (seqn : Z) : outcome bool :=
  txin ← deref (vin tx !! nIn);
  let txToSequence := nSequence txin in
  if u32 (tx_nVersion tx) <? 2 then Ret false
  else if negb (Z.land txToSequence SEQUENCE_LOCKTIME_DISABLE_FLAG =? 0) then Ret false
  else
    let nLockTimeMask := Z.lor SEQUENCE_LOCKTIME_TYPE_FLAG SEQUENCE_LOCKTIME_MASK in
    let txToSequenceMasked := Z.land txToSequence nLockTimeMask in
    let nSequenceMasked := Z.land seqn nLockTimeMask in
    if negb (((txToSequenceMasked <? SEQUENCE_LOCKTIME_TYPE_FLAG) && (nSequenceMasked <? SEQUENCE_LOCKTIME_TYPE_FLAG))
             || ((SEQUENCE_LOCKTIME_TYPE_FLAG <=? txToSequenceMasked) && (SEQUENCE_LOCKTIME_TYPE_FLAG <=? nSequenceMasked)))
    then Ret false
    else Ret (negb (txToSequenceMasked <? nSequenceMasked)).

Definition TransactionSignatureChecker (tx : CTransaction) (nIn : nat) (amount : Z) (txdata : option PrecomputedTransactionData)
    : BaseSignatureChecker :=
  mkChecker (transaction_CheckSig tx nIn amount txdata) (transaction_CheckLockTime tx nIn) (transaction_CheckSequence tx nIn).
End Hashes.

(** ** Scripts as instructions *)

(** The script is these instructions, each with its opcode and its bytes. *)
Inductive script_ops : CScript -> list (Z * list Z) -> Prop :=
| script_ops_nil : script_ops [] []
| script_ops_cons op d body pc l : GetOp2 (op :: body ++ pc) = Some (op, d, pc) -> script_ops pc l ->
    script_ops (op :: body ++ pc) ((op, op :: body) :: l).

(** [GetOp] reads the script to its end. *)
Definition well_formed (s : CScript) : Prop := exists l, script_ops s l.

(** The bytes of the instructions that are no separators, and how many are. *)
Definition ops_body (l : list (Z * list Z)) : CScript := concat (map snd (filter (fun o => o.1 <> OP_CODESEPARATOR) l)).
Definition ops_separators (l : list (Z * list Z)) : nat := length (filter (fun o => o.1 = OP_CODESEPARATOR) l).

Lemma separator_alone body pc d : GetOp2 (OP_CODESEPARATOR :: body ++ pc) = Some (OP_CODESEPARATOR, d, pc) -> body = [].
Proof.
  cbn [GetOp2]. change (OP_CODESEPARATOR <=? OP_PUSHDATA4) with false. cbn. intros [= _ E].
  apply (f_equal length) in E. rewrite length_app in E. destruct body; [done|cbn in E; lia].
Qed.

Lemma script_ops_length s l : script_ops s l -> length s = (length (ops_body l) + ops_separators l)%nat.
Proof.
  induction 1 as [|op d body pc l E Hs IH]; [done|]. unfold ops_body, ops_separators in *.
  destruct (decide (op = OP_CODESEPARATOR)) as [->|Hop].
  - apply separator_alone in E as ->. cbn [app length]. rewrite filter_cons_False, filter_cons_True by auto. cbn [length]. lia.
  - rewrite filter_cons_True, filter_cons_False by auto. cbn [map concat length snd app]. rewrite !length_app, IH. lia.
Qed.

Lemma ops_body_cons op body l : op <> OP_CODESEPARATOR -> ops_body ((op, op :: body) :: l) = (op :: body) ++ ops_body l.
Proof. intros Hop. unfold ops_body. by rewrite filter_cons_True. Qed.

Lemma ops_body_sep body l : ops_body ((OP_CODESEPARATOR, body) :: l) = ops_body l.
Proof. unfold ops_body. by rewrite filter_cons_False by auto. Qed.

Lemma ops_separators_cons op body l :
  ops_separators ((op, body) :: l) = Nat.add (if op =? OP_CODESEPARATOR then 1%nat else 0%nat) (ops_separators l).
Proof.
  unfold ops_separators. destruct (Z.eqb_spec op OP_CODESEPARATOR) as [->|Hop]; [by rewrite filter_cons_True|by rewrite filter_cons_False].
Qed.

(** Without separators nothing is missing. *)
Lemma ops_body_all s l : script_ops s l -> ops_separators l = 0%nat -> ops_body l = s.
Proof.
  induction 1 as [|op d body pc l E Hs IH]; [done|]. rewrite ops_separators_cons. destruct (Z.eqb_spec op OP_CODESEPARATOR); [lia|].
  intros Hl. rewrite ops_body_cons, IH by done. done.
Qed.

(** The serializer writes the body with its size. *)
Lemma count_separators_spec s l fuel n : script_ops s l -> (length s <= fuel)%nat -> 0 <= n ->
  n + Z.of_nat (length s) < 2 ^ 32 -> count_separators fuel s n = Ret (n + Z.of_nat (ops_separators l)).
Proof.
  intros Hs. revert fuel n. induction Hs as [|op d body pc l E Hs IH]; intros fuel n Hf Hn Hb.
  - destruct fuel; cbn; f_equal; lia.
  - pose proof (GetOp2_shorter _ _ _ _ E) as Hl. destruct fuel as [|fuel]; [cbn [length] in Hf; lia|]. cbn [count_separators].
    rewrite E. rewrite ops_separators_cons. destruct (op =? OP_CODESEPARATOR).
    + rewrite wrapU_small by (unfold inU; lia). rewrite IH by lia. f_equal. lia.
    + rewrite IH by lia. f_equal.
Qed.

Lemma write_between_spec it l fuel x s : script_ops it l -> (length it <= fuel)%nat ->
  exists s' itBegin', write_between fuel (x ++ it) it s = Ret (s', itBegin', []) /\ s' ++ itBegin' = s ++ x ++ ops_body l.
Proof.
  intros Hs. revert fuel x s. induction Hs as [|op d body pc l E Hs IH]; intros fuel x s Hf.
  - exists s, x. destruct fuel; cbn [write_between]; by rewrite !app_nil_r.
  - pose proof (GetOp2_shorter _ _ _ _ E) as Hl. destruct fuel as [|fuel]; [cbn [length] in Hf; lia|]. cbn [write_between]. rewrite E.
    destruct (Z.eqb_spec op OP_CODESEPARATOR) as [->|Hop].
    + pose proof (separator_alone _ _ _ E) as ->. cbn [app].
      replace (take (length (x ++ OP_CODESEPARATOR :: pc) - length pc - 1) (x ++ OP_CODESEPARATOR :: pc)) with x
        by (rewrite length_app; cbn [length]; rewrite take_app_length' by lia; done).
      destruct (IH fuel [] (s ++ x)) as (s' & b' & E' & Hb); [lia|]. exists s', b'. split; [exact E'|].
      rewrite Hb, ops_body_sep, <- app_assoc. done.
    + destruct (IH fuel (x ++ op :: body) s) as (s' & b' & E' & Hb); [lia|]. exists s', b'. rewrite <- app_assoc in E'. split; [done|].
      rewrite Hb, ops_body_cons, <- !app_assoc by done. done.
Qed.

Lemma SerializeScriptCode_spec s l : script_ops s l -> Z.of_nat (length s) < 2 ^ 32 -> SerializeScriptCode s = Ret (ser_bytes (ops_body l)).
Proof.
  intros Hs Hl. unfold SerializeScriptCode. rewrite (count_separators_spec s l) by (auto; lia). cbn [mbind outcome_bind].
  destruct (write_between_spec s l (length s) [] [] Hs (le_n _)) as (s' & b & E & Hb). cbn [app] in E, Hb. rewrite E. cbn [mbind outcome_bind].
  pose proof (script_ops_length s l Hs). rewrite wrapU_small by (unfold inU; lia). unfold ser_bytes. f_equal. f_equal; [f_equal; lia|].
  rewrite <- Hb. f_equal. destruct b; [done|]. unfold bytes_between. rewrite Nat.sub_0_r. apply firstn_all.
Qed.

(** [FindAndDelete] of a separator leaves the same body. *)
Lemma skip_separators s l fuel n : script_ops s l -> (length s <= fuel)%nat ->
  exists s' l' k, skip_matches fuel [OP_CODESEPARATOR] s n = Ret (s', n + Z.of_nat k) /\ script_ops s' l' /\
    ops_body l' = ops_body l /\ ops_separators l = (k + ops_separators l')%nat /\ (length l' <= length l)%nat /\
    (length s' <= length s)%nat /\ (forall o l'', l' = o :: l'' -> o.1 <> OP_CODESEPARATOR).
Proof.
  intros Hs. revert fuel n. induction Hs as [|op d body pc l E Hs IH]; intros fuel n Hf.
  - exists [], [], 0%nat. split_and!; [|constructor|done..]. destruct fuel; cbn; do 2 f_equal; lia.
  - pose proof (GetOp2_shorter _ _ _ _ E) as Hl. destruct fuel as [|fuel]; [cbn [length] in Hf; lia|].
    cbn [skip_matches length take Nat.leb andb drop]. rewrite take_0, drop_0. destruct (bool_decide ([op] = [OP_CODESEPARATOR])) eqn:Eb.
    + apply bool_decide_eq_true in Eb as [= ->]. pose proof (separator_alone _ _ _ E) as ->. cbn [app] in *.
      destruct (IH fuel (n + 1)) as (s' & l' & k & Ek & Hs' & Hb & Hk & Hl' & Hl'' & Hne); [cbn [length] in *; lia|].
      rewrite Ek. exists s', l', (S k). rewrite ops_body_sep, ops_separators_cons, Z.eqb_refl. cbn [length] in *. split_and!; auto; try lia. do 2 f_equal. lia.
    + exists (op :: body ++ pc), ((op, op :: body) :: l), 0%nat. split_and!; auto; [do 2 f_equal; lia|by econstructor|].
      intros o l'' [= <- <-]. cbn. intros ->. by rewrite bool_decide_true in Eb.
Qed.

Lemma FindAndDelete_loop_separators k : forall s l fuel x result n, (length l <= k)%nat -> script_ops s l -> (length s <= fuel)%nat ->
  FindAndDelete_loop fuel [OP_CODESEPARATOR] s (x ++ s) result n = Ret (result ++ x ++ ops_body l, [], n + Z.of_nat (ops_separators l)).
Proof.
  assert (forall (x s : CScript), bytes_between (x ++ s) s = x) as Hbt.
  { intros. unfold bytes_between. rewrite length_app, Nat.add_sub. apply take_app_length. }
  induction k as [|k IH]; intros s l fuel x result n Hk Hs Hf.
  - destruct l; [|cbn in Hk; lia]. inversion Hs; subst. destruct fuel; cbn [FindAndDelete_loop]; rewrite Hbt; cbn; rewrite app_nil_r; do 2 f_equal; lia.
  - destruct (skip_separators s l (length s) n Hs (le_n _)) as (s' & l' & j & Esk & Hs' & Hb & Hj & Hl' & Hl'' & Hne).
    rewrite <- Hb, Hj. inversion Hs' as [|op d body pc l'' E Hs'']; subst; cbn [length] in *.
    + destruct fuel; cbn [FindAndDelete_loop]; rewrite Hbt, Esk; cbn; rewrite app_nil_r; do 2 f_equal; lia.
    + rewrite length_app in Hl''. destruct fuel as [|fuel]; [lia|]. cbn [FindAndDelete_loop]. rewrite Hbt, Esk. cbn [mbind outcome_bind].
      rewrite E. change (op :: body ++ pc) with ((op :: body) ++ pc).
      assert (op <> OP_CODESEPARATOR) as Hop by exact (Hne _ _ eq_refl).
      rewrite (IH pc l'') by (auto; lia). rewrite ops_body_cons, ops_separators_cons by done.
      rewrite (proj2 (Z.eqb_neq _ _) Hop). rewrite <- !app_assoc. do 2 f_equal. lia.
Qed.

Lemma FindAndDelete_separators s l : script_ops s l ->
  FindAndDelete s [OP_CODESEPARATOR] = Ret (ops_body l, Z.of_nat (ops_separators l)).
Proof.
  intros Hs. unfold FindAndDelete.
  pose proof (FindAndDelete_loop_separators (length l) s l (length s) [] [] 0 (le_n _) Hs (le_n _)) as E. cbn [app] in E. rewrite E.
  cbn [mbind outcome_bind].
  destruct (Z.ltb_spec 0 (0 + Z.of_nat (ops_separators l))); rewrite Z.add_0_l, ?app_nil_r; [done|].
  by rewrite (ops_body_all s l Hs) by lia.
Qed.

(** ** The serializer and the original client *)

Lemma write_each_spec {A} (write : nat -> outcome (list Z)) (ser : A -> list Z) l first :
  (forall i x, l !! i = Some x -> write (first + i)%nat = Ret (ser x)) ->
  write_each write (length l) first = Ret (concat (map ser l)).
Proof.
  revert first. induction l as [|x l IH]; intros first Hw; [done|]. cbn [length write_each map concat].
  rewrite <- (Nat.add_0_r first), (Hw 0%nat x eq_refl), Nat.add_0_r. cbn [mbind outcome_bind]. rewrite IH; [done|].
  intros i y Hy. rewrite Nat.add_succ_comm. by apply Hw.
Qed.

Section Equivalence.
Context `{Crypto}.
Variable code : CScript.
Variable ops : list (Z * list Z).
Hypothesis Hops : script_ops code ops.
Hypothesis Hlen : Z.of_nat (length code) < 2 ^ 32.
Variable tx : CTransaction.
Variable nIn : nat.
Variable nHashType : Z.

(** The inputs and outputs of the copy the original client serializes. *)
Definition old_vin : list CTxIn :=
  let ins := alter (set_scriptSig (ops_body ops)) nIn (map (set_scriptSig []) (vin tx)) in
  if (hash_kind nHashType =? SIGHASH_NONE) || (hash_kind nHashType =? SIGHASH_SINGLE) then others_update nIn ins else ins.
Definition old_vout : list CTxOut :=
  if hash_kind nHashType =? SIGHASH_NONE then []
  else if hash_kind nHashType =? SIGHASH_SINGLE
  then imap (fun i o => if (i <? nIn)%nat then CTxOut_null else o) (take (nIn + 1) (tx_vout tx))
  else tx_vout tx.

Lemma old_vin_lookup i : old_vin !! i =
  (fun txin => mkTxIn (prevout txin) (if (i =? nIn)%nat then ops_body ops else [])
     (if negb (i =? nIn)%nat && ((hash_kind nHashType =? SIGHASH_SINGLE) || (hash_kind nHashType =? SIGHASH_NONE)) then 0 else nSequence txin)
     (scriptWitness txin)) <$> vin tx !! i.
Proof.
  unfold old_vin. cbv zeta. rewrite (orb_comm (_ =? SIGHASH_NONE)). set (b := (hash_kind nHashType =? SIGHASH_SINGLE) || _).
  assert (alter (set_scriptSig (ops_body ops)) nIn (map (set_scriptSig []) (vin tx)) !! i =
    (fun txin => mkTxIn (prevout txin) (if (i =? nIn)%nat then ops_body ops else []) (nSequence txin) (scriptWitness txin)) <$> vin tx !! i) as E.
  { destruct (Nat.eqb_spec i nIn) as [->|Hne]; [rewrite list_lookup_alter_eq|rewrite list_lookup_alter_ne by done];
      rewrite list_lookup_fmap; by destruct (vin tx !! _). }
  destruct b; [|rewrite andb_false_r; done]. rewrite andb_true_r. unfold others_update. rewrite list_lookup_imap, E.
  destruct (vin tx !! i); cbn; [|done]. by destruct (i =? nIn)%nat.
Qed.

Definition serializer := CTransactionSignatureSerializer_new tx code nIn nHashType.

(** An input of the serializer is the input of the copy. *)
Lemma SerializeInput_old nInput i x : i = (if anyone_can_pay nHashType then nIn else nInput) -> old_vin !! i = Some x ->
  SerializeInput serializer nInput = Ret (ser_CTxIn x).
Proof.
  intros Hi Hx. rewrite old_vin_lookup in Hx. apply fmap_Some in Hx as (txin & Hin & ->). unfold SerializeInput.
  change (fAnyoneCanPay serializer) with (anyone_can_pay nHashType). change (SigHash.nIn serializer) with nIn. rewrite <- Hi.
  change (vin (txTo serializer)) with (vin tx). rewrite Hin. cbn [deref mbind outcome_bind]. cbv zeta.
  change (fHashSingle serializer || fHashNone serializer) with ((hash_kind nHashType =? SIGHASH_SINGLE) || (hash_kind nHashType =? SIGHASH_NONE)).
  destruct (i =? nIn)%nat eqn:E; cbn [negb andb mbind outcome_bind].
  - change (SigHash.scriptCode serializer) with code. rewrite (SerializeScriptCode_spec code ops Hops Hlen). done.
  - done.
Qed.

Lemma SerializeOutput_old i x : old_vout !! i = Some x -> SerializeOutput serializer i = Ret (ser_CTxOut x).
Proof.
  unfold old_vout, SerializeOutput. change (fHashSingle serializer) with (hash_kind nHashType =? SIGHASH_SINGLE).
  change (SigHash.nIn serializer) with nIn. change (tx_vout (txTo serializer)) with (tx_vout tx).
  destruct (hash_kind nHashType =? SIGHASH_NONE); [done|]. destruct (hash_kind nHashType =? SIGHASH_SINGLE); cbn [andb].
  - rewrite list_lookup_imap. intros (o & Ho & ->)%fmap_Some. apply lookup_take_Some in Ho as [Ho Hi].
    destruct (Nat.ltb_spec i nIn); [by rewrite (proj2 (Nat.eqb_neq i nIn)) by lia|].
    rewrite (proj2 (Nat.eqb_eq i nIn)) by lia. by rewrite Ho.
  - intros Hx. by rewrite Hx.
Qed.

Lemma signature_Serialize_old hash : (nIn < length (vin tx))%nat ->
  (hash_kind nHashType = SIGHASH_SINGLE -> (nIn < length (tx_vout tx))%nat) ->
  exists ins, (if anyone_can_pay nHashType then txin ← deref (old_vin !! nIn); Ret [txin] else Ret old_vin) = Ret ins /\
    signature_Serialize serializer = Ret (SerializeTransaction false (mkTransaction (tx_nVersion tx) ins old_vout (nLockTime tx) hash)).
Proof.
  intros Hin Hout. unfold signature_Serialize. change (fAnyoneCanPay serializer) with (anyone_can_pay nHashType).
  change (fHashSingle serializer) with (hash_kind nHashType =? SIGHASH_SINGLE). change (fHashNone serializer) with (hash_kind nHashType =? SIGHASH_NONE).
  change (txTo serializer) with tx. change (SigHash.nIn serializer) with nIn. cbv zeta.
  assert ((if hash_kind nHashType =? SIGHASH_NONE then 0%nat else if hash_kind nHashType =? SIGHASH_SINGLE then S nIn else length (tx_vout tx))
    = length old_vout) as ->.
  { unfold old_vout. repeat case_match; [done| |done]. rewrite length_imap, length_take. apply Z.eqb_eq in H1. specialize (Hout H1). lia. }
  assert (length old_vin = length (vin tx)) as Hl.
  { unfold old_vin, others_update. case_match; rewrite ?length_imap, length_alter, length_map; done. }
  rewrite (write_each_spec _ ser_CTxOut old_vout 0) by (intros i x Hx; by apply SerializeOutput_old).
  destruct (anyone_can_pay nHashType) eqn:Ea.
  - destruct (lookup_lt_is_Some_2 old_vin nIn ltac:(lia)) as [txin Htx]. rewrite Htx. exists [txin]. split; [done|].
    cbn [write_each]. rewrite (SerializeInput_old 0 nIn txin) by (rewrite ?Ea; done). cbn. unfold SerializeTransaction, ser_vector. cbn. by rewrite !app_nil_r, <- !app_assoc.
  - exists old_vin. split; [done|]. rewrite <- Hl.
    rewrite (write_each_spec _ ser_CTxIn old_vin 0) by (intros i x Hx; apply (SerializeInput_old _ i); rewrite ?Ea; done).
    cbn. unfold SerializeTransaction, ser_vector. cbn. by rewrite <- !app_assoc.
Qed.

(** C16: for every hash type and every input index the serializer of
    [SignatureHash] hashes what the original client hashed, the serialization
    of a modified copy of the transaction: on scripts that [GetOp] reads to
    their end, [SignatureHash] is [SignatureHashOld]. *)
Theorem signature_hash_equiv amount cache :
  SignatureHash code tx nIn nHashType amount SIGVERSION_BASE cache = SignatureHashOld code tx nIn nHashType.
Proof.
  unfold SignatureHash, SignatureHashOld. destruct (Nat.leb_spec (length (vin tx)) nIn) as [|Hin]; [done|].
  rewrite (FindAndDelete_separators code ops Hops). cbn [mbind outcome_bind]. cbv zeta.
  destruct ((hash_kind nHashType =? SIGHASH_SINGLE) && _) eqn:Es; [done|].
  destruct (signature_Serialize_old (tx_hash tx) Hin) as (ins & Hins & E).
  { intros Hk. rewrite Hk in Es. cbn in Es. apply Nat.leb_gt in Es. lia. }
  fold serializer. rewrite E. unfold old_vin in Hins. cbv zeta in Hins. rewrite Hins. done.
Qed.
End Equivalence.

(** ** The checker always answers for an input of the transaction *)

Lemma count_separators_total fuel s n : (length s <= fuel)%nat -> exists k, count_separators fuel s n = Ret k.
Proof.
  revert s n. induction fuel as [|fuel IH]; intros s n Hf; cbn [count_separators];
    (destruct (GetOp2 s) as [[[op d] s']|] eqn:E; [|by eexists]); apply GetOp2_shorter in E; [lia|apply IH; lia].
Qed.

Lemma write_between_total fuel b s w : (length s <= fuel)%nat -> exists r, write_between fuel b s w = Ret r.
Proof.
  revert b s w. induction fuel as [|fuel IH]; intros b s w Hf; cbn [write_between];
    (destruct (GetOp2 s) as [[[op d] s']|] eqn:E; [|by eexists]); apply GetOp2_shorter in E; [lia|case_match; apply IH; lia].
Qed.

Lemma SerializeScriptCode_total s : exists bs, SerializeScriptCode s = Ret bs.
Proof.
  unfold SerializeScriptCode. destruct (count_separators_total (length s) s 0 (le_n _)) as [k ->].
  destruct (write_between_total (length s) s s [] (le_n _)) as [[[w b] it] E]. cbn [mbind outcome_bind]. rewrite E. by eexists.
Qed.

Lemma write_each_total write n first : (forall i, (first <= i < first + n)%nat -> exists bs, write i = Ret bs) ->
  exists bs, write_each write n first = Ret bs.
Proof.
  revert first. induction n as [|n IH]; intros first Hw; [by eexists|]. cbn [write_each].
  destruct (Hw first) as [bs ->]; [lia|]. destruct (IH (S first)) as [r Hr]; [intros i Hi; apply Hw; lia|].
  cbn [mbind outcome_bind]. rewrite Hr. by eexists.
Qed.

Section Total.
Context `{Crypto}.
Variable tx : CTransaction.
Variable nIn : nat.
Hypothesis Hin : (nIn < length (vin tx))%nat.

Lemma signature_Serialize_total code ht : (hash_kind ht = SIGHASH_SINGLE -> (nIn < length (tx_vout tx))%nat) ->
  exists bs, signature_Serialize (CTransactionSignatureSerializer_new tx code nIn ht) = Ret bs.
Proof.
  intros Hs. unfold signature_Serialize. set (z := CTransactionSignatureSerializer_new tx code nIn ht).
  destruct (write_each_total (SerializeInput z) (if fAnyoneCanPay z then 1%nat else length (vin (txTo z))) 0) as [ins Ei].
  { intros i Hi. unfold SerializeInput. set (j := if fAnyoneCanPay z then SigHash.nIn z else i).
    assert (j < length (vin tx))%nat as Hj by (subst j; destruct (fAnyoneCanPay z); cbn in *; lia).
    destruct (lookup_lt_is_Some_2 _ _ Hj) as [txin E]. change (vin (txTo z)) with (vin tx). rewrite E. cbn [deref mbind outcome_bind]. cbv zeta.
    destruct (negb (j =? _)%nat); [by eexists|]. destruct (SerializeScriptCode_total (scriptCode z)) as [bs ->]. by eexists. }
  cbv zeta. rewrite Ei. cbn [mbind outcome_bind]. set (n := if fHashNone z then _ else _).
  destruct (write_each_total (SerializeOutput z) n 0) as [outs Eo]; [|rewrite Eo; by eexists].
  intros i Hi. unfold SerializeOutput. destruct (fHashSingle z) eqn:Es; cbn [andb].
  - destruct (Nat.eqb_spec i (SigHash.nIn z)) as [->|]; [|by eexists]. apply Z.eqb_eq in Es. specialize (Hs Es).
    change (SigHash.nIn z) with nIn. change (tx_vout (txTo z)) with (tx_vout tx). destruct (lookup_lt_is_Some_2 _ _ Hs) as [o ->]. by eexists.
  - subst n. destruct (fHashNone z); [lia|]. destruct (lookup_lt_is_Some_2 (tx_vout (txTo z)) i ltac:(lia)) as [o ->]. by eexists.
Qed.

Lemma SignatureHash_total code ht amount v cache : exists h, SignatureHash code tx nIn ht amount v cache = Ret h.
Proof.
  destruct (lookup_lt_is_Some_2 _ _ Hin) as [txin Ein]. destruct v; unfold SignatureHash.
  - case_match; [by eexists|]. case_match eqn:Es; [by eexists|]. destruct (signature_Serialize_total code ht) as [bs ->]; [|by eexists].
    intros Hk. rewrite Hk in Es. cbn in Es. apply Nat.leb_gt in Es. lia.
  - unfold witness_preimage. cbv zeta. rewrite Ein. destruct (negb (hash_kind ht =? SIGHASH_SINGLE) && _); [by eexists|].
    destruct ((hash_kind ht =? SIGHASH_SINGLE) && _) eqn:Es; [|by eexists].
    apply andb_true_iff in Es as [_ Es%Nat.ltb_lt]. destruct (lookup_lt_is_Some_2 _ _ Es) as [o ->]. by eexists.
Qed.

(** The checker of an input of the transaction is one [EvalScript] can rely
    on. *)
Lemma TransactionSignatureChecker_total amount txdata : CheckerTotal (TransactionSignatureChecker tx nIn amount txdata).
Proof.
  destruct (lookup_lt_is_Some_2 _ _ Hin) as [txin Ein]. split; intros; cbn [TransactionSignatureChecker CheckSig CheckLockTime CheckSequence].
  - unfold transaction_CheckSig. case_match; [by eexists|]. case_match; [|by eexists].
    destruct (SignatureHash_total code z amount version txdata) as [h ->]. by eexists.
  - unfold transaction_CheckLockTime. rewrite Ein. repeat case_match; by eexists.
  - unfold transaction_CheckSequence. rewrite Ein. cbn [deref mbind outcome_bind]. repeat case_match; by eexists.
Qed.
End Total.

(** The hash of the first of two inputs, with a separator in the script. *)
Definition sighash_tx : CTransaction :=
  mkTransaction 1 [mkTxIn (mkOutPoint (replicate 32 7) 1) [1; 2] SEQUENCE_FINAL []; mkTxIn (mkOutPoint (replicate 32 8) 0) [] 5 []]
    [mkTxOut 50 [81]] 9 (replicate 32 0).

Lemma signature_hash_equiv_witness :
  SignatureHash [82; OP_CODESEPARATOR; 1; 172; OP_CHECKSIG] sighash_tx 0 SIGHASH_ALL 50 SIGVERSION_BASE None =
  SignatureHashOld [82; OP_CODESEPARATOR; 1; 172; OP_CHECKSIG] sighash_tx 0 SIGHASH_ALL.
Proof.
  refine (signature_hash_equiv [82; OP_CODESEPARATOR; 1; 172; OP_CHECKSIG] [(82, [82]); (OP_CODESEPARATOR, [OP_CODESEPARATOR]); (1, [1; 172]); (OP_CHECKSIG, [OP_CHECKSIG])]
    _ ltac:(vm_compute; reflexivity) sighash_tx 0 SIGHASH_ALL 50 None).
  apply (script_ops_cons 82 [] [] [OP_CODESEPARATOR; 1; 172; OP_CHECKSIG]); [vm_compute; reflexivity|].
  apply (script_ops_cons OP_CODESEPARATOR [] [] [1; 172; OP_CHECKSIG]); [vm_compute; reflexivity|].
  apply (script_ops_cons 1 [172] [172] [OP_CHECKSIG]); [vm_compute; reflexivity|].
  apply (script_ops_cons OP_CHECKSIG [] [] []); [vm_compute; reflexivity|]. apply script_ops_nil.
Defined.
