(* ===== verification/LockOpcodes.v ===== *)
(** * The lock-time opcodes and the lock times of the chain
    ([script/interpreter.cpp] with [validation.cpp])

    [OP_CHECKLOCKTIMEVERIFY] and [OP_CHECKSEQUENCEVERIFY] compare a script
    number with fields of the spending transaction; [IsFinalTx] and the
    sequence locks compare those fields with the block.  Together they hold
    the script's number against the block. *)

From S2P Require Import Prelude ArithUint256 StrEncodings Uint256 Amount Chain MedianTime Tx LockTime Script Serialize CheckTx TxInputs.
From S2P Require Import Hashes Interpreter SoftFork ScriptSafety SigHash.
From stdpp Require Import list.
#[local] Open Scope Z_scope.

Section LockOpcodes.
Context `{Crypto}.
Variable flags : Z.
Variable tx : CTransaction.
Variable nIn : nat.
Variable amount : Z.
Variable txdata : option PrecomputedTransactionData.

Abbreviation checker := (TransactionSignatureChecker tx nIn amount txdata).

(** A block of height [h] and time [t] has reached a lock. *)
Definition lock_reached (lock h t : Z) : Prop := lock < (if lock <? LOCKTIME_THRESHOLD then h else t).

(** What a checker call that passes says. *)
Lemma CheckLockTime_true lock : transaction_CheckLockTime tx nIn lock = Ret true ->
  lock <= nLockTime tx /\ (nLockTime tx < LOCKTIME_THRESHOLD <-> lock < LOCKTIME_THRESHOLD) /\
  exists txin, vin tx !! nIn = Some txin /\ nSequence txin <> SEQUENCE_FINAL.
Proof.
  unfold transaction_CheckLockTime. case_match eqn:E; [done|]. case_match eqn:E'; [done|]. apply Z.ltb_ge in E'.
  destruct (vin tx !! nIn) as [txin|]; [|done]. cbn [deref mbind outcome_bind]. intros Hr. assert (negb (SEQUENCE_FINAL =? nSequence txin) = true) as Hs by congruence.
  apply negb_true_iff, Z.eqb_neq in Hs.
  apply negb_false_iff in E. split; [lia|]. split; [lia|]. exists txin. auto.
Qed.

Lemma IsFinalTx_lock h t txin : vin tx !! nIn = Some txin -> nSequence txin <> SEQUENCE_FINAL -> IsFinalTx tx h t = true ->
  nLockTime tx = 0 \/ lock_reached (nLockTime tx) h t.
Proof.
  intros Hin Hs. unfold IsFinalTx. case_match eqn:E; [apply Z.eqb_eq in E; auto|]. case_match eqn:E'; [apply Z.ltb_lt in E'; auto|].
  intros Hf. apply list_elem_of_lookup_2, list_elem_of_In in Hin. rewrite forallb_forall in Hf. by apply Hf, Z.eqb_eq in Hin.
Qed.

(** Where [OP_CHECKLOCKTIMEVERIFY] passes and the transaction is final in
    a block of height [h] and time [t], the number on the stack is a height
    below [h], or a time below [t]: the output could not be spent before. *)
Theorem cltv_holds_in_block m m' vch st h t :
  has flags SCRIPT_VERIFY_CHECKLOCKTIMEVERIFY = true -> stack m = vch :: st ->
  op_CHECKLOCKTIMEVERIFY flags checker m = Continue m' -> IsFinalTx tx h t = true -> 0 < h -> 0 < t ->
  m' = m /\ exists lock, script_num flags 5 vch = Continue lock /\ lock_reached lock h t.
Proof.
  intros Hf Hst Hop Hfin Hh Ht. unfold op_CHECKLOCKTIMEVERIFY in Hop. rewrite Hf, Hst in Hop. cbn [negb] in Hop.
  apply bind_Continue_inv in Hop as (lock & Hl & Hop). apply bind_Continue_inv in Hop as (u1 & Hn & Hop).
  apply bind_Continue_inv in Hop as (ok & Hc & Hop). apply bind_Continue_inv in Hop as (u2 & Hok & Hop).
  injection Hop as <-.
  destruct ok; [|done]. destruct (lock <? 0) eqn:E0; [done|]. clear u1 u2 Hn Hok. apply Z.ltb_ge in E0.
  cbn [checker CheckLockTime TransactionSignatureChecker] in Hc. destruct (transaction_CheckLockTime tx nIn lock) eqn:E; [|done]. injection Hc as ->.
  apply CheckLockTime_true in E as (Hle & Hthr & txin & Hin & Hs). split; [done|]. exists lock. split; [done|].
  apply (IsFinalTx_lock h t txin Hin Hs) in Hfin. unfold lock_reached in *. destruct (Z.ltb_spec (nLockTime tx) LOCKTIME_THRESHOLD), (Z.ltb_spec lock LOCKTIME_THRESHOLD); lia.
Qed.

(** The bits the comparison of sequence numbers keeps. *)
Lemma sequence_masked s : Z.land s (Z.lor SEQUENCE_LOCKTIME_TYPE_FLAG SEQUENCE_LOCKTIME_MASK) =
  (if Z.testbit s 22 then 2 ^ 22 else 0) + s mod 65536.
Proof.
  rewrite Z.land_lor_distr_r. destruct (flag_tests s) as (_ & Ht & Hm & _). rewrite Hm.
  assert (Z.land s SEQUENCE_LOCKTIME_TYPE_FLAG = if Z.testbit s 22 then 2 ^ 22 else 0) as ->.
  { unfold SEQUENCE_LOCKTIME_TYPE_FLAG. apply Z.bits_inj'. intros n Hn. rewrite Z.land_spec, Z.pow2_bits_eqb by lia.
    destruct (Z.eqb_spec 22 n) as [<-|Hne].
    - rewrite andb_true_r. by destruct (Z.testbit s 22).
    - rewrite andb_false_r. destruct (Z.testbit s 22); [by rewrite Z.pow2_bits_false|by rewrite Z.bits_0]. }
  pose proof (Z.mod_pos_bound s 65536 ltac:(lia)). destruct (Z.testbit s 22); [|by rewrite Z.lor_0_l].
  rewrite Z.lor_comm, Z.add_comm. exact (lor_disjoint_add (s mod 65536) 1 22 ltac:(lia) ltac:(lia)).
Qed.

Lemma CheckSequence_true n txin : vin tx !! nIn = Some txin -> transaction_CheckSequence tx nIn n = Ret true ->
  2 <= u32 (tx_nVersion tx) /\ Z.testbit (nSequence txin) 31 = false /\
  Z.testbit n 22 = Z.testbit (nSequence txin) 22 /\ n mod 65536 <= nSequence txin mod 65536.
Proof.
  intros Hin. unfold transaction_CheckSequence. rewrite Hin. cbn [deref mbind outcome_bind]. cbv zeta.
  case_match eqn:Ev; [done|]. apply Z.ltb_ge in Ev. destruct (flag_tests (nSequence txin)) as (-> & _ & _ & _).
  destruct (Z.testbit (nSequence txin) 31); [done|]. rewrite !sequence_masked.
  pose proof (Z.mod_pos_bound n 65536 ltac:(lia)). pose proof (Z.mod_pos_bound (nSequence txin) 65536 ltac:(lia)).
  case_match eqn:Et; [done|]. intros Hr. assert (negb ((if Z.testbit (nSequence txin) 22 then 2 ^ 22 else 0) + nSequence txin mod 65536
    <? (if Z.testbit n 22 then 2 ^ 22 else 0) + n mod 65536) = true) as Hle by congruence.
  apply negb_false_iff in Et. unfold SEQUENCE_LOCKTIME_TYPE_FLAG in Et. 
  destruct (Z.testbit n 22), (Z.testbit (nSequence txin) 22); split_and!; try done; lia.
Qed.

(** Where [OP_CHECKSEQUENCEVERIFY] passes and the input satisfies its own
    relative lock time in a block, it satisfies the one on the stack: the
    output could not be spent before it was that old. *)
Theorem csv_holds_in_block idx block h T m m' vch st txin coinHeight :
  has flags SCRIPT_VERIFY_CHECKSEQUENCEVERIFY = true -> stack m = vch :: st ->
  op_CHECKSEQUENCEVERIFY flags checker m = Continue m' ->
  vin tx !! nIn = Some txin -> input_unlocked idx block h T txin coinHeight ->
  m' = m /\ exists n, script_num flags 5 vch = Continue n /\ input_unlocked idx block h T (set_nSequence n txin) coinHeight.
Proof.
  intros Hf Hst Hop Hin Hun. unfold op_CHECKSEQUENCEVERIFY in Hop. rewrite Hf, Hst in Hop. cbn [negb] in Hop.
  apply bind_Continue_inv in Hop as (n & Hl & Hop). apply bind_Continue_inv in Hop as (u1 & Hn & Hop).
  unfold input_unlocked, lock_disabled, lock_is_time, relative_lock in *. cbn [nSequence set_nSequence] in *.
  rewrite (proj1 (flag_tests n)) in Hop. destruct (Z.testbit n 31) eqn:Ed; [injection Hop as <-; eauto 10|].
  apply bind_Continue_inv in Hop as (ok & Hc & Hop). apply bind_Continue_inv in Hop as (u2 & Hok & Hop). injection Hop as <-.
  destruct ok; [|done]. cbn [checker CheckSequence TransactionSignatureChecker] in Hc.
  destruct (transaction_CheckSequence tx nIn n) eqn:E; [|done]. injection Hc as ->.
  apply (CheckSequence_true n txin Hin) in E as (_ & Hd & Ht & Hle). split; [done|]. exists n. split; [done|]. right. rewrite Ed, Ht.
  destruct Hun as [Hun|[(_ & Hty & Hun)|(_ & Hty & p & t & Hp & Hm & Hun)]]; [congruence|left|right]; split_and!; auto; [lia|].
  exists p, t. split_and!; auto. lia.
Qed.
End LockOpcodes.

(** A spend locked until height 100, in a transaction locked until 120 and a
    block of height 121. *)
Definition locked_tx : CTransaction :=
  mkTransaction 2 [mkTxIn (mkOutPoint (replicate 32 7) 0) [] 12 []] [] 120 (replicate 32 0).
Definition locked_machine (n : Z) : machine := mkMachine [serialize n] [] [] [] 0.

Lemma cltv_holds_in_block_witness :
  exists lock, script_num SCRIPT_VERIFY_CHECKLOCKTIMEVERIFY 5 (serialize 100) = Continue lock /\ lock_reached lock 121 1600000000.
Proof.
  destruct (cltv_holds_in_block (H := toy_crypto) SCRIPT_VERIFY_CHECKLOCKTIMEVERIFY locked_tx 0 5 None (locked_machine 100) (locked_machine 100) (serialize 100) []
    121 1600000000 eq_refl eq_refl ltac:(vm_compute; reflexivity) ltac:(vm_compute; reflexivity) ltac:(lia) ltac:(lia)) as (_ & lock & E & Hlt).
  exists lock. split; [exact E|exact Hlt].
Defined.

(** An input twelve blocks old, whose script asks for ten. *)
Lemma csv_holds_in_block_witness :
  exists n, script_num SCRIPT_VERIFY_CHECKSEQUENCEVERIFY 5 (serialize 10) = Continue n /\
    input_unlocked ∅ 0%nat 50 0 (set_nSequence n (mkTxIn (mkOutPoint (replicate 32 7) 0) [] 12 [])) 38.
Proof.
  refine (proj2 (csv_holds_in_block (H := toy_crypto) SCRIPT_VERIFY_CHECKSEQUENCEVERIFY locked_tx 0 5 None ∅ 0%nat 50 0 (locked_machine 10) (locked_machine 10) (serialize 10) []
    (mkTxIn (mkOutPoint (replicate 32 7) 0) [] 12 []) 38 eq_refl eq_refl ltac:(vm_compute; reflexivity) eq_refl _)).
  right. left. split; [reflexivity|]. split; [reflexivity|]. vm_compute. discriminate.
Defined.
