(* ===== verification/Undo.v ===== *)
(** * Connecting and disconnecting the transactions of a block

    [UpdateCoins], [ApplyTxInUndo] and [DisconnectBlock] of [validation.cpp],
    with the undo records of [undo.h], over a coin cache on any view.  The
    theorems give the effect of these operations on the abstract map of
    unspent outputs, and show that disconnecting a block with the undo data
    of its connection restores the map. *)

From S2P Require Import Prelude ArithUint256 StrEncodings Uint256 Amount Tx Coins.
From stdpp Require Import list gmap.
#[local] Open Scope Z_scope.

(** ** Undo records *)

Record CTxInUndo := mkUndo { u_txout : CTxOut; u_fCoinBase : bool; u_nHeight : Z; u_nVersion : Z }.
Abbreviation CTxUndo := (list CTxInUndo).
Abbreviation CBlockUndo := (list CTxUndo).

(** ** Operations *)

(** What [UpdateCoins] does to the coins of one input; [Abort] is the failed
    assertion. *)
Definition spend_coins (nPos : Z) (cs : CCoins) : outcome (CTxInUndo * CCoins) :=
  o ← deref (vout cs !! Z.to_nat nPos);
  assert_ (negb (CTxOut_IsNull o));;
  let cs := (Spend nPos cs).2 in
  Ret (match vout cs with
       | [] => mkUndo o (fCoinBase cs) (u32 (cHeight cs)) (cVersion cs)
       | _ => mkUndo o false 0 0
       end, cs).

(** [vout.resize(n)] to a larger size. *)
Definition resize (n : nat) (v : list CTxOut) : list CTxOut := v ++ replicate (n - length v) CTxOut_null.

(** What [ApplyTxInUndo] does to the coins the modifier refers to, and
    [fClean].  Writing past the end of [vout] is [Abort]. *)
Definition restore_coins (undo : CTxInUndo) (n : Z) (cs : CCoins) : outcome (bool * CCoins) :=
  let '(fClean, cs) :=
    if negb (u_nHeight undo =? 0)
    then (IsPruned cs, mkCoins (u_fCoinBase undo) [] (i32 (u_nHeight undo)) (u_nVersion undo))
    else (negb (IsPruned cs), cs) in
  let fClean := if IsAvailable n cs then false else fClean in
  let v := if Z.of_nat (length (vout cs)) <? u32 (n + 1) then resize (Z.to_nat (u32 (n + 1))) (vout cs) else vout cs in
  assert_ (n <? Z.of_nat (length v));;
  Ret (fClean, set_vout (<[Z.to_nat n := u_txout undo]> v) cs).

(** What [DisconnectBlock] does to the coins of a transaction of the block:
    whether they match it, and their removal. *)
Definition remove_outputs (tx : CTransaction) (nHeight : Z) (outs : CCoins) : outcome (bool * CCoins) :=
  let outs := ClearUnspendable outs in
  let outsBlock := FromTx tx nHeight in
  let outs := if cVersion outsBlock <? 0
              then mkCoins (fCoinBase outs) (vout outs) (cHeight outs) (cVersion outsBlock) else outs in
  Ret (CCoins_eq outs outsBlock, CCoins_empty).

Section Ops.
Context {V : Type} `{CoinsViewOps V}.
Implicit Types (c : CCoinsViewCache V).

Fixpoint spend_inputs (vin : list CTxIn) (txundo : CTxUndo) c : outcome (CTxUndo * CCoinsViewCache V) :=
  match vin with
  | [] => Ret (txundo, c)
  | txin :: vin' =>
      c ← ModifyCoins (op_hash (prevout txin)) c;
      '(undo, c) ← modify (op_hash (prevout txin)) (spend_coins (op_n (prevout txin))) c;
      spend_inputs vin' (txundo ++ [undo]) c
  end.

Definition UpdateCoins (tx : CTransaction) (nHeight : Z) c : outcome (CTxUndo * CCoinsViewCache V) :=
  '(txundo, c) ← (if negb (IsCoinBase tx) then spend_inputs (vin tx) [] c else Ret ([], c));
  c ← ModifyNewCoins (GetHash tx) (IsCoinBase tx) c;
  '(_, c) ← modify (GetHash tx) (fun _ => Ret (tt, FromTx tx nHeight)) c;
  Ret (txundo, c).

Definition ApplyTxInUndo (undo : CTxInUndo) (out : COutPoint) c : outcome (bool * CCoinsViewCache V) :=
  c ← ModifyCoins (op_hash out) c;
  modify (op_hash out) (restore_coins undo (op_n out)) c.

(** The inputs of a transaction, last to first. *)
Fixpoint restore_inputs (l : list (CTxInUndo * CTxIn)) (fClean : bool) c : outcome (bool * CCoinsViewCache V) :=
  match l with
  | [] => Ret (fClean, c)
  | (undo, txin) :: l' =>
      '(ok, c) ← ApplyTxInUndo undo (prevout txin) c;
      restore_inputs l' (if ok : bool then fClean else false) c
  end.

(** One iteration of the loop of [DisconnectBlock] ([txundo] is [None] for the
    first transaction of the block); the inner [None] is its early return. *)
Definition disconnect_tx (tx : CTransaction) (txundo : option CTxUndo) (nHeight : Z) (fClean : bool) c
  : outcome (option (bool * CCoinsViewCache V)) :=
  c ← ModifyCoins (GetHash tx) c;
  '(same, c) ← modify (GetHash tx) (remove_outputs tx nHeight) c;
  let fClean := if same : bool then fClean else false in
  match txundo with
  | None => Ret (Some (fClean, c))
  | Some vprevout =>
      if negb (length vprevout =? length (vin tx))%nat then Ret None
      else r ← restore_inputs (reverse (zip vprevout (vin tx))) fClean c; Ret (Some r)
  end.

Fixpoint disconnect_txs (l : list (CTransaction * option CTxUndo)) (nHeight : Z) (fClean : bool) c
  : outcome (option (bool * CCoinsViewCache V)) :=
  match l with
  | [] => Ret (Some (fClean, c))
  | (tx, txundo) :: l' =>
      r ← disconnect_tx tx txundo nHeight fClean c;
      match r with
      | None => Ret None
      | Some (fClean, c) => disconnect_txs l' nHeight fClean c
      end
  end.

(** [DisconnectBlock].  [blockUndo] is what [UndoReadFromDisk] read, [None]
    when there is no undo data or it cannot be read; [hash] and [hashPrev] are
    the hashes of [pindex] and of its predecessor.  The result is the returned
    value, [*pfClean] and the view; [None] stands for the early returns with
    [error(...)]. *)
Definition DisconnectBlock (vtx : list CTransaction) (blockUndo : option CBlockUndo) (hash hashPrev : uint256)
    (nHeight : Z) (pfClean : bool) c : outcome (option (bool * bool * CCoinsViewCache V)) :=
  let '(bestBlock, c) := cache_GetBestBlock c in
  assert_ (blob_eq hash bestBlock);;
  match blockUndo with
  | None => Ret None
  | Some vtxundo =>
      if negb (length vtxundo + 1 =? length vtx)%nat then Ret None
      else r ← disconnect_txs (reverse (zip vtx (None :: map Some vtxundo))) nHeight true c;
           match r with
           | None => Ret None
           | Some (fClean, c) =>
               let c := SetBestBlock hashPrev c in
               Ret (Some (if pfClean then true else fClean, fClean, c))
           end
  end.

(** The updates of a block that [ConnectBlock] makes: the undo data of all
    transactions but the first. *)
Fixpoint connect_txs (vtx : list CTransaction) (nHeight : Z) c : outcome (CBlockUndo * CCoinsViewCache V) :=
  match vtx with
  | [] => Ret ([], c)
  | tx :: vtx' =>
      '(undo, c) ← UpdateCoins tx nHeight c;
      '(rest, c) ← connect_txs vtx' nHeight c;
      Ret (undo :: rest, c)
  end.

End Ops.

(** ** Spending and restoring one output *)

Lemma null_canonical v : canonical v -> Forall (fun o => CTxOut_IsNull o = true) v ->
  v = replicate (length v) CTxOut_null.
Proof.
  intros Hc Hn. induction v as [|o v IH]; [done|]. cbn [length replicate].
  apply Forall_cons in Hc as [Ho Hc]. apply Forall_cons in Hn as [Hno Hn]. f_equal; auto.
Qed.

Lemma canonical_insert n v : canonical v -> canonical (<[n := CTxOut_null]> v).
Proof. intros. by apply Forall_insert. Qed.

Lemma clean_last v o n : clean v -> v !! n = Some o -> length v = S n -> CTxOut_IsNull o = false.
Proof.
  unfold clean. intros Hc Ho Hl. destruct (reverse v) as [|x r] eqn:E.
  - apply (f_equal length) in E. rewrite length_reverse in E. cbn in E. lia.
  - apply (f_equal reverse) in E. rewrite reverse_involutive, reverse_cons in E. subst v.
    rewrite length_app in Hl. cbn in Hl. rewrite lookup_app_r in Ho by lia.
    replace (n - length (reverse r))%nat with 0%nat in Ho by lia. by injection Ho as <-.
Qed.

Lemma exists_last_or_nil {A} (l : list A) : l = [] \/ exists l' x, l = l' ++ [x].
Proof. destruct l as [|x l] using rev_ind; eauto. Qed.

(** Setting an output to null and cutting the null tail is undone by
    extending with nulls and setting the output back. *)
Lemma restore_spend_vout cs n o : wf_coins cs -> vout cs !! n = Some o ->
  let w := vout (Cleanup (set_vout (<[n := CTxOut_null]> (vout cs)) cs)) in
  <[n := o]> (resize (S n) w) = vout cs.
Proof.
  intros [Hc Hl] Ho w. pose proof (lookup_lt_Some _ _ _ Ho) as Hlt.
  destruct (Cleanup_split (set_vout (<[n := CTxOut_null]> (vout cs)) cs)) as (nn & E & Hnn).
  fold w in E. cbn [set_vout vout] in E. clearbody w.
  assert (canonical nn) as Hcn.
  { pose proof (canonical_insert n _ Hc) as Hci. unfold canonical in Hci. rewrite E in Hci. by apply Forall_app in Hci as [_ ?]. }
  pose proof (f_equal length E) as El. rewrite length_insert, length_app in El.
  assert (length nn = S n - length w)%nat as Hlen.
  { destruct (decide (length (vout cs) = S n)) as [|Hne]; [lia|].
    destruct (exists_last_or_nil nn) as [->|(nn' & x & ->)]; [cbn in *; lia|]. exfalso.
    apply Forall_app in Hnn as [_ [Hx _]%Forall_cons]. rewrite length_app in El. cbn in El.
    set (m := (length (vout cs) - 1)%nat). assert (vout cs !! m = Some x) as Hm.
    { rewrite <- (list_lookup_insert_ne (vout cs) n m CTxOut_null) by (unfold m; lia).
      rewrite E, app_assoc, lookup_app_r; rewrite length_app; [|unfold m; lia].
      by replace (m - (length w + length nn'))%nat with 0%nat by (unfold m; lia). }
    pose proof (clean_last _ _ _ Hl Hm ltac:(unfold m; lia)). congruence. }
  unfold resize. rewrite <- Hlen, <- (null_canonical nn Hcn Hnn), <- E, list_insert_insert_eq.
  by apply list_insert_id.
Qed.

(** Coins the database can hold: a height above that of the genesis block
    (whose outputs are never added), and an index for each output. *)
Definition coins_good (cs : CCoins) : Prop :=
  wf_coins cs /\ IsPruned cs = false /\ 0 < cHeight cs < 2 ^ 31 /\ Z.of_nat (length (vout cs)) < 2 ^ 32.
Definition utxo_good (u : gmap uint256 CCoins) : Prop := map_Forall (fun _ cs => coins_good cs) u.

Lemma spend_coins_inv n cs undo cs' : 0 <= n -> wf_coins cs -> spend_coins n cs = Ret (undo, cs') ->
  exists o, vout cs !! Z.to_nat n = Some o /\ CTxOut_IsNull o = false /\
    cs' = Cleanup (set_vout (<[Z.to_nat n := CTxOut_null]> (vout cs)) cs) /\
    undo = match vout cs' with
           | [] => mkUndo o (fCoinBase cs) (u32 (cHeight cs)) (cVersion cs) | _ => mkUndo o false 0 0 end.
Proof.
  intros Hn Hw. unfold spend_coins, Spend. destruct (vout cs !! Z.to_nat n) as [o|]; [|done]. cbn [deref mbind outcome_bind].
  destruct (CTxOut_IsNull o) eqn:Eo; [done|]. cbn [negb assert_ mbind outcome_bind snd]. intros [= <- <-].
  exists o. by split_and!.
Qed.

Lemma spend_coins_wf n cs undo cs' : 0 <= n -> wf_coins cs -> spend_coins n cs = Ret (undo, cs') ->
  wf_coins cs' /\ cHeight cs' = cHeight cs /\ (length (vout cs') <= length (vout cs))%nat.
Proof.
  intros Hn Hw (o & Ho & _ & -> & _)%spend_coins_inv; [|done|done]. split; [|split; [done|]].
  - apply Cleanup_wf, canonical_insert, Hw.
  - destruct (Cleanup_split (set_vout (<[Z.to_nat n := CTxOut_null]> (vout cs)) cs)) as (nn & E & _).
    apply (f_equal length) in E. cbn [set_vout vout] in E. rewrite length_insert, length_app in E. lia.
Qed.

Lemma spend_coins_unavailable n cs undo cs' : 0 <= n -> wf_coins cs -> spend_coins n cs = Ret (undo, cs') ->
  IsAvailable n cs' = false.
Proof.
  intros Hn Hw (o & Ho & _ & -> & _)%spend_coins_inv; [|done|done]. unfold IsAvailable.
  destruct (Cleanup_split (set_vout (<[Z.to_nat n := CTxOut_null]> (vout cs)) cs)) as (nn & E & _).
  set (w := vout (Cleanup _)) in *. clearbody w. cbn [set_vout vout] in E.
  destruct (w !! Z.to_nat n) as [y|] eqn:Ey; [|done].
  assert ((<[Z.to_nat n := CTxOut_null]> (vout cs)) !! Z.to_nat n = Some y) as Hy by (rewrite E; by apply lookup_app_l_Some).
  rewrite list_lookup_insert_eq in Hy by (by eapply lookup_lt_Some). by injection Hy as <-.
Qed.

(** The last steps of [ApplyTxInUndo], for an index in range. *)
Lemma restore_put n o fClean cs : 0 <= n < 2 ^ 32 - 1 ->
  (let v := if Z.of_nat (length (vout cs)) <? u32 (n + 1) then resize (Z.to_nat (u32 (n + 1))) (vout cs) else vout cs in
   assert_ (n <? Z.of_nat (length v));; Ret (fClean : bool, set_vout (<[Z.to_nat n := o]> v) cs)) =
  Ret (fClean, set_vout (<[Z.to_nat n := o]> (resize (S (Z.to_nat n)) (vout cs))) cs).
Proof.
  intros Hn. rewrite (wrapU_small 32) by (unfold inU; lia). replace (Z.to_nat (n + 1)) with (S (Z.to_nat n)) by lia.
  assert ((if Z.of_nat (length (vout cs)) <? n + 1 then resize (S (Z.to_nat n)) (vout cs) else vout cs)
    = resize (S (Z.to_nat n)) (vout cs)) as ->.
  { destruct (Z.ltb_spec (Z.of_nat (length (vout cs))) (n + 1)); [done|]. unfold resize.
    replace (S (Z.to_nat n) - length (vout cs))%nat with 0%nat by lia. by rewrite app_nil_r. }
  cbv zeta. assert ((n <? Z.of_nat (length (resize (S (Z.to_nat n)) (vout cs)))) = true) as ->; [|done].
  apply Z.ltb_lt. unfold resize. rewrite length_app, length_replicate. lia.
Qed.

(** [ApplyTxInUndo] on the coins left by a spend, or on pruned coins when none
    are left, gives back the coins, and finds nothing unexpected. *)
Lemma restore_spend n cs undo cs' cs'' : 0 <= n -> coins_good cs -> spend_coins n cs = Ret (undo, cs') ->
  wf_coins cs'' -> unspent (Some cs'') = unspent (Some cs') -> restore_coins undo n cs'' = Ret (true, cs).
Proof.
  intros Hn (Hw & Hp & Hh & Hlen) Hs Hw'' Hu. pose proof (spend_coins_wf _ _ _ _ Hn Hw Hs) as (Hw' & _ & _).
  pose proof (spend_coins_unavailable _ _ _ _ Hn Hw Hs) as Hav.
  apply spend_coins_inv in Hs as (o & Ho & Hnn & Ecs & ->); [|done|done].
  pose proof (restore_spend_vout cs _ o Hw Ho) as Hr. rewrite <- Ecs in Hr. cbv zeta in Hr.
  pose proof (lookup_lt_Some _ _ _ Ho) as Hlt. unfold restore_coins.
  assert (IsPruned cs' = true <-> vout cs' = []) as Hp' by (apply clean_pruned, Hw').
  destruct (vout cs') as [|x v'] eqn:Ev'.
  - cbn [u_nHeight u_fCoinBase u_nVersion u_txout].
    rewrite (unspent_pruned cs' (proj2 Hp' eq_refl)) in Hu. apply unspent_None_pruned in Hu.
    rewrite (wrapU_small 32 (cHeight cs)) by (unfold inU; lia). destruct (Z.eqb_spec (cHeight cs) 0); [lia|].
    cbn [negb]. rewrite restore_put by lia. cbn [set_vout vout fCoinBase cHeight cVersion]. rewrite Hr, Hu.
    rewrite wrapS_small by (lia || (unfold inS; lia)). by destruct cs.
  - cbn [u_nHeight u_txout]. change (negb (0 =? 0)) with false. cbn iota.
    assert (IsPruned cs' = false) as Hpf by (destruct (IsPruned cs'); [by discriminate (proj1 Hp' eq_refl)|done]).
    assert (cs'' = cs') as ->.
    { assert (unspent (Some cs') = Some cs') as Es by (by apply unspent_Some). rewrite Es in Hu.
      by apply unspent_Some in Hu as [[= ->] _]. }
    rewrite Hpf, Hav, restore_put by lia. rewrite Ev', Hr, Ecs. by destruct cs.
Qed.

(** ** The operations on the abstract map *)

Definition utxo_spend (i : CTxIn) (u : gmap uint256 CCoins) : outcome (CTxInUndo * gmap uint256 CCoins) :=
  cs ← deref (u !! op_hash (prevout i));
  '(undo, cs) ← spend_coins (op_n (prevout i)) cs;
  Ret (undo, put (op_hash (prevout i)) (unspent (Some cs)) u).

Fixpoint utxo_inputs (vin : list CTxIn) (u : gmap uint256 CCoins) : outcome (CTxUndo * gmap uint256 CCoins) :=
  match vin with
  | [] => Ret ([], u)
  | i :: vin' => '(undo, u) ← utxo_spend i u; '(rest, u) ← utxo_inputs vin' u; Ret (undo :: rest, u)
  end.

Definition utxo_spends (tx : CTransaction) (u : gmap uint256 CCoins) : outcome (CTxUndo * gmap uint256 CCoins) :=
  if negb (IsCoinBase tx) then utxo_inputs (vin tx) u else Ret ([], u).

Definition utxo_update (tx : CTransaction) (nHeight : Z) (u : gmap uint256 CCoins) : outcome (CTxUndo * gmap uint256 CCoins) :=
  '(txundo, u) ← utxo_spends tx u;
  Ret (txundo, put (GetHash tx) (unspent (Some (FromTx tx nHeight))) u).

Fixpoint utxo_block (vtx : list CTransaction) (nHeight : Z) (u : gmap uint256 CCoins) : outcome (CBlockUndo * gmap uint256 CCoins) :=
  match vtx with
  | [] => Ret ([], u)
  | tx :: vtx' => '(undo, u) ← utxo_update tx nHeight u; '(rest, u) ← utxo_block vtx' nHeight u; Ret (undo :: rest, u)
  end.

(** Transactions whose outputs pass the range checks, with 32-bit indices. *)
Definition tx_good (tx : CTransaction) : Prop :=
  Forall (fun o => 0 <= nValue o) (tx_vout tx) /\ Z.of_nat (length (tx_vout tx)) < 2 ^ 32 /\
  Forall (fun i => 0 <= op_n (prevout i)) (vin tx).

Lemma utxo_spend_inv i u undo u' : utxo_spend i u = Ret (undo, u') ->
  exists cs cs', u !! op_hash (prevout i) = Some cs /\ spend_coins (op_n (prevout i)) cs = Ret (undo, cs') /\
    u' = put (op_hash (prevout i)) (unspent (Some cs')) u.
Proof.
  unfold utxo_spend. destruct (u !! _) as [cs|] eqn:E; [|done]. cbn [deref mbind outcome_bind].
  destruct (spend_coins _ cs) as [[undo' cs']|] eqn:Es; [|done]. cbn [mbind outcome_bind]. intros [= <- <-]. eauto.
Qed.

Lemma utxo_spend_good i u undo u' : 0 <= op_n (prevout i) -> utxo_good u -> utxo_spend i u = Ret (undo, u') -> utxo_good u'.
Proof.
  intros Hn Hu (cs & cs' & Hcs & Hs & ->)%utxo_spend_inv k x. rewrite put_lookup. case_decide as Ek; [|by apply Hu].
  subst k. destruct (Hu _ _ Hcs) as (Hw & Hp & Hh & Hl).
  destruct (spend_coins_wf _ _ _ _ Hn Hw Hs) as (Hw' & Eh & Hl'). intros [[= <-] Hp']%unspent_Some.
  split; [done|]. split; [done|]. rewrite Eh. split; [done|lia].
Qed.

Lemma utxo_spend_None i u undo u' k : utxo_spend i u = Ret (undo, u') -> u !! k = None -> u' !! k = None.
Proof.
  intros (cs & cs' & Hcs & Hs & ->)%utxo_spend_inv Hk. rewrite put_lookup. case_decide; [subst; congruence|done].
Qed.

Lemma utxo_inputs_cons i vin u undo rest u' : utxo_inputs (i :: vin) u = Ret (undo :: rest, u') <->
  exists u1, utxo_spend i u = Ret (undo, u1) /\ utxo_inputs vin u1 = Ret (rest, u').
Proof.
  cbn [utxo_inputs]. destruct (utxo_spend i u) as [[undo' u1]|]; cbn [mbind outcome_bind].
  2:{ split; [done|]. by intros (? & ? & ?). }
  destruct (utxo_inputs vin u1) as [[rest' u2]|] eqn:E; cbn [mbind outcome_bind].
  2:{ split; [done|]. intros (? & [= <- <-] & ?). congruence. }
  split; [intros [= <- <- <-]; eauto|]. intros (? & [= <- <-] & ?). congruence.
Qed.

Lemma utxo_inputs_ind (P : list CTxIn -> CTxUndo -> gmap uint256 CCoins -> gmap uint256 CCoins -> Prop) :
  (forall u, P [] [] u u) ->
  (forall i vin undo rest u u1 u', utxo_spend i u = Ret (undo, u1) -> utxo_inputs vin u1 = Ret (rest, u') ->
     P vin rest u1 u' -> P (i :: vin) (undo :: rest) u u') ->
  forall vin undos u u', utxo_inputs vin u = Ret (undos, u') -> P vin undos u u'.
Proof.
  intros H0 Hs vin. induction vin as [|i vin IH]; intros undos u u' Hi; [injection Hi as <- <-; apply H0|].
  destruct undos as [|undo rest].
  - cbn in Hi. destruct (utxo_spend i u) as [[? u1]|]; [|done]. cbn in Hi.
    by destruct (utxo_inputs vin u1) as [[? ?]|].
  - apply utxo_inputs_cons in Hi as (u1 & H1 & H2). eapply Hs; eauto.
Qed.

Lemma utxo_inputs_good vin u undos u' : Forall (fun i => 0 <= op_n (prevout i)) vin -> utxo_good u ->
  utxo_inputs vin u = Ret (undos, u') -> utxo_good u' /\ length undos = length vin /\ (forall k, u !! k = None -> u' !! k = None).
Proof.
  intros Hn Hu Hi. revert Hn Hu. pattern vin, undos, u, u'. revert vin undos u u' Hi. apply utxo_inputs_ind; [done|].
  intros i vin undo rest u u1 u' H1 _ IH [Hn Hns]%Forall_cons Hu.
  destruct IH as (? & ? & HN); [done|by eapply utxo_spend_good|]. cbn [length]. split_and!; [done|lia|].
  intros k Hk. by eapply HN, utxo_spend_None.
Qed.

Lemma canonical_nonneg v : Forall (fun o => 0 <= nValue o) v -> canonical v.
Proof.
  intros Hv. eapply Forall_impl; [exact Hv|]. cbn. intros o Ho Hn. unfold CTxOut_IsNull in Hn. apply Z.eqb_eq in Hn. lia.
Qed.

Lemma FromTx_wf tx h : tx_good tx -> wf_coins (FromTx tx h) /\ cHeight (FromTx tx h) = h /\
  Z.of_nat (length (vout (FromTx tx h))) < 2 ^ 32.
Proof.
  intros (Hv & Hl & _). unfold FromTx, ClearUnspendable. set (d := set_vout _ _). split; [|split; [done|]].
  - apply Cleanup_wf. subst d. cbn [set_vout vout]. apply canonical_nonneg in Hv. apply Forall_map.
    eapply Forall_impl; [exact Hv|]. cbn. intros o Ho. by destruct (IsUnspendable (scriptPubKey o)).
  - destruct (Cleanup_split d) as (nn & E & _). apply (f_equal length) in E. rewrite length_app in E.
    subst d. cbn [set_vout vout] in E. rewrite length_map in E. cbn [set_vout vout]. lia.
Qed.

Lemma Forall_pop (P : CTxOut -> Prop) c : Forall P (vout c) -> Forall P (vout (Cleanup c)).
Proof. destruct (Cleanup_split c) as (nn & E & _). rewrite E at 1. by intros [? _]%Forall_app. Qed.

Lemma ClearUnspendable_FromTx tx h : ClearUnspendable (FromTx tx h) = FromTx tx h.
Proof.
  unfold ClearUnspendable at 1.
  assert (Forall (fun o => IsUnspendable (scriptPubKey o) = false) (vout (FromTx tx h))) as Hf.
  { apply Forall_pop. cbn [set_vout vout]. apply Forall_map, Forall_forall. intros o _. cbn.
    by destruct (IsUnspendable (scriptPubKey o)) eqn:E. }
  assert (map (fun o => if IsUnspendable (scriptPubKey o) then CTxOut_null else o) (vout (FromTx tx h)) = vout (FromTx tx h)) as ->.
  { induction Hf as [|o v Ho Hv IH]; [done|]. cbn [map]. by rewrite Ho, IH. }
  rewrite Cleanup_id; [by destruct (FromTx tx h)|]. apply Cleanup_clean.
Qed.

Lemma ClearUnspendable_pruned cs : IsPruned cs = true -> IsPruned (ClearUnspendable cs) = true.
Proof.
  unfold ClearUnspendable. rewrite IsPruned_Cleanup, !IsPruned_Forall. cbn [set_vout vout]. intros Hp.
  apply Forall_map. eapply Forall_impl; [exact Hp|]. cbn. intros o Ho. by destruct (IsUnspendable (scriptPubKey o)).
Qed.

Lemma CCoins_eq_refl cs : CCoins_eq cs cs = true.
Proof.
  unfold CCoins_eq. destruct (IsPruned cs && IsPruned cs); [done|].
  rewrite Bool.eqb_reflx, !Z.eqb_refl, bool_decide_true by done. done.
Qed.

(** The coins found for a transaction of the block match it. *)
Lemma remove_outputs_same tx h cs : unspent (Some cs) = unspent (Some (FromTx tx h)) ->
  remove_outputs tx h cs = Ret (true, CCoins_empty).
Proof.
  intros Hu. unfold remove_outputs. do 2 f_equal. set (d := FromTx tx h) in *. destruct (IsPruned d) eqn:Ep.
  - rewrite (unspent_pruned d Ep) in Hu. apply unspent_None_pruned, ClearUnspendable_pruned in Hu.
    unfold CCoins_eq. rewrite Ep. destruct (cVersion d <? 0); [|by rewrite Hu].
    replace (IsPruned _) with (IsPruned (ClearUnspendable cs)) by done. by rewrite Hu.
  - assert (unspent (Some d) = Some d) as Ed by (by apply unspent_Some). rewrite Ed in Hu.
    apply unspent_Some in Hu as [[= ->] _]. subst d. rewrite ClearUnspendable_FromTx.
    destruct (cVersion (FromTx tx h) <? 0); [|apply CCoins_eq_refl]. destruct (FromTx tx h). apply CCoins_eq_refl.
Qed.

(** ** The caches implement the operations on the map *)

Section Refinement.
Context {V : Type} `{CoinsView V}.
Implicit Types (c : CCoinsViewCache V).

(** What a step does to a cache: it stays well formed, its best block does
    not change and its map becomes [u]. *)
Definition steps_to c (u : gmap uint256 CCoins) c' : Prop := view_ok c' /\ utxo c' = u /\ best c' = best c.

Lemma steps_trans c u c1 u' c2 : steps_to c u c1 -> steps_to c1 u' c2 -> steps_to c u' c2.
Proof. intros (? & ? & E) (? & ? & E2). split; [done|]. split; [done|]. by rewrite E2. Qed.

(** A modifier shows well-formed coins that stand for the entry of the map. *)
Lemma modify_coins {A} txid (f : CCoins -> outcome (A * CCoins)) c : view_ok c ->
  exists cs, wf_coins cs /\ unspent (Some cs) = utxo c !! txid /\
    (f cs = Abort -> (c1 ← ModifyCoins txid c; modify txid f c1) = Abort) /\
    (forall a cs', f cs = Ret (a, cs') -> canonical (vout cs') ->
       exists c', (c1 ← ModifyCoins txid c; modify txid f c1) = Ret (a, c') /\
         steps_to c (put txid (unspent (Some (Cleanup cs'))) (utxo c)) c').
Proof.
  intros Hok. destruct (ModifyCoins_spec txid c Hok) as (e & c1 & -> & Hm & Hu).
  assert (wf_coins (coins e)) as Hw by (eapply (mod_entries _ _ _ _ Hm), (mod_entry _ _ _ _ Hm)).
  exists (coins e). split; [done|]. split; [done|]. split.
  - intros Ef. cbn [mbind outcome_bind]. unfold modify. rewrite (mod_entry _ _ _ _ Hm). cbn [deref mbind outcome_bind]. by rewrite Ef.
  - intros a cs' Ef Hc. destruct (modify_spec txid f c e c1 a cs' Hm Ef Hc) as (c' & Em & ? & ? & ?).
    exists c'. split; [exact Em|]. by split.
Qed.

Lemma spend_input_spec i c : view_ok c -> utxo_good (utxo c) -> 0 <= op_n (prevout i) ->
  match utxo_spend i (utxo c) with
  | Ret (undo, u') => exists c',
      (c1 ← ModifyCoins (op_hash (prevout i)) c; modify (op_hash (prevout i)) (spend_coins (op_n (prevout i))) c1) = Ret (undo, c') /\
      steps_to c u' c'
  | Abort => (c1 ← ModifyCoins (op_hash (prevout i)) c;
              modify (op_hash (prevout i)) (spend_coins (op_n (prevout i))) c1) = Abort
  end.
Proof.
  intros Hok Hg Hn. unfold utxo_spend.
  destruct (modify_coins (op_hash (prevout i)) (spend_coins (op_n (prevout i))) c Hok) as (cs & Hw & Hu & HA & HR).
  destruct (utxo c !! op_hash (prevout i)) as [d|] eqn:Ed; cbn [deref mbind outcome_bind].
  - apply unspent_Some in Hu as [[= ->] _]. destruct (spend_coins (op_n (prevout i)) d) as [[undo cs']|] eqn:Es; cbn [mbind outcome_bind]; [|by apply HA].
    destruct (spend_coins_wf _ _ _ _ Hn Hw Es) as (Hw' & _ & _).
    destruct (HR undo cs' eq_refl (proj1 Hw')) as (c' & ? & ?). exists c'. rewrite Cleanup_id in * by apply Hw'. done.
  - apply HA. apply unspent_None_pruned in Hu. apply clean_pruned in Hu; [|apply Hw].
    unfold spend_coins. rewrite Hu. cbn. by rewrite lookup_nil.
Qed.

Lemma spend_inputs_spec vin acc c : view_ok c -> utxo_good (utxo c) -> Forall (fun i => 0 <= op_n (prevout i)) vin ->
  match utxo_inputs vin (utxo c) with
  | Ret (undos, u') => exists c', spend_inputs vin acc c = Ret (acc ++ undos, c') /\ steps_to c u' c'
  | Abort => spend_inputs vin acc c = Abort
  end.
Proof.
  revert acc c. induction vin as [|i vin IH]; intros acc c Hok Hg Hn; cbn [utxo_inputs spend_inputs].
  { exists c. by rewrite app_nil_r. }
  apply Forall_cons in Hn as [Hi Hn]. pose proof (spend_input_spec i c Hok Hg Hi) as Hs.
  destruct (utxo_spend i (utxo c)) as [[undo u1]|] eqn:Eu; cbn [mbind outcome_bind].
  2:{ destruct (ModifyCoins (op_hash (prevout i)) c); [|done]. cbn [mbind outcome_bind] in Hs |- *. by rewrite Hs. }
  destruct Hs as (c1 & E1 & Hok1 & Hu1 & Hb1).
  destruct (ModifyCoins (op_hash (prevout i)) c) as [c0|]; [|done]. cbn [mbind outcome_bind] in E1 |- *.
  rewrite E1. cbn [mbind outcome_bind]. specialize (IH (acc ++ [undo]) c1 Hok1). rewrite Hu1 in IH.
  specialize (IH (utxo_spend_good _ _ _ _ Hi Hg Eu) Hn).
  destruct (utxo_inputs vin u1) as [[rest u2]|]; cbn [mbind outcome_bind]; [|done].
  destruct IH as (c2 & E2 & Hs2). exists c2. rewrite <- app_assoc in E2. split; [done|]. by apply (steps_trans c u1 c1).
Qed.

Lemma UpdateCoins_spec tx h c : view_ok c -> utxo_good (utxo c) -> tx_good tx -> utxo c !! GetHash tx = None ->
  match utxo_update tx h (utxo c) with
  | Ret (undos, u') => exists c', UpdateCoins tx h c = Ret (undos, c') /\ steps_to c u' c'
  | Abort => UpdateCoins tx h c = Abort
  end.
Proof.
  intros Hok Hg Htx Hnew. pose proof Htx as (_ & _ & Hn). unfold utxo_update, UpdateCoins, utxo_spends.
  assert (match (if negb (IsCoinBase tx) then utxo_inputs (vin tx) (utxo c) else Ret ([], utxo c)) with
    | Ret (undos, u1) => u1 !! GetHash tx = None /\ exists c1, (if negb (IsCoinBase tx) then spend_inputs (vin tx) [] c else Ret ([], c)) = Ret (undos, c1) /\
        steps_to c u1 c1
    | Abort => (if negb (IsCoinBase tx) then spend_inputs (vin tx) [] c else Ret ([], c)) = Abort end) as Hin.
  { destruct (IsCoinBase tx); cbn [negb]; [split; [done|]; by exists c|].
    pose proof (spend_inputs_spec (vin tx) [] c Hok Hg Hn) as Hs.
    destruct (utxo_inputs (vin tx) (utxo c)) as [[undos u1]|] eqn:E; [|done]. split; [|done].
    by eapply utxo_inputs_good. }
  destruct (if negb (IsCoinBase tx) then utxo_inputs (vin tx) (utxo c) else Ret ([], utxo c)) as [[undos u1]|]; cbn [mbind outcome_bind].
  2:{ by rewrite Hin. }
  destruct Hin as (Hnone & c1 & E1 & Hok1 & Hu1 & Hb1). rewrite E1. cbn [mbind outcome_bind].
  destruct (ModifyNewCoins_spec (GetHash tx) (IsCoinBase tx) c1 Hok1) as (e & c2 & -> & Hm & He).
  { right. change (cache_utxo c1) with (utxo c1). by rewrite Hu1. }
  cbn [mbind outcome_bind]. destruct (FromTx_wf tx h Htx) as (Hw & _ & _).
  destruct (modify_spec (GetHash tx) (fun _ => Ret (tt, FromTx tx h)) c1 e c2 tt (FromTx tx h) Hm eq_refl (proj1 Hw)) as (c3 & -> & ? & Hu3 & Hb3).
  cbn [mbind outcome_bind]. exists c3. split; [done|]. split; [done|]. split; [|change (best c3) with (cache_best c3); by rewrite Hb3].
  change (utxo c3) with (cache_utxo c3). rewrite Hu3, Cleanup_id by apply Hw. change (cache_utxo c1) with (utxo c1). by rewrite Hu1.
Qed.

(** *** Undoing *)

Lemma ApplyTxInUndo_spec i u undo u' c : 0 <= op_n (prevout i) -> utxo_good u -> utxo_spend i u = Ret (undo, u') ->
  view_ok c -> utxo c = u' -> exists c', ApplyTxInUndo undo (prevout i) c = Ret (true, c') /\ steps_to c u c'.
Proof.
  intros Hn Hg (cs & cs' & Hcs & Hs & ->)%utxo_spend_inv Hok Hu. unfold ApplyTxInUndo.
  destruct (modify_coins (op_hash (prevout i)) (restore_coins undo (op_n (prevout i))) c Hok) as (d & Hw & Hd & _ & HR).
  rewrite Hu, put_lookup, decide_True in Hd by done. pose proof (Hg _ _ Hcs) as Hgc.
  destruct (HR true cs) as (c' & ? & Hst).
  { by eapply restore_spend. }
  { apply Hgc. }
  exists c'. split; [done|]. rewrite Cleanup_id in Hst by apply Hgc. rewrite Hu in Hst.
  assert (put (op_hash (prevout i)) (unspent (Some cs)) (put (op_hash (prevout i)) (unspent (Some cs')) u) = u) as <-; [|done].
  apply map_eq. intros k. rewrite !put_lookup. case_decide as Ek; [|done]. subst k. rewrite Hcs.
  apply unspent_Some. by split; [|apply Hgc].
Qed.

Lemma restore_inputs_app l1 l2 fClean c :
  restore_inputs (l1 ++ l2) fClean c = ('(f, c1) ← restore_inputs l1 fClean c; restore_inputs l2 f c1).
Proof.
  revert fClean c. induction l1 as [|[undo i] l1 IH]; intros fClean c; [done|]. cbn [app restore_inputs].
  destruct (ApplyTxInUndo undo (prevout i) c) as [[ok c1]|]; [|done]. cbn [mbind outcome_bind]. apply IH.
Qed.

Lemma restore_inputs_spec vin u undos u' c : Forall (fun i => 0 <= op_n (prevout i)) vin -> utxo_good u ->
  utxo_inputs vin u = Ret (undos, u') -> view_ok c -> utxo c = u' ->
  exists c', restore_inputs (reverse (zip undos vin)) true c = Ret (true, c') /\ steps_to c u c'.
Proof.
  intros Hn Hg Hi Hok Hu. revert Hn Hg Hu. pattern vin, undos, u, u'. revert vin undos u u' Hi. apply utxo_inputs_ind.
  { intros u _ _ Hu. by exists c. }
  intros i vin undo rest u u1 u' H1 _ IH [Hn Hns]%Forall_cons Hg Hu.
  destruct (IH Hns (utxo_spend_good _ _ _ _ Hn Hg H1) Hu) as (c1 & E1 & Hs1).
  destruct (ApplyTxInUndo_spec i u undo u1 c1 Hn Hg H1) as (c2 & E2 & Hs2); [apply Hs1|apply Hs1|].
  exists c2. cbn [zip zip_with]. rewrite reverse_cons, restore_inputs_app. fold (zip rest vin). rewrite E1.
  cbn [mbind outcome_bind restore_inputs]. rewrite E2. split; [done|]. by eapply steps_trans.
Qed.
Lemma disconnect_tx_spec tx h u undos u' c txundo : tx_good tx -> utxo_good u -> u !! GetHash tx = None ->
  utxo_update tx h u = Ret (undos, u') -> txundo = (if IsCoinBase tx then None else Some undos) ->
  view_ok c -> utxo c = u' ->
  exists c', disconnect_tx tx txundo h true c = Ret (Some (true, c')) /\ steps_to c u c'.
Proof.
  intros Htx Hg Hnew Hup -> Hok Hu. pose proof Htx as (_ & _ & Hn). unfold utxo_update in Hup.
  destruct (utxo_spends tx u) as [[undos' u1]|] eqn:Es; [|done]. cbn [mbind outcome_bind] in Hup. injection Hup as -> <-.
  unfold utxo_spends in Es.
  assert (u1 !! GetHash tx = None /\ (IsCoinBase tx = false -> length undos = length (vin tx))) as [Hnone Hlen].
  { destruct (IsCoinBase tx); cbn [negb] in Es; [by injection Es as <- <-|].
    destruct (utxo_inputs_good _ _ _ _ Hn Hg Es) as (_ & ? & ?). auto. }
  unfold disconnect_tx. destruct (modify_coins (GetHash tx) (remove_outputs tx h) c Hok) as (d & Hw & Hd & _ & HR).
  rewrite Hu, put_lookup, decide_True in Hd by done.
  destruct (HR true CCoins_empty) as (c1 & E1 & Hs1); [by apply remove_outputs_same|constructor|].
  destruct (ModifyCoins (GetHash tx) c) as [c0|]; [|done]. cbn [mbind outcome_bind] in E1 |- *. rewrite E1. cbn [mbind outcome_bind].
  assert (put (GetHash tx) (unspent (Some (Cleanup CCoins_empty))) (utxo c) = u1) as Eu1.
  { apply map_eq. intros k. rewrite Hu, !put_lookup. case_decide; [by subst|done]. }
  rewrite Eu1 in Hs1. destruct (IsCoinBase tx); cbn [negb] in Es.
  - injection Es as _ <-. by exists c1.
  - rewrite (proj2 (Nat.eqb_eq _ _) (Hlen eq_refl)). cbn [negb].
    destruct (restore_inputs_spec (vin tx) u undos u1 c1 Hn Hg Es) as (c2 & -> & Hs2); [apply Hs1|apply Hs1|].
    exists c2. split; [done|]. by eapply steps_trans.
Qed.

Lemma disconnect_txs_app l1 l2 h fClean c :
  disconnect_txs (l1 ++ l2) h fClean c =
  (r ← disconnect_txs l1 h fClean c;
   match r with None => Ret None | Some (f, c1) => disconnect_txs l2 h f c1 end).
Proof.
  revert fClean c. induction l1 as [|[tx undo] l1 IH]; intros fClean c; [done|]. cbn [app disconnect_txs].
  destruct (disconnect_tx tx undo h fClean c) as [[[f c1]|]|]; cbn [mbind outcome_bind]; [apply IH|done|done].
Qed.

Definition undo_of (tx : CTransaction) (undos : CTxUndo) : option CTxUndo :=
  if IsCoinBase tx then None else Some undos.

Lemma utxo_update_good tx h u undos u' : tx_good tx -> utxo_good u -> 0 < h < 2 ^ 31 ->
  utxo_update tx h u = Ret (undos, u') ->
  utxo_good u' /\ forall k, k <> GetHash tx -> u !! k = None -> u' !! k = None.
Proof.
  intros Htx Hg Hh. pose proof Htx as (_ & _ & Hn). unfold utxo_update.
  destruct (utxo_spends tx u) as [[undos' u1]|] eqn:Es; [|done]. cbn [mbind outcome_bind]. intros [= <- <-].
  assert (utxo_good u1 /\ forall k, u !! k = None -> u1 !! k = None) as [Hg1 HN].
  { unfold utxo_spends in Es. destruct (IsCoinBase tx); cbn [negb] in Es; [by injection Es as <- <-|].
    destruct (utxo_inputs_good _ _ _ _ Hn Hg Es) as (? & _ & ?). done. }
  destruct (FromTx_wf tx h Htx) as (Hw & Eh & Hl). split.
  - intros k cs. rewrite put_lookup. case_decide as Ek; [|apply Hg1]. intros Hx.
    apply (unspent_Some (Some (FromTx tx h))) in Hx as [[= <-] Hp].
    split; [done|]. split; [done|]. lia.
  - intros k Hk Hu. rewrite put_lookup. case_decide; [by subst|auto].
Qed.

(** The later transactions of the block are still new. *)
Lemma new_later (tx : CTransaction) (vtx : list CTransaction) (u1 u : gmap uint256 CCoins) : ~ GetHash tx ∈ map GetHash vtx ->
  Forall (fun tx => u !! GetHash tx = None) vtx -> (forall k, k <> GetHash tx -> u !! k = None -> u1 !! k = None) ->
  Forall (fun tx => u1 !! GetHash tx = None) vtx.
Proof.
  intros Hni Hn HN. apply Forall_forall. intros tx' Hin. apply HN; [|by eapply Forall_forall in Hn].
  intros E. apply Hni. rewrite <- E. by apply (list_elem_of_fmap_2 GetHash).
Qed.

(** Disconnecting the transactions of a block in reverse order, with the undo
    data of their connection. *)
Lemma disconnect_txs_spec vtx h u undos u' c : Forall tx_good vtx -> utxo_good u -> 0 < h < 2 ^ 31 ->
  NoDup (map GetHash vtx) -> Forall (fun tx => u !! GetHash tx = None) vtx ->
  utxo_block vtx h u = Ret (undos, u') -> view_ok c -> utxo c = u' ->
  exists c', disconnect_txs (reverse (zip vtx (zip_with undo_of vtx undos))) h true c = Ret (Some (true, c')) /\ steps_to c u c'.
Proof.
  intros Htx Hg Hh. revert u undos u' c Hg. induction Htx as [|tx vtx Ht Htx IH]; intros u undos u' c Hg Hnd Hnew Hb Hok Hu.
  { cbn in Hb. injection Hb as <- <-. by exists c. }
  cbn [utxo_block] in Hb. destruct (utxo_update tx h u) as [[undo u1]|] eqn:E1; [|done]. cbn [mbind outcome_bind] in Hb.
  destruct (utxo_block vtx h u1) as [[rest u2]|] eqn:E2; [|done]. cbn [mbind outcome_bind] in Hb. injection Hb as <- <-.
  cbn [map] in Hnd. apply NoDup_cons in Hnd as [Hni Hnd]. apply Forall_cons in Hnew as [Hn1 Hn2].
  destruct (utxo_update_good tx h u undo u1 Ht Hg Hh E1) as [Hg1 HN].
  destruct (IH u1 rest u2 c Hg1 Hnd (new_later tx vtx u1 _ Hni Hn2 HN)) as (c1 & Ed1 & Hs1); [done|done|done|].
  destruct (disconnect_tx_spec tx h u undo u1 c1 (undo_of tx undo) Ht Hg Hn1 E1 eq_refl) as (c2 & Ed2 & Hs2); [apply Hs1|apply Hs1|].
  exists c2. cbn [zip_with zip]. rewrite reverse_cons, disconnect_txs_app, Ed1. cbn [mbind outcome_bind disconnect_txs].
  rewrite Ed2. split; [done|]. by eapply steps_trans.
Qed.

(** Connecting them. *)
Lemma connect_txs_spec vtx h c : view_ok c -> Forall tx_good vtx -> utxo_good (utxo c) -> 0 < h < 2 ^ 31 ->
  NoDup (map GetHash vtx) -> Forall (fun tx => utxo c !! GetHash tx = None) vtx ->
  match utxo_block vtx h (utxo c) with
  | Ret (undos, u') => exists c', connect_txs vtx h c = Ret (undos, c') /\ steps_to c u' c'
  | Abort => connect_txs vtx h c = Abort
  end.
Proof.
  intros Hok Htx Hg Hh. revert c Hok Hg. induction Htx as [|tx vtx Ht Htx IH]; intros c Hok Hg Hnd Hnew.
  { by exists c. }
  cbn [map] in Hnd. apply NoDup_cons in Hnd as [Hni Hnd]. apply Forall_cons in Hnew as [Hn1 Hn2].
  pose proof (UpdateCoins_spec tx h c Hok Hg Ht Hn1) as Hup. cbn [utxo_block connect_txs].
  destruct (utxo_update tx h (utxo c)) as [[undo u1]|] eqn:E1; cbn [mbind outcome_bind]; [|by rewrite Hup].
  destruct Hup as (c1 & -> & Hok1 & Hu1 & Hb1). cbn [mbind outcome_bind].
  destruct (utxo_update_good tx h _ undo u1 Ht Hg Hh E1) as [Hg1 HN].
  specialize (IH c1 Hok1). rewrite Hu1 in IH. specialize (IH Hg1 Hnd (new_later tx vtx u1 _ Hni Hn2 HN)).
  destruct (utxo_block vtx h u1) as [[rest u2]|]; cbn [mbind outcome_bind]; [|by rewrite IH].
  destruct IH as (c2 & -> & Hs2). exists c2. split; [done|]. by apply (steps_trans c u1 c1).
Qed.

End Refinement.

(** ** Theorems *)

Lemma utxo_block_length vtx h u undos u' : utxo_block vtx h u = Ret (undos, u') -> length undos = length vtx.
Proof.
  revert u undos. induction vtx as [|tx vtx IH]; intros u undos; cbn [utxo_block]; [by intros [= <- _]|].
  destruct (utxo_update tx h u) as [[undo u1]|]; [|done]. cbn [mbind outcome_bind].
  destruct (utxo_block vtx h u1) as [[rest u2]|] eqn:E; [|done]. intros [= <- <-]. cbn [length]. f_equal. by eapply IH.
Qed.

(** The undo data [DisconnectBlock] pairs with the transactions. *)
Lemma undo_pairs cb txs undos : IsCoinBase cb = true -> Forall (fun tx => IsCoinBase tx = false) txs ->
  length undos = length (cb :: txs) ->
  None :: map Some (tail undos) = zip_with undo_of (cb :: txs) undos.
Proof.
  intros Hcb Htxs Hl. destruct undos as [|undo rest]; [done|]. cbn [tail zip_with]. unfold undo_of at 1. rewrite Hcb. f_equal.
  cbn [length] in Hl. injection Hl as Hl. revert rest Hl. induction Htxs as [|tx txs Ht Htxs IH]; intros [|r rest] Hl; try done.
  cbn [map zip_with]. unfold undo_of at 1. rewrite Ht. f_equal. apply IH. cbn in Hl. lia.
Qed.

(** C7: disconnecting a block restores the coins.  After the transactions of a
    block were applied to a cache, [DisconnectBlock] with the undo data that
    produced succeeds and reports no inconsistency, the map of unspent
    outputs is again the one before the block, and the best block is the
    previous one.  The block has one coinbase, first; its transactions have
    different hashes and create no coins that exist (BIP 30); heights are
    positive, since undo data of height 0 stands for partially spent coins. *)
Theorem disconnect_undoes_connect {V : Type} `{CoinsView V} (c c1 : CCoinsViewCache V) (cb : CTransaction)
  (txs : list CTransaction) (h : Z) (undos : CBlockUndo) (hash hashPrev : uint256)
  (Hok : view_ok c) (Hg : utxo_good (utxo c)) (Hh : 0 < h < 2 ^ 31)
  (Hcb : IsCoinBase cb = true) (Htxs : Forall (fun tx => IsCoinBase tx = false) txs)
  (Htx : Forall tx_good (cb :: txs)) (Hnd : NoDup (map GetHash (cb :: txs)))
  (Hnew : Forall (fun tx => utxo c !! GetHash tx = None) (cb :: txs))
  (Hhash : IsNull hash = false) (Hprev : IsNull hashPrev = false)
  (Hc : connect_txs (cb :: txs) h c = Ret (undos, c1)) :
  exists c2, DisconnectBlock (cb :: txs) (Some (tail undos)) hash hashPrev h false (SetBestBlock hash c1)
    = Ret (Some (true, true, c2)) /\ view_ok c2 /\ utxo c2 = utxo c /\ best c2 = hashPrev.
Proof.
  pose proof (connect_txs_spec (cb :: txs) h c Hok Htx Hg Hh Hnd Hnew) as Hconn.
  destruct (utxo_block (cb :: txs) h (utxo c)) as [[undos' u1]|] eqn:Eu; [|congruence].
  destruct Hconn as (c1' & E & Hok1 & Hu1 & _). rewrite Hc in E. injection E as <- <-.
  pose proof (utxo_block_length _ _ _ _ _ Eu) as Hlen.
  destruct (SetBestBlock_spec hash c1 Hok1) as (Hok1' & Hu1' & _).
  unfold DisconnectBlock, cache_GetBestBlock. cache_cbn. rewrite Hhash. unfold blob_eq, Compare. rewrite memcmp_refl. cbn [Z.eqb assert_ mbind outcome_bind].
  assert ((length (tail undos) + 1 =? length (cb :: txs))%nat = true) as ->.
  { apply Nat.eqb_eq. destruct undos; [done|]. cbn [tail length] in *. lia. }
  cbn [negb]. rewrite (undo_pairs cb txs undos Hcb Htxs Hlen).
  destruct (disconnect_txs_spec (cb :: txs) h (utxo c) undos u1 (SetBestBlock hash c1) Htx Hg Hh Hnd Hnew Eu Hok1') as (c2 & -> & Hok2 & Hu2 & _).
  { by rewrite <- Hu1. }
  cbn [mbind outcome_bind]. destruct (SetBestBlock_spec hashPrev c2 Hok2) as (Hok3 & Hu3 & Hb3).
  eexists. split; [done|]. split; [done|]. split; [by rewrite <- Hu2|]. by apply Hb3.
Qed.

Definition demo_cb : CTransaction :=
  mkTransaction 1 [mkTxIn COutPoint_null [1; 2] SEQUENCE_FINAL []] [mkTxOut 50 [81]; mkTxOut 0 [106]] 0 (repeat 1 32).
Definition demo_tx : CTransaction :=
  mkTransaction 1 [mkTxIn (mkOutPoint demo_txid 2) [] SEQUENCE_FINAL []; mkTxIn (mkOutPoint demo_txid 0) [] SEQUENCE_FINAL [];
                   mkTxIn (mkOutPoint (repeat 1 32) 0) [] SEQUENCE_FINAL []] [mkTxOut 60 [83]] 0 (repeat 2 32).
Definition demo_cache : CCoinsViewCache CCoinsViewDB := newCache demo_db.
Definition demo_undos : CBlockUndo :=
  match connect_txs [demo_cb; demo_tx] 4 demo_cache with Ret (u, _) => u | Abort => [] end.
Definition demo_connected : CCoinsViewCache CCoinsViewDB :=
  match connect_txs [demo_cb; demo_tx] 4 demo_cache with Ret (_, c) => c | Abort => demo_cache end.

Lemma disconnect_undoes_connect_witness :
  demo_undos = [[]; [mkUndo (mkTxOut 9 [82]) false 0 0; mkUndo (mkTxOut 5 [81]) true 3 1; mkUndo (mkTxOut 50 [81]) true 4 1]] /\
  exists c2, DisconnectBlock [demo_cb; demo_tx] (Some (tail demo_undos)) (repeat 5 32) (repeat 4 32) 4 false
    (SetBestBlock (repeat 5 32) demo_connected)
    = Ret (Some (true, true, c2)) /\ view_ok c2 /\ utxo c2 = utxo demo_cache /\ best c2 = repeat 4 32.
Proof.
  split; [vm_compute; reflexivity|].
  apply (disconnect_undoes_connect demo_cache demo_connected demo_cb [demo_tx] 4 demo_undos).
  - apply newCache_ok, demo_db_ok.
  - change (utxo demo_cache) with (overlay ∅ ({[demo_txid := demo_coins]} : gmap uint256 CCoins)). rewrite overlay_empty.
    apply map_Forall_singleton. split; [repeat split; repeat constructor; done|]. by repeat split.
  - lia.
  - reflexivity.
  - repeat constructor.
  - repeat (apply Forall_cons_2; [split_and!; [repeat (apply Forall_cons_2; [by vm_compute|]); apply Forall_nil_2|by vm_compute|
      repeat (apply Forall_cons_2; [by vm_compute|]); apply Forall_nil_2]|]). apply Forall_nil_2.
  - apply (bool_decide_unpack (NoDup (map GetHash [demo_cb; demo_tx]))). vm_compute. exact I.
  - repeat constructor; vm_compute; reflexivity.
  - reflexivity.
  - reflexivity.
  - vm_compute. reflexivity.
Defined.
