(* ===== verification/Supply.v ===== *)
(** * The supply of coins

    The value of all unspent outputs, and what the operations of [Undo] on the
    map of unspent outputs do to it. *)

From S2P Require Import Prelude ArithUint256 Uint256 Amount Tx Coins TxInputs Undo.
From stdpp Require Import list gmap.
#[local] Open Scope Z_scope.

(** The value of the outputs that are not spent. *)
Definition live (v : list CTxOut) : Z := foldr (fun o s => (if CTxOut_IsNull o then 0 else nValue o) + s) 0 v.
Definition coins_value (cs : CCoins) : Z := live (vout cs).
Definition value_of (o : option CCoins) : Z := from_option coins_value 0 o.

Definition total_value (u : gmap uint256 CCoins) : Z := map_fold (fun _ cs s => coins_value cs + s) 0 u.

(** ** One entry *)

Lemma live_cons o v : live (o :: v) = (if CTxOut_IsNull o then 0 else nValue o) + live v.
Proof. done. Qed.

Lemma live_app a b : live (a ++ b) = live a + live b.
Proof. induction a as [|o a IH]; [done|]. cbn [app]. rewrite !live_cons, IH. lia. Qed.

Lemma live_nulls v : Forall (fun o => CTxOut_IsNull o = true) v -> live v = 0.
Proof. induction 1 as [|o v Ho Hv IH]; [done|]. by rewrite live_cons, Ho, IH. Qed.

Lemma live_Cleanup cs : coins_value (Cleanup cs) = coins_value cs.
Proof.
  unfold coins_value. destruct (Cleanup_split cs) as (nn & E & Hn). rewrite E, live_app, (live_nulls nn Hn). lia.
Qed.

Lemma live_spend v n o : v !! n = Some o -> CTxOut_IsNull o = false -> live (<[n := CTxOut_null]> v) = live v - nValue o.
Proof.
  revert n. induction v as [|x v IH]; intros [|n] E Ho; try done.
  - injection E as ->. cbn. rewrite Ho. lia.
  - change (<[S n := CTxOut_null]> (x :: v)) with (x :: <[n := CTxOut_null]> v). rewrite !live_cons, (IH n E Ho). lia.
Qed.

Lemma value_unspent cs : value_of (unspent (Some cs)) = coins_value cs.
Proof.
  destruct (IsPruned cs) eqn:Ep.
  - rewrite unspent_pruned by done. symmetry. by apply live_nulls, IsPruned_Forall.
  - by rewrite (proj2 (unspent_Some (Some cs) cs)).
Qed.

(** Outputs that can never be spent do not count. *)
Lemma value_FromTx tx h : Forall (fun o => 0 <= nValue o) (tx_vout tx) -> coins_value (FromTx tx h) <= sum_values (tx_vout tx).
Proof.
  intros Hv. unfold FromTx, ClearUnspendable. rewrite live_Cleanup. unfold coins_value. cbn [set_vout vout].
  induction Hv as [|o v Ho Hv IH]; [done|]. cbn [map sum_values fold_right]. fold (sum_values v). rewrite live_cons.
  destruct (IsUnspendable (scriptPubKey o)); [|destruct (CTxOut_IsNull o)]; cbn; lia.
Qed.

(** ** The map *)

Lemma total_insert k cs u : u !! k = None -> total_value (<[k := cs]> u) = coins_value cs + total_value u.
Proof. intros Hk. unfold total_value. rewrite map_fold_insert_L; [done| |done]. intros. lia. Qed.

Lemma total_delete k u : total_value u = value_of (u !! k) + total_value (delete k u).
Proof.
  destruct (u !! k) as [cs|] eqn:E.
  - rewrite <- (insert_delete_id u k cs E) at 1. by rewrite total_insert by apply lookup_delete_eq.
  - rewrite delete_id by done. done.
Qed.

Lemma total_put k o u : total_value (put k o u) = total_value u - value_of (u !! k) + value_of o.
Proof.
  rewrite (total_delete k (put k o u)), (total_delete k u), put_lookup, decide_True by done.
  replace (delete k (put k o u)) with (delete k u); [lia|]. apply map_eq. intros j. rewrite !lookup_delete.
  case_decide; [done|]. by rewrite put_lookup, decide_False.
Qed.

(** ** Spending *)

(** The outputs of one map are outputs of the other. *)
Definition fewer (u' u : gmap uint256 CCoins) : Prop :=
  forall o cs x, out_at u' o = Some (cs, x) -> exists cs', out_at u o = Some (cs', x).

Lemma spend_value i u undo u' : 0 <= op_n (prevout i) -> utxo_good u -> utxo_spend i u = Ret (undo, u') ->
  exists cs x, out_at u (prevout i) = Some (cs, x) /\ total_value u' = total_value u - nValue x /\ fewer u' u.
Proof.
  intros Hn Hg (cs & cs' & Hcs & Hs & ->)%utxo_spend_inv. destruct (Hg _ _ Hcs) as (Hw & _ & _ & _).
  apply spend_coins_inv in Hs as (x & Hx & Hnull & -> & _); [|done|done].
  exists cs, x. split; [by apply out_at_Some|]. split.
  - rewrite total_put, value_unspent, live_Cleanup, Hcs. cbn [value_of from_option]. unfold coins_value. cbn [set_vout vout].
    rewrite (live_spend _ _ _ Hx Hnull). lia.
  - intros o d y (Hd & Hy & Hny)%out_at_Some. rewrite put_lookup in Hd. case_decide as Ek; [|exists d; by apply out_at_Some].
    apply unspent_Some in Hd as [[= <-] _]. exists cs. apply out_at_Some. rewrite <- Ek. split; [done|]. split; [|done].
    destruct (Cleanup_split (set_vout (<[Z.to_nat (op_n (prevout i)) := CTxOut_null]> (vout cs)) cs)) as (nn & E & _).
    assert ((<[Z.to_nat (op_n (prevout i)) := CTxOut_null]> (vout cs)) !! Z.to_nat (op_n o) = Some y) as Hy'.
    { change (<[Z.to_nat (op_n (prevout i)) := CTxOut_null]> (vout cs)) with
        (vout (set_vout (<[Z.to_nat (op_n (prevout i)) := CTxOut_null]> (vout cs)) cs)). rewrite E. by apply lookup_app_l_Some. }
    apply list_lookup_insert_Some in Hy' as [(_ & <- & _)|[_ ?]]; done.
Qed.

Lemma inputs_value vin u undos u' : Forall (fun i => 0 <= op_n (prevout i)) vin -> utxo_good u ->
  utxo_inputs vin u = Ret (undos, u') ->
  exists ys, Forall2 (fun i y => exists cs, out_at u (prevout i) = Some (cs, y)) vin ys /\ total_value u' = total_value u - sum_values ys.
Proof.
  intros Hn Hg Hi. revert Hn Hg. pattern vin, undos, u, u'. revert vin undos u u' Hi. apply utxo_inputs_ind.
  { intros u _ _. exists []. split; [constructor|cbn; lia]. }
  intros i vin undo rest u u1 u' Hs _ IH [Hi Hn]%Forall_cons Hg.
  destruct (spend_value i u undo u1 Hi Hg Hs) as (cs & x & Hx & Ht & Hf).
  destruct (IH Hn (utxo_spend_good _ _ _ _ Hi Hg Hs)) as (ys & Hys & Ht').
  exists (x :: ys). split; [|cbn; fold (sum_values ys); lia]. constructor; [by exists cs|].
  eapply Forall2_impl; [exact Hys|]. cbn. intros j y [d Hd]. by eapply Hf.
Qed.

(** The outputs of [inputs_value] are those [spent] lists. *)
Lemma spent_outs u vin l ys : spent u vin = Some l ->
  Forall2 (fun i y => exists cs, out_at u (prevout i) = Some (cs, y)) vin ys -> ys = l.*2.
Proof.
  intros Hl Hf. revert l Hl. induction Hf as [|i y vin ys [cs Hy] Hf IH]; intros l Hl; [by injection Hl as <-|].
  rewrite spent_cons, Hy in Hl. cbn [mbind option_bind] in Hl. destruct (spent u vin) as [l'|]; [|done]. injection Hl as <-.
  cbn. f_equal. by apply IH.
Qed.

(** What a transaction adds to the supply: nothing but its outputs, less what
    it spends. *)
Lemma update_value tx h u undos u' : tx_good tx -> utxo_good u -> u !! GetHash tx = None ->
  utxo_update tx h u = Ret (undos, u') ->
  if IsCoinBase tx then total_value u' <= total_value u + sum_values (tx_vout tx)
  else forall l, spent u (vin tx) = Some l -> total_value u' <= total_value u - sum_values l.*2 + sum_values (tx_vout tx).
Proof.
  intros (Hv & _ & Hn) Hg Hnew. unfold utxo_update, utxo_spends. destruct (IsCoinBase tx); cbn [negb mbind outcome_bind].
  - intros E. assert (u' = put (GetHash tx) (unspent (Some (FromTx tx h))) u) as -> by congruence.
    rewrite total_put, Hnew, value_unspent. cbn [value_of from_option]. pose proof (value_FromTx tx h Hv). lia.
  - destruct (utxo_inputs (vin tx) u) as [[undos' u1]|] eqn:E; [|done]. cbn [mbind outcome_bind]. intros E' l Hl.
    assert (u' = put (GetHash tx) (unspent (Some (FromTx tx h))) u1) as -> by congruence.
    destruct (inputs_value _ _ _ _ Hn Hg E) as (ys & Hys & Ht). rewrite <- (spent_outs _ _ _ _ Hl Hys).
    destruct (utxo_inputs_good _ _ _ _ Hn Hg E) as (_ & _ & HN).
    rewrite total_put, (HN _ Hnew), value_unspent. cbn [value_of from_option]. pose proof (value_FromTx tx h Hv). lia.
Qed.
