(* ===== verification/AuxPow.v ===== *)
(** * Block headers and merged mining ([primitives/pureheader.h],
      [primitives/block.h], [auxpow.cpp], [dogecoin.cpp])

    The version field with its chain id and its flag, the hash and the proof
    of work of a header, the auxiliary proof of work with its checks, the
    serialization of headers and blocks, and the genesis blocks of
    [chainparams.cpp].  Error messages are only logged and are left out. *)

From S2P Require Import Prelude ArithUint256 StrEncodings Uint256 Amount Merkle Chain Params Pow Tx Script Serialize Hashes Scrypt Interpreter.
From stdpp Require Import list gmap.
#[local] Open Scope Z_scope.

(** ** Pure headers *)

Definition VERSION_AUXPOW : Z := Z.shiftl 1 8.
Definition VERSION_CHAIN_START : Z := Z.shiftl 1 16.

Definition CPureBlockHeader_null : CPureBlockHeader :=
  {| hVersion := 0; hashPrevBlock := uint256_null; hMerkleRoot := uint256_null; hTime := 0; hBits := 0; hNonce := 0 |}.
Definition header_IsNull (h : CPureBlockHeader) : bool := hBits h =? 0.
Definition set_hVersion (v : Z) (h : CPureBlockHeader) : CPureBlockHeader :=
  {| hVersion := v; hashPrevBlock := hashPrevBlock h; hMerkleRoot := hMerkleRoot h; hTime := hTime h; hBits := hBits h; hNonce := hNonce h |}.
Definition set_hMerkleRoot (r : uint256) (h : CPureBlockHeader) : CPureBlockHeader :=
  {| hVersion := hVersion h; hashPrevBlock := hashPrevBlock h; hMerkleRoot := r; hTime := hTime h; hBits := hBits h; hNonce := hNonce h |}.

Definition GetBaseVersion (ver : Z) : Z := Z.rem ver VERSION_AUXPOW.
Definition GetChainId (h : CPureBlockHeader) : Z := Z.shiftr (hVersion h) 16.
Definition IsAuxpow (h : CPureBlockHeader) : bool := negb (Z.land (hVersion h) VERSION_AUXPOW =? 0).
Definition SetChainId (chainId : Z) (h : CPureBlockHeader) : CPureBlockHeader :=
  set_hVersion (Z.lor (Z.rem (hVersion h) VERSION_CHAIN_START) (i32 (chainId * VERSION_CHAIN_START))) h.
Definition SetAuxpowFlag (auxpow : bool) (h : CPureBlockHeader) : CPureBlockHeader :=
  set_hVersion (if auxpow then Z.lor (hVersion h) VERSION_AUXPOW else Z.land (hVersion h) (Z.lnot VERSION_AUXPOW)) h.
Definition SetBaseVersion (nBaseVersion nChainId : Z) (h : CPureBlockHeader) : outcome CPureBlockHeader :=
  _ ← assert_ ((1 <=? nBaseVersion) && (nBaseVersion <? VERSION_AUXPOW));
  _ ← assert_ (negb (IsAuxpow h));
  Ret (set_hVersion (Z.lor nBaseVersion (i32 (nChainId * VERSION_CHAIN_START))) h).
Definition IsLegacy (h : CPureBlockHeader) : bool := (hVersion h =? 1) || ((hVersion h =? 2) && (GetChainId h =? 0)).

Definition ser_CPureBlockHeader (h : CPureBlockHeader) : list Z :=
  ser_writedata32 (hVersion h) ++ hashPrevBlock h ++ hMerkleRoot h ++ ser_writedata32 (hTime h) ++ ser_writedata32 (hBits h)
  ++ ser_writedata32 (hNonce h).
Definition unser_CPureBlockHeader : reader CPureBlockHeader :=
  v ← ser_readdata32; p ← read 32; r ← read 32; t ← ser_readdata32; b ← ser_readdata32; n ← ser_readdata32;
  mret {| hVersion := i32 v; hashPrevBlock := p; hMerkleRoot := r; hTime := t; hBits := b; hNonce := n |}.

(** [SerializeHash]; the memory of the fields, from [nVersion] on, is their
    serialization on a little-endian machine. *)
Definition header_GetHash (h : CPureBlockHeader) : uint256 := CHash256 (ser_CPureBlockHeader h).
Definition GetPoWHash (h : CPureBlockHeader) : uint256 := scrypt_1024_1_1_256 (ser_CPureBlockHeader h).

(** ** Transactions and their hashes *)

Definition ComputeHash (tx : CTransaction) : uint256 := CHash256 (SerializeTransaction false tx).
(** [CTransaction(CMutableTransaction)]. *)
Definition MakeTransaction (nVersion : Z) (ins : list CTxIn) (outs : list CTxOut) (lock : Z) : CTransaction :=
  let tx := mkTransaction nVersion ins outs lock uint256_null in
  mkTransaction nVersion ins outs lock (ComputeHash tx).
Definition GetWitnessHash (tx : CTransaction) : uint256 :=
  if negb (HasWitness tx) then GetHash tx else CHash256 (SerializeTransaction true tx).
Definition unser_CTransaction (fAllowWitness : bool) : reader CTransaction :=
  '(v, ins, outs, lock) ← UnserializeTransaction fAllowWitness; mret (MakeTransaction v ins outs lock).

(** [Hash(p1begin, p1end, p2begin, p2end)] of [hash.h] on two hashes. *)
Definition Hash2 (a b : uint256) : uint256 := CHash256 (a ++ b).

(** ** Auxiliary proofs of work *)

Definition pchMergedMiningHeader : list Z := [0xfa; 0xbe; chr "m"; chr "m"].

Record CMerkleTx := mkMerkleTx { m_tx : CTransaction; hashBlock : uint256; vMerkleBranch : list uint256; m_nIndex : Z }.
Record CAuxPow := mkAuxPow {
  merkleTx : CMerkleTx; vChainMerkleBranch : list uint256; nChainIndex : Z; parentBlock : CPureBlockHeader }.
Record CBlockHeader := mkHeader { pure :> CPureBlockHeader; auxpow : option CAuxPow }.
Record CBlock := mkBlock { b_header : CBlockHeader; b_vtx : list CTransaction; fChecked : bool }.

(** The constructor [CMerkleTx(tx)]. *)
Definition CMerkleTx_new (tx : CTransaction) : CMerkleTx := mkMerkleTx tx uint256_null [] (-1).
Definition ABANDON_HASH : uint256 := uint256S (str "0000000000000000000000000000000000000000000000000000000000000001").
Definition hashUnset (m : CMerkleTx) : bool := IsNull (hashBlock m) || blob_eq (hashBlock m) ABANDON_HASH.
Definition isAbandoned (m : CMerkleTx) : bool := blob_eq (hashBlock m) ABANDON_HASH.
Definition setAbandoned (m : CMerkleTx) : CMerkleTx := mkMerkleTx (m_tx m) ABANDON_HASH (vMerkleBranch m) (m_nIndex m).
Definition SetMerkleBranch (b : CBlockIndex) (posInBlock : Z) (m : CMerkleTx) : CMerkleTx :=
  mkMerkleTx (m_tx m) (phashBlock b) (vMerkleBranch m) posInBlock.

(** The depth of the transaction in the main chain, and the blocks its
    coinbase outputs still have to wait for. *)
Definition GetDepthInMainChain (t : BlockTree) (chainActive : CChain) (m : CMerkleTx) : outcome Z :=
  if hashUnset m then Ret 0
  else match mapBlockIndex t !! hashBlock m with
  | None => Ret 0
  | Some p =>
      inside ← Contains (tIndex t) chainActive p;
      if negb inside then Ret 0
      else b ← deref (tIndex t !! p);
           Ret ((if m_nIndex m =? -1 then -1 else 1) * (Height chainActive - nHeight b + 1))
  end.
Definition GetBlocksToMaturity (chainparams : ParamsTree) (t : BlockTree) (chainActive : CChain) (m : CMerkleTx) : outcome Z :=
  if negb (IsCoinBase (m_tx m)) then Ret 0
  else params ← deref (GetConsensus chainparams (u32 (Height chainActive)));
       depth ← GetDepthInMainChain t chainActive m;
       Ret (Z.max 0 (nCoinbaseMaturity params + 1 - depth)).

Definition SetAuxpow (apow : option CAuxPow) (h : CBlockHeader) : CBlockHeader :=
  match apow with
  | Some a => mkHeader (SetAuxpowFlag true h) (Some a)
  | None => mkHeader (SetAuxpowFlag false h) None
  end.

(** [std::search]: the position of the first occurrence, or the end. *)
Fixpoint search (s pat : list Z) : nat :=
  if bool_decide (take (length pat) s = pat) then 0%nat
  else match s with [] => 0%nat | _ :: s' => S (search s' pat) end.

(** The loop of [CheckMerkleBranch]: the two hashes in the order of the low
    bit of the index. *)
Definition branch_pair (hash it : uint256) (nIndex : Z) : list Z := if negb (Z.land nIndex 1 =? 0) then it ++ hash else hash ++ it.
Section Branch.
Variable Hash : list Z -> uint256.

Fixpoint branch_loop (hash : uint256) (branch : list uint256) (nIndex : Z) : uint256 :=
  match branch with
  | [] => hash
  | it :: rest => branch_loop (Hash (branch_pair hash it nIndex)) rest (Z.shiftr nIndex 1)
  end.

(** What is hashed on the way up a branch. *)
Fixpoint branch_inputs (hash : uint256) (branch : list uint256) (nIndex : Z) : list (list Z) :=
  match branch with
  | [] => []
  | it :: rest => branch_pair hash it nIndex :: branch_inputs (Hash (branch_pair hash it nIndex)) rest (Z.shiftr nIndex 1)
  end.
End Branch.

Definition CheckMerkleBranch (hash : uint256) (branch : list uint256) (nIndex : Z) : uint256 :=
  if nIndex =? -1 then uint256_null else branch_loop CHash256 hash branch nIndex.

Definition getExpectedIndex (nNonce nChainId : Z) (h : Z) : Z :=
  let rand := nNonce in
  let rand := u32 (rand * 1103515245 + 12345) in
  let rand := u32 (rand + nChainId) in
  let rand := u32 (rand * 1103515245 + 12345) in
  i32 (rand mod Z.shiftl 1 h).

(** The checks of the coinbase script once the chain root is known: where
    the root is, and the size and the nonce after it. *)
Definition check_coinbase_script (script vchRootHash : list Z) (merkleHeight nIndex nChainId : Z) : bool :=
  let pcHead := search script pchMergedMiningHeader in
  let pc := search script vchRootHash in
  if (pc =? length script)%nat then false
  else if (if negb (pcHead =? length script)%nat
           then if negb (search (drop (pcHead + 1) script) pchMergedMiningHeader + (pcHead + 1) =? length script)%nat then false
                else (pcHead + length pchMergedMiningHeader =? pc)%nat
           else negb (20 <? pc)%nat)
  then
    let pc := (pc + length vchRootHash)%nat in
    if (length script - pc <? 8)%nat then false
    else
      let nSize := le_decode (take 4 (drop pc script)) in
      if negb (nSize =? u32 (Z.shiftl 1 merkleHeight)) then false
      else
        let nNonce := le_decode (take 4 (drop (pc + 4) script)) in
        nIndex =? getExpectedIndex nNonce nChainId merkleHeight
  else false.

Definition CAuxPow_check (a : CAuxPow) (hashAuxBlock : uint256) (nChainId : Z) (params : Params.Params) : bool :=
  let m := merkleTx a in
  if negb (m_nIndex m =? 0) then false
  else if fStrictChainId params && (GetChainId (parentBlock a) =? nChainId) then false
  else if (30 <? length (vChainMerkleBranch a))%nat then false
  else
    let nRootHash := CheckMerkleBranch hashAuxBlock (vChainMerkleBranch a) (nChainIndex a) in
    let vchRootHash := reverse nRootHash in
    if negb (blob_eq (CheckMerkleBranch (GetHash (m_tx m)) (vMerkleBranch m) (m_nIndex m)) (hMerkleRoot (parentBlock a))) then false
    else match vin (m_tx m) with
         | [] => false
         | txin :: _ =>
             check_coinbase_script (scriptSig txin) vchRootHash (Z.of_nat (length (vChainMerkleBranch a))) (nChainIndex a) nChainId
         end.

Definition CheckAuxPowProofOfWork (block : CBlockHeader) (params : Params.Params) : bool :=
  if negb (IsLegacy block) && fStrictChainId params && negb (GetChainId block =? nAuxpowChainId params) then false
  else match auxpow block with
       | None =>
           if IsAuxpow block then false
           else CheckProofOfWork (GetPoWHash block) (hBits block) params
       | Some a =>
           if negb (IsAuxpow block) then false
           else if negb (CheckProofOfWork (GetPoWHash (parentBlock a)) (hBits block) params) then false
           else CAuxPow_check a (header_GetHash block) (GetChainId block) params
       end.

(** [BlockMerkleRoot] of [consensus/merkle.cpp]. *)
Definition BlockMerkleRoot (block : CBlock) : outcome (uint256 * bool) := ComputeMerkleRoot Hash2 (map GetHash (b_vtx block)).

Definition BlockMerkleBranch (block : CBlock) (position : Z) : outcome (list uint256) := ComputeMerkleBranch Hash2 (map GetHash (b_vtx block)) position.
Definition InitMerkleBranch (block : CBlock) (posInBlock : Z) (m : CMerkleTx) : outcome CMerkleTx :=
  branch ← BlockMerkleBranch block (u32 posInBlock); Ret (mkMerkleTx (m_tx m) (header_GetHash (b_header block)) branch posInBlock).

(** The minimal proof for a header, to be mined. *)
Definition initAuxPow (header : CBlockHeader) : outcome CBlockHeader :=
  let header := mkHeader (SetAuxpowFlag true header) (auxpow header) in
  let inputData := reverse (header_GetHash header) ++ [1] ++ replicate 7 0 in
  let coinbase := MakeTransaction 1 [mkTxIn COutPoint_null (push_vch inputData) SEQUENCE_FINAL []] [] 0 in
  let parent := mkBlock (mkHeader (set_hVersion 1 CPureBlockHeader_null) None) [coinbase] false in
  '(root, _) ← BlockMerkleRoot parent;
  let m := CMerkleTx_new coinbase in
  Ret (SetAuxpow (Some (mkAuxPow (mkMerkleTx (m_tx m) (hashBlock m) (vMerkleBranch m) 0) [] 0 (set_hMerkleRoot root (b_header parent)))) header).

(** ** Serialization *)

Definition ser_CMerkleTx (fAllowWitness : bool) (m : CMerkleTx) : list Z :=
  SerializeTransaction fAllowWitness (m_tx m) ++ hashBlock m ++ ser_vector id (vMerkleBranch m) ++ ser_writedata32 (m_nIndex m).
Definition unser_CMerkleTx (fAllowWitness : bool) : reader CMerkleTx :=
  tx ← unser_CTransaction fAllowWitness; h ← read 32; br ← unser_vector (read 32); n ← ser_readdata32; mret (mkMerkleTx tx h br (i32 n)).
Definition ser_CAuxPow (fAllowWitness : bool) (a : CAuxPow) : list Z :=
  ser_CMerkleTx fAllowWitness (merkleTx a) ++ ser_vector id (vChainMerkleBranch a) ++ ser_writedata32 (nChainIndex a)
  ++ ser_CPureBlockHeader (parentBlock a).
Definition unser_CAuxPow (fAllowWitness : bool) : reader CAuxPow :=
  m ← unser_CMerkleTx fAllowWitness; br ← unser_vector (read 32); n ← ser_readdata32; p ← unser_CPureBlockHeader;
  mret (mkAuxPow m br (i32 n) p).
Definition ser_CBlockHeader (fAllowWitness : bool) (h : CBlockHeader) : outcome (list Z) :=
  if IsAuxpow h
  then a ← deref (auxpow h); Ret (ser_CPureBlockHeader h ++ ser_CAuxPow fAllowWitness a)
  else Ret (ser_CPureBlockHeader h).
Definition unser_CBlockHeader (fAllowWitness : bool) : reader CBlockHeader :=
  p ← unser_CPureBlockHeader;
  if IsAuxpow p then a ← unser_CAuxPow fAllowWitness; mret (mkHeader p (Some a)) else mret (mkHeader p None).
Definition ser_CBlock (fAllowWitness : bool) (b : CBlock) : outcome (list Z) :=
  h ← ser_CBlockHeader fAllowWitness (b_header b); Ret (h ++ ser_vector (SerializeTransaction fAllowWitness) (b_vtx b)).
Definition unser_CBlock (fAllowWitness : bool) : reader CBlock :=
  h ← unser_CBlockHeader fAllowWitness; vtx ← unser_vector (unser_CTransaction fAllowWitness); mret (mkBlock h vtx false).

(** [GetSerializeSize(block, SER_NETWORK, PROTOCOL_VERSION | ...)]. *)
Definition block_size (fAllowWitness : bool) (b : CBlock) : outcome Z := bs ← ser_CBlock fAllowWitness b; Ret (Z.of_nat (length bs)).
Definition GetBlockWeight (b : CBlock) : outcome Z :=
  stripped ← block_size false b; total ← block_size true b; Ret (stripped * (WITNESS_SCALE_FACTOR - 1) + total).

(** ** Genesis blocks *)

Definition CreateGenesisBlock_with (pszTimestamp : list Z) (genesisOutputScript : CScript) (nTime nNonce nBits nVersion genesisReward : Z)
  : outcome CBlock :=
  let scriptSig := push_int64 486604799 ++ push_vch (serialize 4) ++ push_vch pszTimestamp in
  let tx := MakeTransaction 1 [mkTxIn COutPoint_null scriptSig SEQUENCE_FINAL []] [mkTxOut genesisReward genesisOutputScript] 0 in
  let header := {| hVersion := nVersion; hashPrevBlock := uint256_null; hMerkleRoot := uint256_null; hTime := nTime; hBits := nBits;
                   hNonce := nNonce |} in
  '(root, _) ← BlockMerkleRoot (mkBlock (mkHeader header None) [tx] false);
  Ret (mkBlock (mkHeader (set_hMerkleRoot root header) None) [tx] false).
Definition genesisOutputScript : CScript :=
  push_vch (ParseHex (str "040184710fa689ad5023690c80f3a49c8f13f8d45b8c857fbcbc8bc4a8e4d3eb4b10f4d4604fa08dce601aaf0f470216fe1b51850b4acf21b179c45070ac7b03a9"))
  ++ [OP_CHECKSIG].
Definition CreateGenesisBlock (nTime nNonce nBits nVersion genesisReward : Z) : outcome CBlock :=
  CreateGenesisBlock_with (str "Nintondo") genesisOutputScript nTime nNonce nBits nVersion genesisReward.

(** The calls of the three networks. *)
Definition main_genesis : outcome CBlock := CreateGenesisBlock 1386325540 99943 0x1e0ffff0 1 (88 * COIN).
Definition testnet_genesis : outcome CBlock := CreateGenesisBlock 1391503289 997879 0x1e0ffff0 1 (88 * COIN).
Definition regtest_genesis : outcome CBlock := CreateGenesisBlock 1296688602 2 0x207fffff 1 (88 * COIN).

(** ** Searching *)

Lemma search_le s pat : (search s pat <= length s)%nat.
Proof. induction s as [|x s IH]; cbn [search]; case_bool_decide; cbn [length]; lia. Qed.

Lemma search_found s pat : (search s pat < length s)%nat -> take (length pat) (drop (search s pat) s) = pat.
Proof.
  induction s as [|x s IH]; cbn [search length]; [lia|]. case_bool_decide as E; [done|]. intros Hl. cbn [drop]. apply IH. lia.
Qed.

Lemma search_first s pat i : take (length pat) (drop i s) = pat -> (search s pat <= i)%nat.
Proof.
  revert i. induction s as [|x s IH]; intros i Hi; cbn [search]; case_bool_decide as E; [lia|lia|lia|].
  destruct i as [|i]; [done|]. cbn [drop] in Hi. specialize (IH i Hi). lia.
Qed.

(** ** The slot of a chain *)

Lemma wrap32_mod x h : 0 <= h <= 32 -> u32 x mod 2 ^ h = x mod 2 ^ h.
Proof.
  intros Hh. unfold wrapU. apply Z.mod_mod_divide.
  exists (2 ^ (32 - h)). rewrite <- Z.pow_add_r by lia. f_equal. lia.
Qed.

(** The slot of a chain in the tree of the miner does not depend on the
    width of the integers: for the heights that [check] allows it is the
    value computed without overflow, and it is a position of the tree. *)
Theorem expected_index_exact (nNonce nChainId h : Z) (Hh : 0 <= h <= 30) :
  getExpectedIndex nNonce nChainId h = ((nNonce * 1103515245 + 12345 + nChainId) * 1103515245 + 12345) mod 2 ^ h /\
  0 <= getExpectedIndex nNonce nChainId h < 2 ^ h.
Proof.
  unfold getExpectedIndex. rewrite Z.shiftl_1_l, wrap32_mod by lia.
  rewrite wrapU_add_l.
  assert (0 < 2 ^ h <= 2 ^ 30) as Hp by (split; [apply Z.pow_pos_nonneg; lia|apply Z.pow_le_mono_r; lia]).
  set (e := nNonce * 1103515245 + 12345 + nChainId).
  assert ((u32 e * 1103515245 + 12345) mod 2 ^ h = (e * 1103515245 + 12345) mod 2 ^ h) as ->.
  { rewrite Z.add_mod, Z.mul_mod, wrap32_mod, <- Z.mul_mod, <- Z.add_mod by lia. done. }
  pose proof (Z.mod_pos_bound (e * 1103515245 + 12345) (2 ^ h) ltac:(lia)). rewrite wrapS_small by (unfold inS; pow2_cbv; lia). done.
Qed.

(** ** What an auxiliary proof commits to *)

Lemma CHash256_length x : length (CHash256 x) = 32%nat.
Proof. apply CSHA256_size. Qed.

Lemma branch_loop_inj b1 b2 h1 h2 i : length b1 = length b2 -> length h1 = 32%nat -> length h2 = 32%nat ->
  Forall (fun x => length x = 32%nat) b1 -> Forall (fun x => length x = 32%nat) b2 ->
  (forall x y, x ∈ branch_inputs CHash256 h1 b1 i -> y ∈ branch_inputs CHash256 h2 b2 i -> CHash256 x = CHash256 y -> x = y) ->
  branch_loop CHash256 h1 b1 i = branch_loop CHash256 h2 b2 i -> h1 = h2.
Proof.
  revert b2 h1 h2 i. induction b1 as [|x b1 IH]; intros [|y b2] h1 h2 i Hl L1 L2 F1 F2 Hnc E; try discriminate; [done|].
  cbn [branch_loop] in E. cbn [branch_inputs] in Hnc. apply Forall_cons in F1 as [Lx F1], F2 as [Ly F2].
  apply IH in E; [|cbn in Hl; lia|apply CHash256_length|apply CHash256_length|done|done|].
  2:{ intros a b Ha Hb. apply Hnc; by right. }
  apply Hnc in E; [|left|left]. unfold branch_pair in E. destruct (negb (Z.land i 1 =? 0)); [|by apply app_inj_1 in E as [? _]; [|congruence]].
  apply app_inj_1 in E as [_ ?]; [done|congruence].
Qed.

(** What the script determines when it has the header of merged mining. *)
Lemma coinbase_script_root script root h i id : length root = 32%nat -> (search script pchMergedMiningHeader < length script)%nat ->
  check_coinbase_script script root h i id = true ->
  let pc := (search script pchMergedMiningHeader + 4)%nat in
  root = take 32 (drop pc script) /\ le_decode (take 4 (drop (pc + 32) script)) = u32 (Z.shiftl 1 h) /\
  i = getExpectedIndex (le_decode (take 4 (drop (pc + 36) script))) id h.
Proof.
  intros Hr Hs. unfold check_coinbase_script. set (q := search script pchMergedMiningHeader) in *. pose proof (search_le script root) as Hle.
  destruct (Nat.eqb_spec (search script root) (length script)) as [|Hne]; [done|].
  destruct (Nat.eqb_spec q (length script)); [lia|]. cbn [negb]. destruct (negb (_ =? length script)%nat); [done|].
  change (length pchMergedMiningHeader) with 4%nat. destruct (Nat.eqb_spec (q + 4) (search script root)) as [Epc|]; [|done].
  rewrite <- Epc, Hr. destruct (_ <? 8)%nat; [done|]. destruct (Z.eqb_spec (le_decode (take 4 (drop (q + 4 + 32) script))) (u32 (Z.shiftl 1 h))); [|done].
  cbn [negb]. intros Hi%Z.eqb_eq. cbv zeta. split; [|split; [done|]].
  - rewrite <- (search_found script root) at 1 by lia. by rewrite Hr, Epc.
  - rewrite Hi. do 4 f_equal. lia.
Qed.

Lemma branch_loop_length h b i : length h = 32%nat -> length (branch_loop CHash256 h b i) = 32%nat.
Proof.
  revert h i. induction b as [|x b IH]; intros h i Hh; [done|]. cbn [branch_loop]. apply IH, CHash256_length.
Qed.

Lemma CheckMerkleBranch_length h b i : length h = 32%nat -> length (CheckMerkleBranch h b i) = 32%nat.
Proof. intros Hh. unfold CheckMerkleBranch. destruct (i =? -1); [done|by apply branch_loop_length]. Qed.

Lemma auxpow_check_root a h id params script :
  (exists i l, vin (m_tx (merkleTx a)) = i :: l /\ scriptSig i = script) -> (search script pchMergedMiningHeader < length script)%nat ->
  length h = 32%nat -> CAuxPow_check a h id params = true ->
  let pc := (search script pchMergedMiningHeader + 4)%nat in
  reverse (branch_loop CHash256 h (vChainMerkleBranch a) (nChainIndex a)) = take 32 (drop pc script) /\
  le_decode (take 4 (drop (pc + 32) script)) = 2 ^ Z.of_nat (length (vChainMerkleBranch a)) /\
  nChainIndex a = getExpectedIndex (le_decode (take 4 (drop (pc + 36) script))) id (Z.of_nat (length (vChainMerkleBranch a))).
Proof.
  intros (i & l & Ev & Es) Hs Hh. unfold CAuxPow_check. destruct (negb (m_nIndex _ =? 0)); [done|]. destruct (_ && _); [done|].
  destruct (Nat.ltb_spec 30 (length (vChainMerkleBranch a))) as [|Hl]; [done|]. destruct (negb (blob_eq _ _)); [done|].
  rewrite Ev, Es. intros HC. set (n := Z.of_nat (length (vChainMerkleBranch a))) in *.
  apply coinbase_script_root in HC as (HR & HS & HI); [|by rewrite length_reverse; apply CheckMerkleBranch_length|done].
  assert (2 ^ n <= 2 ^ 30) by (apply Z.pow_le_mono_r; lia). assert (0 < 2 ^ n) by (apply Z.pow_pos_nonneg; lia).
  split; [|split; [|done]].
  - unfold CheckMerkleBranch in HR. destruct (Z.eqb_spec (nChainIndex a) (-1)) as [E|]; [|done]. exfalso. clear HR HS.
    rewrite HI in E. revert E. unfold getExpectedIndex. set (z := u32 _). rewrite Z.shiftl_1_l.
    pose proof (Z.mod_pos_bound z (2 ^ n) ltac:(lia)). rewrite wrapS_small by (unfold inS; pow2_cbv; lia). lia.
  - rewrite HS, Z.shiftl_1_l, wrapU_small by (unfold inU; pow2_cbv; lia). done.
Qed.

(** C22: work done once counts once.  Two auxiliary proofs that [check]
    accepts for the same chain and whose parent coinbase has the same script,
    with the header of merged mining in it, are proofs for the same block,
    unless two different inputs hashed on the way up the chain branches have
    the same double SHA-256. *)
Theorem auxpow_commits_once (a1 a2 : CAuxPow) (h1 h2 : uint256) (nChainId : Z) (params : Params.Params) (script : CScript)
  (Hscript1 : exists i l, vin (m_tx (merkleTx a1)) = i :: l /\ scriptSig i = script)
  (Hscript2 : exists i l, vin (m_tx (merkleTx a2)) = i :: l /\ scriptSig i = script)
  (Hheader : (search script pchMergedMiningHeader < length script)%nat)
  (Hlen : length h1 = 32%nat /\ length h2 = 32%nat)
  (Hbranch : Forall (fun x => length x = 32%nat) (vChainMerkleBranch a1 ++ vChainMerkleBranch a2))
  (Hnc : forall x y, x ∈ branch_inputs CHash256 h1 (vChainMerkleBranch a1) (nChainIndex a1) ->
     y ∈ branch_inputs CHash256 h2 (vChainMerkleBranch a2) (nChainIndex a2) -> CHash256 x = CHash256 y -> x = y)
  (H1 : CAuxPow_check a1 h1 nChainId params = true) (H2 : CAuxPow_check a2 h2 nChainId params = true) : h1 = h2.
Proof.
  destruct Hlen as [L1 L2]. apply Forall_app in Hbranch as [F1 F2].
  destruct (auxpow_check_root a1 h1 nChainId params script Hscript1 Hheader L1 H1) as (R1 & S1 & I1).
  destruct (auxpow_check_root a2 h2 nChainId params script Hscript2 Hheader L2 H2) as (R2 & S2 & I2).
  rewrite S1 in S2. apply Z.pow_inj_r in S2; [|lia..]. rewrite <- S2, <- I1 in I2. rewrite <- R1, I2 in R2. apply (inj reverse) in R2.
  rewrite I2 in Hnc. eapply branch_loop_inj; [|exact L1|exact L2|exact F1|exact F2|exact Hnc|done]. lia.
Qed.

(** ** Building an auxiliary proof *)

Lemma single_root h : ComputeMerkleRoot Hash2 [h] = Ret (h, false).
Proof. reflexivity. Qed.

Lemma header_bytes x i : take 4 (drop i x) = pchMergedMiningHeader ->
  x !! i = Some 0xfa /\ x !! (i + 1)%nat = Some 0xbe /\ x !! (i + 2)%nat = Some (chr "m") /\ x !! (i + 3)%nat = Some (chr "m").
Proof.
  intros E. assert (forall j, (j < 4)%nat -> x !! (i + j)%nat = pchMergedMiningHeader !! j) as H.
  { intros j Hj. rewrite <- E, lookup_take_lt, lookup_drop by done. done. }
  rewrite <- (Nat.add_0_r i) at 1. rewrite !H by lia. done.
Qed.

(** The header of merged mining is in the input only if it is in the hash. *)
Lemma init_no_header rh : length rh = 32%nat -> search rh pchMergedMiningHeader = 32%nat ->
  search (40 :: rh ++ [1] ++ replicate 7 0) pchMergedMiningHeader = 41%nat.
Proof.
  intros Hl Hs. set (s := 40 :: rh ++ [1] ++ replicate 7 0). assert (length s = 41%nat) as Hls by (cbn; rewrite length_app, Hl; done).
  pose proof (search_le s pchMergedMiningHeader) as Hle. destruct (decide (search s pchMergedMiningHeader = 41%nat)) as [|Hne]; [done|]. exfalso.
  pose proof (search_found s pchMergedMiningHeader ltac:(lia)) as Hf. set (i := search s pchMergedMiningHeader) in *. clearbody i.
  change (length pchMergedMiningHeader) with 4%nat in Hf. destruct (header_bytes _ _ Hf) as (B0 & B1 & B2 & B3).
  destruct i as [|i]; [done|]. unfold s in *. cbn [lookup list_lookup Nat.add] in *. fold (lookup (M := list Z)) in *.
  destruct (decide (i + 3 < 32)%nat) as [Hi|Hi].
  - assert (search rh pchMergedMiningHeader <= i)%nat; [|lia]. apply search_first. cbn [drop] in Hf.
    rewrite drop_app_le, take_app_le in Hf by (rewrite ?length_drop; cbn; lia). done.
  - assert ((rh ++ [1] ++ replicate 7 0) !! (i + 3)%nat = Some (chr "m")) as B by exact B3.
    rewrite lookup_app_r, Hl in B by lia. assert (i + 3 - 32 < 8)%nat by (apply lookup_lt_Some in B; cbn in B; lia).
    set (k := (i + 3 - 32)%nat) in *. clearbody k. do 8 (destruct k as [|k]; [by vm_compute in B|]). lia.
Qed.

(** The root is right after the length byte, unless it is a run of that
    byte. *)
Lemma init_root rh : length rh = 32%nat -> rh <> replicate 32 40 -> search (40 :: rh ++ [1] ++ replicate 7 0) rh = 1%nat.
Proof.
  intros Hl Hne. set (s := 40 :: rh ++ [1] ++ replicate 7 0).
  assert (search s rh <= 1)%nat as Hle by (apply search_first; cbn [drop s]; rewrite Hl; by apply take_app_length').
  destruct (decide (search s rh = 1%nat)) as [|Hn]; [done|]. exfalso. assert (search s rh = 0%nat) as E by lia.
  pose proof (search_found s rh) as Hf. rewrite E, Hl in Hf. specialize (Hf ltac:(cbn; lia)). change (drop 0 s) with s in Hf.
  apply Hne. assert (forall j, (j < 32)%nat -> rh !! j = Some 40) as Hj.
  { intros j. induction j as [|j IH]; intros Hj; rewrite <- Hf at 1; rewrite lookup_take_lt by lia; [done|].
    unfold s. cbn. change ((rh ++ [1; 0; 0; 0; 0; 0; 0; 0]) !! j = Some 40). rewrite lookup_app_l by lia. apply IH. lia. }
  apply list_eq_same_length with 32%nat; [done|by rewrite Hl|]. intros i x y Hi H1 H2. rewrite Hj in H1 by done.
  apply lookup_replicate in H2 as [-> _]. congruence.
Qed.

Lemma flag_set v : negb (Z.land (Z.lor v VERSION_AUXPOW) VERSION_AUXPOW =? 0) = true /\ Z.lor (Z.lor v VERSION_AUXPOW) VERSION_AUXPOW = Z.lor v VERSION_AUXPOW.
Proof.
  split; [|by rewrite <- Z.lor_assoc, Z.lor_diag]. apply negb_true_iff, Z.eqb_neq. rewrite Z.land_lor_distr_l, Z.land_diag.
  intros [_ E]%Z.lor_eq_0_iff. done.
Qed.

Lemma init_check tx x p hash id params : length hash = 32%nat -> search (reverse hash) pchMergedMiningHeader = 32%nat -> hash <> replicate 32 40 ->
  (fStrictChainId params = true -> id <> 0) -> GetChainId p = 0 -> hMerkleRoot p = GetHash tx ->
  (exists i, vin tx = [i] /\ scriptSig i = push_vch (reverse hash ++ [1] ++ replicate 7 0)) ->
  CAuxPow_check (mkAuxPow (mkMerkleTx tx x [] 0) [] 0 p) hash id params = true.
Proof.
  intros Hl Hmm Hrun Hid Hp Hroot (i & Hi & Hs). unfold CAuxPow_check.
  cbn [merkleTx m_nIndex parentBlock vChainMerkleBranch nChainIndex length m_tx vMerkleBranch]. rewrite Hp, Hroot, Hi, Hs.
  change (0 =? 0) with true. cbn [negb]. assert (fStrictChainId params && (0 =? id) = false) as ->.
  { destruct (fStrictChainId params); [|done]. apply Z.eqb_neq. intros E. by apply Hid. }
  change (30 <? 0)%nat with false. unfold CheckMerkleBranch. change (0 =? -1) with false. cbn [branch_loop].
  assert (forall x, blob_eq x x = true) as Hrefl by (intros y; unfold blob_eq, Compare; by rewrite memcmp_refl).
  rewrite Hrefl. cbn [negb]. set (rh := reverse hash) in *. assert (length rh = 32%nat) as Hrl by (by unfold rh; rewrite length_reverse).
  assert (rh <> replicate 32 40) as Hrr by (intros E; apply Hrun; rewrite <- (reverse_involutive hash); fold rh; rewrite E; done).
  clearbody rh. assert (push_vch (rh ++ [1] ++ replicate 7 0) = 40 :: rh ++ [1] ++ replicate 7 0) as ->.
  { unfold push_vch. rewrite !length_app, Hrl. done. }
  unfold check_coinbase_script. rewrite (init_root rh) by done. rewrite (init_no_header rh) by done.
  assert (length (40 :: rh ++ [1] ++ replicate 7 0) = 41%nat) as -> by (cbn; rewrite length_app, Hrl; done).
  rewrite Hrl. cbn [Nat.eqb negb Nat.ltb Nat.leb Nat.add Nat.sub drop].
  rewrite (drop_app_ge rh _ 32), (drop_app_ge rh _ 36) by lia. rewrite Hrl. unfold getExpectedIndex.
  change (Z.shiftl 1 (Z.of_nat 0)) with 1. rewrite Z.mod_1_r. reflexivity.
Qed.

(** The proof that [initAuxPow] builds for a header passes [check] for
    every chain id that the parent's version does not claim, as long as the
    hash of the header does not contain the header of merged mining and is
    not 32 times the byte 40. *)
Theorem init_auxpow_valid (header : CBlockHeader) (nChainId : Z) (params : Params.Params)
  (Hid : fStrictChainId params = true -> nChainId <> 0)
  (Hmm : search (reverse (header_GetHash (SetAuxpowFlag true header))) pchMergedMiningHeader = 32%nat)
  (Hrun : header_GetHash (SetAuxpowFlag true header) <> replicate 32 40) :
  exists h a, initAuxPow header = Ret h /\ auxpow h = Some a /\ IsAuxpow h = true /\
    header_GetHash h = header_GetHash (SetAuxpowFlag true header) /\ CAuxPow_check a (header_GetHash h) nChainId params = true.
Proof.
  unfold initAuxPow, BlockMerkleRoot. cbn [b_vtx map]. rewrite single_root. cbn [mbind outcome_bind]. cbv zeta.
  set (hash := header_GetHash (SetAuxpowFlag true header)) in *. eexists _, _. split; [reflexivity|]. cbn [SetAuxpow auxpow pure].
  split; [reflexivity|]. assert (SetAuxpowFlag true (SetAuxpowFlag true header) = SetAuxpowFlag true header) as ->.
  { unfold SetAuxpowFlag, set_hVersion. cbn. f_equal. apply flag_set. }
  split; [apply flag_set|]. split; [done|]. fold hash. assert (length hash = 32%nat) as Hl by apply CHash256_length. clearbody hash.
  apply init_check; [exact Hl|exact Hmm|exact Hrun|exact Hid|reflexivity|reflexivity|]. eexists. split; reflexivity.
Qed.

(** ** Reading blocks back *)

Record wf_header (h : CPureBlockHeader) : Prop := {
  wfh_version : inS 32 (hVersion h);
  wfh_prev : length (hashPrevBlock h) = 32%nat;
  wfh_root : length (hMerkleRoot h) = 32%nat;
  wfh_words : inU 32 (hTime h) /\ inU 32 (hBits h) /\ inU 32 (hNonce h)
}.

Lemma reads_header h : wf_header h -> reads unser_CPureBlockHeader (ser_CPureBlockHeader h) h.
Proof.
  intros [Hv Hp Hr (Ht & Hb & Hn)]. eapply reads_bind; [apply reads_32_mod|]. eapply reads_bind; [rewrite <- Hp; apply reads_read|].
  eapply reads_bind; [rewrite <- Hr; apply reads_read|]. eapply reads_bind; [by apply reads_32|]. eapply reads_bind; [by apply reads_32|].
  eapply reads_bind_ret; [by apply reads_32|]. rewrite wrapS_wrapU, wrapS_small by (done || lia). by destruct h.
Qed.

(** A transaction as it is read back: without its witnesses when they are
    not written. *)
Definition tx_seen (fAllowWitness : bool) (tx : CTransaction) : CTransaction :=
  mkTransaction (tx_nVersion tx) (if fAllowWitness then vin tx else map strip (vin tx)) (tx_vout tx) (nLockTime tx) (tx_hash tx).

(** A transaction that can be written, with its hash. *)
Definition wf_hashed (fAllowWitness : bool) (tx : CTransaction) : Prop :=
  wf_tx tx /\ (vin tx <> [] \/ fAllowWitness = false) /\ tx_hash tx = ComputeHash tx.

Lemma reads_CTransaction fAllowWitness tx : wf_hashed fAllowWitness tx ->
  reads (unser_CTransaction fAllowWitness) (SerializeTransaction fAllowWitness tx) (tx_seen fAllowWitness tx).
Proof.
  intros (Hwf & Hv & Hh). eapply reads_bind_ret; [by apply reads_tx|]. unfold tx_fields, tx_seen, MakeTransaction. do 2 f_equal.
  rewrite Hh. unfold ComputeHash. f_equal. unfold SerializeTransaction. cbn [tx_nVersion vin tx_vout nLockTime andb]. do 3 f_equal.
  destruct fAllowWitness; [done|]. unfold ser_vector. rewrite length_map, map_map. done.
Qed.

Lemma reads_hashes v : sized v -> Forall (fun h => length h = 32%nat) v -> reads (unser_vector (read 32)) (ser_vector id v) v.
Proof.
  intros Hs Hv. apply reads_vector; [done|]. eapply Forall_impl; [exact Hv|]. cbn. intros h Hh. rewrite <- Hh. apply reads_read.
Qed.

Record wf_auxpow (fAllowWitness : bool) (a : CAuxPow) : Prop := {
  wfa_tx : wf_hashed fAllowWitness (m_tx (merkleTx a));
  wfa_block : length (hashBlock (merkleTx a)) = 32%nat;
  wfa_branch : sized (vMerkleBranch (merkleTx a)) /\ Forall (fun h => length h = 32%nat) (vMerkleBranch (merkleTx a));
  wfa_chain : sized (vChainMerkleBranch a) /\ Forall (fun h => length h = 32%nat) (vChainMerkleBranch a);
  wfa_index : inS 32 (m_nIndex (merkleTx a)) /\ inS 32 (nChainIndex a);
  wfa_parent : wf_header (parentBlock a)
}.

Definition auxpow_seen (fAllowWitness : bool) (a : CAuxPow) : CAuxPow :=
  let m := merkleTx a in
  mkAuxPow (mkMerkleTx (tx_seen fAllowWitness (m_tx m)) (hashBlock m) (vMerkleBranch m) (m_nIndex m)) (vChainMerkleBranch a) (nChainIndex a) (parentBlock a).

Lemma reads_auxpow fAllowWitness a : wf_auxpow fAllowWitness a -> reads (unser_CAuxPow fAllowWitness) (ser_CAuxPow fAllowWitness a) (auxpow_seen fAllowWitness a).
Proof.
  intros [Ht Hb [Hs1 Hf1] [Hs2 Hf2] [Hi1 Hi2] Hp]. eapply reads_bind.
  - eapply reads_bind; [by apply reads_CTransaction|]. eapply reads_bind; [rewrite <- Hb; apply reads_read|].
    eapply reads_bind; [by apply reads_hashes|]. by eapply reads_bind_ret; [apply reads_32_mod|].
  - eapply reads_bind; [by apply reads_hashes|]. eapply reads_bind; [apply reads_32_mod|]. eapply reads_bind_ret; [by apply reads_header|].
    unfold auxpow_seen. rewrite !wrapS_wrapU, !wrapS_small by (done || lia). done.
Qed.

(** A header whose flag says whether it has an auxiliary proof. *)
Definition wf_aux (fAllowWitness : bool) (h : CBlockHeader) : Prop :=
  match auxpow h with Some a => IsAuxpow h = true /\ wf_auxpow fAllowWitness a | None => IsAuxpow h = false end.

Definition header_seen (fAllowWitness : bool) (h : CBlockHeader) : CBlockHeader := mkHeader h (auxpow_seen fAllowWitness <$> auxpow h).

Lemma reads_CBlockHeader fAllowWitness (h : CBlockHeader) : wf_header h -> wf_aux fAllowWitness h ->
  exists bs, ser_CBlockHeader fAllowWitness h = Ret bs /\ reads (unser_CBlockHeader fAllowWitness) bs (header_seen fAllowWitness h).
Proof.
  intros Hh Ha. unfold ser_CBlockHeader, header_seen. unfold wf_aux in Ha. destruct (auxpow h) as [a|].
  - destruct Ha as [Hf Ha]. rewrite Hf. cbn [deref mbind outcome_bind]. eexists. split; [done|].
    eapply reads_bind; [by apply reads_header|]. rewrite Hf. by eapply reads_bind_ret; [apply reads_auxpow|].
  - rewrite Ha. eexists. split; [done|]. eapply reads_bind_ret; [by apply reads_header|]. by rewrite Ha.
Qed.

Record wf_block (fAllowWitness : bool) (b : CBlock) : Prop := {
  wfb_header : wf_header (b_header b);
  wfb_auxpow : wf_aux fAllowWitness (b_header b);
  wfb_vtx : sized (b_vtx b) /\ Forall (wf_hashed fAllowWitness) (b_vtx b)
}.

Definition block_seen (fAllowWitness : bool) (b : CBlock) : CBlock :=
  mkBlock (header_seen fAllowWitness (b_header b)) (map (tx_seen fAllowWitness) (b_vtx b)) false.

Lemma reads_vtx fAllowWitness v : sized v -> Forall (wf_hashed fAllowWitness) v ->
  reads (unser_vector (unser_CTransaction fAllowWitness)) (ser_vector (SerializeTransaction fAllowWitness) v) (map (tx_seen fAllowWitness) v).
Proof.
  intros Hs Hv. eapply reads_bind; [apply reads_CompactSize; unfold sized in Hs; lia|]. rewrite Nat2Z.id.
  clear Hs. induction Hv as [|tx v Hx Hv IH]; [apply reads_ret|]. cbn [length unser_n map concat].
  eapply reads_bind; [by apply reads_CTransaction|]. by eapply reads_bind_ret.
Qed.

(** C35: a block is read back from its serialization, whatever follows it in
    the stream: the header, the auxiliary proof when the version has its
    flag, and the transactions with their hashes, without the witnesses when
    they are not written. *)
Theorem block_roundtrip (fAllowWitness : bool) (b : CBlock) (rest : list Z) (Hwf : wf_block fAllowWitness b) :
  exists bs, ser_CBlock fAllowWitness b = Ret bs /\ unser_CBlock fAllowWitness (bs ++ rest) = Some (block_seen fAllowWitness b, rest).
Proof.
  destruct Hwf as [Hh Ha [Hs Hv]]. unfold ser_CBlock, block_seen.
  destruct (reads_CBlockHeader fAllowWitness (b_header b) Hh Ha) as (hb & -> & Hr).
  cbn [mbind outcome_bind]. eexists. split; [done|]. apply (reads_bind _ _ hb _ _ _ Hr). by eapply reads_bind_ret; [apply reads_vtx|].
Qed.

(** ** Branches of a parent block *)

Lemma branch_loop_is_root hash branch i : branch_loop CHash256 hash branch i = ComputeMerkleRootFromBranch Hash2 hash branch i.
Proof.
  revert hash i. induction branch as [|x branch IH]; intros hash i; [done|]. cbn [branch_loop ComputeMerkleRootFromBranch]. rewrite IH. f_equal.
  unfold branch_pair, Hash2. by destruct (negb _).
Qed.

(** The branch [InitMerkleBranch] computes leads from the transaction to the
    Merkle root of its block, by [CheckMerkleBranch]. *)
Lemma InitMerkleBranch_verifies (block : CBlock) (pos : nat) (m : CMerkleTx) (tx : CTransaction) :
  b_vtx block !! pos = Some tx -> Z.of_nat (length (b_vtx block)) <= 2 ^ 31 ->
  exists m' mutated, InitMerkleBranch block (Z.of_nat pos) m = Ret m' /\
    BlockMerkleRoot block = Ret (CheckMerkleBranch (GetHash tx) (vMerkleBranch m') (m_nIndex m'), mutated).
Proof.
  intros Hpos Hlen. pose proof (lookup_lt_Some _ _ _ Hpos) as Hlt. set (leaves := map GetHash (b_vtx block)).
  assert (length leaves = length (b_vtx block)) as Hl by apply length_map.
  destruct (merkle_branch_verifies Hash2 leaves (GetHash tx) pos) as (branch & Eb & _ & Er); [by unfold leaves; rewrite list_lookup_fmap, Hpos|lia|].
  unfold InitMerkleBranch, BlockMerkleBranch. rewrite (wrapU_small 32) by (unfold inU; lia). fold leaves. rewrite Eb. cbn [mbind outcome_bind].
  eexists _, (mmut Hash2 (height (length leaves)) leaves). split; [done|]. unfold BlockMerkleRoot. fold leaves.
  rewrite merkle_root_reference by (lia || by destruct leaves; [cbn in Hl; lia|]). unfold CheckMerkleBranch. cbn [vMerkleBranch m_nIndex].
  rewrite (proj2 (Z.eqb_neq _ _)) by lia. by rewrite branch_loop_is_root, Er.
Qed.

(** ** The genesis blocks *)

(** The block hashes to [hash] and commits to [root]. *)
Definition block_matches (o : outcome CBlock) (hash root : uint256) : bool :=
  match o with
  | Ret b => bool_decide (header_GetHash (b_header b) = hash) && bool_decide (hMerkleRoot (b_header b) = root)
  | Abort => false
  end.

Lemma block_matches_spec o hash root : block_matches o hash root = true ->
  exists b, o = Ret b /\ header_GetHash (b_header b) = hash /\ hMerkleRoot (b_header b) = root.
Proof. destruct o as [b|]; [|done]. cbn. intros [H1%bool_decide_eq_true H2%bool_decide_eq_true]%andb_true_iff. by exists b. Qed.

(** The Merkle root that [chainparams.cpp] asserts. *)
Abbreviation genesis_root := (uint256S (str "0x5b2a3f53f605d62c53e62932dac6925e3d74afa5a4b459745c36d42d0ed26a69")).

Lemma main_genesis_matches : block_matches main_genesis (hashGenesisBlock main_consensus) genesis_root = true.
Proof. vm_compute. reflexivity. Qed.
Lemma testnet_genesis_matches : block_matches testnet_genesis (hashGenesisBlock test_consensus) genesis_root = true.
Proof. vm_compute. reflexivity. Qed.
Lemma regtest_genesis_matches : block_matches regtest_genesis (hashGenesisBlock regtest_consensus) genesis_root = true.
Proof. vm_compute. reflexivity. Qed.

(** The genesis blocks that [chainparams.cpp] builds have the hashes it
    asserts, on the three networks: their coinbase, their Merkle root and
    their header hash to the expected values. *)
Theorem genesis_blocks :
  (exists b, main_genesis = Ret b /\ header_GetHash (b_header b) = hashGenesisBlock main_consensus /\ hMerkleRoot (b_header b) = genesis_root) /\
  (exists b, testnet_genesis = Ret b /\ header_GetHash (b_header b) = hashGenesisBlock test_consensus /\ hMerkleRoot (b_header b) = genesis_root) /\
  (exists b, regtest_genesis = Ret b /\ header_GetHash (b_header b) = hashGenesisBlock regtest_consensus /\ hMerkleRoot (b_header b) = genesis_root).
Proof.
  split_and!; apply block_matches_spec; [exact main_genesis_matches|exact testnet_genesis_matches|exact regtest_genesis_matches].
Qed.

(** ** Witnesses *)

Lemma expected_index_exact_witness : getExpectedIndex 7 98 5 = ((7 * 1103515245 + 12345 + 98) * 1103515245 + 12345) mod 2 ^ 5.
Proof. exact (proj1 (expected_index_exact 7 98 5 ltac:(lia))). Defined.

(** Two parent headers over the same coinbase. *)
Definition aux_hash : uint256 := replicate 32 9.
Definition aux_branch : list uint256 := [replicate 32 5].
Definition aux_index : Z := getExpectedIndex 6 98 1.
Definition aux_script : CScript :=
  [3; 1; 2; 3] ++ pchMergedMiningHeader ++ reverse (CheckMerkleBranch aux_hash aux_branch aux_index) ++ [2; 0; 0; 0; 6; 0; 0; 0].
Definition aux_coinbase : CTransaction := MakeTransaction 1 [mkTxIn COutPoint_null aux_script SEQUENCE_FINAL []] [mkTxOut 5 [81]] 0.
Definition aux_parent (nonce : Z) : CPureBlockHeader :=
  {| hVersion := 1; hashPrevBlock := replicate 32 3; hMerkleRoot := GetHash aux_coinbase; hTime := 100; hBits := 0x1e0ffff0; hNonce := nonce |}.
Definition aux_proof (nonce : Z) : CAuxPow := mkAuxPow (mkMerkleTx aux_coinbase uint256_null [] 0) aux_branch aux_index (aux_parent nonce).

Lemma auxpow_commits_once_witness :
  CAuxPow_check (aux_proof 1) aux_hash 98 main_auxpowConsensus = true /\ CAuxPow_check (aux_proof 2) aux_hash 98 main_auxpowConsensus = true /\
  aux_hash = aux_hash.
Proof.
  assert (CAuxPow_check (aux_proof 1) aux_hash 98 main_auxpowConsensus = true) as H1 by (vm_compute; reflexivity).
  assert (CAuxPow_check (aux_proof 2) aux_hash 98 main_auxpowConsensus = true) as H2 by (vm_compute; reflexivity).
  split; [exact H1|]. split; [exact H2|].
  refine (auxpow_commits_once (aux_proof 1) (aux_proof 2) aux_hash aux_hash 98 main_auxpowConsensus aux_script _ _ _ _ _ _ H1 H2).
  - eexists _, _. split; reflexivity.
  - eexists _, _. split; reflexivity.
  - apply Nat.ltb_lt. vm_compute. reflexivity.
  - split; reflexivity.
  - repeat constructor.
  - intros x y Hx Hy _. apply list_elem_of_singleton in Hx, Hy. exact (eq_trans Hx (eq_sym Hy)).
Defined.

Definition aux_header : CBlockHeader :=
  mkHeader {| hVersion := 0x620004; hashPrevBlock := replicate 32 1; hMerkleRoot := replicate 32 2; hTime := 100; hBits := 0x1e0ffff0; hNonce := 7 |} None.

Lemma init_auxpow_valid_witness :
  exists h a, initAuxPow aux_header = Ret h /\ auxpow h = Some a /\ IsAuxpow h = true /\
    header_GetHash h = header_GetHash (SetAuxpowFlag true aux_header) /\ CAuxPow_check a (header_GetHash h) 98 main_auxpowConsensus = true.
Proof.
  refine (init_auxpow_valid aux_header 98 main_auxpowConsensus ltac:(discriminate) _ _); [vm_compute; reflexivity|].
  apply (bool_decide_unpack _). vm_compute. exact I.
Defined.

Definition aux_block : CBlock := mkBlock (SetAuxpow (Some (aux_proof 1)) aux_header) [aux_coinbase] true.

Lemma aux_coinbase_wf : wf_hashed true aux_coinbase.
Proof.
  split; [|split; [left; discriminate|vm_compute; reflexivity]]. split; [by vm_compute|by vm_compute| |].
  - split; [by vm_compute|]. apply Forall_singleton. do 5 (split; [by vm_compute|]). constructor.
  - split; [by vm_compute|]. apply Forall_singleton. by split; vm_compute.
Qed.

Lemma block_roundtrip_witness :
  exists bs, ser_CBlock true aux_block = Ret bs /\ unser_CBlock true (bs ++ [1; 2]) = Some (block_seen true aux_block, [1; 2]) /\ (300 < length bs)%nat.
Proof.
  destruct (block_roundtrip true aux_block [1; 2]) as (bs & E1 & E2).
  - split; [|split; [reflexivity|]|].
    + split; [by vm_compute|reflexivity|reflexivity|by vm_compute].
    + split; [apply aux_coinbase_wf|reflexivity|split; [by vm_compute|constructor]|split; [by vm_compute|repeat constructor]|by vm_compute|].
      split; [by vm_compute|reflexivity|vm_compute; reflexivity|by vm_compute].
    + split; [by vm_compute|]. apply Forall_singleton. apply aux_coinbase_wf.
  - exists bs. split; [exact E1|]. split; [exact E2|].
    assert (match ser_CBlock true aux_block with Ret l => (300 <? length l)%nat | Abort => false end = true) as H by (vm_compute; reflexivity).
    rewrite E1 in H. by apply Nat.ltb_lt.
Defined.
