(* ===== verification/ConnectBlock.v ===== *)
(** * Connecting a block ([CheckBlock], [CheckInputs] and [ConnectBlock] of
      [validation.cpp])

    How a block is checked against the unspent outputs and applied to them.
    The arguments of the section [Node] stand for what this library does not
    model: the curve operations of [libsecp256k1], the Mersenne twister and
    the files.  Logging, timing and notifications are left out. *)

From S2P Require Import Prelude ArithUint256 StrEncodings Uint256 Amount Merkle Chain MedianTime Params.
From S2P Require Import Versionbits Pow Tx LockTime Script Serialize CheckTx Coins TxInputs Undo Supply.
From S2P Require Import Hashes Interpreter SoftFork ScriptSafety SigHash AuxPow.
From stdpp Require Import list gmap.
#[local] Open Scope Z_scope.

Definition MAX_BLOCK_SIGOPS_COST : Z := 80000.
Definition BLOCK_VALID_SCRIPTS : Z := 5.
Definition BLOCK_HAVE_DATA : Z := 8.
Definition BLOCK_HAVE_UNDO : Z := 16.

(** Positions in the block files; the default has [nFile] -1. *)
Record CDiskBlockPos := mkPos { p_nFile : Z; p_nPos : Z }.
Definition CDiskBlockPos_null : CDiskBlockPos := mkPos (-1) 0.
Definition CDiskBlockPos_IsNull (p : CDiskBlockPos) : bool := p_nFile p =? -1.
Definition GetBlockPos (b : CBlockIndex) : CDiskBlockPos :=
  if negb (Z.land (nStatus b) BLOCK_HAVE_DATA =? 0) then mkPos (nFile b) (nDataPos b) else CDiskBlockPos_null.
Definition GetUndoPos (b : CBlockIndex) : CDiskBlockPos :=
  if negb (Z.land (nStatus b) BLOCK_HAVE_UNDO =? 0) then mkPos (nFile b) (nUndoPos b) else CDiskBlockPos_null.
Definition set_nUndoPos (x : Z) (b : CBlockIndex) : CBlockIndex :=
  mkIndex (phashBlock b) (pprev b) (pskip b) (nHeight b) (nFile b) (nDataPos b) x
    (nChainWork b) (nTx b) (nChainTx b) (nStatus b) (nVersion b) (hashMerkleRoot b) (nTime b)
    (nBits b) (nNonce b) (nSequenceId b) (nTimeMax b).
Record CDiskTxPos := mkTxPos { t_pos : CDiskBlockPos; nTxOffset : Z }.

(** A deferred check of one input. *)
Record CScriptCheck := mkCheck {
  ck_scriptPubKey : CScript; ck_amount : Z; ck_tx : CTransaction; ck_nIn : nat; ck_nFlags : Z; ck_cacheStore : bool }.

Definition CScriptCheck_of (txFrom : CCoins) (tx : CTransaction) (nIn : nat) (flags : Z) (cacheStore : bool) : outcome CScriptCheck :=
  txin ← deref (vin tx !! nIn);
  o ← deref (vout txFrom !! Z.to_nat (op_n (prevout txin)));
  Ret (mkCheck (scriptPubKey o) (nValue o) tx nIn flags cacheStore).

(** [AbortNode(state, message)]; it also starts the shutdown. *)
Definition AbortNode (message : list Z) (st : CValidationState) : verdict := Error message st.

Definition IsWitnessEnabled (pindexPrev : option ptr) (params : Params.Params) : bool := false.

Fixpoint check_coinbases (vtx : list CTransaction) (st : CValidationState) : run verdict unit :=
  match vtx with
  | [] => Continue tt
  | tx :: vtx' =>
      if IsCoinBase tx
      then Return (DoS 100 false REJECT_INVALID (str "bad-cb-multiple") false (str "more than one coinbase") st)
      else check_coinbases vtx' st
  end.

Fixpoint check_transactions (vtx : list CTransaction) (st : CValidationState) : run verdict CValidationState :=
  match vtx with
  | [] => Continue st
  | tx :: vtx' =>
      '(ok, st) ← lift (CheckTransaction tx st true);
      if negb ok
      then Return (Invalid false (chRejectCode st) (strRejectReason st)
             (str "Transaction check failed (tx hash " ++ GetHex (GetHash tx) ++ str ") " ++ strDebugMessage st) st)
      else check_transactions vtx' st
  end.

Fixpoint block_sigops (vtx : list CTransaction) (nSigOps : Z) : outcome Z :=
  match vtx with
  | [] => Ret nSigOps
  | tx :: vtx' => k ← GetLegacySigOpCount tx; block_sigops vtx' (u32 (nSigOps + k))
  end.

Section Node.

(** What is not modelled, as arguments. *)
Context {crypto : Crypto}.
Variable generateMTRandom : Z -> Z -> Z.
Variable undo_size : CBlockUndo -> Z.
Variable FindUndoPos : CValidationState -> Z -> Z -> verdict * CDiskBlockPos.
Variable UndoWriteToDisk : CBlockUndo -> CDiskBlockPos -> uint256 -> option CDiskBlockPos.
Variable WriteTxIndex : list (uint256 * CDiskTxPos) -> bool.

(** The settings of the node: [Params()], [hashAssumeValid],
    [nScriptCheckThreads] and [fTxIndex]. *)
Variable theParams : ParamsTree.
Variable hashAssumeValid : uint256.
Variable nScriptCheckThreads : Z.
Variable fTxIndex : bool.

(** ** [CheckBlock] *)

Definition CheckBlockHeader (block : CBlockHeader) (st : CValidationState) (fCheckPOW : bool) : outcome verdict :=
  consensus ← deref (GetConsensus theParams 0);
  if (if fCheckPOW then negb (CheckAuxPowProofOfWork block consensus) else false)
  then Ret (DoS 50 false REJECT_INVALID (str "high-hash") false (str "proof of work failed") st)
  else Ret (true, st).

Definition check_merkle (block : CBlock) (st : CValidationState) : run verdict unit :=
  '(hashMerkleRoot2, mutated) ← lift (BlockMerkleRoot block);
  if negb (blob_eq (hMerkleRoot (b_header block)) hashMerkleRoot2)
  then Return (DoS 100 false REJECT_INVALID (str "bad-txnmrklroot") true (str "hashMerkleRoot mismatch") st)
  else if (mutated : bool)
  then Return (DoS 100 false REJECT_INVALID (str "bad-txns-duplicate") true (str "duplicate transaction") st)
  else Continue tt.

(** The limits of the size; the block is only serialized when the number of
    transactions is within them. *)
Definition check_size (block : CBlock) (st : CValidationState) : run verdict unit :=
  let bad := Return (DoS 100 false REJECT_INVALID (str "bad-blk-length") false (str "size limits failed") st) in
  if (length (b_vtx block) =? 0)%nat || (MAX_BLOCK_BASE_SIZE <? Z.of_nat (length (b_vtx block))) then bad
  else size ← lift (block_size false block); if MAX_BLOCK_BASE_SIZE <? size then bad else Continue tt.

(** The body of [CheckBlock] for a block that is not marked as checked. *)
Definition check_block_body (block : CBlock) (st : CValidationState) (fCheckPOW fCheckMerkleRoot : bool) : run verdict verdict :=
  '(ok, st) ← lift (CheckBlockHeader (b_header block) st fCheckPOW);
  if negb ok then Return (false, st)
  else
    _ ← (if fCheckMerkleRoot then check_merkle block st else Continue tt);
    _ ← check_size block st;
    tx0 ← lift (deref (b_vtx block !! 0%nat));
    if negb (IsCoinBase tx0)
    then Return (DoS 100 false REJECT_INVALID (str "bad-cb-missing") false (str "first tx is not coinbase") st)
    else
      _ ← check_coinbases (tail (b_vtx block)) st;
      st ← check_transactions (b_vtx block) st;
      nSigOps ← lift (block_sigops (b_vtx block) 0);
      if MAX_BLOCK_SIGOPS_COST <? u32 (nSigOps * WITNESS_SCALE_FACTOR)
      then Return (DoS 100 false REJECT_INVALID (str "bad-blk-sigops") false (str "out-of-bounds SigOpCount") st)
      else Continue (true, st).

(** [CheckBlock], and the mark [fChecked] it leaves on the block. *)
Definition CheckBlock (block : CBlock) (st : CValidationState) (fCheckPOW fCheckMerkleRoot : bool) : outcome (verdict * bool) :=
  if fChecked block then Ret ((true, st), true)
  else v ← finish (check_block_body block st fCheckPOW fCheckMerkleRoot);
       Ret (v, v.1 && (fCheckPOW && fCheckMerkleRoot)).

(** ** [CheckInputs] *)

(** [CScriptCheck::operator()] and the text of its error.  Its checker also
    remembers the signatures that verified, which does not change what it
    answers. *)
Definition run_check (ck : CScriptCheck) : outcome (bool * list Z) :=
  txin ← deref (vin (ck_tx ck) !! ck_nIn ck);
  let txdata := PrecomputedTransactionData_new (ck_tx ck) in
  let checker := TransactionSignatureChecker (ck_tx ck) (ck_nIn ck) (ck_amount ck) (Some txdata) in
  match VerifyScript (ck_nFlags ck) checker (scriptSig txin) (ck_scriptPubKey ck) (scriptWitness txin) with
  | Continue _ => Ret (true, ScriptErrorString SCRIPT_ERR_OK)
  | Return e => Ret (false, ScriptErrorString e)
  | Crash => Abort
  end.

Section Connect.
Context {V : Type} `{CoinsViewOps V}.
Implicit Types (c : CCoinsViewCache V).

Definition GetSpendHeight (t : BlockTree) c : outcome (Z * CCoinsViewCache V) :=
  let '(h, c) := cache_GetBestBlock c in
  p ← deref (mapBlockIndex t !! h);
  b ← deref (tIndex t !! p);
  Ret (i32 (nHeight b + 1), c).

(** One input of the loop over scripts: the check is deferred, or made. *)
Definition check_script (coins : CCoins) (tx : CTransaction) (i : nat) (flags : Z) (cacheStore pvChecks : bool)
    (vChecks : list CScriptCheck) (st : CValidationState) c : run (verdict * CCoinsViewCache V) (list CScriptCheck) :=
  check ← lift (CScriptCheck_of coins tx i flags cacheStore);
  if pvChecks then Continue (vChecks ++ [check])
  else
    '(ok, err) ← lift (run_check check);
    if (ok : bool) then Continue vChecks
    else
      _ ← (if negb (Z.land flags STANDARD_NOT_MANDATORY_VERIFY_FLAGS =? 0)
           then check2 ← lift (CScriptCheck_of coins tx i (Z.land flags (u32 (Z.lnot STANDARD_NOT_MANDATORY_VERIFY_FLAGS))) cacheStore);
                '(ok2, _) ← lift (run_check check2);
                if (ok2 : bool)
                then Return (Invalid false REJECT_NONSTANDARD (str "non-mandatory-script-verify-flag (" ++ err ++ str ")") [] st, c)
                else Continue tt
           else Continue tt);
      Return (DoS 100 false REJECT_INVALID (str "mandatory-script-verify-flag-failed (" ++ err ++ str ")") false [] st, c).

Fixpoint scripts_loop (l : list CTxIn) (tx : CTransaction) (i : nat) (flags : Z) (cacheStore pvChecks : bool)
    (vChecks : list CScriptCheck) (st : CValidationState) c
  : run (verdict * CCoinsViewCache V) (list CScriptCheck * CCoinsViewCache V) :=
  match l with
  | [] => Continue (vChecks, c)
  | txin :: l' =>
      let '(o, c) := AccessCoins (op_hash (prevout txin)) c in
      coins ← lift (deref o);
      vChecks ← check_script coins tx i flags cacheStore pvChecks vChecks st c;
      scripts_loop l' tx (S i) flags cacheStore pvChecks vChecks st c
  end.

(** [CheckInputs]; [pvChecks] says whether there is a list to fill, which is
    returned. *)
Definition CheckInputs (t : BlockTree) (tx : CTransaction) (st : CValidationState) (fScriptChecks : bool) (flags : Z)
    (cacheStore pvChecks : bool) c
  : run (verdict * CCoinsViewCache V) (list CScriptCheck * CValidationState * CCoinsViewCache V) :=
  if negb (IsCoinBase tx)
  then '(nSpendHeight, c) ← lift (GetSpendHeight t c);
       '((ok, st), c) ← lift (CheckTxInputs theParams tx st nSpendHeight c);
       if negb ok then Return ((false, st), c)
       else '(vChecks, c) ← (if fScriptChecks then scripts_loop (vin tx) tx 0 flags cacheStore pvChecks [] st c
                             else Continue ([], c));
            Continue (vChecks, st, c)
  else Continue ([], st, c).

(** ** [ConnectBlock] *)

(** What the loop over the transactions carries ([nInputs] is only logged). *)
Record progress := mkProgress {
  pg_view : CCoinsViewCache V;
  pg_nFees : Z;
  pg_nSigOpsCost : Z;
  pg_blockundo : CBlockUndo;
  pg_vPos : list (uint256 * CDiskTxPos);
  pg_pos : CDiskTxPos;
  pg_checks : list CScriptCheck;        (* handed to [control] *)
  pg_state : CValidationState
}.

Fixpoint BIP30_loop (vtx : list CTransaction) (st : CValidationState) c
  : run (verdict * CCoinsViewCache V) (CCoinsViewCache V) :=
  match vtx with
  | [] => Continue c
  | tx :: vtx' =>
      let '(o, c) := AccessCoins (GetHash tx) c in
      if match o with Some coins => negb (IsPruned coins) | None => false end
      then Return (DoS 100 false REJECT_INVALID (str "bad-txns-BIP30") false [] st, c)
      else BIP30_loop vtx' st c
  end.

Fixpoint prev_heights (vin : list CTxIn) c : outcome (list Z * CCoinsViewCache V) :=
  match vin with
  | [] => Ret ([], c)
  | txin :: vin' =>
      let '(o, c) := AccessCoins (op_hash (prevout txin)) c in
      coins ← deref o;
      '(l, c) ← prev_heights vin' c;
      Ret (cHeight coins :: l, c)
  end.

(** The inputs are there and their relative lock times have passed. *)
Definition connect_inputs (t : BlockTree) (pindex : ptr) (nLockTimeFlags : Z) (tx : CTransaction) (st : CValidationState) c
  : run (verdict * CCoinsViewCache V) (CCoinsViewCache V) :=
  if IsCoinBase tx then Continue c
  else
    let '(have, c) := HaveInputs tx c in
    if negb have
    then Return (DoS 100 false REJECT_INVALID (str "bad-txns-inputs-missingorspent") false [] st, c)
    else
      '(prevheights, c) ← lift (prev_heights (vin tx) c);
      locks ← lift (SequenceLocks (tIndex t) tx nLockTimeFlags prevheights pindex);
      if negb locks then Return (DoS 100 false REJECT_INVALID (str "bad-txns-nonfinal") false [] st, c)
      else Continue c.

(** The fee and the scripts of a transaction that is not a coinbase. *)
Definition connect_fee (t : BlockTree) (fScriptChecks fJustCheck : bool) (flags : Z) (tx : CTransaction) (nFees : Z)
    (st : CValidationState) c
  : run (verdict * CCoinsViewCache V) (Z * list CScriptCheck * CValidationState * CCoinsViewCache V) :=
  if IsCoinBase tx then Continue (nFees, [], st, c)
  else
    '(valueIn, c) ← lift (GetValueIn tx c);
    valueOut ← lift (GetValueOut tx);
    let nFees := i64 (nFees + i64 (valueIn - valueOut)) in
    '(vChecks, st, c) ← CheckInputs t tx st fScriptChecks flags fJustCheck (negb (nScriptCheckThreads =? 0)) c;
    Continue (nFees, vChecks, st, c).

(** The body of the loop, for the transaction number [i]. *)
Definition connect_tx (t : BlockTree) (pindex : ptr) (height : Z) (fScriptChecks fJustCheck : bool) (flags nLockTimeFlags : Z)
    (i : nat) (tx : CTransaction) (pg : progress) : run (verdict * CCoinsViewCache V) progress :=
  let st := pg_state pg in
  c ← connect_inputs t pindex nLockTimeFlags tx st (pg_view pg);
  '(cost, c) ← lift (GetTransactionSigOpCost tx flags c);
  let nSigOpsCost := i64 (pg_nSigOpsCost pg + cost) in
  if MAX_BLOCK_SIGOPS_COST <? nSigOpsCost
  then Return (DoS 100 false REJECT_INVALID (str "bad-blk-sigops") false [] st, c)
  else
    '(nFees, vChecks, st, c) ← connect_fee t fScriptChecks fJustCheck flags tx (pg_nFees pg) st c;
    '(undo, c) ← lift (UpdateCoins tx height c);
    let pos := pg_pos pg in
    Continue (mkProgress c nFees nSigOpsCost
      (if (0 <? i)%nat then pg_blockundo pg ++ [undo] else pg_blockundo pg)
      (pg_vPos pg ++ [(GetHash tx, pos)])
      (mkTxPos (t_pos pos) (u32 (nTxOffset pos + GetSerializeSize true tx)))
      (pg_checks pg ++ vChecks) st).

Fixpoint connect_loop (t : BlockTree) (pindex : ptr) (height : Z) (fScriptChecks fJustCheck : bool) (flags nLockTimeFlags : Z)
    (i : nat) (vtx : list CTransaction) (pg : progress) : run (verdict * CCoinsViewCache V) progress :=
  match vtx with
  | [] => Continue pg
  | tx :: vtx' =>
      pg ← connect_tx t pindex height fScriptChecks fJustCheck flags nLockTimeFlags i tx pg;
      connect_loop t pindex height fScriptChecks fJustCheck flags nLockTimeFlags (S i) vtx' pg
  end.

(** [control.Wait()]: the checks are independent, so the order in which the
    threads take them does not matter. *)
Fixpoint control_Wait (checks : list CScriptCheck) : outcome bool :=
  match checks with
  | [] => Ret true
  | ck :: checks' => '(ok, _) ← run_check ck; rest ← control_Wait checks'; Ret (ok && rest)
  end.

(** Whether the scripts are run: not for the ancestors of a block that is
    assumed valid and buried under two weeks of work. *)
Definition script_checks (t : BlockTree) (pindex : ptr) (b : CBlockIndex) (consensus : Params.Params) : outcome bool :=
  if IsNull hashAssumeValid then Ret true
  else match mapBlockIndex t !! hashAssumeValid with
  | None => Ret true
  | Some it =>
      a ← GetAncestor (tIndex t) it (nHeight b);
      if negb (bool_decide (a = Some pindex)) then Ret true
      else
        best ← deref (pindexBestHeader t);
        a ← GetAncestor (tIndex t) best (nHeight b);
        if negb (bool_decide (a = Some pindex)) then Ret true
        else
          bb ← deref (tIndex t !! best);
          if negb (op_ge (nChainWork bb) (UintToArith256 (nMinimumChainWork consensus))) then Ret true
          else time ← GetBlockProofEquivalentTime bb b bb consensus; Ret (time <=? 60 * 60 * 24 * 7 * 2)
  end.

Definition enforce_BIP30 (t : BlockTree) (b : CBlockIndex) (chainparams : ParamsTree) : outcome bool :=
  prev ← deref (pprev b);
  params ← deref (GetConsensus chainparams 0);
  pindexBIP34height ← GetAncestor (tIndex t) prev (BIP34Height params);
  match pindexBIP34height with
  | None => Ret true
  | Some p => bp ← deref (tIndex t !! p); Ret (negb (blob_eq (phashBlock bp) (BIP34Hash params)))
  end.

(** The flags of the rules in force, and those of the lock times. *)
Definition block_flags (t : BlockTree) (b : CBlockIndex) (chainparams : ParamsTree) (consensus : Params.Params)
    (versionbitscache : VersionBitsCache) : outcome (Z * Z * VersionBitsCache) :=
  params ← deref (GetConsensus chainparams 0);
  let flags := SCRIPT_VERIFY_P2SH in
  let flags := if BIP66Height params <=? nHeight b then Z.lor flags SCRIPT_VERIFY_DERSIG else flags in
  let flags := if BIP65Height params <=? nHeight b then Z.lor flags SCRIPT_VERIFY_CHECKLOCKTIMEVERIFY else flags in
  '(state, versionbitscache) ← VersionBitsState (tIndex t) (pprev b) consensus DEPLOYMENT_CSV versionbitscache;
  let csv := bool_decide (state = THRESHOLD_ACTIVE) in
  let flags := if csv then Z.lor flags SCRIPT_VERIFY_CHECKSEQUENCEVERIFY else flags in
  let nLockTimeFlags := if csv then LOCKTIME_VERIFY_SEQUENCE else 0 in
  let flags := if IsWitnessEnabled (pprev b) consensus
               then Z.lor (Z.lor flags SCRIPT_VERIFY_WITNESS) SCRIPT_VERIFY_NULLDUMMY else flags in
  Ret (flags, nLockTimeFlags, versionbitscache).

(** Writing the undo data, and the entry of the block that then says so. *)
Definition write_undo (t : BlockTree) (pindex : ptr) (b : CBlockIndex) (hashPrevBlock : uint256) (blockundo : CBlockUndo)
    (st : CValidationState) : run verdict (BlockTree * CValidationState) :=
  if CDiskBlockPos_IsNull (GetUndoPos b) || negb (IsValid BLOCK_VALID_SCRIPTS b)
  then
    '(b, st) ← (if CDiskBlockPos_IsNull (GetUndoPos b)
                then let '((ok, st), pos) := FindUndoPos st (nFile b) (undo_size blockundo + 40) in
                     if negb ok then Return (false, st)
                     else match UndoWriteToDisk blockundo pos hashPrevBlock with
                          | None => Return (AbortNode (str "Failed to write undo data") st)
                          | Some pos => Continue (set_nStatus (Z.lor (nStatus b) BLOCK_HAVE_UNDO) (set_nUndoPos (p_nPos pos) b), st)
                          end
                else Continue (b, st));
    let b := (RaiseValidity BLOCK_VALID_SCRIPTS b).1 in
    Continue ({| tIndex := <[pindex := b]> (tIndex t); mapBlockIndex := mapBlockIndex t;
                 pindexBestHeader := pindexBestHeader t; setDirtyBlockIndex := {[pindex]} ∪ setDirtyBlockIndex t;
                 nextPtr := nextPtr t |}, st)
  else Continue (t, st).

(** The state [ConnectBlock] works on; the mark is that of the block. *)
Record world := mkWorld {
  w_view : CCoinsViewCache V; w_tree : BlockTree; w_cache : VersionBitsCache; w_fChecked : bool }.

Definition with_view (w : world) (r : verdict * CCoinsViewCache V) : verdict * world :=
  (r.1, mkWorld r.2 (w_tree w) (w_cache w) (w_fChecked w)).

(** A step whose early returns carry the view, in a body whose early returns
    carry the world. *)
Definition in_world {A} (w : world) (x : run (verdict * CCoinsViewCache V) A) : run (verdict * world) A :=
  match x with Continue a => Continue a | Return r => Return (with_view w r) | Crash => Crash end.

(** The part of [ConnectBlock] after the loop: the reward, the deferred
    checks and, unless the block is only checked, the writes. *)
Definition connect_end (block : CBlock) (pindex : ptr) (b : CBlockIndex) (hashPrevBlock : uint256) (chainparams : ParamsTree)
    (fJustCheck : bool) (pg : progress) (w : world) : run (verdict * world) (verdict * world) :=
  let st := pg_state pg in
  let w := mkWorld (pg_view pg) (w_tree w) (w_cache w) (w_fChecked w) in
  params ← lift (deref (GetConsensus chainparams (u32 (nHeight b))));
  let blockReward := i64 (pg_nFees pg + GetDogecoinBlockSubsidy generateMTRandom (nHeight b) params hashPrevBlock) in
  tx0 ← lift (deref (b_vtx block !! 0%nat));
  valueOut ← lift (GetValueOut tx0);
  if blockReward <? valueOut
  then Return (DoS 100 false REJECT_INVALID (str "bad-cb-amount") false [] st, w)
  else
    ok ← lift (control_Wait (pg_checks pg));
    if negb ok then Return (DoS 100 false 0 [] false [] st, w)
    else if fJustCheck then Return ((true, st), w)
    else match write_undo (w_tree w) pindex b hashPrevBlock (pg_blockundo pg) st with
         | Crash => Crash
         | Return v => Return (v, w)
         | Continue (t, st) =>
             let w := mkWorld (w_view w) t (w_cache w) (w_fChecked w) in
             if fTxIndex && negb (WriteTxIndex (pg_vPos pg))
             then Return (AbortNode (str "Failed to write transaction index") st, w)
             else Continue ((true, st), mkWorld (SetBestBlock (phashBlock b) (w_view w)) t (w_cache w) (w_fChecked w))
         end.

Definition connect_body (block : CBlock) (st : CValidationState) (pindex : ptr) (chainparams : ParamsTree) (fJustCheck : bool)
    (w : world) : run (verdict * world) (verdict * world) :=
  let t := w_tree w in
  b ← lift (deref (tIndex t !! pindex));
  consensus ← lift (deref (GetConsensus theParams (u32 (nHeight b))));
  '((ok, st), checked) ← lift (CheckBlock block st (negb fJustCheck) (negb fJustCheck));
  let w := mkWorld (w_view w) t (w_cache w) checked in
  if negb ok
  then Return (if corruptionPossible st
               then AbortNode (str "Corrupt block found indicating potential hardware failure; shutting down") st
               else (false, st), w)
  else
    hashPrevBlock ← lift (match pprev b with
                          | None => Ret uint256_null
                          | Some p => bp ← deref (tIndex t !! p); Ret (phashBlock bp) end);
    let '(h, c) := cache_GetBestBlock (w_view w) in
    _ ← lift (assert_ (blob_eq hashPrevBlock h));
    params0 ← lift (deref (GetConsensus theParams 0));
    if blob_eq (header_GetHash (b_header block)) (hashGenesisBlock params0)
    then Return ((true, st), mkWorld (if fJustCheck then c else SetBestBlock (phashBlock b) c) t (w_cache w) checked)
    else
      fScriptChecks ← lift (script_checks t pindex b consensus);
      fEnforceBIP30 ← lift (enforce_BIP30 t b chainparams);
      c ← in_world w (if (fEnforceBIP30 : bool) then BIP30_loop (b_vtx block) st c else Continue c);
      '(flags, nLockTimeFlags, vcache) ← lift (block_flags t b chainparams consensus (w_cache w));
      let w := mkWorld c t vcache checked in
      pg ← in_world w (connect_loop t pindex (nHeight b) fScriptChecks fJustCheck flags nLockTimeFlags 0 (b_vtx block)
             (mkProgress c 0 0 [] [] (mkTxPos (GetBlockPos b) (GetSizeOfCompactSize (Z.of_nat (length (b_vtx block))))) [] st));
      connect_end block pindex b hashPrevBlock chainparams fJustCheck pg w.

Definition ConnectBlock (block : CBlock) (st : CValidationState) (pindex : ptr) (chainparams : ParamsTree) (fJustCheck : bool)
    (w : world) : outcome (verdict * world) :=
  finish (connect_body block st pindex chainparams fJustCheck w).

End Connect.

(** ** Lemmas *)

Lemma bind_Continue {R A B} (x : run R A) (f : A -> run R B) b :
  (x ≫= f) = Continue b <-> exists a, x = Continue a /\ f a = Continue b.
Proof. destruct x; cbn; split; [eauto|by intros (? & [= <-] & ?)|done|by intros (? & ? & _)|done|by intros (? & ? & _)]. Qed.

Lemma lift_Continue {R A} (o : outcome A) a : lift (R := R) o = Continue a <-> o = Ret a.
Proof. destruct o; cbn; split; congruence. Qed.

(** Bodies whose early returns all report a failure. *)
Definition refuses {R A} (ok : R -> bool) (x : run R A) : Prop := forall r, x = Return r -> ok r = false.

Lemma refuses_bind {R A B} (ok : R -> bool) (x : run R A) (f : A -> run R B) :
  refuses ok x -> (forall a, refuses ok (f a)) -> refuses ok (x ≫= f).
Proof. intros Hx Hf. destruct x as [a|r|]; cbn; [apply Hf| |done]. intros ? [= <-]. by apply Hx. Qed.

Lemma refuses_lift {R A} (ok : R -> bool) (o : outcome A) : refuses ok (lift o).
Proof. by destruct o. Qed.

Lemma refuses_Continue {R A} (ok : R -> bool) (a : A) : refuses ok (Continue a).
Proof. done. Qed.

Lemma refuses_Return {R A} (ok : R -> bool) r : ok r = false -> refuses (A := A) ok (Return r).
Proof. by intros ? ? [= <-]. Qed.

Lemma finish_accepts {R} (ok : R -> bool) x (r : R) : refuses ok x -> finish x = Ret r -> ok r = true -> x = Continue r.
Proof. intros Hx. destruct x as [a|r'|]; cbn; [congruence| |done]. intros [= ->] Hr. rewrite (Hx r eq_refl) in Hr. done. Qed.

Lemma DoS_false level code reason corr debug st : (DoS level false code reason corr debug st).1 = false.
Proof. unfold DoS. by destruct (mode st). Qed.

Lemma Invalid_false code reason debug st : (Invalid false code reason debug st).1 = false.
Proof. apply DoS_false. Qed.

Create HintDb refuses.
#[local] Hint Resolve refuses_lift refuses_Continue refuses_Return DoS_false Invalid_false : refuses.

(** Follows a body: binds, tests and pairs. *)
Ltac refuses_step :=
  match goal with
  | |- refuses _ (_ ≫= _) => apply refuses_bind; [|intros]
  | |- refuses _ (match ?x with _ => _ end) => destruct x
  | |- refuses _ (Return _) => apply refuses_Return; cbn [fst]; first [apply DoS_false|apply Invalid_false|reflexivity]
  | |- refuses _ _ => solve [apply refuses_lift|apply refuses_Continue|auto with refuses]
  end.
Ltac refuses_solve := repeat refuses_step.

Lemma i64_le x : - 2 ^ 63 <= x -> i64 x <= x /\ - 2 ^ 63 <= i64 x.
Proof.
  intros Hx. pose proof (wrapS_range 64 x ltac:(lia)) as Hr. split; [|apply Hr]. unfold wrapS.
  pose proof (Z.mod_le (x + 2 ^ (64 - 1)) (2 ^ 64)). change (64 - 1) with 63 in *. lia.
Qed.

(** What [CheckBlock] ensures of the transactions. *)
Record block_sane (vtx : list CTransaction) : Prop := {
  sane_coinbase : exists cb txs, vtx = cb :: txs /\ IsCoinBase cb = true /\ Forall (fun tx => IsCoinBase tx = false) txs;
  sane_txs : Forall (tx_acceptable true) vtx
}.

(** The fields of the transactions have their types. *)
Definition block_typed (vtx : list CTransaction) : Prop :=
  Forall (fun tx => Z.of_nat (length (tx_vout tx)) < 2 ^ 32 /\
    Forall (fun i => length (op_hash (prevout i)) = 32%nat /\ 0 <= op_n (prevout i)) (vin tx)) vtx.

Lemma check_coinbases_ok vtx st : check_coinbases vtx st = Continue tt -> Forall (fun tx => IsCoinBase tx = false) vtx.
Proof.
  induction vtx as [|tx vtx IH]; cbn [check_coinbases]; [constructor|]. destruct (IsCoinBase tx) eqn:E; [done|].
  constructor; auto.
Qed.

Lemma check_transactions_ok vtx st st' : block_typed vtx -> check_transactions vtx st = Continue st' ->
  st' = st /\ Forall (tx_acceptable true) vtx.
Proof.
  intros Ht. revert st. induction Ht as [|tx vtx [_ Hin] Ht IH]; intros st; cbn [check_transactions]; [by intros [= <-]|].
  destruct (CheckTransaction_spec tx st true) as (v & -> & Hv).
  { eapply Forall_impl; [exact Hin|]. cbn. tauto. }
  cbn [lift mbind run_bind]. destruct Hv as [[-> Ha]|[(Hf & _) _]]; [|destruct v as [[] ?]; done]. cbn [negb].
  intros Hc. destruct (IH st Hc) as [-> ?]. split; [done|]. by constructor.
Qed.

Lemma check_coinbases_refuses vtx st : refuses fst (check_coinbases vtx st).
Proof. induction vtx as [|tx vtx IH]; cbn [check_coinbases]; refuses_solve. Qed.

Lemma check_transactions_refuses vtx st : refuses fst (check_transactions vtx st).
Proof. revert st. induction vtx as [|tx vtx IH]; intros st; cbn [check_transactions]; refuses_solve. Qed.

#[local] Hint Resolve check_coinbases_refuses check_transactions_refuses : refuses.

Lemma check_block_refuses block st fPOW fRoot : refuses fst (check_block_body block st fPOW fRoot).
Proof. unfold check_block_body, check_merkle, check_size. refuses_solve. Qed.

Lemma CheckBlock_sane block st fPOW fRoot st' mark : block_typed (b_vtx block) ->
  CheckBlock block st fPOW fRoot = Ret ((true, st'), mark) -> fChecked block = false -> block_sane (b_vtx block).
Proof.
  intros Ht HC Hf. unfold CheckBlock in HC. rewrite Hf in HC.
  destruct (finish (check_block_body block st fPOW fRoot)) as [v|] eqn:E; [|done]. cbn in HC. injection HC as -> _.
  apply (finish_accepts fst) in E; [|apply check_block_refuses|done]. revert E. unfold check_block_body.
  intros ([ok st1] & E1 & E)%bind_Continue. destruct ok; cbn [negb] in E; [|done].
  apply bind_Continue in E as ([] & _ & E). apply bind_Continue in E as ([] & _ & E).
  apply bind_Continue in E as (tx0 & E0%lift_Continue & E). destruct (IsCoinBase tx0) eqn:Ecb; cbn [negb] in E; [|done].
  apply bind_Continue in E as ([] & Hcb & E). apply bind_Continue in E as (st2 & Htx & _).
  apply check_coinbases_ok in Hcb. destruct (check_transactions_ok _ _ _ Ht Htx) as [_ Ha]. split; [|done].
  destruct (b_vtx block) as [|cb txs]; [done|]. cbn in E0. injection E0 as ->. by exists tx0, txs.
Qed.

Section Accounting.
Context {V : Type} `{CoinsView V}.
Implicit Types (c : CCoinsViewCache V).

Lemma prev_heights_reads vin c l c' : view_ok c -> prev_heights vin c = Ret (l, c') -> reads c c'.
Proof.
  revert c l. induction vin as [|i vin IH]; intros c l Hok; cbn [prev_heights]; [by intros [= _ <-]|].
  destruct (AccessCoins_reads (op_hash (prevout i)) c Hok) as (o & c1 & -> & Hr & _). destruct o as [cs|]; [|done].
  cbn [deref mbind outcome_bind]. destruct (prev_heights vin c1) as [[l' c2]|] eqn:E; [|done]. intros [= _ <-].
  eapply reads_trans; [exact Hr|]. eapply IH; [apply Hr|exact E].
Qed.

Lemma connect_inputs_reads t p f tx st c c' : view_ok c -> connect_inputs t p f tx st c = Continue c' -> reads c c'.
Proof.
  intros Hok. unfold connect_inputs, HaveInputs. destruct (IsCoinBase tx); [by intros [= <-]|]. cbn [negb].
  destruct (have_inputs_spec (vin tx) c Hok) as (c1 & -> & Hr). destruct (negb _); [done|].
  intros ([l c2] & E2%lift_Continue & E)%bind_Continue. apply bind_Continue in E as (b & _ & E).
  destruct (negb b); [done|]. injection E as <-. eapply reads_trans; [exact Hr|].
  eapply prev_heights_reads; [apply Hr|exact E2].
Qed.

Lemma scripts_loop_reads l tx i flags store pv acc st c acc' c' : view_ok c ->
  scripts_loop l tx i flags store pv acc st c = Continue (acc', c') -> reads c c'.
Proof.
  revert i acc c. induction l as [|txin l IH]; intros i acc c Hok; cbn [scripts_loop]; [by intros [= _ <-]|].
  destruct (AccessCoins_reads (op_hash (prevout txin)) c Hok) as (o & c1 & -> & Hr & _).
  intros (cs & _ & E)%bind_Continue. apply bind_Continue in E as (acc1 & _ & E).
  eapply reads_trans; [exact Hr|]. eapply IH; [apply Hr|exact E].
Qed.

(** The heights of a block tree leave room for the next one. *)
Definition heights_ok (t : BlockTree) : Prop := forall p b, tIndex t !! p = Some b -> 0 <= nHeight b < 2 ^ 31 - 1.

Lemma GetSpendHeight_ok t c h c' : view_ok c -> heights_ok t -> GetSpendHeight t c = Ret (h, c') ->
  reads c c' /\ 0 <= h < 2 ^ 31.
Proof.
  intros Hok Ht. unfold GetSpendHeight. pose proof (cache_GetBestBlock_law c Hok) as HG. destruct (cache_GetBestBlock c) as [k c1].
  destruct HG as (? & ? & ? & _). destruct (mapBlockIndex t !! k) as [p|]; [|done]. cbn [deref mbind outcome_bind].
  destruct (tIndex t !! p) as [b|] eqn:E; [|done]. cbn [deref mbind outcome_bind]. intros [= <- <-]. apply Ht in E.
  split; [done|]. rewrite wrapS_small by (unfold inS; pow2_cbv; lia). lia.
Qed.

Lemma utxo_good_heights u : utxo_good u -> map_Forall (fun _ cs => 0 <= cHeight cs < 2 ^ 31) u.
Proof. intros Hg k cs Hk. destruct (Hg k cs Hk) as (_ & _ & ? & _). lia. Qed.

Lemma CheckInputs_ok t tx st fs flags store pv c cks st' c' : theParams <> NoParams -> view_ok c -> heights_ok t ->
  utxo_good (utxo c) -> IsCoinBase tx = false -> outs_in_range (tx_vout tx) ->
  CheckInputs t tx st fs flags store pv c = Continue (cks, st', c') ->
  reads c c' /\ st' = st /\ exists h l, pays theParams h (utxo c) tx l.
Proof.
  intros Hp Hok Ht Hg Hcb Hout. unfold CheckInputs. rewrite Hcb. cbn [negb].
  intros ([h c1] & E1%lift_Continue & E)%bind_Continue. destruct (GetSpendHeight_ok t c h c1 Hok Ht E1) as [Hr1 Hh].
  pose proof Hr1 as (Hok1 & Hu1 & _).
  destruct (CheckTxInputs_spec theParams Hp h Hh tx st c1 Hok1) as (v & c2 & E2 & Hr2 & Hv); [|done|done|].
  { apply utxo_good_heights. by rewrite Hu1. }
  rewrite E2 in E. cbn [lift mbind run_bind] in E. destruct Hv as [[-> Hl]|[Hf _]]; [|destruct v as [[] ?]; done].
  cbn [negb] in E. apply bind_Continue in E as ([cks' c3] & E3 & E). injection E as <- <- <-. rewrite Hu1 in Hl.
  split; [|split; [done|by exists h]]. eapply reads_trans; [exact Hr1|]. eapply reads_trans; [exact Hr2|].
  destruct fs; [eapply scripts_loop_reads; [apply Hr2|exact E3]|]. injection E3 as _ <-. split; [apply Hr2|done].
Qed.

(** The fee of a transaction, exact; only the sum of the fees may wrap. *)
Lemma connect_fee_ok t fs fj flags tx nFees st c nFees' cks st' c' : theParams <> NoParams -> view_ok c -> heights_ok t ->
  utxo_good (utxo c) -> - 2 ^ 63 <= nFees -> IsCoinBase tx = false ->
  connect_fee t fs fj flags tx nFees st c = Continue (nFees', cks, st', c') ->
  reads c c' /\ st' = st /\ - 2 ^ 63 <= nFees' /\
  exists l, spent (utxo c) (vin tx) = Some l /\ nFees' <= nFees + (sum_values l.*2 - sum_values (tx_vout tx)).
Proof.
  intros Hp Hok Ht Hg HF Hcb. unfold connect_fee, GetValueIn. rewrite Hcb.
  intros ([vi c1] & Ei%lift_Continue & E)%bind_Continue. apply bind_Continue in E as (vo & Eo%lift_Continue & E).
  apply bind_Continue in E as ([[cks' st1] c2] & E2 & E). injection E as <- <- <- <-.
  apply GetValueOut_spec in Eo as [-> Hout].
  pose proof (value_in_reads _ _ _ _ _ Hok Ei) as Hr1.
  pose proof Hr1 as (Hok1 & Hu1 & _). rewrite <- Hu1 in Hg.
  destruct (CheckInputs_ok _ _ _ _ _ _ _ _ _ _ _ Hp Hok1 Ht Hg Hcb Hout E2) as (Hr2 & -> & h & l & [Hl _ [Hv Hs] Hge]).
  rewrite Hu1 in Hl. destruct (value_in_spec (vin tx) 0 c l Hok Hl) as (c1' & Ei' & _); [done|done|lia|].
  rewrite Ei in Ei'. injection Ei' as -> _. rewrite Z.add_0_l. destruct Hout as [Hpos _].
  pose proof (sum_values_nonneg (tx_vout tx) ltac:(eapply Forall_impl; [exact Hpos|]; cbn; lia)).
  change MAX_MONEY with 1000000000000000000 in Hs.
  rewrite (wrapS_small 64 (sum_values l.*2 - _)) by (unfold inS; pow2_cbv; lia).
  assert (- 2 ^ 63 <= nFees + (sum_values l.*2 - sum_values (tx_vout tx))) as Hlo by lia. destruct (i64_le _ Hlo) as [? ?].
  split; [by eapply reads_trans|]. split; [done|]. split; [done|]. by exists l.
Qed.

(** *** The scripts that ran *)

Definition verified (ck : CScriptCheck) : Prop := exists err, run_check ck = Ret (true, err).

(** The script of each input was run against the output it spends, or its
    check is among those that wait. *)
Definition inputs_checked (flags : Z) (store : bool) (l : list (CCoins * CTxOut)) (tx : CTransaction) (i : nat) (checks : list CScriptCheck) : Prop :=
  forall j cs out, l !! j = Some (cs, out) ->
    let ck := mkCheck (scriptPubKey out) (nValue out) tx (i + j) flags store in verified ck \/ ck ∈ checks.

Lemma check_script_checks cs out tx txin i flags store pv acc st c acc' : vin tx !! i = Some txin -> vout cs !! Z.to_nat (op_n (prevout txin)) = Some out ->
  check_script cs tx i flags store pv acc st c = Continue acc' ->
  acc ⊆ acc' /\ let ck := mkCheck (scriptPubKey out) (nValue out) tx i flags store in verified ck \/ ck ∈ acc'.
Proof.
  intros Hi Ho. unfold check_script, CScriptCheck_of. rewrite Hi. cbn [deref mbind outcome_bind]. rewrite Ho.
  cbn [deref mbind outcome_bind lift run_bind]. set (ck := mkCheck _ _ _ _ _ _). destruct pv.
  - intros [= <-]. split; [set_solver|]. right. set_solver.
  - destruct (run_check ck) as [[ok err]|] eqn:E; cbn [lift mbind run_bind]; [|done]. destruct ok.
    + intros [= <-]. split; [done|]. left. by exists err.
    + intros ([] & _ & E')%bind_Continue. done.
Qed.

Lemma scripts_loop_checks l tx i flags store pv acc st c acc' c' L : view_ok c -> spent (utxo c) l = Some L ->
  (forall j txin, l !! j = Some txin -> vin tx !! (i + j)%nat = Some txin) ->
  scripts_loop l tx i flags store pv acc st c = Continue (acc', c') -> acc ⊆ acc' /\ inputs_checked flags store L tx i acc'.
Proof.
  revert i acc c L. induction l as [|txin l IH]; intros i acc c L Hok HL Hin; cbn [scripts_loop].
  { injection HL as <-. intros [= <- _]. split; [done|]. by intros j cs out ?. }
  unfold spent in HL. cbn [mapM] in HL. destruct (out_at (utxo c) (prevout txin)) as [[cs out]|] eqn:Eo; [|done]. cbn [mbind option_bind] in HL.
  destruct (mapM (fun i => out_at (utxo c) (prevout i)) l) as [L'|] eqn:EL; [|done]. injection HL as <-.
  apply out_at_Some in Eo as (Hcs & Hout & _). destruct (AccessCoins_reads (op_hash (prevout txin)) c Hok) as (o & c1 & -> & (Hok1 & Hu1 & _) & Hu).
  rewrite Hcs in Hu. apply unspent_Some in Hu as [-> _]. cbn [deref lift mbind run_bind].
  intros (acc1 & E1 & E)%bind_Continue. pose proof (Hin 0%nat txin eq_refl) as Hi0. rewrite Nat.add_0_r in Hi0.
  destruct (check_script_checks _ _ _ _ _ _ _ _ _ _ _ _ Hi0 Hout E1) as [Hsub Hck].
  destruct (IH (S i) acc1 c1 L') as [Hsub2 Hrest]; [done|by rewrite Hu1| |exact E|].
  { intros j tx' Hj. replace (S i + j)%nat with (i + S j)%nat by lia. by apply Hin. }
  split; [set_solver|]. intros [|j] cs' out' Hj.
  - injection Hj as <- <-. rewrite Nat.add_0_r. cbv zeta. destruct Hck; [by left|right; set_solver].
  - replace (i + S j)%nat with (S i + j)%nat by lia. by apply (Hrest j cs').
Qed.

Lemma connect_fee_checks t fs fj flags tx nFees st c nFees' cks st' c' L : view_ok c -> heights_ok t -> utxo_good (utxo c) ->
  theParams <> NoParams -> spent (utxo c) (vin tx) = Some L -> IsCoinBase tx = false ->
  connect_fee t fs fj flags tx nFees st c = Continue (nFees', cks, st', c') -> fs = true -> inputs_checked flags fj L tx 0 cks.
Proof.
  intros Hok Ht Hg Hp HL Hcb. unfold connect_fee, GetValueIn. rewrite Hcb.
  intros ([vi c1] & Ei%lift_Continue & E)%bind_Continue. apply bind_Continue in E as (vo & Eo%lift_Continue & E).
  apply bind_Continue in E as ([[cks' st1] c2] & E2 & E). injection E as _ <- _ _. intros ->. apply GetValueOut_spec in Eo as [_ Hout].
  pose proof (value_in_reads _ _ _ _ _ Hok Ei) as (Hok1 & Hu1 & _). unfold CheckInputs in E2. rewrite Hcb in E2. cbn [negb] in E2.
  apply bind_Continue in E2 as ([h c3] & E3%lift_Continue & E2). destruct (GetSpendHeight_ok t c1 h c3 Hok1 Ht E3) as [(Hok3 & Hu3 & _) Hh].
  destruct (CheckTxInputs_spec theParams Hp h Hh tx st c3 Hok3) as (v & c4 & E4 & (Hok4 & Hu4 & _) & _); [|done|done|].
  { apply utxo_good_heights. by rewrite Hu3, Hu1. }
  rewrite E4 in E2. cbn [lift mbind run_bind] in E2. destruct v as [ok st4]. destruct ok; cbn [negb] in E2; [|done].
  apply bind_Continue in E2 as ([cks5 c5] & E5 & E2). injection E2 as <- _ _.
  eapply (scripts_loop_checks (vin tx) tx 0); [exact Hok4| |done|exact E5]. by rewrite Hu4, Hu3, Hu1.
Qed.

Lemma control_Wait_ok checks : control_Wait checks = Ret true -> forall ck, ck ∈ checks -> verified ck.
Proof.
  induction checks as [|ck0 checks IH]; intros E ck Hck; [set_solver|]. cbn [control_Wait] in E.
  destruct (run_check ck0) as [[ok err]|] eqn:E0; [|done]. cbn [mbind outcome_bind] in E.
  destruct (control_Wait checks) as [rest|]; [|done]. cbn [mbind outcome_bind] in E. injection E as E. apply andb_true_iff in E as [-> ->].
  assert (ck = ck0 \/ ck ∈ checks) as [->|Hin] by set_solver; [by exists err|]. by apply IH.
Qed.

Section Block.
Context (t : BlockTree) (Ht : heights_ok t) (Hp : theParams <> NoParams).
Context (pindex : ptr) (h : Z) (Hh : 0 < h < 2 ^ 31) (fs fj : bool) (flags lflags : Z).

(** What connecting transactions did: the updates of the map, the undo data
    they gave, and the balance of values and fees. *)
Record connected (pg : progress (V := V)) (undos : CBlockUndo) (u' : gmap uint256 CCoins) (minted : Z) (pg' : progress (V := V)) : Prop := {
  cn_ok : view_ok (pg_view pg');
  cn_utxo : utxo (pg_view pg') = u';
  cn_best : best (pg_view pg') = best (pg_view pg);
  cn_state : pg_state pg' = pg_state pg;
  cn_undo : pg_blockundo pg' = pg_blockundo pg ++ undos;
  cn_low : - 2 ^ 63 <= pg_nFees pg';
  cn_value : total_value u' + pg_nFees pg' <= total_value (utxo (pg_view pg)) + pg_nFees pg + minted
}.

(** The first transaction has no undo data. *)
Definition kept (i : nat) (undos : CBlockUndo) : CBlockUndo := if (0 <? i)%nat then undos else tail undos.

Definition minted (vtx : list CTransaction) : Z :=
  foldr (fun tx s => (if IsCoinBase tx then sum_values (tx_vout tx) else 0) + s) 0 vtx.

Lemma minted_none vtx : Forall (fun tx => IsCoinBase tx = false) vtx -> minted vtx = 0.
Proof. induction 1 as [|tx vtx Hx _ IH]; [done|]. cbn. by rewrite Hx. Qed.

Lemma connect_tx_ok i tx pg pg' : view_ok (pg_view pg) -> utxo_good (utxo (pg_view pg)) -> - 2 ^ 63 <= pg_nFees pg ->
  tx_good tx -> utxo (pg_view pg) !! GetHash tx = None ->
  connect_tx t pindex h fs fj flags lflags i tx pg = Continue pg' ->
  exists undo u', utxo_update tx h (utxo (pg_view pg)) = Ret (undo, u') /\
    connected pg (kept i [undo]) u' (if IsCoinBase tx then sum_values (tx_vout tx) else 0) pg'.
Proof.
  intros Hok Hg HF Htx Hnew. unfold connect_tx.
  intros (c1 & E1 & E)%bind_Continue. apply connect_inputs_reads in E1 as (Hok1 & Hu1 & Hb1); [|done].
  apply bind_Continue in E as ([cost c2] & E2%lift_Continue & E). apply SigOpCost_reads in E2 as (Hok2 & Hu2 & Hb2); [|done].
  destruct (_ <? _); [done|]. apply bind_Continue in E as ([[[fees cks] st'] c3] & E3 & E).
  apply bind_Continue in E as ([undo c4] & E4%lift_Continue & E). injection E as <-.
  assert (reads c2 c3 /\ st' = pg_state pg /\ - 2 ^ 63 <= fees /\
    (IsCoinBase tx = true -> fees = pg_nFees pg) /\
    (IsCoinBase tx = false -> exists l, spent (utxo c2) (vin tx) = Some l /\
       fees <= pg_nFees pg + (sum_values l.*2 - sum_values (tx_vout tx)))) as (Hr3 & Hst & HF' & Hf1 & Hf2).
  { destruct (IsCoinBase tx) eqn:Ecb.
    - unfold connect_fee in E3. rewrite Ecb in E3. injection E3 as <- _ <- <-. done.
    - destruct (connect_fee_ok _ _ _ _ _ _ _ _ _ _ _ _ Hp Hok2 Ht ltac:(by rewrite Hu2, Hu1) HF Ecb E3) as (? & ? & ? & ?). done. }
  destruct Hr3 as (Hok3 & Hu3 & Hb3). assert (utxo c3 = utxo (pg_view pg)) as Hu by congruence.
  pose proof (UpdateCoins_spec tx h c3 Hok3 ltac:(by rewrite Hu) Htx ltac:(by rewrite Hu)) as Hup. rewrite Hu in Hup.
  destruct (utxo_update tx h (utxo (pg_view pg))) as [[undo' u']|] eqn:Eu; [|congruence].
  destruct Hup as (c4' & E4' & Hok4 & Hu4 & Hb4). rewrite E4 in E4'. injection E4' as <- <-.
  exists undo, u'. split; [done|]. pose proof (update_value tx h _ _ _ Htx Hg Hnew Eu) as Hval.
  split; cbn [pg_view pg_nFees pg_blockundo pg_state]; try done; [congruence|unfold kept; destruct (0 <? i)%nat; [done|by rewrite app_nil_r]|].
  destruct (IsCoinBase tx); [rewrite Hf1 by done; lia|]. destruct (Hf2 eq_refl) as (l & Hl & Hle). rewrite Hu2, Hu1 in Hl.
  specialize (Hval l Hl). lia.
Qed.

Lemma connect_loop_ok i vtx pg pg' : view_ok (pg_view pg) -> utxo_good (utxo (pg_view pg)) -> - 2 ^ 63 <= pg_nFees pg ->
  Forall tx_good vtx -> NoDup (map GetHash vtx) -> Forall (fun tx => utxo (pg_view pg) !! GetHash tx = None) vtx ->
  connect_loop t pindex h fs fj flags lflags i vtx pg = Continue pg' ->
  exists undos u', utxo_block vtx h (utxo (pg_view pg)) = Ret (undos, u') /\ connected pg (kept i undos) u' (minted vtx) pg'.
Proof.
  intros Hok Hg HF Htx. revert i pg Hok Hg HF. induction Htx as [|tx vtx Hx Htx IH]; intros i pg Hok Hg HF Hnd Hnew E; cbn [connect_loop] in E.
  { injection E as <-. exists [], (utxo (pg_view pg)). split; [done|]. split; try done; [|cbn; lia].
    unfold kept. destruct (0 <? i)%nat; by rewrite app_nil_r. }
  cbn [map] in Hnd. apply NoDup_cons in Hnd as [Hni Hnd]. apply Forall_cons in Hnew as [Hn1 Hn2].
  apply bind_Continue in E as (pg1 & E1 & E). destruct (connect_tx_ok i tx pg pg1 Hok Hg HF Hx Hn1 E1) as (undo & u1 & Eu1 & H1).
  destruct (utxo_update_good tx h _ undo u1 Hx Hg Hh Eu1) as [Hg1 HN]. pose proof (cn_utxo _ _ _ _ _ H1) as Hu1.
  destruct (IH (S i) pg1) as (rest & u2 & Eu2 & H2); [apply H1|by rewrite Hu1|apply H1|done| |done|].
  { rewrite Hu1. by eapply new_later. }
  exists (undo :: rest), u2. cbn [utxo_block]. rewrite Eu1. cbn [mbind outcome_bind]. rewrite <- Hu1, Eu2. split; [done|].
  destruct H1 as [_ _ Hb1 Hs1 Hun1 _ Hv1], H2 as [Hok2 Hu2 Hb2 Hs2 Hun2 Hf2 Hv2]. split; try done; [congruence|congruence| |].
  - rewrite Hun2, Hun1, <- app_assoc. f_equal. unfold kept. by destruct (Nat.ltb_spec 0 i).
  - rewrite Hu1 in Hv2. change (minted (tx :: vtx)) with ((if IsCoinBase tx then sum_values (tx_vout tx) else 0) + minted vtx). lia.
Qed.

Lemma connect_tx_checks i tx pg pg' : view_ok (pg_view pg) -> utxo_good (utxo (pg_view pg)) -> - 2 ^ 63 <= pg_nFees pg ->
  connect_tx t pindex h fs fj flags lflags i tx pg = Continue pg' -> fs = true ->
  pg_checks pg ⊆ pg_checks pg' /\
  (IsCoinBase tx = false -> exists L, spent (utxo (pg_view pg)) (vin tx) = Some L /\ inputs_checked flags fj L tx 0 (pg_checks pg')).
Proof.
  intros Hok Hg HF. unfold connect_tx.
  intros (c1 & E1 & E)%bind_Continue. apply connect_inputs_reads in E1 as (Hok1 & Hu1 & Hb1); [|done].
  apply bind_Continue in E as ([cost c2] & E2%lift_Continue & E). apply SigOpCost_reads in E2 as (Hok2 & Hu2 & Hb2); [|done].
  destruct (_ <? _); [done|]. apply bind_Continue in E as ([[[fees cks] st'] c3] & E3 & E).
  apply bind_Continue in E as ([undo c4] & _ & E). injection E as <-. cbn [pg_checks]. intros Hfs. split; [set_solver|]. intros Hcb.
  assert (utxo_good (utxo c2)) as Hg2 by (by rewrite Hu2, Hu1).
  destruct (connect_fee_ok _ _ _ _ _ _ _ _ _ _ _ _ Hp Hok2 Ht Hg2 HF Hcb E3) as (_ & _ & _ & L & HL & _).
  pose proof (connect_fee_checks _ _ _ _ _ _ _ _ _ _ _ _ L Hok2 Ht Hg2 Hp HL Hcb E3 Hfs) as Hck.
  exists L. rewrite Hu2, Hu1 in HL. split; [done|]. intros j cs out Hj. destruct (Hck j cs out Hj); [by left|right; set_solver].
Qed.

(** Every script of the transactions, against the outputs as they were
    before its transaction. *)
Definition block_checked (vtx : list CTransaction) (u : gmap uint256 CCoins) (checks : list CScriptCheck) : Prop :=
  forall k tx, vtx !! k = Some tx -> IsCoinBase tx = false ->
    exists undos u' L, utxo_block (take k vtx) h u = Ret (undos, u') /\ spent u' (vin tx) = Some L /\ inputs_checked flags fj L tx 0 checks.

Lemma inputs_checked_mono L tx i checks checks' : checks ⊆ checks' -> inputs_checked flags fj L tx i checks -> inputs_checked flags fj L tx i checks'.
Proof. intros Hs Hc j cs out Hj. destruct (Hc j cs out Hj); [by left|right; set_solver]. Qed.

Lemma connect_loop_checks i vtx pg pg' : view_ok (pg_view pg) -> utxo_good (utxo (pg_view pg)) -> - 2 ^ 63 <= pg_nFees pg ->
  Forall tx_good vtx -> NoDup (map GetHash vtx) -> Forall (fun tx => utxo (pg_view pg) !! GetHash tx = None) vtx -> fs = true ->
  connect_loop t pindex h fs fj flags lflags i vtx pg = Continue pg' ->
  pg_checks pg ⊆ pg_checks pg' /\ block_checked vtx (utxo (pg_view pg)) (pg_checks pg').
Proof.
  intros Hok Hg HF Htx. revert i pg Hok Hg HF. induction Htx as [|tx vtx Hx Htx IH]; intros i pg Hok Hg HF Hnd Hnew Hfs E; cbn [connect_loop] in E.
  { injection E as <-. split; [done|]. by intros k tx ?. }
  cbn [map] in Hnd. apply NoDup_cons in Hnd as [Hni Hnd]. apply Forall_cons in Hnew as [Hn1 Hn2].
  apply bind_Continue in E as (pg1 & E1 & E). destruct (connect_tx_ok i tx pg pg1 Hok Hg HF Hx Hn1 E1) as (undo & u1 & Eu1 & H1).
  destruct (connect_tx_checks i tx pg pg1 Hok Hg HF E1 Hfs) as [Hsub1 Hck1].
  destruct (utxo_update_good tx h _ undo u1 Hx Hg Hh Eu1) as [Hg1 HN]. pose proof (cn_utxo _ _ _ _ _ H1) as Hu1.
  destruct (IH (S i) pg1) as [Hsub2 Hck2]; [apply H1|by rewrite Hu1|apply H1|done| |done|exact E|].
  { rewrite Hu1. by eapply new_later. }
  split; [set_solver|]. intros [|k] tx' Hk Hcb.
  - injection Hk as <-. destruct (Hck1 Hcb) as (L & HL & HC). exists [], (utxo (pg_view pg)), L. split_and!; [done|done|].
    by eapply inputs_checked_mono.
  - destruct (Hck2 k tx' Hk Hcb) as (undos & u' & L & Eu & HL & HC). exists (undo :: undos), u', L. split_and!; [|done|done].
    cbn [take utxo_block]. rewrite Eu1. cbn [mbind outcome_bind]. rewrite <- Hu1, Eu. done.
Qed.

Lemma BIP30_ok vtx st c c' : view_ok c -> BIP30_loop vtx st c = Continue c' ->
  reads c c' /\ Forall (fun tx => utxo c !! GetHash tx = None) vtx.
Proof.
  revert c. induction vtx as [|tx vtx IH]; intros c Hok; cbn [BIP30_loop]; [intros [= <-]; split; [done|constructor]|].
  destruct (AccessCoins_reads (GetHash tx) c Hok) as (o & c1 & -> & Hr & Hu).
  destruct (match o with Some coins => negb (IsPruned coins) | None => false end) eqn:Eo; [done|]. intros E.
  destruct (IH c1 (proj1 Hr) E) as [Hr2 Hn]. split; [by eapply reads_trans|]. constructor.
  - rewrite <- Hu. destruct o as [cs|]; [|done]. apply unspent_pruned. by apply negb_false_iff.
  - by destruct Hr as (_ & <- & _).
Qed.

End Block.

(** *** Early returns *)

Definition ok_of {A} (r : verdict * A) : bool := r.1.1.

Lemma BIP30_refuses vtx st c : refuses ok_of (BIP30_loop vtx st c).
Proof. revert c. induction vtx as [|tx vtx IH]; intros c; cbn [BIP30_loop]; refuses_solve. Qed.

Lemma inputs_refuses t p f tx st c : refuses ok_of (connect_inputs t p f tx st c).
Proof. unfold connect_inputs. refuses_solve. Qed.

Lemma check_script_refuses cs tx i flags store pv acc st c : refuses ok_of (check_script cs tx i flags store pv acc st c).
Proof. unfold check_script. refuses_solve. Qed.

#[local] Hint Resolve BIP30_refuses inputs_refuses check_script_refuses : refuses.

Lemma scripts_refuses l tx i flags store pv acc st c : refuses ok_of (scripts_loop l tx i flags store pv acc st c).
Proof. revert i acc c. induction l as [|txin l IH]; intros i acc c; cbn [scripts_loop]; refuses_solve. Qed.

#[local] Hint Resolve scripts_refuses : refuses.

Lemma fee_refuses t fs fj flags tx n st c : refuses ok_of (connect_fee t fs fj flags tx n st c).
Proof. unfold connect_fee, CheckInputs. refuses_solve. Qed.

#[local] Hint Resolve fee_refuses : refuses.

Lemma loop_refuses t p h fs fj flags lf i vtx pg : refuses ok_of (connect_loop t p h fs fj flags lf i vtx pg).
Proof.
  revert i pg. induction vtx as [|tx vtx IH]; intros i pg; cbn [connect_loop]; unfold connect_tx; refuses_solve.
Qed.

Lemma in_world_refuses {A} w (x : run (verdict * CCoinsViewCache V) A) : refuses ok_of x -> refuses ok_of (in_world w x).
Proof. intros Hx. destruct x as [a|r|]; cbn; [done| |done]. intros ? [= <-]. by apply Hx. Qed.

Lemma write_undo_refuses t p b hp undo st : refuses fst (write_undo t p b hp undo st).
Proof. unfold write_undo. refuses_solve. Qed.

Lemma end_refuses block p b hp cp pg (w : world (V := V)) : refuses ok_of (connect_end block p b hp cp false pg w).
Proof.
  unfold connect_end. do 3 (apply refuses_bind; [auto with refuses|intros ?]). destruct (_ <? _); [refuses_solve|].
  apply refuses_bind; [auto with refuses|intros []]; cbn [negb]; [|refuses_solve]. cbn [w_tree].
  pose proof (write_undo_refuses (w_tree w) p b hp (pg_blockundo pg) (pg_state pg)) as Hw.
  destruct (write_undo _ _ _ _ _ _) as [[? ?]|v|]; [refuses_solve| |done]. apply refuses_Return. by apply Hw.
Qed.

#[local] Hint Resolve BIP30_refuses loop_refuses in_world_refuses end_refuses : refuses.

Lemma body_refuses block st p cp (w : world (V := V)) :
  (forall q, GetConsensus theParams 0 = Some q -> blob_eq (header_GetHash (b_header block)) (hashGenesisBlock q) = false) ->
  refuses ok_of (connect_body block st p cp false w).
Proof.
  intros Hgen. unfold connect_body. do 3 (apply refuses_bind; [auto with refuses|intros ?]). destruct a1 as [[[] st1] mark]; cbn [negb].
  2:{ apply refuses_Return. by destruct (corruptionPossible st1). }
  apply refuses_bind; [auto with refuses|intros hp]. destruct (cache_GetBestBlock _) as [bh c].
  apply refuses_bind; [auto with refuses|intros _].
  destruct (GetConsensus theParams 0) as [q|] eqn:Eq; [|done]. cbn [deref lift mbind run_bind]. rewrite (Hgen q eq_refl).
  refuses_solve. apply in_world_refuses. refuses_solve.
Qed.

(** *** The whole block *)

Definition parent_hash (t : BlockTree) (b : CBlockIndex) : option uint256 :=
  match pprev b with None => Some uint256_null | Some p => phashBlock <$> tIndex t !! p end.

Lemma connect_end_ok block p b hp cp pg (w : world (V := V)) r : view_ok (pg_view pg) ->
  connect_end block p b hp cp false pg w = Continue r ->
  view_ok (w_view r.2) /\ utxo (w_view r.2) = utxo (pg_view pg) /\
  (IsNull (phashBlock b) = false -> best (w_view r.2) = phashBlock b) /\ (forall ck, ck ∈ pg_checks pg -> verified ck) /\
  exists params tx0, GetConsensus cp (u32 (nHeight b)) = Some params /\ b_vtx block !! 0%nat = Some tx0 /\
    sum_values (tx_vout tx0) <= i64 (pg_nFees pg + GetDogecoinBlockSubsidy generateMTRandom (nHeight b) params hp).
Proof.
  intros Hok. unfold connect_end. intros (params & E1%lift_Continue & E)%bind_Continue.
  apply bind_Continue in E as (tx0 & E2%lift_Continue & E). apply bind_Continue in E as (vo & E3%lift_Continue & E).
  apply GetValueOut_spec in E3 as [-> _]. destruct (Z.ltb_spec (i64 (pg_nFees pg + GetDogecoinBlockSubsidy generateMTRandom (nHeight b) params hp)) (sum_values (tx_vout tx0))); [done|].
  apply bind_Continue in E as (ok & Ewait%lift_Continue & E). destruct ok; cbn [negb] in E; [|done].
  destruct (write_undo _ _ _ _ _ _) as [[t' st']|v|]; [|done|done]. destruct (_ && _); [done|]. injection E as <-.
  cbn [snd w_view]. destruct (SetBestBlock_spec (phashBlock b) (pg_view pg) Hok) as (? & ? & ?).
  split_and!; try done; [by apply control_Wait_ok|].
  exists params, tx0. destruct (GetConsensus cp _); [|done]. destruct (b_vtx block !! 0%nat); [|done]. cbn in E1, E2. split_and!; [congruence|congruence|lia].
Qed.

Lemma sane_good vtx : block_typed vtx -> block_sane vtx -> Forall tx_good vtx.
Proof.
  intros Ht [_ Ha]. apply Forall_forall. intros tx Hin. unfold block_typed in Ht. rewrite Forall_forall in Ht, Ha.
  destruct (Ht tx Hin) as [Hl Hi], (ta_money _ _ (Ha tx Hin)) as [Hv _]. split_and!; [|done|]; eapply Forall_impl; [exact Hv| |exact Hi|]; cbn; lia.
Qed.

(** Every input of the transactions passes the script of the output it
    spends, among the outputs that are unspent before its transaction. *)
Definition block_authorized (flags h : Z) (vtx : list CTransaction) (u : gmap uint256 CCoins) : Prop :=
  forall k tx i txin, vtx !! k = Some tx -> IsCoinBase tx = false -> vin tx !! i = Some txin ->
    exists undos u' cs out, utxo_block (take k vtx) h u = Ret (undos, u') /\ out_at u' (prevout txin) = Some (cs, out) /\
      VerifyScript flags (TransactionSignatureChecker tx i (nValue out) (Some (PrecomputedTransactionData_new tx)))
        (scriptSig txin) (scriptPubKey out) (scriptWitness txin) = Continue tt.

Lemma checked_authorized flags fj h vtx u checks : block_checked h fj flags vtx u checks -> (forall ck, ck ∈ checks -> verified ck) ->
  block_authorized flags h vtx u.
Proof.
  intros HC Hv k tx i txin Hk Hcb Hi. destruct (HC k tx Hk Hcb) as (undos & u' & L & Eu & HL & Hin).
  destruct (Forall2_lookup_l _ _ _ i txin (mapM_Some_1 _ _ _ HL) Hi) as ([cs out] & Hj & Ho). exists undos, u', cs, out. split_and!; [done|done|].
  assert (verified (mkCheck (scriptPubKey out) (nValue out) tx i flags fj)) as (err & E) by (destruct (Hin i cs out Hj); auto).
  unfold run_check in E. cbn [ck_tx ck_nIn ck_amount ck_nFlags ck_scriptPubKey] in E. rewrite Hi in E. cbn [deref mbind outcome_bind] in E.
  destruct (VerifyScript _ _ _ _ _) as [[]| |]; done.
Qed.

(** What an accepted block did to the coins. *)
Lemma ConnectBlock_ok block st p cp (w w' : world (V := V)) st' b params hp :
  view_ok (w_view w) -> utxo_good (utxo (w_view w)) -> heights_ok (w_tree w) -> tIndex (w_tree w) !! p = Some b -> 0 < nHeight b ->
  parent_hash (w_tree w) b = Some hp -> GetConsensus cp (nHeight b) = Some params ->
  0 <= GetDogecoinBlockSubsidy generateMTRandom (nHeight b) params hp ->
  block_typed (b_vtx block) -> NoDup (map GetHash (b_vtx block)) -> (fChecked block = true -> block_sane (b_vtx block)) ->
  (enforce_BIP30 (w_tree w) b cp = Ret false -> Forall (fun tx => utxo (w_view w) !! GetHash tx = None) (b_vtx block)) ->
  (forall q, GetConsensus theParams 0 = Some q -> blob_eq (header_GetHash (b_header block)) (hashGenesisBlock q) = false) ->
  ConnectBlock block st p cp false w = Ret ((true, st'), w') ->
  block_sane (b_vtx block) /\
  exists undos u', utxo_block (b_vtx block) (nHeight b) (utxo (w_view w)) = Ret (undos, u') /\
    view_ok (w_view w') /\ utxo (w_view w') = u' /\ (IsNull (phashBlock b) = false -> best (w_view w') = phashBlock b) /\
    total_value u' <= total_value (utxo (w_view w)) + GetDogecoinBlockSubsidy generateMTRandom (nHeight b) params hp /\
    exists consensus flags lflags vcache, GetConsensus theParams (nHeight b) = Some consensus /\
      block_flags (w_tree w) b cp consensus (w_cache w) = Ret (flags, lflags, vcache) /\
      (script_checks (w_tree w) p b consensus = Ret true -> block_authorized flags (nHeight b) (b_vtx block) (utxo (w_view w))).
Proof.
  intros Hok Hg Ht Hb Hh Hhp Hcp Hsub Htyped Hnd Hmark Hbip Hgen HC. pose proof (Ht p b Hb) as Hh2.
  apply (finish_accepts ok_of) in HC; [|by apply body_refuses|done]. revert HC. unfold connect_body. rewrite Hb.
  intros (b' & E1%lift_Continue & E)%bind_Continue. injection E1 as <-.
  apply bind_Continue in E as (consensus & Econs%lift_Continue & E). apply bind_Continue in E as ([[ok st1] mark] & Echk%lift_Continue & E).
  destruct ok; cbn [negb] in E; [|done]. assert (block_sane (b_vtx block)) as Hsane.
  { destruct (fChecked block) eqn:Ef; [by apply Hmark|]. by eapply CheckBlock_sane. }
  split; [done|]. assert (theParams <> NoParams) as Hp by (intros ->; done).
  apply bind_Continue in E as (hp' & Ehp%lift_Continue & E). assert (hp' = hp) as ->.
  { unfold parent_hash in Hhp. destruct (pprev b) as [q|]; [|congruence]. destruct (tIndex (w_tree w) !! q); cbn in *; congruence. }
  cbn [w_view w_tree w_cache] in E. pose proof (cache_GetBestBlock_law (w_view w) Hok) as HG.
  destruct (cache_GetBestBlock (w_view w)) as [bh c0]. destruct HG as (Hok0 & Hu0 & _ & _).
  apply bind_Continue in E as ([] & _ & E). apply bind_Continue in E as (q & Eq%lift_Continue & E).
  destruct (GetConsensus theParams 0) as [q'|]; [|done]. injection Eq as <-. rewrite (Hgen q' eq_refl) in E.
  apply bind_Continue in E as (fs & Efs%lift_Continue & E). apply bind_Continue in E as (bip & Ebip%lift_Continue & E).
  apply bind_Continue in E as (c1 & E30 & E).
  assert (reads c0 c1 /\ Forall (fun tx => utxo (w_view w) !! GetHash tx = None) (b_vtx block)) as [(Hok1 & Hu1 & _) Hnew].
  { change (utxo (w_view w)) with (cache_utxo (w_view w)). rewrite <- Hu0. destruct bip.
    - destruct (BIP30_loop (b_vtx block) st1 c0) as [c1'| |] eqn:El; [|done|done]. injection E30 as ->. by eapply BIP30_ok.
    - injection E30 as <-. split; [by split|]. change (cache_utxo c0) with (utxo c0) in *. rewrite Hu0. by apply Hbip. }
  apply bind_Continue in E as ([[flags lf] vc] & Eflags%lift_Continue & E). apply bind_Continue in E as (pg & Epg & E).
  destruct (connect_loop _ _ _ _ _ _ _ _ _ _) as [pg'| |] eqn:El; [|done|done]. injection Epg as ->.
  assert (utxo c1 = utxo (w_view w)) as Hu by (rewrite Hu1; exact Hu0).
  pose proof El as El'. eapply connect_loop_ok in El as (undos & u' & Eu & HC); cbn [pg_view pg_nFees] in *; [|done|done|lia|done|by rewrite Hu|lia|by apply sane_good|done|by rewrite Hu].
  rewrite Hu in Eu. exists undos, u'. split; [done|]. destruct HC as [Hok' Hu' _ _ _ Hlow Hval]. cbn [pg_view pg_nFees] in *.
  destruct (connect_end_ok _ _ _ _ _ _ _ _ Hok' E) as (? & Huw & ? & Hck & params' & tx0 & Ep & E0 & Hle). cbn [snd] in *.
  rewrite wrapU_small, Hcp in Ep by (unfold inU; pow2_cbv; lia). injection Ep as <-.
  split_and!; [done|congruence|done| |].
  2:{ exists consensus, flags, lf, vc. rewrite wrapU_small in Econs by (unfold inU; pow2_cbv; lia).
      destruct (GetConsensus theParams (nHeight b)); [|done]. injection Econs as <-. split_and!; [done|done|]. intros Hfs. rewrite Hfs in Efs. injection Efs as <-.
      eapply connect_loop_checks in El' as [_ Hbc]; cbn [pg_view pg_nFees] in *; [|done|done|lia|done|by rewrite Hu|lia|by apply sane_good|done|by rewrite Hu|done].
      rewrite Hu in Hbc. by eapply checked_authorized. }
  rewrite Hu in Hval.
  destruct (sane_coinbase _ Hsane) as (cb & txs & Ev & Hcb & Htxs). rewrite Ev in Hval, E0. injection E0 as <-.
  assert (minted (cb :: txs) = sum_values (tx_vout cb)) as Hm.
  { cbn. rewrite Hcb. fold (minted txs). rewrite (minted_none txs Htxs). lia. }
  destruct (i64_le (pg_nFees pg + GetDogecoinBlockSubsidy generateMTRandom (nHeight b) params hp) ltac:(lia)). lia.
Qed.

(** ** Theorems *)

(** C4: connecting a block cannot create money.  When [ConnectBlock] accepts a
    block other than the genesis block, the value of all unspent outputs
    grows by at most the subsidy of its height, which is at most a million
    coins, although the sum of the fees is not checked for overflow.  The
    block's transactions have different hashes; where the check of BIP 30 is
    skipped they are new; a block marked as checked has passed [CheckBlock]. *)
Theorem no_inflation (block : CBlock) (st st' : CValidationState) (p : ptr) (cp : ParamsTree) (w w' : world (V := V))
  (b : CBlockIndex) (params : Params.Params) (hp : uint256)
  (Hok : view_ok (w_view w)) (Hg : utxo_good (utxo (w_view w))) (Ht : heights_ok (w_tree w))
  (Hb : tIndex (w_tree w) !! p = Some b) (Hh : 0 < nHeight b) (Hhp : parent_hash (w_tree w) b = Some hp)
  (Hnet : cp ∈ networks) (Hcp : GetConsensus cp (nHeight b) = Some params)
  (Hrand : forall s range, 1 <= range -> 1 <= generateMTRandom s range <= range)
  (Htyped : block_typed (b_vtx block)) (Hnd : NoDup (map GetHash (b_vtx block)))
  (Hmark : fChecked block = true -> block_sane (b_vtx block))
  (Hbip : enforce_BIP30 (w_tree w) b cp = Ret false -> Forall (fun tx => utxo (w_view w) !! GetHash tx = None) (b_vtx block))
  (Hgen : forall q, GetConsensus theParams 0 = Some q -> blob_eq (header_GetHash (b_header block)) (hashGenesisBlock q) = false)
  (Hconnect : ConnectBlock block st p cp false w = Ret ((true, st'), w')) :
  total_value (utxo (w_view w')) <=
    total_value (utxo (w_view w)) + GetDogecoinBlockSubsidy generateMTRandom (nHeight b) params hp /\
  GetDogecoinBlockSubsidy generateMTRandom (nHeight b) params hp <= 1000000 * COIN.
Proof.
  destruct (subsidy_bounds generateMTRandom cp (nHeight b) params hp Hrand Hnet ltac:(lia) Hcp) as [Hlo Hhi].
  assert (0 <= GetDogecoinBlockSubsidy generateMTRandom (nHeight b) params hp) as Hsub by (unfold COIN in Hlo; lia).
  destruct (ConnectBlock_ok block st p cp w w' st' b params hp Hok Hg Ht Hb Hh Hhp Hcp Hsub Htyped Hnd Hmark Hbip Hgen Hconnect)
    as (_ & undos & u' & _ & _ & -> & _ & Hv & _). done.
Qed.


(** C5: nothing is spent without its script.  When [ConnectBlock] accepts a
    block, and the block is not among those assumed valid, every input of
    every transaction refers to an output that is unspent when its
    transaction is applied, and [VerifyScript] accepts the input for that
    output, with the flags of the block, the amount of the output and the
    signatures checked against the transaction.  This holds whether the
    checks run at once or are left to the threads. *)
Theorem spends_authorized (block : CBlock) (st st' : CValidationState) (p : ptr) (cp : ParamsTree) (w w' : world (V := V))
  (b : CBlockIndex) (params : Params.Params) (hp : uint256)
  (Hok : view_ok (w_view w)) (Hg : utxo_good (utxo (w_view w))) (Ht : heights_ok (w_tree w))
  (Hb : tIndex (w_tree w) !! p = Some b) (Hh : 0 < nHeight b) (Hhp : parent_hash (w_tree w) b = Some hp)
  (Hnet : cp ∈ networks) (Hcp : GetConsensus cp (nHeight b) = Some params)
  (Hrand : forall s range, 1 <= range -> 1 <= generateMTRandom s range <= range)
  (Htyped : block_typed (b_vtx block)) (Hnd : NoDup (map GetHash (b_vtx block)))
  (Hmark : fChecked block = true -> block_sane (b_vtx block))
  (Hbip : enforce_BIP30 (w_tree w) b cp = Ret false -> Forall (fun tx => utxo (w_view w) !! GetHash tx = None) (b_vtx block))
  (Hgen : forall q, GetConsensus theParams 0 = Some q -> blob_eq (header_GetHash (b_header block)) (hashGenesisBlock q) = false)
  (Hscripts : forall q, GetConsensus theParams (nHeight b) = Some q -> script_checks (w_tree w) p b q = Ret true)
  (Hconnect : ConnectBlock block st p cp false w = Ret ((true, st'), w')) :
  exists consensus flags lflags vcache, GetConsensus theParams (nHeight b) = Some consensus /\
    block_flags (w_tree w) b cp consensus (w_cache w) = Ret (flags, lflags, vcache) /\
    forall k tx i txin, b_vtx block !! k = Some tx -> IsCoinBase tx = false -> vin tx !! i = Some txin ->
      exists undos u cs out, utxo_block (take k (b_vtx block)) (nHeight b) (utxo (w_view w)) = Ret (undos, u) /\
        out_at u (prevout txin) = Some (cs, out) /\
        VerifyScript flags (TransactionSignatureChecker tx i (nValue out) (Some (PrecomputedTransactionData_new tx)))
          (scriptSig txin) (scriptPubKey out) (scriptWitness txin) = Continue tt.
Proof.
  destruct (subsidy_bounds generateMTRandom cp (nHeight b) params hp Hrand Hnet ltac:(lia) Hcp) as [Hlo _].
  assert (0 <= GetDogecoinBlockSubsidy generateMTRandom (nHeight b) params hp) as Hsub by (unfold COIN in Hlo; lia).
  destruct (ConnectBlock_ok block st p cp w w' st' b params hp Hok Hg Ht Hb Hh Hhp Hcp Hsub Htyped Hnd Hmark Hbip Hgen Hconnect)
    as (_ & undos & u' & _ & _ & _ & _ & _ & consensus & flags & lflags & vcache & Hc & Hf & Ha).
  exists consensus, flags, lflags, vcache. split; [done|]. split; [done|]. exact (Ha (Hscripts consensus Hc)).
Qed.

End Accounting.

End Node.

(** ** A block that connects *)

Definition supply_coins : CCoins := mkCoins false [mkTxOut 5 [81]; CTxOut_null; mkTxOut 9 [82]] 1 1.
Definition supply_db : CCoinsViewDB := mkDB {[ demo_txid := supply_coins ]} None.
Definition supply_cache : CCoinsViewCache CCoinsViewDB := SetBestBlock [3] (newCache supply_db).
Definition supply_cb : CTransaction :=
  Eval vm_compute in MakeTransaction 1 [mkTxIn COutPoint_null [1; 2] SEQUENCE_FINAL []] [mkTxOut 200000003 [81]; mkTxOut 0 [106]] 0.
Definition supply_tx : CTransaction :=
  Eval vm_compute in MakeTransaction 1
    [mkTxIn (mkOutPoint demo_txid 2) [] SEQUENCE_FINAL []; mkTxIn (mkOutPoint demo_txid 0) [] SEQUENCE_FINAL []] [mkTxOut 11 [83]] 0.
Definition supply_header : CBlockHeader :=
  Eval vm_compute in mkHeader {| hVersion := 1; hashPrevBlock := [3]; hMerkleRoot := Hash2 (GetHash supply_cb) (GetHash supply_tx); hTime := 230;
                                 hBits := 0x1e0ffff0; hNonce := 4 |} None.
(** The block as it comes out of [CheckBlock]. *)
Definition supply_block : CBlock := mkBlock supply_header [supply_cb; supply_tx] true.
Definition supply_world : world := mkWorld supply_cache timed_tree [∅; ∅; ∅] false.

(** A node that accepts every signature, and whose writes succeed. *)
#[local] Instance demo_crypto : Crypto := {| CheckLowS _ := true; Verify _ _ _ := true |}.
Definition demo_connect : outcome (verdict * world) :=
  ConnectBlock (fun _ _ => 1) (fun _ => 10) (fun st f _ => ((true, st), mkPos f 8)) (fun _ pos _ => Some pos) (fun _ => true)
    CMainParams uint256_null 2 true supply_block CValidationState_new 3%nat CMainParams false supply_world.
Definition world_of (o : outcome (verdict * world)) : world := match o with Ret (_, w) => w | Abort => supply_world end.
Definition connected_world : world := world_of demo_connect.
Definition supply_index : CBlockIndex := default (newIndex [] (demo_header 0 0 0)) (tIndex timed_tree !! 3%nat).

Lemma demo_evaluates : demo_connect = Ret ((true, CValidationState_new), connected_world).
Proof. vm_compute. reflexivity. Qed.

Lemma demo_connects :
  ConnectBlock (fun _ _ => 1) (fun _ => 10) (fun st f _ => ((true, st), mkPos f 8)) (fun _ pos _ => Some pos) (fun _ => true)
    CMainParams uint256_null 2 true supply_block CValidationState_new 3%nat CMainParams false supply_world =
  Ret ((true, CValidationState_new), connected_world).
Proof. pose proof demo_evaluates as H. unfold demo_connect in H. exact H. Qed.

Lemma supply_cache_ok : view_ok supply_cache.
Proof.
  refine (proj1 (SetBestBlock_spec [3] (newCache supply_db) (newCache_ok supply_db _))).
  apply map_Forall_singleton. repeat split; repeat constructor; done.
Qed.

Lemma supply_utxo : utxo supply_cache = {[ demo_txid := supply_coins ]}.
Proof. exact (overlay_empty _). Qed.

Lemma supply_utxo_good : utxo_good (utxo supply_cache).
Proof. rewrite supply_utxo. apply map_Forall_singleton. split; [repeat split; repeat constructor; done|]. cbn. lia. Qed.

Lemma timed_tree_heights : heights_ok timed_tree.
Proof.
  assert (map_Forall (fun _ b => (0 <=? nHeight b) && (nHeight b <? 2 ^ 31 - 1) = true) (tIndex timed_tree)) as Hm.
  { apply (bool_decide_unpack _). vm_compute. exact I. }
  intros p b Hp. pose proof (Hm p b Hp) as [H1%Z.leb_le H2%Z.ltb_lt]%andb_true_iff. exact (conj H1 H2).
Qed.

Lemma supply_block_typed : block_typed (b_vtx supply_block).
Proof. repeat constructor; cbn; try lia; done. Qed.

Lemma supply_nodup : NoDup (map GetHash (b_vtx supply_block)).
Proof. apply (bool_decide_unpack _). vm_compute. exact I. Qed.

Lemma supply_bip30 : enforce_BIP30 timed_tree supply_index CMainParams = Ret true.
Proof. vm_compute. reflexivity. Qed.

Lemma supply_block_sane : fChecked supply_block = true -> block_sane (b_vtx supply_block).
Proof.
  intros _. apply (CheckBlock_sane (fun _ _ => 1) (fun st f _ => ((true, st), mkPos f 8)) CMainParams 2 (mkBlock supply_header [supply_cb; supply_tx] false) CValidationState_new false true
    CValidationState_new false supply_block_typed); [|reflexivity]. vm_compute. reflexivity.
Qed.

(** The remaining hypotheses of the theorems at this block. *)
Ltac supply_hyps :=
  lazymatch goal with
  | |- _ ∈ networks => apply list_elem_of_here
  | |- forall _ _, _ -> _ => intros; lia
  | |- enforce_BIP30 _ _ _ = _ -> _ =>
      intros E; change (enforce_BIP30 timed_tree supply_index CMainParams = Ret false) in E; rewrite supply_bip30 in E; discriminate
  | |- forall q, _ -> script_checks _ _ _ _ _ = _ => intros; reflexivity
  | |- forall q, _ = Some q -> _ => intros ? [= <-]; vm_compute; reflexivity
  | |- _ => vm_compute; reflexivity
  end.

Lemma no_inflation_witness :
  total_value (utxo (w_view connected_world)) = 14 + 200000000 /\
  total_value (utxo (w_view connected_world)) <= 14 + 2 * COIN.
Proof.
  split; [vm_compute; reflexivity|].
  unshelve (epose proof (no_inflation (fun _ _ => 1) (fun _ => 10)
    (fun st f _ => ((true, st), mkPos f 8)) (fun _ pos _ => Some pos) (fun _ => true) CMainParams uint256_null 2 true
    supply_block CValidationState_new CValidationState_new 3%nat CMainParams supply_world connected_world supply_index main_consensus [3]
    supply_cache_ok supply_utxo_good timed_tree_heights _ _ _ _ _ _ supply_block_typed supply_nodup supply_block_sane _ _ demo_connects) as [Hle _]); [supply_hyps..|].
  apply (Z.le_trans _ _ _ Hle), Z.leb_le. vm_compute. reflexivity.
Defined.


(** The second input of the transaction of this block, and the output it
    spends. *)
Lemma spends_authorized_witness :
  exists flags cs out, out_at (utxo (w_view connected_world)) (mkOutPoint (GetHash supply_cb) 0) <> None /\
    nValue out = 5 /\ scriptPubKey out = [81] /\ fCoinBase cs = false /\
    VerifyScript flags (TransactionSignatureChecker supply_tx 1 (nValue out) (Some (PrecomputedTransactionData_new supply_tx))) [] (scriptPubKey out) [] =
    Continue tt.
Proof.
  unshelve (epose proof (spends_authorized (fun _ _ => 1) (fun _ => 10)
    (fun st f _ => ((true, st), mkPos f 8)) (fun _ pos _ => Some pos) (fun _ => true) CMainParams uint256_null 2 true
    supply_block CValidationState_new CValidationState_new 3%nat CMainParams supply_world connected_world supply_index main_consensus [3]
    supply_cache_ok supply_utxo_good timed_tree_heights _ _ _ _ _ _ supply_block_typed supply_nodup supply_block_sane _ _ _ demo_connects)
    as (consensus & flags & lflags & vcache & _ & _ & Hall)); [supply_hyps..|].
  destruct (Hall 1%nat supply_tx 1%nat (mkTxIn (mkOutPoint demo_txid 0) [] SEQUENCE_FINAL []) eq_refl eq_refl eq_refl) as (undos & u & cs & out & Eu & Eo & HV).
  exists flags, cs, out. split; [vm_compute; discriminate|].
  assert (match utxo_block (take 1 (b_vtx supply_block)) (nHeight supply_index) (utxo (w_view supply_world)) with
          | Ret (_, u) => out_at u (mkOutPoint demo_txid 0) = Some (supply_coins, mkTxOut 5 [81]) | Abort => False end) as H by (vm_compute; reflexivity).
  rewrite Eu in H. cbn [prevout] in Eo. rewrite H in Eo. injection Eo as <- <-. split; [reflexivity|]. split; [reflexivity|]. split; [reflexivity|]. exact HV.
Defined.
