(* ===== verification/Headers.v ===== *)
(** * Accepting headers ([AcceptBlockHeader] and
      [ContextualCheckBlockHeader] of [validation.cpp], [checkpoints.cpp])

    How a header enters the block index: its proof of work, its place below a
    known parent, the difficulty the parent demands, its time and its
    version.  The trees the node builds this way are shown to keep the
    conditions that other parts of the code rely on. *)

From S2P Require Import Prelude ArithUint256 StrEncodings Uint256 Amount Merkle Chain MedianTime Params Versionbits Pow Tx LockTime Script.
From S2P Require Import Serialize CheckTx Coins TxInputs Hashes Scrypt AuxPow ConnectBlock.
From stdpp Require Import list gmap.
#[local] Open Scope Z_scope.

Definition REJECT_OBSOLETE : Z := 0x11.
Definition REJECT_CHECKPOINT : Z := 0x43.
Definition BLOCK_FAILED_VALID : Z := 32.
Definition BLOCK_FAILED_CHILD : Z := 64.

(** [strprintf("%08x", v)]. *)
Definition hex08 (v : Z) : list Z := concat (map (fun s => hex2 (u8 (Z.shiftr (u32 v) s))) [24; 16; 8; 0]).

Section Headers.

(** The settings of the node: [Params()], [fCheckpointsEnabled], the
    checkpoints of the network in the order of their heights, and the blocks
    known to have failed. *)
Variable theParams : ParamsTree.
Variable fCheckpointsEnabled : bool.
Variable checkpoints : list (Z * uint256).
Variable gFailedBlocks : list ptr.

(** The highest checkpoint that is in the index. *)
Definition GetLastCheckpoint (t : BlockTree) : option ptr :=
  foldr (fun i rest => match rest with Some p => Some p | None => mapBlockIndex t !! i.2 end) None checkpoints.

Definition ContextualCheckBlockHeader (t : BlockTree) (block : CBlockHeader) (st : CValidationState) (pindexPrev : option ptr) (nAdjustedTime : Z)
  : outcome verdict :=
  nHeight ← match pindexPrev with None => Ret 0 | Some p => b ← deref (tIndex t !! p); Ret (i32 (nHeight b + 1)) end;
  consensusParams ← deref (GetConsensus theParams (u32 nHeight));
  if negb (fAllowLegacyBlocks consensusParams) && IsLegacy block
  then Ret (DoS 100 false REJECT_INVALID (str "late-legacy-block") false [] st)
  else if fAllowLegacyBlocks consensusParams && IsAuxpow block
  then _ ← deref pindexPrev; Ret (DoS 100 false REJECT_INVALID (str "early-auxpow-block") false [] st)
  else
    work ← GetNextWorkRequired (tIndex t) pindexPrev block consensusParams;
    if negb (hBits block =? work)
    then Ret (DoS 100 false REJECT_INVALID (str "bad-diffbits") false (str "incorrect proof of work") st)
    else
      early ← (if fCheckpointsEnabled
               then match GetLastCheckpoint t with
                    | Some p => b ← deref (tIndex t !! p); Ret (nHeight <? Chain.nHeight b)
                    | None => Ret false
                    end
               else Ret false);
      if (early : bool) then Ret (DoS 100 false REJECT_CHECKPOINT (str "bad-fork-prior-to-checkpoint") false [] st)
      else
        prev ← deref pindexPrev;
        past ← GetMedianTimePast (tIndex t) prev;
        if headerTime block <=? past
        then Ret (Invalid false REJECT_INVALID (str "time-too-old") (str "block's timestamp is too early") st)
        else if nAdjustedTime + 2 * 60 * 60 <? headerTime block
        then Ret (Invalid false REJECT_INVALID (str "time-too-new") (str "block timestamp too far in the future") st)
        else
          let version := GetBaseVersion (hVersion block) in
          if ((version <? 3) && (BIP66Height consensusParams <=? nHeight)) || ((version <? 4) && (BIP65Height consensusParams <=? nHeight))
          then Ret (Invalid false REJECT_OBSOLETE (str "bad-version(0x" ++ hex08 version ++ str ")")
                      (str "rejected nVersion=0x" ++ hex08 version ++ str " block") st)
          else Ret (true, st).

Definition set_entry (p : ptr) (b : CBlockIndex) (t : BlockTree) : BlockTree :=
  {| tIndex := <[p := b]> (tIndex t); mapBlockIndex := mapBlockIndex t; pindexBestHeader := pindexBestHeader t;
     setDirtyBlockIndex := {[p]} ∪ setDirtyBlockIndex t; nextPtr := nextPtr t |}.

(** [while (invalidWalk != failedit)]: the blocks between are marked.  Each
    step goes one block down. *)
Fixpoint mark_children (fuel : nat) (t : BlockTree) (invalidWalk : option ptr) (failedit : ptr) : outcome BlockTree :=
  p ← deref invalidWalk;
  if bool_decide (p = failedit) then Ret t
  else match fuel with
       | O => Abort
       | S fuel' =>
           b ← deref (tIndex t !! p);
           mark_children fuel' (set_entry p (set_nStatus (Z.lor (nStatus b) BLOCK_FAILED_CHILD) b) t) (pprev b) failedit
       end.

(** The loop over the failed blocks: whether the parent descends from one of
    them, and the tree with the marks. *)
Fixpoint check_failed (failed : list ptr) (t : BlockTree) (pindexPrev : ptr) : outcome (bool * BlockTree) :=
  match failed with
  | [] => Ret (false, t)
  | failedit :: rest =>
      bf ← deref (tIndex t !! failedit);
      a ← GetAncestor (tIndex t) pindexPrev (nHeight bf);
      if bool_decide (a = Some failedit)
      then _ ← assert_ (negb (Z.land (nStatus bf) BLOCK_FAILED_VALID =? 0));
           bp ← deref (tIndex t !! pindexPrev);
           t ← mark_children (Z.to_nat (nHeight bp)) t (Some pindexPrev) failedit;
           Ret (true, t)
      else check_failed rest t pindexPrev
  end.

(** The checks of a header that is new and not the genesis block: the tree
    with the marks that were set, and the verdict when they fail. *)
Definition check_new_header (t : BlockTree) (block : CBlockHeader) (st : CValidationState) (nAdjustedTime : Z)
  : outcome (BlockTree * verdict) :=
  '(ok, st) ← CheckBlockHeader theParams block st true;
  if negb ok then Ret (t, (false, st))
  else match mapBlockIndex t !! hashPrevBlock block with
  | None => Ret (t, DoS 10 false 0 (str "bad-prevblk") false [] st)
  | Some prev =>
      bp ← deref (tIndex t !! prev);
      if negb (Z.land (nStatus bp) BLOCK_FAILED_MASK =? 0)
      then Ret (t, DoS 100 false REJECT_INVALID (str "bad-prevblk") false [] st)
      else
        '(ok, st) ← ContextualCheckBlockHeader t block st (Some prev) nAdjustedTime;
        if negb ok then Ret (t, (false, st))
        else if negb (IsValid BLOCK_VALID_SCRIPTS bp)
        then '(failed, t) ← check_failed gFailedBlocks t prev;
             if (failed : bool) then Ret (t, DoS 100 false REJECT_INVALID (str "bad-prevblk") false [] st)
             else Ret (t, (true, st))
        else Ret (t, (true, st))
  end.

(** The verdict, the tree and what is stored in [*ppindex]. *)
Definition AcceptBlockHeader (t : BlockTree) (block : CBlockHeader) (st : CValidationState) (nAdjustedTime : Z) (chainparams : ParamsTree)
  : outcome (verdict * BlockTree * option ptr) :=
  let hash := header_GetHash block in
  genesis ← deref (GetConsensus chainparams 0);
  let add t st := '(t, p) ← AddToBlockIndex header_GetHash t block; Ret ((true, st), t, Some p) in
  if blob_eq hash (hashGenesisBlock genesis) then add t st
  else match mapBlockIndex t !! hash with
  | Some p =>
      b ← deref (tIndex t !! p);
      if negb (Z.land (nStatus b) BLOCK_FAILED_MASK =? 0)
      then Ret (Invalid false 0 (str "duplicate") [] st, t, Some p)
      else Ret ((true, st), t, Some p)
  | None =>
      '(t, (ok, st)) ← check_new_header t block st nAdjustedTime;
      if negb ok then Ret ((false, st), t, None) else add t st
  end.

(** The headers of a message; [ppindex] is the last one that was accepted. *)
Fixpoint ProcessNewBlockHeaders (t : BlockTree) (headers : list CBlockHeader) (st : CValidationState) (nAdjustedTime : Z)
    (chainparams : ParamsTree) (ppindex : option ptr) : outcome (verdict * BlockTree * option ptr) :=
  match headers with
  | [] => Ret ((true, st), t, ppindex)
  | header :: headers' =>
      '((ok, st), t, pindex) ← AcceptBlockHeader t header st nAdjustedTime chainparams;
      if negb ok then Ret ((false, st), t, ppindex) else ProcessNewBlockHeaders t headers' st nAdjustedTime chainparams pindex
  end.

End Headers.

(** What [InvalidBlockFound] and the end of [ConnectBlock] do to the entry of
    a block and to [gFailedBlocks]. *)
Definition InvalidBlockFound (t : BlockTree) (gFailedBlocks : list ptr) (pindex : ptr) (st : CValidationState) : outcome (BlockTree * list ptr) :=
  if negb (corruptionPossible st)
  then b ← deref (tIndex t !! pindex);
       Ret (set_entry pindex (set_nStatus (Z.lor (nStatus b) BLOCK_FAILED_VALID) b) t, pindex :: gFailedBlocks)
  else Ret (t, gFailedBlocks).
Definition block_connected (t : BlockTree) (pindex : ptr) : outcome BlockTree :=
  b ← deref (tIndex t !! pindex); Ret (set_entry pindex (RaiseValidity BLOCK_VALID_SCRIPTS b).1 t).

(** ** Entries that differ in their status *)

(** The fields that the header determines. *)
Record same (b b' : CBlockIndex) : Prop := {
  same_pprev : pprev b' = pprev b;
  same_pskip : pskip b' = pskip b;
  same_height : nHeight b' = nHeight b;
  same_time : nTime b' = nTime b;
  same_bits : nBits b' = nBits b;
  same_max : nTimeMax b' = nTimeMax b;
  same_work : nChainWork b' = nChainWork b;
  same_hash : phashBlock b' = phashBlock b
}.

Lemma same_refl b : same b b.
Proof. by split. Qed.

Lemma same_status s b : same b (set_nStatus s b).
Proof. by split. Qed.

(** Every entry of [m] is in [m'], up to its status. *)
Definition grows (m m' : index) : Prop := forall p b, m !! p = Some b -> exists b', m' !! p = Some b' /\ same b b'.

Lemma grows_subseteq m m' : m ⊆ m' -> grows m m'.
Proof. intros Hs p b Hp. exists b. split; [by eapply lookup_weaken|apply same_refl]. Qed.

Lemma grows_trans m1 m2 m3 : grows m1 m2 -> grows m2 m3 -> grows m1 m3.
Proof.
  intros H1 H2 p b Hp. destruct (H1 p b Hp) as (b2 & Hp2 & []). destruct (H2 p b2 Hp2) as (b3 & Hp3 & []).
  exists b3. split; [done|]. split; congruence.
Qed.

(** Setting the status of an entry, in both directions. *)
Lemma grows_status m p b s : m !! p = Some b -> grows m (<[p := set_nStatus s b]> m) /\ grows (<[p := set_nStatus s b]> m) m.
Proof.
  intros Hp. split; intros q c Hq; destruct (decide (q = p)) as [->|Hne].
  - rewrite Hp in Hq. injection Hq as <-. exists (set_nStatus s b). rewrite lookup_insert_eq. split; [done|apply same_status].
  - exists c. rewrite lookup_insert_ne by done. split; [done|apply same_refl].
  - rewrite lookup_insert_eq in Hq. injection Hq as <-. exists b. split; [done|]. by split.
  - rewrite lookup_insert_ne in Hq by done. exists c. split; [done|apply same_refl].
Qed.

Section Grows.
Context (m m' : index) (Hg : grows m m').

Lemma walk_back_grows n p q : walk_back m n p = Some q -> walk_back m' n p = Some q.
Proof.
  revert p. induction n as [|n IH]; intros p; [done|]. cbn [walk_back]. destruct (m !! p) as [b|] eqn:Eb; [|done].
  destruct (Hg p b Eb) as (b' & -> & Hs). cbn [mbind option_bind]. rewrite (same_pprev _ _ Hs).
  destruct (pprev b) as [r|]; [|done]. cbn [mbind option_bind]. apply IH.
Qed.

Lemma ancestor_grows p h q : ancestor m p h = Some q -> ancestor m' p h = Some q.
Proof.
  unfold ancestor. destruct (m !! p) as [b|] eqn:Eb; [|done]. destruct (Hg p b Eb) as (b' & -> & Hs). cbn [mbind option_bind].
  rewrite (same_height _ _ Hs). destruct (_ && _); [|done]. apply walk_back_grows.
Qed.

Lemma median_times_grows i o l : median_times i m o = Ret l -> median_times i m' o = Ret l.
Proof.
  revert o l. induction i as [|i IH]; intros [p|] l; [done..| |done]. cbn [median_times].
  destruct (m !! p) as [b|] eqn:Eb; [|done]. destruct (Hg p b Eb) as (b' & -> & Hs). cbn [deref mbind outcome_bind].
  unfold GetBlockTime. rewrite (same_pprev _ _ Hs), (same_time _ _ Hs). destruct (median_times i m (pprev b)) as [r|] eqn:Er; [|done].
  by rewrite (IH _ _ Er).
Qed.

Lemma GetMedianTimePast_grows p t : GetMedianTimePast m p = Ret t -> GetMedianTimePast m' p = Ret t.
Proof.
  unfold GetMedianTimePast. destruct (median_times nMedianTimeSpan m (Some p)) as [l|] eqn:El; [|done].
  by rewrite (median_times_grows _ _ _ El).
Qed.

Lemma GetAncestor_loop_grows fuel p hw h q : GetAncestor_loop fuel m p hw h = Ret q -> GetAncestor_loop fuel m' p hw h = Ret q.
Proof.
  revert p hw. induction fuel as [|fuel IH]; intros p hw; cbn [GetAncestor_loop]; (destruct (h <? hw); [|done]); [done|].
  destruct (m !! p) as [b|] eqn:Eb; [|done]. destruct (Hg p b Eb) as (b' & -> & Hs). cbn [deref mbind outcome_bind].
  rewrite (same_pskip _ _ Hs), (same_pprev _ _ Hs). destruct (pskip b) as [s|]; [destruct (follow_skip hw h); [apply IH|]|];
    (destruct (pprev b) as [r|]; [|done]); cbn [deref mbind outcome_bind]; apply IH.
Qed.

Lemma GetAncestor_grows p h o : GetAncestor m p h = Ret o -> GetAncestor m' p h = Ret o.
Proof.
  unfold GetAncestor. destruct (m !! p) as [b|] eqn:Eb; [|done]. destruct (Hg p b Eb) as (b' & -> & Hs). cbn [deref mbind outcome_bind].
  rewrite (same_height _ _ Hs). destruct (_ || _); [done|]. destruct (GetAncestor_loop _ m _ _ _) as [q|] eqn:E; [|done].
  by rewrite (GetAncestor_loop_grows _ _ _ _ _ E).
Qed.

Lemma last_normal_block_grows fuel interval lim p c : last_normal_block fuel m interval lim p = Ret c -> last_normal_block fuel m' interval lim p = Ret c.
Proof.
  revert p. induction fuel as [|fuel IH]; intros p; cbn [last_normal_block]; (destruct (m !! p) as [b|] eqn:Eb; [|done]);
    destruct (Hg p b Eb) as (b' & -> & Hs); cbn [deref mbind outcome_bind]; rewrite (same_pprev _ _ Hs), (same_height _ _ Hs), (same_bits _ _ Hs);
    (destruct (pprev b) as [r|]; [|done]); (destruct (_ && _); [|done]); [done|apply IH].
Qed.

Lemma same_calculate b b' time params : same b b' -> CalculateDogecoinNextWorkRequired b' time params = CalculateDogecoinNextWorkRequired b time params.
Proof. intros Hs. unfold CalculateDogecoinNextWorkRequired, GetBlockTime. by rewrite (same_height _ _ Hs), (same_time _ _ Hs), (same_bits _ _ Hs). Qed.

Lemma GetNextWorkRequired_grows o block params c : GetNextWorkRequired m o block params = Ret c -> GetNextWorkRequired m' o block params = Ret c.
Proof.
  unfold GetNextWorkRequired. destruct (GetCompact _ _) as [lim|]; [|done]. cbn [deref mbind outcome_bind]. destruct o as [p|]; [|done].
  destruct (m !! p) as [b|] eqn:Eb; [|done]. destruct (Hg p b Eb) as (b' & -> & Hs). cbn [deref mbind outcome_bind].
  unfold AllowDigishieldMinDifficultyForBlock, GetBlockTime. rewrite (same_height _ _ Hs), (same_time _ _ Hs), (same_bits _ _ Hs).
  destruct (if negb (fPowAllowMinDifficultyBlocks params) then _ else _); [done|].
  destruct (negb (_ =? 0)).
  { destruct (fPowAllowMinDifficultyBlocks params); [|done]. destruct (_ <? _); [done|]. apply last_normal_block_grows. }
  destruct (assert_ _) as [[]|]; [|done]. cbn [mbind outcome_bind]. destruct (GetAncestor m p _) as [a|] eqn:Ea; [|done].
  rewrite (GetAncestor_grows _ _ _ Ea). cbn [mbind outcome_bind]. destruct a as [f|]; [|done]. cbn [deref mbind outcome_bind].
  destruct (m !! f) as [bf|] eqn:Ef; [|done]. destruct (Hg f bf Ef) as (bf' & -> & Hsf). cbn [deref mbind outcome_bind].
  rewrite (same_time _ _ Hsf). by rewrite (same_calculate _ _ _ _ Hs).
Qed.
End Grows.

(** Where the entries are the same the invariants are. *)
Lemma wf_index_same m m' : grows m m' -> grows m' m -> wf_index m -> wf_index m'.
Proof.
  intros H1 H2 [Hp Hn Hsk]. split.
  - intros p b' Hb'. destruct (H2 p b' Hb') as (b & Hb & Hs). specialize (Hp p b Hb). rewrite (same_pprev _ _ Hs), (same_height _ _ Hs) in Hp.
    destruct (pprev b') as [q|]; [|done]. destruct Hp as (c & Hq & Hh). destruct (H1 q c Hq) as (c' & Hq' & Hs'). exists c'. split; [done|].
    by rewrite (same_height _ _ Hs').
  - intros p b' Hb'. destruct (H2 p b' Hb') as (b & Hb & Hs). rewrite <- (same_height _ _ Hs). by eapply Hn.
  - intros p b' s Hb' E. destruct (H2 p b' Hb') as (b & Hb & Hs). rewrite <- (same_pskip _ _ Hs) in E. rewrite <- (same_height _ _ Hs).
    eapply ancestor_grows; [exact H1|]. by eapply Hsk.
Qed.

Lemma wf_tree_status t p b s : wf_tree t -> tIndex t !! p = Some b -> wf_tree (set_entry p (set_nStatus s b) t).
Proof.
  intros [Hi Hm Hf Hb Hw Ht] Hp. destruct (grows_status (tIndex t) p b s Hp) as [G1 G2]. unfold set_entry.
  split; cbn [tIndex mapBlockIndex pindexBestHeader nextPtr].
  - by eapply wf_index_same.
  - intros h q Hq. destruct (Hm h q Hq) as (c & Hc & Eh). destruct (G1 q c Hc) as (c' & Hc' & Hs). exists c'. split; [done|]. by rewrite (same_hash _ _ Hs).
  - intros q [c Hc]. destruct (G2 q c Hc) as (c' & Hc' & _). apply Hf. eauto.
  - intros q Hq. destruct (Hb q Hq) as [c Hc]. destruct (G1 q c Hc) as (c' & -> & _). eauto.
  - intros q c Hc. destruct (G2 q c Hc) as (c0 & Hc0 & Hs). destruct (Hw q c0 Hc0) as (W1 & W2 & w & W3 & W4).
    rewrite (same_work _ _ Hs), (same_bits _ _ Hs) in *. split; [done|]. split; [done|]. exists w. split; [done|]. rewrite W4.
    rewrite (same_pprev _ _ Hs). destruct (pprev c) as [r|]; [|done]. destruct (tIndex t !! r) as [br|] eqn:Er.
    + destruct (G1 r br Er) as (br' & -> & Hs'). by rewrite (same_work _ _ Hs').
    + destruct (<[p:=set_nStatus s b]> (tIndex t) !! r) as [br'|] eqn:Er'; [|done]. destruct (G2 r br' Er') as (? & ? & _). congruence.
  - intros q c Hc. destruct (G2 q c Hc) as (c0 & Hc0 & Hs). specialize (Ht q c0 Hc0).
    rewrite (same_max _ _ Hs), (same_time _ _ Hs), (same_pprev _ _ Hs) in Ht. rewrite Ht. destruct (pprev c) as [r|]; [|done].
    destruct (tIndex t !! r) as [br|] eqn:Er.
    + destruct (G1 r br Er) as (br' & -> & Hs'). by rewrite (same_max _ _ Hs').
    + destruct (<[p:=set_nStatus s b]> (tIndex t) !! r) as [br'|] eqn:Er'; [|done]. destruct (G2 r br' Er') as (? & ? & _). congruence.
Qed.

(** ** The rules of a header *)

Lemma network_limit cp h h' p p' : cp ∈ networks -> 0 <= h -> 0 <= h' -> GetConsensus cp h = Some p -> GetConsensus cp h' = Some p' ->
  powLimit p' = powLimit p.
Proof.
  intros Ht Hh Hh' Hp Hp'. destruct (network_in_force cp h Ht Hh) as (q & Hq & Hin & _). destruct (network_in_force cp h' Ht Hh') as (q' & Hq' & Hin' & _).
  assert (q = p) as -> by congruence. assert (q' = p') as -> by congruence. clear Hp Hp' Hq Hq'.
  assert (Forall (fun p => Forall (fun p' => powLimit p' = powLimit p) (params_list cp)) (params_list cp)) as H.
  { unfold networks in Ht. rewrite !elem_of_cons, elem_of_nil in Ht. destruct Ht as [->|[->|[->|[]]]]; cbn [params_list CMainParams CTestNetParams CRegTestParams app];
      repeat constructor; reflexivity. }
  rewrite Forall_forall in H. specialize (H p Hin). rewrite Forall_forall in H. by apply H.
Qed.

Lemma target_ok_limit p p' c : powLimit p' = powLimit p -> target_ok p c -> target_ok p' c.
Proof. unfold target_ok, limit. by intros ->. Qed.

Lemma auxpow_target (block : CBlockHeader) params : wf_uint256 (powLimit params) -> inU 32 (hBits block) -> CheckAuxPowProofOfWork block params = true -> target_ok params (hBits block).
Proof.
  intros Hl Hc. unfold CheckAuxPowProofOfWork. destruct (_ && negb (_ =? _)); [done|]. destruct (auxpow block) as [a|].
  - destruct (negb (IsAuxpow block)); [done|]. destruct (CheckProofOfWork _ _ _) eqn:E; [|done]. intros _. by eapply CheckProofOfWork_target.
  - destruct (IsAuxpow block); [done|]. by apply CheckProofOfWork_target.
Qed.

(** ** The index of a node *)

(** What [AddToBlockIndex] allocates for a header that is new. *)
Lemma AddToBlockIndex_shape GetHash t block t' p : mapBlockIndex t !! GetHash block = None -> hashPrevBlock block <> GetHash block ->
  AddToBlockIndex GetHash t block = Ret (t', p) ->
  p = nextPtr t /\ nextPtr t' = S (nextPtr t) /\ mapBlockIndex t' = <[GetHash block := p]> (mapBlockIndex t) /\
  exists b, tIndex t' = <[p := b]> (tIndex t) /\ phashBlock b = GetHash block.
Proof.
  intros Hn Hne. unfold AddToBlockIndex. rewrite Hn. rewrite lookup_insert_ne by done.
  destruct (link_prev _ _ _) as [b|] eqn:El; [|done]. cbn [mbind outcome_bind].
  assert (phashBlock b = GetHash block) as Hb.
  { unfold link_prev in El. destruct (mapBlockIndex t !! hashPrevBlock block) as [q|]; [|by injection El as <-].
    destruct (deref _) as [bq|]; [|done]. cbn [mbind outcome_bind] in El. destruct (BuildSkip _ _) as [skip|]; [|done]. by injection El as <-. }
  destruct (match pprev b with Some _ => _ | None => _ end) as [bprev|]; [|done]. cbn [mbind outcome_bind].
  destruct (deref _) as [w|]; [|done]. cbn [mbind outcome_bind].
  match goal with |- context [RaiseValidity ?u ?x] => destruct (RaiseValidity_fields u x) as (_ & _ & _ & Hh & _); set (b' := (RaiseValidity u x).1) in * end.
  destruct (match pindexBestHeader t with Some _ => _ | None => _ end) as [better|]; [|done]. cbn [mbind outcome_bind].
  intros [= <- <-]. cbn. split_and!; [done..|]. exists b'. split; [done|]. rewrite Hh. exact Hb.
Qed.

Section Node.
Context (cp : ParamsTree) (Hcp : cp ∈ networks) (fCheckpointsEnabled : bool) (checkpoints : list (Z * uint256)).

(** The header [h] of the entry [b] on top of [q] passed the rules that do not
    depend on the time of arrival. *)
Record filed (m : index) (b : CBlockIndex) (q : ptr) (h : CBlockHeader) : Prop := {
  filed_hash : phashBlock b = header_GetHash h;
  filed_time : nTime b = hTime h;
  filed_bits : nBits b = hBits h;
  filed_prev : exists bq, m !! q = Some bq /\ phashBlock bq = hashPrevBlock h;
  filed_pow : exists p0, GetConsensus cp 0 = Some p0 /\ CheckAuxPowProofOfWork h p0 = true;
  filed_rules : exists params, GetConsensus cp (nHeight b) = Some params /\
    GetNextWorkRequired m (Some q) h params = Ret (nBits b) /\
    (if fAllowLegacyBlocks params then IsAuxpow h = false else IsLegacy h = false) /\
    (BIP66Height params <= nHeight b -> 3 <= GetBaseVersion (hVersion h)) /\
    (BIP65Height params <= nHeight b -> 4 <= GetBaseVersion (hVersion h));
  filed_median : exists past, GetMedianTimePast m q = Ret past /\ past < nTime b
}.

Lemma filed_grows m m' b b' q h : grows m m' -> same b b' -> filed m b q h -> filed m' b' q h.
Proof.
  intros Hg Hs [Hh Ht Hb (bq & Hq & Hp) Hw (params & Hc & Hn & Hr) (past & Hm & Hl)].
  split; rewrite ?(same_hash _ _ Hs), ?(same_time _ _ Hs), ?(same_bits _ _ Hs), ?(same_height _ _ Hs); try done.
  - destruct (Hg q bq Hq) as (bq' & Hq' & Hs'). exists bq'. split; [done|]. by rewrite (same_hash _ _ Hs').
  - exists params. split; [done|]. split; [by eapply GetNextWorkRequired_grows|done].
  - exists past. split; [by eapply GetMedianTimePast_grows|done].
Qed.

(** The fields of a header that was read have 32 bits. *)
Definition wire_fields (h : CPureBlockHeader) : Prop := inU 32 (hTime h) /\ inU 32 (hBits h).

Record index_ok (t : BlockTree) : Prop := {
  io_tree : wf_tree t;
  io_ptr : forall p b, tIndex t !! p = Some b -> nHeight b <= Z.of_nat p;
  io_genesis : forall p0, GetConsensus cp 0 = Some p0 -> is_Some (mapBlockIndex t !! hashGenesisBlock p0);
  io_root : forall p b p0, tIndex t !! p = Some b -> pprev b = None -> GetConsensus cp 0 = Some p0 -> phashBlock b = hashGenesisBlock p0;
  io_filed : forall p b q, tIndex t !! p = Some b -> pprev b = Some q -> exists h, filed (tIndex t) b q h;
  io_target : forall p b p0, tIndex t !! p = Some b -> GetConsensus cp 0 = Some p0 -> target_ok p0 (nBits b);
  io_time : forall p b, tIndex t !! p = Some b -> 0 <= nTime b
}.

Definition failed_ok (t : BlockTree) (failed : list ptr) : Prop :=
  Forall (fun f => exists b, tIndex t !! f = Some b /\ Z.land (nStatus b) BLOCK_FAILED_VALID <> 0) failed.

Lemma index_ok_status t p b s : index_ok t -> tIndex t !! p = Some b -> index_ok (set_entry p (set_nStatus s b) t).
Proof.
  intros [Ht Hp Hg Hr Hf Hk Htm] Hb. destruct (grows_status (tIndex t) p b s Hb) as [G1 G2]. split; [by apply wf_tree_status|..]; cbn [set_entry tIndex mapBlockIndex].
  - intros q c Hq. destruct (G2 q c Hq) as (c' & Hq' & Hs). rewrite <- (same_height _ _ Hs). by apply Hp.
  - done.
  - intros q c p0 Hq Hn. destruct (G2 q c Hq) as (c' & Hq' & Hs). rewrite <- (same_hash _ _ Hs). apply (Hr q); [done|]. by rewrite (same_pprev _ _ Hs).
  - intros q c r Hq Hn. destruct (G2 q c Hq) as (c' & Hq' & Hs). rewrite <- (same_pprev _ _ Hs) in Hn. destruct (Hf q c' r Hq' Hn) as [h Hh].
    exists h. eapply filed_grows; [exact G1| |exact Hh]. by split; symmetry; apply Hs.
  - intros q c p0 Hq Hc. destruct (G2 q c Hq) as (c' & Hq' & Hs). rewrite <- (same_bits _ _ Hs). by eapply Hk.
  - intros q c Hq. destruct (G2 q c Hq) as (c' & Hq' & Hs). rewrite <- (same_time _ _ Hs). by eapply Htm.
Qed.

Lemma failed_ok_status t failed p b s : failed_ok t failed -> tIndex t !! p = Some b ->
  (Z.land (nStatus b) BLOCK_FAILED_VALID <> 0 -> Z.land s BLOCK_FAILED_VALID <> 0) -> failed_ok (set_entry p (set_nStatus s b) t) failed.
Proof.
  intros Hf Hb Hs. unfold failed_ok in *. eapply Forall_impl; [exact Hf|]. intros f (c & Hc & Hn). cbn [set_entry tIndex].
  destruct (decide (f = p)) as [->|Hne].
  - rewrite lookup_insert_eq. eexists. split; [done|]. cbn. apply Hs. congruence.
  - rewrite lookup_insert_ne by done. by exists c.
Qed.

Lemma failed_bit s v : Z.land s BLOCK_FAILED_VALID <> 0 -> Z.land (Z.lor s v) BLOCK_FAILED_VALID <> 0.
Proof. rewrite Z.land_lor_distr_l. intros Hs H. apply Hs. by apply Z.lor_eq_0_iff in H as [H _]. Qed.

Lemma times_of_index_ok t : index_ok t -> times_ok (tIndex t).
Proof.
  intros H p b q past Hp Hq Hm. destruct (io_filed t H p b q Hp Hq) as [h Hh]. destruct (filed_median _ _ _ _ Hh) as (past' & Hm' & Hl).
  unfold GetBlockTime. congruence.
Qed.

Lemma targets_of_index_ok t h params : index_ok t -> 0 <= h -> GetConsensus cp h = Some params ->
  forall p b, tIndex t !! p = Some b -> target_ok params (nBits b).
Proof.
  intros H Hh Hc p b Hp. destruct (network_in_force cp 0 Hcp ltac:(lia)) as (p0 & H0 & _).
  eapply target_ok_limit; [eapply (network_limit cp 0 h); [done|lia|done|exact H0|exact Hc]|]. by eapply io_target.
Qed.

(** ** The loop over the failed blocks *)

Lemma mark_children_spec failed fuel n t p f : index_ok t -> failed_ok t failed -> (n <= fuel)%nat -> walk_back (tIndex t) n p = Some f ->
  exists t', mark_children fuel t (Some p) f = Ret t' /\ index_ok t' /\ failed_ok t' failed /\
    mapBlockIndex t' = mapBlockIndex t /\ nextPtr t' = nextPtr t.
Proof.
  revert n t p. induction fuel as [|fuel IH]; intros n t p Ht Hf Hn Hw; cbn [mark_children deref mbind outcome_bind].
  - assert (n = 0%nat) as -> by lia. injection Hw as ->. rewrite bool_decide_true by done. by exists t.
  - case_bool_decide as Hpf; [by exists t|]. destruct n as [|n]; [by injection Hw as ->|]. cbn [walk_back] in Hw.
    destruct (tIndex t !! p) as [b|] eqn:Eb; [|done]. cbn [mbind option_bind] in Hw. destruct (pprev b) as [q|] eqn:Eq; [|done]. cbn [mbind option_bind] in Hw.
    cbn [deref mbind outcome_bind]. rewrite Eq. set (t1 := set_entry _ _ t).
    apply (IH n t1 q); [by apply index_ok_status|apply failed_ok_status; [done..|apply failed_bit]|lia|].
    eapply walk_back_grows; [|exact Hw]. by apply (grows_status (tIndex t) p b).
Qed.

(** Whether [p] descends from a failed block. *)
Definition descends_failed (t : BlockTree) (failed : list ptr) (p : ptr) : Prop :=
  Exists (fun f => exists bf, tIndex t !! f = Some bf /\ ancestor (tIndex t) p (nHeight bf) = Some f) failed.

Lemma check_failed_spec failed t p b : index_ok t -> failed_ok t failed -> tIndex t !! p = Some b ->
  exists bad t', check_failed failed t p = Ret (bad, t') /\ index_ok t' /\ failed_ok t' failed /\
    mapBlockIndex t' = mapBlockIndex t /\ nextPtr t' = nextPtr t /\
    (bad = true <-> descends_failed t failed p) /\ (bad = false -> t' = t).
Proof.
  intros Ht Hf Hp. assert (forall l, failed_ok t l -> exists bad t', check_failed l t p = Ret (bad, t') /\ index_ok t' /\ failed_ok t' failed /\
    mapBlockIndex t' = mapBlockIndex t /\ nextPtr t' = nextPtr t /\ (bad = true <-> descends_failed t l p) /\ (bad = false -> t' = t)) as Hgo; [|by apply Hgo].
  pose proof (wt_index t (io_tree t Ht)) as Hi. induction l as [|f l IH]; intros Hl; cbn [check_failed].
  { exists false, t. split_and!; try done. split; [done|]. by intros ?%Exists_nil. }
  apply Forall_cons in Hl as [(bf & Ef & Hs) Hl]. rewrite Ef. cbn [deref mbind outcome_bind].
  rewrite (GetAncestor_spec _ Hi p b _ Hp). cbn [mbind outcome_bind]. case_bool_decide as Ha.
  - rewrite (proj2 (Z.eqb_neq _ _) Hs). cbn [negb assert_ mbind outcome_bind]. rewrite Hp. cbn [deref mbind outcome_bind].
    pose proof (wf_nonneg _ Hi f bf Ef) as Hn. pose proof Ha as Hw. unfold ancestor in Hw. rewrite Hp in Hw. cbn [mbind option_bind] in Hw.
    destruct (_ && _) eqn:Eh in Hw; [|done].
    destruct (mark_children_spec failed (Z.to_nat (nHeight b)) (Z.to_nat (nHeight b - nHeight bf)) t p f Ht Hf ltac:(lia) Hw) as (t' & -> & H1 & H2 & H3 & H4).
    cbn [mbind outcome_bind]. exists true, t'. split_and!; try done. split; [|done]. intros _. apply Exists_cons_hd. by exists bf.
  - destruct (IH Hl) as (bad & t' & E & H1 & H2 & H3 & H4 & H5 & H6). exists bad, t'. split_and!; try done. rewrite H5. unfold descends_failed.
    rewrite Exists_cons. split; [by right|]. intros [(bf' & Ef' & Ha')|]; [|done]. congruence.
Qed.

(** ** The checks *)

Lemma GetLastCheckpoint_known t c : index_ok t -> GetLastCheckpoint checkpoints t = Some c -> is_Some (tIndex t !! c).
Proof.
  intros Ht. unfold GetLastCheckpoint. induction checkpoints as [|x l IH]; [done|]. cbn [foldr]. destruct (foldr _ None l); [done|].
  intros Hc. destruct (wt_map t (io_tree t Ht) _ _ Hc) as (b & Hb & _). eauto.
Qed.

(** Below the last checkpoint nothing new is accepted. *)
Definition after_checkpoint (t : BlockTree) (height : Z) : Prop :=
  fCheckpointsEnabled = true -> forall c bc, GetLastCheckpoint checkpoints t = Some c -> tIndex t !! c = Some bc -> nHeight bc <= height.

Lemma early_spec t height : index_ok t -> exists e : bool,
  (if fCheckpointsEnabled
   then match GetLastCheckpoint checkpoints t with
        | Some p => b ← deref (tIndex t !! p); Ret (height <? nHeight b)
        | None => Ret false
        end
   else Ret false) = Ret e /\ (e = false <-> after_checkpoint t height).
Proof.
  intros Ht. unfold after_checkpoint. destruct fCheckpointsEnabled; [|by exists false].
  destruct (GetLastCheckpoint checkpoints t) as [c|] eqn:Ec; [|exists false; split; [done|]; split; [|done]; by intros _ _ ? ?].
  destruct (GetLastCheckpoint_known t c Ht Ec) as [b Eb]. rewrite Eb. cbn [deref mbind outcome_bind]. eexists. split; [done|].
  rewrite Z.ltb_ge. split; [intros H _ c' bc [= <-]; rewrite Eb; by intros [= <-]|]. intros H. by eapply H.
Qed.

(** The rules for a header on top of [prev] that arrives at a given time. *)
Definition rules (params : Params.Params) (work past : Z) (t : BlockTree) (block : CBlockHeader) (height nAdjustedTime : Z) : Prop :=
  (if fAllowLegacyBlocks params then IsAuxpow block = false else IsLegacy block = false) /\ hBits block = work /\
  after_checkpoint t height /\ past < hTime block <= nAdjustedTime + 2 * 60 * 60 /\
  (BIP66Height params <= height -> 3 <= GetBaseVersion (hVersion block)) /\
  (BIP65Height params <= height -> 4 <= GetBaseVersion (hVersion block)).
Definition context_rules (t : BlockTree) (block : CBlockHeader) (prev : ptr) (bp : CBlockIndex) (nAdjustedTime : Z) : Prop :=
  exists params work past, GetConsensus cp (nHeight bp + 1) = Some params /\ GetNextWorkRequired (tIndex t) (Some prev) block params = Ret work /\
    GetMedianTimePast (tIndex t) prev = Ret past /\ rules params work past t block (nHeight bp + 1) nAdjustedTime.

(** A refusal, and why the rules do not hold. *)
Lemma refused (v : verdict) (P : Prop) : v.1 = false -> ~ P -> exists ok st', Ret v = Ret (ok, st') /\ (ok = true <-> P).
Proof. destruct v as [ok st']. cbn. intros -> HP. exists false, st'. split; [done|]. split; [done|]. by intros ?%HP. Qed.

Lemma ContextualCheckBlockHeader_spec t (block : CBlockHeader) st prev bp nAdjustedTime : index_ok t -> tIndex t !! prev = Some bp -> nHeight bp < 2 ^ 31 - 1 ->
  exists ok st', ContextualCheckBlockHeader cp fCheckpointsEnabled checkpoints t block st (Some prev) nAdjustedTime = Ret (ok, st') /\
    (ok = true <-> context_rules t block prev bp nAdjustedTime).
Proof.
  intros Ht Hp Hh. pose proof (wt_index t (io_tree t Ht)) as Hi. pose proof (wf_nonneg _ Hi prev bp Hp) as Hn. unfold ContextualCheckBlockHeader. rewrite Hp.
  cbn [deref mbind outcome_bind]. rewrite (wrapS_small 32), (wrapU_small 32) by (unfold inS, inU; lia).
  destruct (network_in_force cp (nHeight bp + 1) Hcp ltac:(lia)) as (params & Hc & _). rewrite Hc. cbn [deref mbind outcome_bind].
  destruct (GetNextWorkRequired_spec cp (tIndex t) prev bp block params Hcp Hi Hp Hc) as (work & Ew & _).
  { apply (targets_of_index_ok t (nHeight bp + 1)); [done|lia|done]. }
  destruct (GetMedianTimePast_total (tIndex t) Hi prev bp Hp) as [past Em].
  assert (context_rules t block prev bp nAdjustedTime <-> rules params work past t block (nHeight bp + 1) nAdjustedTime) as Hr.
  { split; [|intros H; by exists params, work, past]. intros (params' & work' & past' & Hc' & Ew' & Em' & H).
    assert (params' = params) as -> by congruence. rewrite Ew in Ew'. rewrite Em in Em'. by injection Ew' as <-; injection Em' as <-. }
  setoid_rewrite Hr. rewrite Ew. cbn [mbind outcome_bind]. destruct (early_spec t (nHeight bp + 1) Ht) as (e & -> & He). cbn [mbind outcome_bind]. rewrite Em. cbn [mbind outcome_bind].
  unfold rules. setoid_rewrite <- He. clear Hr He.
  destruct (fAllowLegacyBlocks params); cbn [negb andb].
  1: destruct (IsAuxpow block); [apply refused; [apply DoS_false|by intros (? & _)]|].
  2: destruct (IsLegacy block); [apply refused; [apply DoS_false|by intros (? & _)]|].
  all: destruct (Z.eqb_spec (hBits block) work) as [Hw|Hw]; cbn [negb]; [|apply refused; [apply DoS_false|by intros (_ & ? & _)]].
  all: destruct e; [apply refused; [apply DoS_false|by intros (_ & _ & ? & _)]|]; unfold headerTime.
  all: destruct (Z.leb_spec (hTime block) past); [apply refused; [apply Invalid_false|intros (_ & _ & _ & ? & _); lia]|].
  all: destruct (Z.ltb_spec (nAdjustedTime + 2 * 60 * 60) (hTime block)); [apply refused; [apply Invalid_false|intros (_ & _ & _ & ? & _); lia]|].
  all: destruct (_ || _) eqn:Ev; [apply refused; [apply Invalid_false|intros (_ & _ & _ & _ & ? & ?); zbool; lia]|].
  all: exists true, st; split; [done|]; split; [|done]; intros _; split_and!; try done; zbool; lia.
Qed.

(** What [AcceptBlockHeader] demands of a header that is not in the index. *)
Definition header_valid (t : BlockTree) (failed : list ptr) (block : CBlockHeader) (nAdjustedTime : Z) : Prop :=
  exists p0 prev bp, GetConsensus cp 0 = Some p0 /\ CheckAuxPowProofOfWork block p0 = true /\
    mapBlockIndex t !! hashPrevBlock block = Some prev /\ tIndex t !! prev = Some bp /\ Z.land (nStatus bp) BLOCK_FAILED_MASK = 0 /\
    context_rules t block prev bp nAdjustedTime /\ (IsValid BLOCK_VALID_SCRIPTS bp = false -> ~ descends_failed t failed prev).

Lemma height_bound t p b : index_ok t -> Z.of_nat (nextPtr t) < 2 ^ 31 -> tIndex t !! p = Some b -> nHeight b < 2 ^ 31 - 1.
Proof. intros Ht Hn Hp. pose proof (io_ptr t Ht p b Hp). pose proof (wt_fresh t (io_tree t Ht) p ltac:(eauto)). lia. Qed.

(** The tree is kept but for the marks of failed blocks. *)
Definition only_marks (failed : list ptr) (t t' : BlockTree) : Prop :=
  index_ok t' /\ failed_ok t' failed /\ mapBlockIndex t' = mapBlockIndex t /\ nextPtr t' = nextPtr t.

Lemma not_accepted failed t (v : verdict) (P : Prop) : index_ok t -> failed_ok t failed -> v.1 = false -> ~ P ->
  exists t' ok st', Ret (t, v) = Ret (t', (ok, st')) /\ only_marks failed t t' /\ (ok = true <-> P) /\ (ok = true -> t' = t).
Proof. destruct v as [ok st']. cbn. intros Ht Hf -> HP. exists t, false, st'. split_and!; [done..| |done]. split; [done|by intros ?%HP]. Qed.

Lemma check_new_header_spec t failed (block : CBlockHeader) st nAdjustedTime : index_ok t -> failed_ok t failed -> Z.of_nat (nextPtr t) < 2 ^ 31 ->
  exists t' ok st', check_new_header cp fCheckpointsEnabled checkpoints failed t block st nAdjustedTime = Ret (t', (ok, st')) /\
    only_marks failed t t' /\ (ok = true <-> header_valid t failed block nAdjustedTime) /\ (ok = true -> t' = t).
Proof.
  intros Ht Hf Hn. unfold check_new_header, CheckBlockHeader. destruct (network_in_force cp 0 Hcp ltac:(lia)) as (p0 & H0 & _). rewrite H0.
  cbn [deref mbind outcome_bind]. destruct (CheckAuxPowProofOfWork block p0) eqn:Ew; cbn [negb].
  2:{ cbn [mbind outcome_bind]. destruct (DoS _ _ _ _ _ _ _) as [ok st'] eqn:Ed. pose proof (DoS_false 50 REJECT_INVALID (str "high-hash") false (str "proof of work failed") st) as E.
      rewrite Ed in E. cbn in E. subst ok. cbn [negb]. apply not_accepted; [done..|]. intros (p0' & prev & bp & H0' & Ew' & _). congruence. }
  cbn [mbind outcome_bind negb]. destruct (mapBlockIndex t !! hashPrevBlock block) as [prev|] eqn:Ep.
  2:{ apply not_accepted; [done..|apply DoS_false|]. intros (? & ? & ? & _ & _ & ? & _). congruence. }
  destruct (wt_map t (io_tree t Ht) _ _ Ep) as (bp & Hb & _). rewrite Hb. cbn [deref mbind outcome_bind].
  assert (header_valid t failed block nAdjustedTime <-> Z.land (nStatus bp) BLOCK_FAILED_MASK = 0 /\ context_rules t block prev bp nAdjustedTime /\
    (IsValid BLOCK_VALID_SCRIPTS bp = false -> ~ descends_failed t failed prev)) as Hv.
  { split; [|intros H; by exists p0, prev, bp]. intros (p0' & prev' & bp' & H0' & _ & Ep' & Hb' & H).
    assert (prev' = prev) as -> by congruence. by assert (bp' = bp) as -> by congruence. }
  setoid_rewrite Hv. clear Hv. destruct (Z.eqb_spec (Z.land (nStatus bp) BLOCK_FAILED_MASK) 0) as [Hs|Hs]; cbn [negb].
  2:{ apply not_accepted; [done..|apply DoS_false|]. by intros (? & _). }
  destruct (ContextualCheckBlockHeader_spec t block st prev bp nAdjustedTime Ht Hb (height_bound t prev bp Ht Hn Hb)) as (ok & st1 & -> & Hok).
  cbn [mbind outcome_bind]. destruct ok; cbn [negb]; [|apply not_accepted; [done..|]; intros (_ & H & _); by apply Hok in H].
  destruct (proj1 Hok eq_refl) as (params & work & past & Hrules). assert (context_rules t block prev bp nAdjustedTime) as Hc by (by apply Hok).
  destruct (IsValid BLOCK_VALID_SCRIPTS bp); cbn [negb].
  { exists t, true, st1. split; [done|]. split; [done|]. split; [|done]. split; [|done]. intros _. by split_and!. }
  destruct (check_failed_spec failed t prev bp Ht Hf Hb) as (bad & t' & -> & K1 & K2 & K3 & K4 & Hbad & Hsame). cbn [mbind outcome_bind]. destruct bad.
  - destruct (DoS _ _ _ _ _ _ _) as [ok st'] eqn:Ed. pose proof (DoS_false 100 REJECT_INVALID (str "bad-prevblk") false [] st1) as E. rewrite Ed in E. cbn in E. subst ok.
    exists t', false, st'. split; [done|]. split; [done|]. split; [|done]. split; [done|]. intros (_ & _ & H). destruct (H eq_refl). by apply Hbad.
  - exists t', true, st1. split; [done|]. split; [done|]. split; [|by intros _; apply Hsame]. split; [|done]. intros _. split_and!; [done..|]. intros _ H. by apply Hbad in H.
Qed.

(** ** Acceptance *)

(** The entry of a header that passed. *)
Lemma filed_new t failed (block : CBlockHeader) nAdjustedTime b q :
  index_ok t -> header_valid t failed block nAdjustedTime -> mapBlockIndex t !! hashPrevBlock block = Some q ->
  phashBlock b = header_GetHash block -> nTime b = hTime block -> nBits b = hBits block ->
  (forall bq, tIndex t !! q = Some bq -> nHeight b = nHeight bq + 1) -> filed (tIndex t) b q block.
Proof.
  intros Ht (p0 & prev & bp & H0 & Hw & Hp & Hb & _ & (params & work & past & Hc & Ew & Em & Hl & Hbits & _ & Htime & H66 & H65) & _) Hq Eh Et Eb Hh.
  assert (prev = q) as -> by congruence. destruct (wt_map t (io_tree t Ht) _ _ Hq) as (bq & Hbq & Ehq).
  split; [done..|by exists bq|by exists p0| |exists past; split; [done|lia]].
  rewrite (Hh bp Hb), Eb, Hbits. by exists params.
Qed.

Lemma add_header t failed (block : CBlockHeader) nAdjustedTime : index_ok t -> failed_ok t failed -> wire_fields block ->
  mapBlockIndex t !! header_GetHash block = None -> header_valid t failed block nAdjustedTime ->
  exists t' p, AddToBlockIndex header_GetHash t block = Ret (t', p) /\ index_ok t' /\ failed_ok t' failed /\
    mapBlockIndex t' = <[header_GetHash block := p]> (mapBlockIndex t) /\ tIndex t ⊆ tIndex t' /\ nextPtr t' = S (nextPtr t).
Proof.
  intros Ht Hf [Htm Hu] Hn Hv. pose proof Hv as (p0 & prev & bp & H0 & Hw & Hp & Hb & _).
  assert (hashPrevBlock block <> header_GetHash block) as Hne by congruence.
  destruct (AddToBlockIndex_spec header_GetHash t block (io_tree t Ht) Hu Hne) as (t' & p & E & Ht' & _ & Hsub & Hnew).
  destruct (AddToBlockIndex_shape header_GetHash t block t' p Hn Hne E) as (Ep & En & Em & b & Ei & Eh).
  destruct (Hnew Hn) as (b' & Hb' & Et & Eb & Epv). assert (b' = b) as -> by (rewrite Ei, lookup_insert_eq in Hb'; congruence). rewrite Hp in Epv.
  pose proof (wf_prev _ (wt_index t' Ht') p b Hb') as Hpar. rewrite Epv in Hpar. destruct Hpar as (bq & Hbq & Hh).
  assert (bq = bp) as -> by (apply (lookup_weaken _ _ _ _ Hb) in Hsub; congruence).
  pose proof (grows_subseteq _ _ Hsub) as G.
  exists t', p. split; [done|]. split; [|split; [|done]].
  - split; [done|..].
    + intros q c Hq. rewrite Ei in Hq. apply lookup_insert_Some in Hq as [[<- <-]|[_ Hq]]; [|by apply (io_ptr t Ht)].
      pose proof (io_ptr t Ht prev bp Hb). pose proof (wt_fresh t (io_tree t Ht) prev ltac:(eauto)). lia.
    + intros p0' H0'. rewrite Em. destruct (io_genesis t Ht p0' H0') as [g Hg]. destruct (decide (header_GetHash block = hashGenesisBlock p0')); [congruence|].
      rewrite lookup_insert_ne by done. eauto.
    + intros q c p0' Hq Hc. rewrite Ei in Hq. apply lookup_insert_Some in Hq as [[<- <-]|[_ Hq]]; [congruence|]. by eapply (io_root t Ht).
    + intros q c r Hq Hc. rewrite Ei in Hq. apply lookup_insert_Some in Hq as [[<- <-]|[_ Hq]].
      * exists block. assert (r = prev) as -> by congruence. eapply filed_grows; [exact G|apply same_refl|]. eapply filed_new; try done.
        intros bq Hbq'. congruence.
      * destruct (io_filed t Ht q c r Hq Hc) as [h Hf']. exists h. eapply filed_grows; [exact G|apply same_refl|done].
    + intros q c p0' Hq H0'. rewrite Ei in Hq. apply lookup_insert_Some in Hq as [[<- <-]|[_ Hq]]; [|by eapply (io_target t Ht)].
      rewrite Eb. assert (p0' = p0) as -> by congruence. apply auxpow_target; [|done..]. apply (network_rules cp 0 p0 Hcp H0). lia.
    + intros q c Hq. rewrite Ei in Hq. apply lookup_insert_Some in Hq as [[<- <-]|[_ Hq]]; [|by eapply (io_time t Ht)]. rewrite Et. apply Htm.
  - eapply Forall_impl; [exact Hf|]. intros f (c & Hc & Hs). exists c. split; [by eapply lookup_weaken|done].
Qed.

Lemma header_hash_length (block : CPureBlockHeader) : length (header_GetHash block) = 32%nat.
Proof. apply CSHA256_size. Qed.

Lemma genesis_hash_length p0 : GetConsensus cp 0 = Some p0 -> length (hashGenesisBlock p0) = 32%nat.
Proof.
  intros H0. unfold networks in Hcp. rewrite !elem_of_cons, elem_of_nil in Hcp.
  destruct Hcp as [->|[->|[->|[]]]]; injection H0 as <-; vm_compute; reflexivity.
Qed.

(** A header in any state of the node: the call returns, the tree stays well
    formed, and a header that is new is filed exactly when it is valid. *)
Lemma AcceptBlockHeader_spec t failed (block : CBlockHeader) st nAdjustedTime :
  index_ok t -> failed_ok t failed -> Z.of_nat (nextPtr t) < 2 ^ 31 -> wire_fields block ->
  exists ok st' t' o, AcceptBlockHeader cp fCheckpointsEnabled checkpoints failed t block st nAdjustedTime cp = Ret ((ok, st'), t', o) /\
    index_ok t' /\ failed_ok t' failed /\ (nextPtr t' <= S (nextPtr t))%nat /\
    (mapBlockIndex t !! header_GetHash block = None ->
      (ok = true <-> header_valid t failed block nAdjustedTime) /\
      (if ok then exists p, o = Some p /\ mapBlockIndex t' = <[header_GetHash block := p]> (mapBlockIndex t) /\ tIndex t ⊆ tIndex t'
       else o = None /\ mapBlockIndex t' = mapBlockIndex t)).
Proof.
  intros Ht Hf Hn Hu. unfold AcceptBlockHeader. destruct (network_in_force cp 0 Hcp ltac:(lia)) as (p0 & H0 & _). rewrite H0. cbn [deref mbind outcome_bind].
  rewrite blob_eq_spec by (rewrite header_hash_length; symmetry; by apply genesis_hash_length). destruct (io_genesis t Ht p0 H0) as [g Hg].
  case_bool_decide as Eg.
  { unfold AddToBlockIndex. rewrite Eg, Hg. cbn [mbind outcome_bind]. exists true, st, t, (Some g). split_and!; [done..|lia|congruence]. }
  destruct (mapBlockIndex t !! header_GetHash block) as [p|] eqn:Em.
  { destruct (wt_map t (io_tree t Ht) _ _ Em) as (b & Hb & _). rewrite Hb. cbn [deref mbind outcome_bind].
    destruct (negb _); [|exists true, st, t, (Some p); split_and!; [done..|lia|done]].
    destruct (Invalid _ _ _ _ _) as [ok st']. exists ok, st', t, (Some p). split_and!; [done..|lia|done]. }
  destruct (check_new_header_spec t failed block st nAdjustedTime Ht Hf Hn) as (t1 & ok & st1 & -> & (K1 & K2 & K3 & K4) & Hok & Hsame).
  cbn [mbind outcome_bind]. destruct ok; cbn [negb].
  - rewrite (Hsame eq_refl). destruct (add_header t failed block nAdjustedTime Ht Hf Hu Em (proj1 Hok eq_refl)) as (t' & p & -> & A1 & A2 & A3 & A4 & A5).
    cbn [mbind outcome_bind]. exists true, st1, t', (Some p). split_and!; [done..|lia|]. intros _. split; [done|]. by exists p.
  - exists false, st1, t1, None. split_and!; [done..|lia|]. by intros _.
Qed.

(** ** The states of a node *)

Definition network_genesis (g : CBlock) : Prop :=
  (cp = CMainParams /\ main_genesis = Ret g) \/ (cp = CTestNetParams /\ testnet_genesis = Ret g) \/ (cp = CRegTestParams /\ regtest_genesis = Ret g).

(** The index starts with the genesis block; headers arrive, blocks are
    connected or found invalid, in any order. *)
Inductive built : BlockTree -> list ptr -> Prop :=
| built_genesis g t p : network_genesis g -> AddToBlockIndex header_GetHash emptyTree (b_header g) = Ret (t, p) -> built t []
| built_header t failed (block : CBlockHeader) st nAdjustedTime v t' o : built t failed -> wire_fields block -> Z.of_nat (nextPtr t) < 2 ^ 31 ->
    AcceptBlockHeader cp fCheckpointsEnabled checkpoints failed t block st nAdjustedTime cp = Ret (v, t', o) -> built t' failed
| built_invalid t failed pindex st t' failed' : built t failed -> InvalidBlockFound t failed pindex st = Ret (t', failed') -> built t' failed'
| built_connected t failed pindex t' : built t failed -> block_connected t pindex = Ret t' -> built t' failed.

Lemma genesis_facts g p0 : network_genesis g -> GetConsensus cp 0 = Some p0 ->
  header_GetHash (b_header g) = hashGenesisBlock p0 /\ target_ok p0 (hBits (b_header g)) /\ 0 <= hTime (b_header g) /\ hashPrevBlock (b_header g) = uint256_null /\
  hashGenesisBlock p0 <> uint256_null.
Proof.
  assert (forall ti no bi ve re, CreateGenesisBlock ti no bi ve re = Ret g -> hBits (b_header g) = bi /\ hTime (b_header g) = ti /\ hashPrevBlock (b_header g) = uint256_null) as Hg.
  { intros *. unfold CreateGenesisBlock, CreateGenesisBlock_with. destruct (BlockMerkleRoot _) as [[root ?]|]; [|done]. cbn [mbind outcome_bind]. by intros [= <-]. }
  assert (forall (hash1 hash2 : uint256), bool_decide (hash1 = hash2) = false -> hash1 <> hash2) as Hd by (intros ? ? ?%bool_decide_eq_false; done).
  assert (forall o h, o = Ret g -> block_matches o h genesis_root = true -> header_GetHash (b_header g) = h) as Hm.
  { intros o h Ho (b & Hb & ? & _)%block_matches_spec. by assert (b = g) as -> by congruence. }
  intros [[-> H]|[[-> H]|[-> H]]] [= <-]; (split; [eapply Hm; [exact H|]|]);
    [exact main_genesis_matches| |exact testnet_genesis_matches| |exact regtest_genesis_matches|];
    destruct (Hg _ _ _ _ _ H) as (-> & -> & ->); (split; [|split; [done|split; [done|apply Hd; vm_compute; reflexivity]]]);
    (split; [unfold inU; lia|]); (split; [vm_compute; reflexivity|]); vm_compute; discriminate.
Qed.

Lemma genesis_tree g t p : network_genesis g -> AddToBlockIndex header_GetHash emptyTree (b_header g) = Ret (t, p) -> index_ok t /\ nextPtr t = 1%nat.
Proof.
  intros Hg E. destruct (network_in_force cp 0 Hcp ltac:(lia)) as (p0 & H0 & _). destruct (genesis_facts g p0 Hg H0) as (Eh & Hk & Htm & Hp & Hn).
  assert (hashPrevBlock (b_header g) <> header_GetHash (b_header g)) as Hne by congruence.
  destruct (AddToBlockIndex_shape header_GetHash emptyTree _ t p (lookup_empty _) Hne E) as (Ep & En & Em & b & Ei & Ehb).
  destruct (AddToBlockIndex_spec header_GetHash emptyTree _ emptyTree_wf (proj1 Hk) Hne) as (t' & p' & E' & Ht & _ & _ & Hnew).
  rewrite E in E'. injection E' as <- <-. destruct (Hnew (lookup_empty _)) as (b' & Hb' & Et & Eb & Epv).
  assert (b' = b) as -> by (rewrite Ei, lookup_insert_eq in Hb'; congruence). cbn in Ep, Epv. rewrite lookup_empty in Epv.
  pose proof (wf_prev _ (wt_index t Ht) p b Hb') as Hroot. rewrite Epv in Hroot.
  assert (forall q c, tIndex t !! q = Some c -> q = p /\ c = b) as Honly.
  { intros q c. rewrite Ei. intros [[<- <-]|[_ H]]%lookup_insert_Some; [done|]. cbn in H. by rewrite lookup_empty in H. }
  split; [|done]. split; [done|..].
  - intros q c [-> ->]%Honly. lia.
  - intros p0' H0'. assert (p0' = p0) as -> by congruence. rewrite Em, <- Eh, lookup_insert_eq. eauto.
  - intros q c p0' [-> ->]%Honly _ H0'. congruence.
  - intros q c r [-> ->]%Honly. congruence.
  - intros q c p0' [-> ->]%Honly H0'. assert (p0' = p0) as -> by congruence. by rewrite Eb.
  - intros q c [-> ->]%Honly. by rewrite Et.
Qed.

Lemma RaiseValidity_status u b : exists s, (RaiseValidity u b).1 = set_nStatus s b /\
  (Z.land (nStatus b) BLOCK_FAILED_VALID <> 0 -> Z.land s BLOCK_FAILED_VALID <> 0).
Proof.
  assert (b = set_nStatus (nStatus b) b) as Hb by (by destruct b). unfold RaiseValidity.
  destruct (Z.eqb_spec (Z.land (nStatus b) BLOCK_FAILED_MASK) 0) as [H|]; cbn [negb]; [|by exists (nStatus b)].
  destruct (_ <? u); [|by exists (nStatus b)]. eexists. split; [done|]. intros Hs. destruct Hs.
  change BLOCK_FAILED_VALID with (Z.land BLOCK_FAILED_MASK BLOCK_FAILED_VALID). by rewrite Z.land_assoc, H.
Qed.

Lemma built_ok t failed : built t failed -> index_ok t /\ failed_ok t failed.
Proof.
  induction 1 as [g t p Hg E|t failed block st time v t' o _ [IH1 IH2] Hu Hn E|t failed p st t' failed' _ [IH1 IH2] E|t failed p t' _ [IH1 IH2] E].
  - split; [by eapply genesis_tree|constructor].
  - destruct (AcceptBlockHeader_spec t failed block st time IH1 IH2 Hn Hu) as (ok & st' & t'' & o' & E' & H1 & H2 & _). by assert (t'' = t') as -> by congruence.
  - unfold InvalidBlockFound in E. destruct (corruptionPossible st); cbn [negb] in E; [by injection E as <- <-|].
    destruct (tIndex t !! p) as [b|] eqn:Eb; [|done]. cbn [deref mbind outcome_bind] in E. injection E as <- <-. split; [by apply index_ok_status|].
    constructor; [|apply failed_ok_status; [done..|apply failed_bit]]. eexists. cbn [set_entry tIndex]. rewrite lookup_insert_eq. split; [done|]. cbn.
    rewrite Z.land_lor_distr_l. by intros [_ ?]%Z.lor_eq_0_iff.
  - unfold block_connected in E. destruct (tIndex t !! p) as [b|] eqn:Eb; [|done]. cbn [deref mbind outcome_bind] in E. injection E as <-.
    destruct (RaiseValidity_status BLOCK_VALID_SCRIPTS b) as (s & -> & Hs). split; [by apply index_ok_status|by apply failed_ok_status].
Qed.

(** A whole message: the call returns, in a state of the node. *)
Lemma ProcessNewBlockHeaders_total t failed headers st nAdjustedTime ppindex : built t failed -> Forall (fun h : CBlockHeader => wire_fields h) headers ->
  Z.of_nat (nextPtr t + length headers) < 2 ^ 31 ->
  exists v t' o, ProcessNewBlockHeaders cp fCheckpointsEnabled checkpoints failed t headers st nAdjustedTime cp ppindex = Ret (v, t', o) /\ built t' failed.
Proof.
  intros Ht Hh. revert t st ppindex Ht. induction Hh as [|h headers Hu _ IH]; intros t st ppindex Ht Hn; cbn [ProcessNewBlockHeaders length] in *; [by eexists _, t, _|].
  destruct (built_ok t failed Ht) as [H1 H2].
  destruct (AcceptBlockHeader_spec t failed h st nAdjustedTime H1 H2 ltac:(lia) Hu) as (ok & st' & t' & o & E & _ & _ & Hle & _).
  assert (built t' failed) as Ht' by (eapply built_header; [exact Ht|exact Hu|lia|exact E]). rewrite E. cbn [mbind outcome_bind].
  destruct ok; cbn [negb]; [apply IH; [done|lia]|by eexists _, t', _].
Qed.
End Node.

(** ** Properties *)



(** ** Witnesses *)

(** The index of a node that just started. *)
Definition start_tree (genesis : outcome CBlock) : BlockTree :=
  match genesis with
  | Ret g => match AddToBlockIndex header_GetHash emptyTree (b_header g) with Ret (t, _) => t | Abort => emptyTree end
  | Abort => emptyTree
  end.

Lemma start_tree_spec cp genesis g : cp ∈ networks -> network_genesis cp g -> genesis = Ret g ->
  exists p, AddToBlockIndex header_GetHash emptyTree (b_header g) = Ret (start_tree genesis, p).
Proof.
  intros Hcp Hg ->. destruct (network_in_force cp 0 Hcp ltac:(lia)) as (p0 & H0 & _).
  destruct (genesis_facts cp Hcp g p0 Hg H0) as (Hh & Hk & _ & Hp & Hn).
  destruct (AddToBlockIndex_spec header_GetHash emptyTree (b_header g) emptyTree_wf (proj1 Hk) ltac:(congruence)) as (t & p & E & _).
  exists p. unfold start_tree. by rewrite E.
Qed.

Definition regtest_start : BlockTree := start_tree regtest_genesis.
Definition main_start : BlockTree := start_tree main_genesis.
Definition stray_header : CBlockHeader :=
  mkHeader {| hVersion := 4; hashPrevBlock := replicate 32 7; hMerkleRoot := replicate 32 8; hTime := 1300000000; hBits := 0x207fffff; hNonce := 0 |} None.

Lemma regtest_network : CRegTestParams ∈ networks.
Proof. unfold networks. set_solver. Qed.

Lemma regtest_start_spec : exists g p, network_genesis CRegTestParams g /\ AddToBlockIndex header_GetHash emptyTree (b_header g) = Ret (regtest_start, p).
Proof.
  destruct (block_matches_spec _ _ _ regtest_genesis_matches) as (g & Eg & _). assert (network_genesis CRegTestParams g) as Hg by (by right; right).
  destruct (start_tree_spec CRegTestParams regtest_genesis g regtest_network Hg Eg) as [p E]. by exists g, p.
Qed.

Lemma regtest_start_built : built CRegTestParams true [] regtest_start [].
Proof. destruct regtest_start_spec as (g & p & Hg & E). by eapply (built_genesis _ _ _ g). Qed.

Lemma main_start_built : built CMainParams true [] main_start [] /\ nextPtr main_start = 1%nat.
Proof.
  assert (CMainParams ∈ networks) as Hcp by (by left). destruct (block_matches_spec _ _ _ main_genesis_matches) as (g & Eg & _).
  assert (network_genesis CMainParams g) as Hg by (by left). destruct (start_tree_spec CMainParams main_genesis g Hcp Hg Eg) as [p E].
  split; [by eapply (built_genesis _ _ _ g)|]. by eapply genesis_tree.
Qed.

Lemma stray_header_new : mapBlockIndex regtest_start !! header_GetHash stray_header = None /\ nextPtr regtest_start = 1%nat.
Proof.
  destruct regtest_start_spec as (g & p & Hg & E).
  destruct (genesis_facts CRegTestParams regtest_network g regtest_consensus Hg eq_refl) as (Hh & _ & _ & Hp & Hn).
  destruct (AddToBlockIndex_shape header_GetHash emptyTree (b_header g) regtest_start p (lookup_empty _) ltac:(congruence) E) as (_ & En & Em & _).
  split; [|done]. rewrite Em, Hh. rewrite lookup_insert_ne; [apply lookup_empty|].
  assert (bool_decide (hashGenesisBlock regtest_consensus = header_GetHash stray_header) = false) as H by (vm_compute; reflexivity).
  by apply bool_decide_eq_false in H.
Qed.


