(* ===== verification/BlockContext.v ===== *)
(** * Checks of a block in the context of its parent
      ([ContextualCheckBlock] of [validation.cpp])

    The rules for the body of a block that need its height: final
    transactions, the height in the coinbase (BIP 34), the commitment to
    witness data (BIP 141) and the weight; and the functions that write the
    commitment into a new block. *)

From S2P Require Import Prelude ArithUint256 StrEncodings Uint256 Amount Merkle Chain MedianTime Params Versionbits Pow Tx LockTime Script.
From S2P Require Import Hashes Serialize CheckTx AuxPow ConnectBlock Headers.
From stdpp Require Import list gmap.
#[local] Open Scope Z_scope.

Definition MAX_BLOCK_WEIGHT : Z := 4000000.

(** ** The witness commitment *)

(** The test on an output of the coinbase. *)
Definition is_commitment (scriptPubKey : CScript) : bool :=
  (38 <=? length scriptPubKey)%nat && (scriptPubKey.[0] =? OP_RETURN) && (scriptPubKey.[1] =? 0x24) && (scriptPubKey.[2] =? 0xaa) &&
  (scriptPubKey.[3] =? 0x21) && (scriptPubKey.[4] =? 0xa9) && (scriptPubKey.[5] =? 0xed).

Fixpoint commitment_loop (vout : list CTxOut) (o : nat) (commitpos : Z) : Z :=
  match vout with
  | [] => commitpos
  | out :: vout' => commitment_loop vout' (S o) (if is_commitment (scriptPubKey out) then Z.of_nat o else commitpos)
  end.
Definition GetWitnessCommitmentIndex (block : CBlock) : Z :=
  match b_vtx block with
  | [] => -1
  | tx :: _ => commitment_loop (tx_vout tx) 0 (-1)
  end.

Definition set_vtx (vtx : list CTransaction) (block : CBlock) : CBlock := mkBlock (b_header block) vtx (fChecked block).
Definition set_scriptWitness (w : list (list Z)) (i : CTxIn) : CTxIn := mkTxIn (prevout i) (scriptSig i) (nSequence i) w.

(** [BlockWitnessMerkleRoot]: the hash of the coinbase counts as null. *)
Definition BlockWitnessMerkleRoot (block : CBlock) : outcome (uint256 * bool) :=
  match b_vtx block with
  | [] => Abort
  | _ :: vtx => ComputeMerkleRoot Hash2 (uint256_null :: map GetWitnessHash vtx)
  end.

Definition UpdateUncommittedBlockStructures (block : CBlock) (pindexPrev : option ptr) (consensusParams : Params.Params) : outcome CBlock :=
  let commitpos := GetWitnessCommitmentIndex block in
  if negb (commitpos =? -1) && IsWitnessEnabled pindexPrev consensusParams
  then cb ← deref (head (b_vtx block));
       if negb (HasWitness cb)
       then i ← deref (head (vin cb));
            let vin' := set_scriptWitness [replicate 32 0] i :: tail (vin cb) in
            Ret (set_vtx (MakeTransaction (tx_nVersion cb) vin' (tx_vout cb) (nLockTime cb) :: tail (b_vtx block)) block)
       else Ret block
  else Ret block.

Definition commitment_script (root : uint256) : CScript := [OP_RETURN; 0x24; 0xaa; 0x21; 0xa9; 0xed] ++ root.

(** The commitment, empty when none was added, and the block. *)
Definition GenerateCoinbaseCommitment (block : CBlock) (pindexPrev : option ptr) (consensusParams : Params.Params) : outcome (list Z * CBlock) :=
  d ← deref (vDeployments consensusParams !! DEPLOYMENT_SEGWIT);
  '(commitment, block) ←
    (if negb (nTimeout d =? 0) && (GetWitnessCommitmentIndex block =? -1)
     then '(witnessroot, _) ← BlockWitnessMerkleRoot block;
          let out := mkTxOut 0 (commitment_script (CHash256 (witnessroot ++ replicate 32 0))) in
          cb ← deref (head (b_vtx block));
          Ret (scriptPubKey out, set_vtx (MakeTransaction (tx_nVersion cb) (vin cb) (tx_vout cb ++ [out]) (nLockTime cb) :: tail (b_vtx block)) block)
     else Ret ([], block));
  block ← UpdateUncommittedBlockStructures block pindexPrev consensusParams;
  Ret (commitment, block).

(** ** [ContextualCheckBlock] *)

Section Context.
Variable theParams : ParamsTree.

Definition check_final (vtx : list CTransaction) (nHeight nLockTimeCutoff : Z) (st : CValidationState) : run verdict unit :=
  if forallb (fun tx => IsFinalTx tx nHeight nLockTimeCutoff) vtx then Continue tt
  else Return (DoS 10 false REJECT_INVALID (str "bad-txns-nonfinal") false (str "non-final transaction") st).

Definition check_height (block : CBlock) (nHeight : Z) (consensusParams : Params.Params) (st : CValidationState) : run verdict unit :=
  if BIP34Height consensusParams <=? nHeight
  then let expect := push_int64 nHeight in
       cb ← lift (deref (head (b_vtx block)));
       i ← lift (deref (head (vin cb)));
       if (length (scriptSig i) <? length expect)%nat || negb (bool_decide (take (length expect) (scriptSig i) = expect))
       then Return (DoS 100 false REJECT_INVALID (str "bad-cb-height") false (str "block height mismatch in coinbase") st)
       else Continue tt
  else Continue tt.

(** The commitment of an active deployment: whether the block has one, after
    it was checked. *)
Definition check_commitment (block : CBlock) (st : CValidationState) : run verdict bool :=
  let commitpos := GetWitnessCommitmentIndex block in
  if negb (commitpos =? -1)
  then '(hashWitness, _) ← lift (BlockWitnessMerkleRoot block);
       cb ← lift (deref (head (b_vtx block)));
       i ← lift (deref (head (vin cb)));
       match scriptWitness i with
       | [nonce] =>
           if negb (length nonce =? 32)%nat
           then Return (DoS 100 false REJECT_INVALID (str "bad-witness-nonce-size") true (str "ContextualCheckBlock : invalid witness nonce size") st)
           else out ← lift (deref (tx_vout cb !! Z.to_nat commitpos));
                if negb (bool_decide (CHash256 (hashWitness ++ nonce) = take 32 (drop 6 (scriptPubKey out))))
                then Return (DoS 100 false REJECT_INVALID (str "bad-witness-merkle-match") true
                       (str "ContextualCheckBlock : witness merkle commitment mismatch") st)
                else Continue true
       | _ => Return (DoS 100 false REJECT_INVALID (str "bad-witness-nonce-size") true (str "ContextualCheckBlock : invalid witness nonce size") st)
       end
  else Continue false.

Definition check_unexpected (vtx : list CTransaction) (fHaveWitness : bool) (st : CValidationState) : run verdict unit :=
  if negb fHaveWitness && existsb HasWitness vtx
  then Return (DoS 100 false REJECT_INVALID (str "unexpected-witness") true (str "ContextualCheckBlock : unexpected witness data found") st)
  else Continue tt.

Definition check_weight (block : CBlock) (st : CValidationState) : run verdict unit :=
  weight ← lift (GetBlockWeight block);
  if MAX_BLOCK_WEIGHT <? weight
  then Return (DoS 100 false REJECT_INVALID (str "bad-blk-weight") false (str "ContextualCheckBlock : weight limit failed") st)
  else Continue tt.

(** The verdict and [versionbitscache]. *)
Definition ContextualCheckBlock (m : index) (block : CBlock) (st : CValidationState) (pindexPrev : option ptr) (versionbitscache : VersionBitsCache)
  : outcome (verdict * VersionBitsCache) :=
  nHeight ← match pindexPrev with None => Ret 0 | Some p => b ← deref (m !! p); Ret (i32 (Chain.nHeight b + 1)) end;
  consensusParams ← deref (GetConsensus theParams (u32 nHeight));
  '(csv, versionbitscache) ← VersionBitsState m pindexPrev consensusParams DEPLOYMENT_CSV versionbitscache;
  nLockTimeCutoff ← (if bool_decide (csv = THRESHOLD_ACTIVE) then p ← deref pindexPrev; GetMedianTimePast m p
                     else Ret (headerTime (b_header block)));
  let early := (_ ← check_final (b_vtx block) nHeight nLockTimeCutoff st; check_height block nHeight consensusParams st) in
  match early with
  | Crash => Abort
  | Return v => Ret (v, versionbitscache)
  | Continue _ =>
      '(segwit, versionbitscache) ← VersionBitsState m pindexPrev consensusParams DEPLOYMENT_SEGWIT versionbitscache;
      v ← finish (fHaveWitness ← (if bool_decide (segwit = THRESHOLD_ACTIVE) then check_commitment block st else Continue false);
                  _ ← check_unexpected (b_vtx block) fHaveWitness st;
                  _ ← check_weight block st;
                  Return (true, st));
      Ret (v, versionbitscache)
  end.
End Context.

(** ** Checks that decide a condition *)

(** A check that goes on with [a] exactly when [P] holds, and refuses
    otherwise. *)
Definition passes {A} (x : run verdict A) (a : A) (P : Prop) : Prop :=
  (x = Continue a /\ P) \/ (exists v, x = Return v /\ v.1 = false /\ ~ P).

Lemma passes_bind {A B} (x : run verdict A) (f : A -> run verdict B) a b P Q :
  passes x a P -> passes (f a) b Q -> passes (x ≫= f) b (P /\ Q).
Proof.
  intros [[-> HP]|(v & -> & Hv & HP)] Hf; [|right; exists v; split_and!; [done..|by intros [? _]]]. cbn [mbind run_bind].
  destruct Hf as [[-> HQ]|(v & -> & Hv & HQ)]; [by left|right]. exists v. split_and!; [done..|by intros [_ ?]].
Qed.

Lemma passes_DoS {A} (a : A) level reason corrupt debug st (P : Prop) : ~ P -> passes (Return (DoS level false REJECT_INVALID reason corrupt debug st)) a P.
Proof. intros HP. right. eexists. split; [done|]. split; [apply DoS_false|done]. Qed.

#[global] Instance passes_proper {A} (x : run verdict A) a : Proper (iff ==> iff) (passes x a).
Proof. intros P Q HPQ. unfold passes. by setoid_rewrite HPQ. Qed.

(** A run that returns, and accepts exactly when [P] holds. *)
Definition accepts_iff (x : run verdict verdict) (P : Prop) : Prop := exists ok st', finish x = Ret (ok, st') /\ (ok = true <-> P).

Lemma accepts_bind {A} (x : run verdict A) (f : A -> run verdict verdict) a P Q : passes x a P -> accepts_iff (f a) Q -> accepts_iff (x ≫= f) (P /\ Q).
Proof.
  intros [[-> HP]|([ok st'] & -> & Hv & HP)] Hf; cbn [mbind run_bind].
  - destruct Hf as (ok & st' & E & Hok). exists ok, st'. split; [done|]. tauto.
  - cbn in Hv. subst ok. exists false, st'. split; [done|]. split; [done|tauto].
Qed.

Lemma accepts_true st : accepts_iff (Return (true, st)) True.
Proof. by exists true, st. Qed.

#[global] Instance accepts_proper x : Proper (iff ==> iff) (accepts_iff x).
Proof. intros P Q HPQ. unfold accepts_iff. by setoid_rewrite HPQ. Qed.

Lemma forallb_true_Forall {A} (f : A -> bool) l : forallb f l = true <-> Forall (fun x => f x = true) l.
Proof. rewrite forallb_forall, Forall_forall. by setoid_rewrite list_elem_of_In. Qed.

Lemma existsb_false_Forall {A} (f : A -> bool) l : existsb f l = false <-> Forall (fun x => f x = false) l.
Proof.
  induction l as [|x l IH]; cbn [existsb]; [by split; [constructor|]|]. by rewrite orb_false_iff, Forall_cons, IH.
Qed.

Lemma check_final_spec vtx h cutoff st : passes (check_final vtx h cutoff st) tt (Forall (fun tx => IsFinalTx tx h cutoff = true) vtx).
Proof.
  unfold check_final. rewrite <- forallb_true_Forall. destruct (forallb _ vtx); [by left|by apply passes_DoS].
Qed.

(** The input script starts with the height. *)
Definition starts_with_height (i : CTxIn) (h : Z) : Prop := exists rest, scriptSig i = push_int64 h ++ rest.

Lemma starts_with_spec (s expect : list Z) : (length s <? length expect)%nat || negb (bool_decide (take (length expect) s = expect)) = false <->
  exists rest, s = expect ++ rest.
Proof.
  split.
  - intros [_ H%negb_false_iff%bool_decide_eq_true]%orb_false_iff. exists (drop (length expect) s). rewrite <- H at 1. by rewrite take_drop.
  - intros [rest ->]. rewrite length_app, take_app_length, bool_decide_true by done. rewrite (proj2 (Nat.ltb_ge _ _)) by lia. done.
Qed.

Lemma check_height_spec block cb i vtx ins h params st : b_vtx block = cb :: vtx -> vin cb = i :: ins ->
  passes (check_height block h params st) tt (BIP34Height params <= h -> starts_with_height i h).
Proof.
  intros Hv Hi. unfold check_height. destruct (Z.leb_spec (BIP34Height params) h) as [Hh|Hh]; [|left; split; [done|lia]].
  rewrite Hv. cbn [head deref lift mbind run_bind]. rewrite Hi. cbn [head deref lift mbind run_bind].
  pose proof (starts_with_spec (scriptSig i) (push_int64 h)) as Hs. destruct (_ || _) eqn:E.
  - apply passes_DoS. intros H. by apply Hs in H.
  - left. split; [done|]. intros _. by apply Hs.
Qed.

Lemma check_unexpected_spec vtx fHaveWitness st : passes (check_unexpected vtx fHaveWitness st) tt (fHaveWitness = false -> Forall (fun tx => HasWitness tx = false) vtx).
Proof.
  unfold check_unexpected. rewrite <- existsb_false_Forall. destruct fHaveWitness; cbn [negb andb]; [by left|].
  destruct (existsb HasWitness vtx); [apply passes_DoS; intros H; by specialize (H eq_refl)|by left].
Qed.

(** A header that claims an auxiliary proof has one. *)
Definition auxpow_present (block : CBlock) : Prop := IsAuxpow (b_header block) = true -> auxpow (b_header block) <> None.

Lemma GetBlockWeight_total block : auxpow_present block -> exists w, GetBlockWeight block = Ret w.
Proof.
  intros Ha. assert (forall f, exists bs, ser_CBlock f block = Ret bs) as Hs.
  { intros f. unfold ser_CBlock, ser_CBlockHeader. destruct (IsAuxpow (b_header block)) eqn:E; [|by eexists].
    specialize (Ha E). destruct (auxpow (b_header block)); [by eexists|done]. }
  unfold GetBlockWeight, block_size. destruct (Hs false) as [b1 ->], (Hs true) as [b2 ->]. by eexists.
Qed.

Lemma check_weight_spec block w st : GetBlockWeight block = Ret w -> passes (check_weight block st) tt (w <= MAX_BLOCK_WEIGHT).
Proof.
  intros Hw. unfold check_weight. rewrite Hw. cbn [lift mbind run_bind]. destruct (Z.ltb_spec MAX_BLOCK_WEIGHT w); [apply passes_DoS; lia|by left].
Qed.

(** ** The commitment *)

Lemma commitment_loop_spec vout o pos : let r := commitment_loop vout o pos in
  r = pos \/ exists k out, vout !! k = Some out /\ is_commitment (scriptPubKey out) = true /\ r = Z.of_nat (o + k).
Proof.
  revert o pos. induction vout as [|out vout IH]; intros o pos; cbn zeta; [by left|]. cbn [commitment_loop].
  destruct (IH (S o) (if is_commitment (scriptPubKey out) then Z.of_nat o else pos)) as [->|(k & out' & Hk & Hc & ->)].
  - destruct (is_commitment (scriptPubKey out)) eqn:E; [|by left]. right. exists 0%nat, out. split_and!; [done..|lia].
  - right. exists (S k), out'. split_and!; [done..|lia].
Qed.

Lemma commitment_loop_last vout out o pos : is_commitment (scriptPubKey out) = true -> commitment_loop (vout ++ [out]) o pos = Z.of_nat (o + length vout).
Proof.
  intros Hc. revert o pos. induction vout as [|x vout IH]; intros o pos; cbn [app commitment_loop length].
  - rewrite Hc. lia.
  - rewrite IH. lia.
Qed.

(** The coinbase holds a nonce, and the commitment is to it and to the
    witnesses of the block. *)
Definition witness_committed (block : CBlock) (cb : CTransaction) (i : CTxIn) : Prop :=
  exists nonce root mutated out, scriptWitness i = [nonce] /\ length nonce = 32%nat /\ BlockWitnessMerkleRoot block = Ret (root, mutated) /\
    tx_vout cb !! Z.to_nat (GetWitnessCommitmentIndex block) = Some out /\ CHash256 (root ++ nonce) = take 32 (drop 6 (scriptPubKey out)).

Lemma BlockWitnessMerkleRoot_total block cb vtx : b_vtx block = cb :: vtx -> Z.of_nat (length vtx) < 2 ^ 31 ->
  exists root mutated, BlockWitnessMerkleRoot block = Ret (root, mutated).
Proof.
  intros Hv Hl. unfold BlockWitnessMerkleRoot. rewrite Hv.
  rewrite merkle_root_reference by (done || (cbn [length]; rewrite length_map; lia)). by eexists _, _.
Qed.

Lemma check_commitment_spec block cb i vtx ins st : b_vtx block = cb :: vtx -> vin cb = i :: ins -> Z.of_nat (length vtx) < 2 ^ 31 ->
  passes (check_commitment block st) (negb (GetWitnessCommitmentIndex block =? -1)) (GetWitnessCommitmentIndex block <> -1 -> witness_committed block cb i).
Proof.
  intros Hv Hi Hl. unfold check_commitment. destruct (Z.eqb_spec (GetWitnessCommitmentIndex block) (-1)) as [He|He]; cbn [negb]; [by left|].
  destruct (BlockWitnessMerkleRoot_total block cb vtx Hv Hl) as (root & mutated & Er). rewrite Er. cbn [lift mbind run_bind]. rewrite Hv.
  cbn [head deref lift mbind run_bind]. rewrite Hi. cbn [head deref lift mbind run_bind].
  assert (exists out, tx_vout cb !! Z.to_nat (GetWitnessCommitmentIndex block) = Some out) as [out Ho].
  { unfold GetWitnessCommitmentIndex in *. rewrite Hv in *. destruct (commitment_loop_spec (tx_vout cb) 0 (-1)) as [?|(k & out & Hk & _ & ->)]; [done|].
    exists out. by rewrite Nat2Z.id. }
  assert (witness_committed block cb i -> forall nonce, scriptWitness i = [nonce] -> length nonce = 32%nat /\ CHash256 (root ++ nonce) = take 32 (drop 6 (scriptPubKey out))) as Hw.
  { intros (n' & root' & mut' & out' & E1 & E2 & E3 & E4 & E5) nonce E. rewrite E in E1. injection E1 as <-. rewrite Er in E3. injection E3 as <- <-.
    rewrite Ho in E4. by injection E4 as <-. }
  destruct (scriptWitness i) as [|nonce [|]] eqn:En.
  1,3: apply passes_DoS; intros H; destruct (H He) as (n' & ? & ? & ? & E1 & _); congruence.
  destruct (Nat.eqb_spec (length nonce) 32) as [H32|H32]; cbn [negb]; [|apply passes_DoS; intros H; by destruct (Hw (H He) nonce eq_refl)].
  rewrite Ho. cbn [deref lift mbind run_bind]. case_bool_decide as Hh; cbn [negb].
  - left. split; [done|]. intros _. by exists nonce, root, mutated, out.
  - apply passes_DoS. intros H. by destruct (Hw (H He) nonce eq_refl).
Qed.

(** ** Deployments *)

(** The state of a deployment for a block on top of [o]. *)
Definition deployment_state (m : index) (o : option ptr) (params : Params.Params) (pos : nat) : ThresholdState :=
  match vDeployments params !! pos with
  | Some d => state_after m (VersionBitsConditionChecker params d) (end_before m (VersionBitsConditionChecker params d) o)
  | None => THRESHOLD_DEFINED
  end.

Section Deployments.
Context (cp : ParamsTree) (Hcp : cp ∈ networks) (m : index) (Hm : wf_index m).

(** One cache per deployment, with states of its machine. *)
Definition caches_ok (cache : VersionBitsCache) : Prop :=
  length cache = 3%nat /\
  forall p0 pos d c, GetConsensus cp 0 = Some p0 -> vDeployments p0 !! pos = Some d -> cache !! pos = Some c ->
    cache_ok m (VersionBitsConditionChecker p0 d) c.

Lemma network_deployments h params : 0 <= h -> GetConsensus cp h = Some params -> exists p0, GetConsensus cp 0 = Some p0 /\
  vDeployments params = vDeployments p0 /\ (forall d, VersionBitsConditionChecker params d = VersionBitsConditionChecker p0 d) /\
  length (vDeployments p0) = 3%nat /\ 0 < nMinerConfirmationWindow p0.
Proof.
  intros Hh Hc. destruct (network_in_force cp 0 Hcp ltac:(lia)) as (p0 & H0 & _). exists p0. split; [done|].
  assert (cp = CMainParams \/ cp = CTestNetParams \/ cp = CRegTestParams) as Hn.
  { unfold networks in Hcp. rewrite !elem_of_cons, elem_of_nil in Hcp. tauto. }
  destruct (networks_share_deployments cp h Hn params p0 Hc H0) as (E1 & E2 & E3). split; [done|]. unfold VersionBitsConditionChecker.
  rewrite E1, E2. split; [done|]. destruct Hn as [->|[->| ->]]; injection H0 as <-; by vm_compute.
Qed.

Lemma VersionBitsState_spec h params o pos cache : 0 <= h -> GetConsensus cp h = Some params -> (pos < 3)%nat -> caches_ok cache ->
  (forall p, o = Some p -> is_Some (m !! p)) ->
  exists cache', VersionBitsState m o params pos cache = Ret (deployment_state m o params pos, cache') /\ caches_ok cache'.
Proof.
  intros Hh Hc Hpos [Hl Hok] Ho. destruct (network_deployments h params Hh Hc) as (p0 & H0 & Ed & Ek & Hn & Hw).
  unfold VersionBitsState, deployment_state. rewrite Ed. destruct (lookup_lt_is_Some_2 (vDeployments p0) pos ltac:(lia)) as [d Hd]. rewrite Hd.
  destruct (lookup_lt_is_Some_2 cache pos ltac:(lia)) as [c Hc']. rewrite Hc'. cbn [deref mbind outcome_bind]. rewrite Ek.
  destruct (GetStateFor_spec m Hm (VersionBitsConditionChecker p0 d) Hw o c (Hok p0 pos d c H0 Hd Hc') Ho) as (c' & -> & Hc1).
  cbn [mbind outcome_bind]. eexists. split; [done|]. split; [by rewrite length_insert|]. intros p0' pos' d' c2 H0' Hd' Hc2.
  assert (p0' = p0) as -> by congruence. destruct (decide (pos' = pos)) as [->|Hne].
  - rewrite list_lookup_insert_eq in Hc2 by lia. injection Hc2 as <-. by assert (d' = d) as -> by congruence.
  - rewrite list_lookup_insert_ne in Hc2 by done. by eapply Hok.
Qed.

(** A deployment that ends at time 0 is never active. *)
Lemma ended_never_active chk o : EndTime chk = 0 -> (forall p, 0 <= mtp m p) -> state_after m chk o <> THRESHOLD_ACTIVE.
Proof.
  intros He Ht. unfold state_after. generalize (walk_fuel m o) as n. intros n.
  assert (state_after_fuel m chk n o = THRESHOLD_DEFINED \/ state_after_fuel m chk n o = THRESHOLD_FAILED) as [-> | ->]; [|done..].
  revert o. induction n as [|n IH]; intros [p|]; cbn [state_after_fuel]; [by left..| |by left]. destruct (_ <? _); [by left|right].
  unfold bip9_next. rewrite He. rewrite (proj2 (Z.leb_le 0 (mtp m p)) (Ht p)). by destruct (IH (prev_period m chk p)) as [-> | ->].
Qed.

Lemma mtp_nonneg : (forall p b, m !! p = Some b -> 0 <= nTime b) -> forall p, 0 <= mtp m p.
Proof.
  intros Ht p. unfold mtp. destruct (GetMedianTimePast m p) as [t|] eqn:E; [|done].
  destruct (median_is_time m p t E) as (j & q & b & _ & _ & Hq & ->). by apply (Ht q).
Qed.
End Deployments.

Lemma deployment_state_genesis m params pos : deployment_state m None params pos = THRESHOLD_DEFINED.
Proof. unfold deployment_state. by destruct (vDeployments params !! pos). Qed.

(** ** The whole check *)

Definition height_after (m : index) (o : option ptr) : Z := match o ≫= (m !!.) with Some b => nHeight b + 1 | None => 0 end.

(** What is asked of a block on top of [o], under the rules of its height. *)
Record context_ok (params : Params.Params) (m : index) (o : option ptr) (block : CBlock) (cb : CTransaction) (i : CTxIn) : Prop := {
  co_final : let csv := deployment_state m o params DEPLOYMENT_CSV in
    Forall (fun tx => IsFinalTx tx (height_after m o)
      (match csv, o with THRESHOLD_ACTIVE, Some p => mtp m p | _, _ => hTime (b_header block) end) = true) (b_vtx block);
  co_height : BIP34Height params <= height_after m o -> starts_with_height i (height_after m o);
  co_witness : if bool_decide (deployment_state m o params DEPLOYMENT_SEGWIT = THRESHOLD_ACTIVE) && negb (GetWitnessCommitmentIndex block =? -1)
    then witness_committed block cb i else Forall (fun tx => HasWitness tx = false) (b_vtx block);
  co_weight : exists w, GetBlockWeight block = Ret w /\ w <= MAX_BLOCK_WEIGHT
}.

Lemma height_after_spec m o : wf_index m -> (forall p, o = Some p -> exists b, m !! p = Some b /\ nHeight b < 2 ^ 31 - 1) ->
  match o with None => Ret 0 | Some p => b ← deref (m !! p); Ret (i32 (nHeight b + 1)) end = Ret (height_after m o) /\ 0 <= height_after m o < 2 ^ 31.
Proof.
  intros Hm Ho. unfold height_after. destruct o as [p|]; [|cbn; by split; [|lia]]. destruct (Ho p eq_refl) as (b & Hb & Hlt). cbn [mbind option_bind]. rewrite Hb.
  pose proof (wf_nonneg m Hm p b Hb). cbn [deref mbind outcome_bind]. rewrite (wrapS_small 32) by (unfold inS; lia). split; [done|lia].
Qed.

Section Whole.
Context (cp : ParamsTree) (Hcp : cp ∈ networks) (m : index) (Hm : wf_index m).
Context (block : CBlock) (cb : CTransaction) (i : CTxIn) (vtx : list CTransaction) (ins : list CTxIn).
Context (Hv : b_vtx block = cb :: vtx) (Hi : vin cb = i :: ins) (Hl : Z.of_nat (length vtx) < 2 ^ 31) (Ha : auxpow_present block).

Lemma witness_step active w st : GetBlockWeight block = Ret w ->
  accepts_iff (fHaveWitness ← (if active : bool then check_commitment block st else Continue false);
               _ ← check_unexpected (b_vtx block) fHaveWitness st; _ ← check_weight block st; Return (true, st))
    ((if active && negb (GetWitnessCommitmentIndex block =? -1) then witness_committed block cb i
      else Forall (fun tx => HasWitness tx = false) (b_vtx block)) /\ w <= MAX_BLOCK_WEIGHT).
Proof.
  intros Hw. pose proof (accepts_bind _ (fun _ => Return (true, st)) tt _ _ (check_weight_spec block w st Hw) (accepts_true st)) as Hr1.
  pose proof (fun f => accepts_bind _ (fun _ => _ ← check_weight block st; Return (true, st)) tt _ _ (check_unexpected_spec (b_vtx block) f st) Hr1) as Hr2.
  destruct active; cbn [andb]; [|cbn [mbind run_bind]; generalize (Hr2 false); apply accepts_proper; naive_solver].
  generalize (accepts_bind _ (fun f => _ ← check_unexpected (b_vtx block) f st; _ ← check_weight block st; Return (true, st)) _ _ _
    (check_commitment_spec block cb i vtx ins st Hv Hi Hl) (Hr2 _)). apply accepts_proper.
  destruct (Z.eqb_spec (GetWitnessCommitmentIndex block) (-1)); cbn [negb]; naive_solver.
Qed.

(** The time that the lock times are compared with. *)
Definition lock_cutoff (params : Params.Params) (o : option ptr) : Z :=
  match deployment_state m o params DEPLOYMENT_CSV, o with THRESHOLD_ACTIVE, Some p => mtp m p | _, _ => hTime (b_header block) end.

Lemma lock_cutoff_spec params o : (forall p, o = Some p -> is_Some (m !! p)) ->
  (if bool_decide (deployment_state m o params DEPLOYMENT_CSV = THRESHOLD_ACTIVE) then p ← deref o; GetMedianTimePast m p
   else Ret (headerTime (b_header block))) = Ret (lock_cutoff params o).
Proof.
  intros Ho. unfold lock_cutoff. destruct o as [p|]; [|by rewrite deployment_state_genesis]. destruct (Ho p eq_refl) as [b Hb].
  cbn [deref mbind outcome_bind]. rewrite (mtp_spec m Hm p b Hb). by destruct (deployment_state _ _ _ _).
Qed.

Lemma ContextualCheckBlock_spec o st cache : (forall p, o = Some p -> exists b, m !! p = Some b /\ nHeight b < 2 ^ 31 - 1) -> caches_ok cp m cache ->
  exists params ok st' cache', ContextualCheckBlock cp m block st o cache = Ret ((ok, st'), cache') /\ caches_ok cp m cache' /\
    GetConsensus cp (height_after m o) = Some params /\ (ok = true <-> context_ok params m o block cb i).
Proof.
  intros Ho Hc. destruct (height_after_spec m o Hm Ho) as [Eh Hh].
  assert (forall p, o = Some p -> is_Some (m !! p)) as Ho' by (intros p Hp; destruct (Ho p Hp) as (b & ? & _); eauto).
  destruct (network_in_force cp (height_after m o) Hcp ltac:(lia)) as (params & Hp & _).
  destruct (VersionBitsState_spec cp Hcp m Hm (height_after m o) params o DEPLOYMENT_CSV cache ltac:(lia) Hp ltac:(unfold DEPLOYMENT_CSV; lia) Hc Ho') as (cache1 & E1 & Hc1).
  destruct (VersionBitsState_spec cp Hcp m Hm (height_after m o) params o DEPLOYMENT_SEGWIT cache1 ltac:(lia) Hp ltac:(unfold DEPLOYMENT_SEGWIT; lia) Hc1 Ho')
    as (cache2 & E2 & Hc2).
  destruct (GetBlockWeight_total block Ha) as [w Hw]. unfold ContextualCheckBlock. rewrite Eh. cbn [mbind outcome_bind].
  rewrite (wrapU_small 32) by (unfold inU; lia). rewrite Hp. cbn [deref mbind outcome_bind]. rewrite E1. cbn [mbind outcome_bind].
  rewrite lock_cutoff_spec by done. cbn [mbind outcome_bind].
  set (active := bool_decide (deployment_state m o params DEPLOYMENT_SEGWIT = THRESHOLD_ACTIVE)) in *.
  assert (context_ok params m o block cb i <-> (Forall (fun tx => IsFinalTx tx (height_after m o) (lock_cutoff params o) = true) (b_vtx block) /\
    (BIP34Height params <= height_after m o -> starts_with_height i (height_after m o))) /\
    (if active && negb (GetWitnessCommitmentIndex block =? -1) then witness_committed block cb i
      else Forall (fun tx => HasWitness tx = false) (b_vtx block)) /\ w <= MAX_BLOCK_WEIGHT) as Hco.
  { split; [intros [H1 H2 H3 (w' & Hw' & H4)]; assert (w' = w) as -> by congruence; by split_and!|]. intros ([H1 H2] & H3 & H4). split; eauto. }
  exists params. setoid_rewrite Hco. clear Hco.
  destruct (passes_bind _ (fun _ => check_height block (height_after m o) params st) tt tt _ _
    (check_final_spec (b_vtx block) (height_after m o) (lock_cutoff params o) st) (check_height_spec block cb i vtx ins (height_after m o) params st Hv Hi))
    as [[-> Hearly]|([ok st'] & -> & Hv' & Hearly)].
  2:{ cbn in Hv'. subst ok. exists false, st', cache1. split_and!; try done. split; [done|]. by intros [? _]. }
  rewrite E2. cbn [mbind outcome_bind]. fold active.
  destruct (witness_step active w st Hw) as (ok & st' & -> & Hok). cbn [mbind outcome_bind]. exists ok, st', cache2. split_and!; try done. tauto.
Qed.
End Whole.

(** ** Unique coinbases *)

Lemma push_height_inj s h1 h2 : 0 <= h1 < 2 ^ 31 -> 0 <= h2 < 2 ^ 31 -> Z.of_nat (length s) < 2 ^ 31 ->
  (exists rest, s = push_int64 h1 ++ rest) -> (exists rest, s = push_int64 h2 ++ rest) -> h1 = h2.
Proof.
  intros H1 H2 Hl [r1 E1] [r2 E2].
  assert (Z.of_nat (length r1) < 2 ^ 31 /\ Z.of_nat (length r2) < 2 ^ 31) as [L1 L2].
  { assert (length s = length (push_int64 h1 ++ r1)) as ? by congruence. assert (length s = length (push_int64 h2 ++ r2)) as ? by congruence.
    rewrite !length_app in *. lia. }
  destruct (proj2 (script_push_roundtrip r1) h1 ltac:(lia) L1) as (op1 & d1 & G1 & C1).
  destruct (proj2 (script_push_roundtrip r2) h2 ltac:(lia) L2) as (op2 & d2 & G2 & C2).
  rewrite <- E1 in G1. rewrite <- E2, G1 in G2. injection G2 as <- <- _.
  destruct C1 as [(? & _ & ?)|[? N1]], C2 as [(? & _ & ?)|[? N2]]; [lia..|]. rewrite N1 in N2. by injection N2.
Qed.

(** The block passed the check at height [h] with [cb] as its coinbase. *)
Record accepted_at (cp : ParamsTree) (h : Z) (block : CBlock) (cb : CTransaction) : Prop := {
  aa_first : exists vtx, b_vtx block = cb :: vtx;
  aa_wf : wf_tx cb /\ GetHash cb = ComputeHash cb;
  aa_input : exists i ins, vin cb = i :: ins;
  aa_check : exists m o st st' cache cache', wf_index m /\
    (forall p, o = Some p -> exists b, m !! p = Some b /\ nHeight b < 2 ^ 31 - 1) /\ h = height_after m o /\
    ContextualCheckBlock cp m block st o cache = Ret ((true, st'), cache')
}.

Lemma ContextualCheckBlock_height cp m block st o cache st' cache' cb i vtx ins params : wf_index m ->
  (forall p, o = Some p -> exists b, m !! p = Some b /\ nHeight b < 2 ^ 31 - 1) -> b_vtx block = cb :: vtx -> vin cb = i :: ins ->
  GetConsensus cp (height_after m o) = Some params -> ContextualCheckBlock cp m block st o cache = Ret ((true, st'), cache') ->
  BIP34Height params <= height_after m o -> starts_with_height i (height_after m o).
Proof.
  intros Hm Ho Hv Hi Hp E. destruct (height_after_spec m o Hm Ho) as [Eh Hh]. unfold ContextualCheckBlock in E. rewrite Eh in E. cbn [mbind outcome_bind] in E.
  rewrite (wrapU_small 32) in E by (unfold inU; lia). rewrite Hp in E. cbn [deref mbind outcome_bind] in E.
  destruct (VersionBitsState _ _ _ _ _) as [[csv cache1]|]; [|done]. cbn [mbind outcome_bind] in E.
  destruct (if bool_decide _ then _ else _) as [cutoff|]; [|done]. cbn [mbind outcome_bind] in E.
  destruct (passes_bind _ (fun _ => check_height block (height_after m o) params st) tt tt _ _
    (check_final_spec (b_vtx block) (height_after m o) cutoff st) (check_height_spec block cb i vtx ins (height_after m o) params st Hv Hi))
    as [[_ [_ H]]|(v & Hr & Hf & _)]; [done|]. rewrite Hr in E. injection E as -> _. done.
Qed.

Lemma accepted_height cp h block cb params : accepted_at cp h block cb -> GetConsensus cp h = Some params -> BIP34Height params <= h ->
  exists i ins, vin cb = i :: ins /\ starts_with_height i h /\ 0 <= h < 2 ^ 31.
Proof.
  intros [[vtx Hv] _ (i & ins & Hi) (m & o & st & st' & c & c' & Hm & Ho & -> & E)] Hp Hb. exists i, ins. split; [done|].
  split; [|by apply (height_after_spec m o Hm Ho)]. by eapply ContextualCheckBlock_height.
Qed.

(** ** The witness commitment of a new block *)

Lemma IsWitnessEnabled_never block o params : UpdateUncommittedBlockStructures block o params = Ret block.
Proof. unfold UpdateUncommittedBlockStructures, IsWitnessEnabled. by rewrite andb_false_r. Qed.

Lemma MakeTransaction_fields v ins outs l : vin (MakeTransaction v ins outs l) = ins /\ tx_vout (MakeTransaction v ins outs l) = outs /\
  tx_nVersion (MakeTransaction v ins outs l) = v /\ nLockTime (MakeTransaction v ins outs l) = l.
Proof. done. Qed.

Lemma set_vtx_twice v1 v2 block : set_vtx v1 (set_vtx v2 block) = set_vtx v1 block.
Proof. done. Qed.

(** The coinbase with a nonce of zeros. *)
Definition with_nonce (block : CBlock) : CBlock :=
  match b_vtx block with
  | cb :: vtx => set_vtx (MakeTransaction (tx_nVersion cb) (match vin cb with i :: ins => set_scriptWitness [replicate 32 0] i :: ins | [] => [] end)
                            (tx_vout cb) (nLockTime cb) :: vtx) block
  | [] => block
  end.

Lemma is_commitment_script root : length root = 32%nat -> is_commitment (commitment_script root) = true.
Proof. intros Hr. unfold is_commitment, commitment_script. rewrite length_app, Hr. done. Qed.

Lemma generated block o params cb vtx d : b_vtx block = cb :: vtx -> Z.of_nat (length vtx) < 2 ^ 31 ->
  vDeployments params !! DEPLOYMENT_SEGWIT = Some d -> nTimeout d <> 0 -> GetWitnessCommitmentIndex block = -1 ->
  exists root mutated, BlockWitnessMerkleRoot block = Ret (root, mutated) /\
    let script := commitment_script (CHash256 (root ++ replicate 32 0)) in
    GenerateCoinbaseCommitment block o params =
      Ret (script, set_vtx (MakeTransaction (tx_nVersion cb) (vin cb) (tx_vout cb ++ [mkTxOut 0 script]) (nLockTime cb) :: vtx) block).
Proof.
  intros Hv Hl Hd Ht Hc. destruct (BlockWitnessMerkleRoot_total block cb vtx Hv Hl) as (root & mutated & Er). exists root, mutated. split; [done|].
  unfold GenerateCoinbaseCommitment. rewrite Hd. cbn [deref mbind outcome_bind]. rewrite (proj2 (Z.eqb_neq _ _) Ht), Hc, Er.
  change (-1 =? -1) with true. cbn [negb andb mbind outcome_bind]. rewrite Hv. cbn [head tail deref mbind outcome_bind].
  by rewrite IsWitnessEnabled_never.
Qed.

Lemma committed_index block cb vtx v ins script : b_vtx block = cb :: vtx -> is_commitment script = true ->
  let block' := set_vtx (MakeTransaction v ins (tx_vout cb ++ [mkTxOut 0 script]) (nLockTime cb) :: vtx) block in
  GetWitnessCommitmentIndex block' = Z.of_nat (length (tx_vout cb)) /\ BlockWitnessMerkleRoot block' = BlockWitnessMerkleRoot block.
Proof.
  intros Hv Hs. unfold GetWitnessCommitmentIndex, BlockWitnessMerkleRoot. rewrite Hv. cbn [set_vtx b_vtx]. split; [|done].
  rewrite (proj1 (proj2 (MakeTransaction_fields _ _ _ _))). by rewrite commitment_loop_last.
Qed.

Lemma check_commitment_no_nonce block cb i vtx ins st : b_vtx block = cb :: vtx -> vin cb = i :: ins -> Z.of_nat (length vtx) < 2 ^ 31 ->
  GetWitnessCommitmentIndex block <> -1 -> scriptWitness i = [] ->
  check_commitment block st =
    Return (DoS 100 false REJECT_INVALID (str "bad-witness-nonce-size") true (str "ContextualCheckBlock : invalid witness nonce size") st).
Proof.
  intros Hv Hi Hl Hc Hw. destruct (BlockWitnessMerkleRoot_total block cb vtx Hv Hl) as (root & mutated & Er). unfold check_commitment.
  rewrite (proj2 (Z.eqb_neq _ _) Hc), Er, Hv. cbn [negb lift mbind run_bind head deref]. rewrite Hi. cbn [head deref lift mbind run_bind]. by rewrite Hw.
Qed.

Lemma drop_commitment root : drop 6 (commitment_script root) = root.
Proof. done. Qed.

Lemma check_commitment_nonce block cb i vtx ins outs root mutated nonce st : b_vtx block = cb :: vtx -> vin cb = i :: ins -> Z.of_nat (length vtx) < 2 ^ 31 ->
  BlockWitnessMerkleRoot block = Ret (root, mutated) -> tx_vout cb = outs ++ [mkTxOut 0 (commitment_script (CHash256 (root ++ nonce)))] ->
  GetWitnessCommitmentIndex block = Z.of_nat (length outs) -> scriptWitness i = [nonce] -> length nonce = 32%nat ->
  check_commitment block st = Continue true.
Proof.
  intros Hv Hi Hl Er Ho Hc Hw H32.
  destruct (check_commitment_spec block cb i vtx ins st Hv Hi Hl) as [[E _]|(v & _ & _ & Hn)].
  - rewrite E. rewrite (proj2 (Z.eqb_neq _ _)) by lia. done.
  - exfalso. apply Hn. intros _. exists nonce, root, mutated, (mkTxOut 0 (commitment_script (CHash256 (root ++ nonce)))). split_and!; try done.
    + rewrite Ho, Hc, Nat2Z.id, lookup_app_r, Nat.sub_diag by lia. done.
    + cbn [scriptPubKey]. rewrite drop_commitment, take_ge; [done|]. unfold CHash256. by rewrite (proj2 (CSHA256_size _)).
Qed.

(** ** Properties *)

(** C24: the check of a block in its context.  On every network, in a
    well-formed index and with caches of states of the deployments, the check
    returns and leaves such caches; it accepts exactly when every transaction
    is final at the height of the block (and at the median time, once that
    rule is active), the coinbase starts with the height where BIP 34 is in
    force, the witnesses are committed to or absent, and the weight is within
    the limit. *)
Theorem block_context_iff (cp : ParamsTree) (m : index) (block : CBlock) (cb : CTransaction) (i : CTxIn) (vtx : list CTransaction) (ins : list CTxIn)
  (o : option ptr) (st : CValidationState) (cache : VersionBitsCache)
  (Hcp : cp ∈ networks) (Hm : wf_index m) (Hv : b_vtx block = cb :: vtx) (Hi : vin cb = i :: ins) (Hl : Z.of_nat (length vtx) < 2 ^ 31)
  (Ha : auxpow_present block) (Ho : forall p, o = Some p -> exists b, m !! p = Some b /\ nHeight b < 2 ^ 31 - 1) (Hc : caches_ok cp m cache) :
  exists params ok st' cache', ContextualCheckBlock cp m block st o cache = Ret ((ok, st'), cache') /\ caches_ok cp m cache' /\
    GetConsensus cp (height_after m o) = Some params /\ (ok = true <-> context_ok params m o block cb i).
Proof. by apply (ContextualCheckBlock_spec cp Hcp m Hm block cb i vtx ins). Qed.

(** BIP 34 makes coinbases unique.  Two blocks that pass the check at
    different heights, at which the rule is in force, have coinbases with
    different hashes, unless the serializations of these two coinbases collide
    under double SHA-256. *)
Theorem bip34_unique_coinbase (cp : ParamsTree) (h1 h2 : Z) (block1 block2 : CBlock) (cb1 cb2 : CTransaction) (params1 params2 : Params.Params)
  (A1 : accepted_at cp h1 block1 cb1) (A2 : accepted_at cp h2 block2 cb2)
  (P1 : GetConsensus cp h1 = Some params1) (P2 : GetConsensus cp h2 = Some params2)
  (B1 : BIP34Height params1 <= h1) (B2 : BIP34Height params2 <= h2) (Hne : h1 <> h2)
  (Hnc : CHash256 (SerializeTransaction false cb1) = CHash256 (SerializeTransaction false cb2) ->
         SerializeTransaction false cb1 = SerializeTransaction false cb2) :
  GetHash cb1 <> GetHash cb2.
Proof.
  destruct (accepted_height cp h1 block1 cb1 params1 A1 P1 B1) as (i1 & l1 & V1 & S1 & R1).
  destruct (accepted_height cp h2 block2 cb2 params2 A2 P2 B2) as (i2 & l2 & V2 & S2 & R2).
  destruct (aa_wf _ _ _ _ A1) as [W1 ->], (aa_wf _ _ _ _ A2) as [W2 ->]. unfold ComputeHash. intros E%Hnc.
  pose proof (reads_tx false cb1 W1 (or_intror eq_refl) []) as T1. pose proof (reads_tx false cb2 W2 (or_intror eq_refl) []) as T2.
  rewrite E, T2 in T1. unfold tx_fields in T1. rewrite V1, V2 in T1. cbn [map] in T1.
  assert (strip i1 = strip i2) as Es by congruence. apply (f_equal scriptSig) in Es. cbn in Es. apply Hne.
  apply (push_height_inj (scriptSig i2) h1 h2 R1 R2); [|by rewrite <- Es|done].
  destruct (wf_vin cb2 W2) as [_ Hf]. rewrite V2 in Hf. apply Forall_cons in Hf as [(_ & _ & Hs & _) _]. unfold sized, MAX_SIZE in Hs. lia.
Qed.

(** No witnesses on the main and the test network.  The deployment of
    segregated witnesses has ended before it began there, so in every state of
    the node, no block that passes the check carries witness data. *)
Theorem no_witness_accepted (cp : ParamsTree) (fCheckpointsEnabled : bool) (checkpoints : list (Z * uint256)) (t : BlockTree) (failed : list ptr)
  (block : CBlock) (cb : CTransaction) (i : CTxIn) (vtx : list CTransaction) (ins : list CTxIn) (o : option ptr)
  (st st' : CValidationState) (cache cache' : VersionBitsCache)
  (Hcp : cp = CMainParams \/ cp = CTestNetParams) (Ht : built cp fCheckpointsEnabled checkpoints t failed) (Hn : Z.of_nat (nextPtr t) < 2 ^ 31)
  (Hv : b_vtx block = cb :: vtx) (Hi : vin cb = i :: ins) (Hl : Z.of_nat (length vtx) < 2 ^ 31) (Ha : auxpow_present block)
  (Ho : forall p, o = Some p -> is_Some (tIndex t !! p)) (Hc : caches_ok cp (tIndex t) cache)
  (Hok : ContextualCheckBlock cp (tIndex t) block st o cache = Ret ((true, st'), cache')) :
  Forall (fun tx => HasWitness tx = false) (b_vtx block).
Proof.
  assert (cp ∈ networks) as Hnet by (unfold networks; set_solver). destruct (built_ok cp Hnet _ _ t failed Ht) as [Hio _].
  pose proof (wt_index t (io_tree cp t Hio)) as Hm.
  assert (forall p, o = Some p -> exists b, tIndex t !! p = Some b /\ nHeight b < 2 ^ 31 - 1) as Ho'.
  { intros p Hp. destruct (Ho p Hp) as [b Hb]. exists b. split; [done|]. by eapply (height_bound cp t p). }
  destruct (ContextualCheckBlock_spec cp Hnet (tIndex t) Hm block cb i vtx ins Hv Hi Hl Ha o st cache Ho' Hc) as (params & ok & st2 & c2 & E & _ & Hp & Hiff).
  rewrite Hok in E. injection E as <- _ _. destruct (proj1 Hiff eq_refl) as [_ _ Hw _]. rewrite bool_decide_false in Hw; [exact Hw|].
  destruct (height_after_spec (tIndex t) o Hm Ho') as [_ Hh].
  destruct (network_deployments cp Hnet (height_after (tIndex t) o) params ltac:(lia) Hp) as (p0 & H0 & Ed & _).
  unfold deployment_state. rewrite Ed. destruct Hcp as [-> | ->]; injection H0 as <-; cbn [vDeployments main_consensus test_consensus lookup list_lookup DEPLOYMENT_SEGWIT];
    (apply ended_never_active; [done|]; apply mtp_nonneg; by eapply io_time).
Qed.

(** C36: the commitment the node writes into a new block.  Where the deployment
    has not ended, [GenerateCoinbaseCommitment] adds a commitment that the
    check of an active deployment accepts once the coinbase carries the nonce
    of 32 zeros; but the node never adds that nonce, so the check refuses the
    block as it was generated. *)
Theorem commitment_lacks_nonce (block : CBlock) (o : option ptr) (params : Params.Params) (cb : CTransaction) (vtx : list CTransaction)
  (i : CTxIn) (ins : list CTxIn) (d : BIP9Deployment) (st : CValidationState)
  (Hv : b_vtx block = cb :: vtx) (Hi : vin cb = i :: ins) (Hl : Z.of_nat (length vtx) < 2 ^ 31) (Hw : scriptWitness i = [])
  (Hd : vDeployments params !! DEPLOYMENT_SEGWIT = Some d) (Ht : nTimeout d <> 0) (Hc : GetWitnessCommitmentIndex block = -1) :
  exists commitment block', GenerateCoinbaseCommitment block o params = Ret (commitment, block') /\
    check_commitment (with_nonce block') st = Continue true /\
    check_commitment block' st =
      Return (DoS 100 false REJECT_INVALID (str "bad-witness-nonce-size") true (str "ContextualCheckBlock : invalid witness nonce size") st).
Proof.
  destruct (generated block o params cb vtx d Hv Hl Hd Ht Hc) as (root & mutated & Er & Eg). cbn zeta in Eg. rewrite Eg. eexists _, _. split; [done|].
  assert (length (CHash256 (root ++ replicate 32 0)) = 32%nat) as H32 by apply CSHA256_size.
  pose proof (is_commitment_script _ H32) as Hs. set (script := commitment_script _) in *. set (outs := tx_vout cb ++ _) in *.
  destruct (committed_index block cb vtx (tx_nVersion cb) (vin cb) script Hv Hs) as [Ei _].
  destruct (committed_index block cb vtx (tx_nVersion cb) (set_scriptWitness [replicate 32 0] i :: ins) script Hv Hs) as [Ei' Ew'].
  fold outs in Ei, Ei', Ew'. destruct (MakeTransaction_fields (tx_nVersion cb) (vin cb) outs (nLockTime cb)) as (F1 & F2 & F3 & F4).
  destruct (MakeTransaction_fields (tx_nVersion cb) (set_scriptWitness [replicate 32 0] i :: ins) outs (nLockTime cb)) as (G1 & G2 & _). split.
  - unfold with_nonce. cbn [set_vtx b_vtx]. rewrite F1, F2, F3, F4, Hi, set_vtx_twice.
    by eapply check_commitment_nonce; [reflexivity|exact G1|exact Hl|by rewrite Ew'|exact G2|exact Ei'|..].
  - eapply check_commitment_no_nonce; [reflexivity|by rewrite F1|exact Hl| |exact Hw]. rewrite Ei. lia.
Qed.

(** ** Witnesses *)

Definition context_header : CBlockHeader :=
  mkHeader {| hVersion := 1; hashPrevBlock := []; hMerkleRoot := []; hTime := 100; hBits := 0x207fffff; hNonce := 0 |} None.
Definition height_cb (h : Z) : CTransaction := MakeTransaction 1 [mkTxIn COutPoint_null (push_int64 h ++ [0]) SEQUENCE_FINAL []] [mkTxOut 0 [OP_RETURN]] 0.
Definition height_block (h : Z) : CBlock := mkBlock context_header [height_cb h] false.
Definition empty_caches : VersionBitsCache := [∅; ∅; ∅].

Lemma empty_caches_ok cp m : caches_ok cp m empty_caches.
Proof.
  split; [done|]. intros p0 pos d c _ _ Hc p s Hp. do 3 (destruct pos as [|pos]; [injection Hc as <-; by rewrite lookup_empty in Hp|]). done.
Qed.

(** The block passes the check where the rules are the ones of a main or a
    test network. *)
Lemma height_block_passes cp m o h : cp ∈ networks -> wf_index m -> (forall p, o = Some p -> exists b, m !! p = Some b /\ nHeight b < 2 ^ 31 - 1) ->
  height_after m o = h -> (exists w, GetBlockWeight (height_block h) = Ret w /\ w <= MAX_BLOCK_WEIGHT) ->
  exists st' cache', ContextualCheckBlock cp m (height_block h) CValidationState_new o empty_caches = Ret ((true, st'), cache').
Proof.
  intros Hcp Hm Ho Hh Hw.
  destruct (ContextualCheckBlock_spec cp Hcp m Hm (height_block h) (height_cb h) (mkTxIn COutPoint_null (push_int64 h ++ [0]) SEQUENCE_FINAL []) [] []
    eq_refl eq_refl ltac:(cbn; lia) ltac:(done) o CValidationState_new empty_caches Ho (empty_caches_ok cp m)) as (params & ok & st' & c & E & _ & Hp & Hiff).
  exists st', c. rewrite E. assert (ok = true) as ->; [|done]. apply Hiff. split; [..|done].
  - cbn zeta. apply Forall_singleton. done.
  - intros _. exists [0]. by rewrite Hh.
  - change (GetWitnessCommitmentIndex (height_block h)) with (-1). rewrite andb_false_r. by apply Forall_singleton.
Qed.

Lemma block_context_iff_witness : exists params ok st' cache',
  ContextualCheckBlock CRegTestParams (tIndex timed_tree) (height_block 4) CValidationState_new (Some 3%nat) empty_caches = Ret ((ok, st'), cache') /\
  caches_ok CRegTestParams (tIndex timed_tree) cache' /\
  GetConsensus CRegTestParams (height_after (tIndex timed_tree) (Some 3%nat)) = Some params /\
  (ok = true <-> context_ok params (tIndex timed_tree) (Some 3%nat) (height_block 4) (height_cb 4) (mkTxIn COutPoint_null (push_int64 4 ++ [0]) SEQUENCE_FINAL [])).
Proof.
  apply (block_context_iff CRegTestParams (tIndex timed_tree) (height_block 4) (height_cb 4) (mkTxIn COutPoint_null (push_int64 4 ++ [0]) SEQUENCE_FINAL []) [] []).
  - exact regtest_network.
  - exact (wt_index _ timed_tree_wf).
  - reflexivity.
  - reflexivity.
  - reflexivity.
  - intros H. discriminate H.
  - intros p [= <-]. eexists. split; [vm_compute; reflexivity|]. cbn. lia.
  - apply empty_caches_ok.
Defined.

(** Blocks of the main network just after the rule came into force. *)
Lemma height_block_accepted h : 1034383 <= h < 2 ^ 31 - 1 -> (exists w, GetBlockWeight (height_block h) = Ret w /\ w <= MAX_BLOCK_WEIGHT) ->
  wf_tx (height_cb h) -> accepted_at CMainParams h (height_block h) (height_cb h).
Proof.
  intros Hh Hw Hwf. split; [by exists []|done|by eexists _, _|]. set (n := Z.to_nat h).
  assert (plain_chain n !! (n - 1)%nat = Some (plain_block (n - 1))) as Hp by (rewrite plain_chain_lookup, decide_True by lia; done).
  assert (forall p, Some (n - 1)%nat = Some p -> exists b, plain_chain n !! p = Some b /\ nHeight b < 2 ^ 31 - 1) as Ho.
  { intros p [= <-]. exists (plain_block (n - 1)). split; [done|]. cbn. lia. }
  assert (height_after (plain_chain n) (Some (n - 1)%nat) = h) as Ha.
  { unfold height_after. cbn [mbind option_bind]. rewrite Hp. cbn. lia. }
  destruct (height_block_passes CMainParams (plain_chain n) (Some (n - 1)%nat) h ltac:(by left) (plain_chain_wf n) Ho Ha Hw) as (st' & c & E).
  exists (plain_chain n), (Some (n - 1)%nat), CValidationState_new, st', empty_caches, c. split_and!; [apply plain_chain_wf|done|done|done].
Qed.

Lemma height_cb_wf h : Z.of_nat (length (push_int64 h)) < 100 -> wf_tx (height_cb h).
Proof.
  intros Hl. assert (forall n, Z.of_nat n <= 101 -> Z.of_nat n <= MAX_SIZE) as Hs by (unfold MAX_SIZE; lia).
  split; cbn; [unfold inS; lia|unfold inU; lia|..]; (split; [by apply Hs|]); apply Forall_singleton.
  - split_and!; [done|split; by vm_compute| |split; by vm_compute|by apply Hs|by constructor]. apply Hs. cbn. rewrite length_app. cbn. lia.
  - split; [unfold inS; cbn; lia|by apply Hs].
Qed.

Lemma bip34_unique_coinbase_witness : GetHash (height_cb 1034383) <> GetHash (height_cb 1034384).
Proof.
  apply (bip34_unique_coinbase CMainParams 1034383 1034384 (height_block 1034383) (height_block 1034384) (height_cb 1034383) (height_cb 1034384)
    main_auxpowConsensus main_auxpowConsensus).
  - apply height_block_accepted; [lia|eexists; split; [vm_compute; reflexivity|by vm_compute]|]. apply height_cb_wf. reflexivity.
  - apply height_block_accepted; [lia|eexists; split; [vm_compute; reflexivity|by vm_compute]|]. apply height_cb_wf. reflexivity.
  - reflexivity.
  - reflexivity.
  - cbn. lia.
  - cbn. lia.
  - lia.
  - assert (bool_decide (CHash256 (SerializeTransaction false (height_cb 1034383)) = CHash256 (SerializeTransaction false (height_cb 1034384))) = false) as H
      by (vm_compute; reflexivity).
    intros E. apply bool_decide_eq_false in H. destruct (H E).
Defined.

Lemma no_witness_accepted_witness : Forall (fun tx => HasWitness tx = false) (b_vtx (height_block 0)).
Proof.
  destruct main_start_built as [Hb Hn].
  destruct (height_block_passes CMainParams (tIndex main_start) None 0) as (st' & c & E).
  - by left.
  - apply (wt_index _ (io_tree CMainParams _ (proj1 (built_ok CMainParams ltac:(by left) _ _ _ _ Hb)))).
  - discriminate.
  - reflexivity.
  - eexists. split; [vm_compute; reflexivity|]. vm_compute. discriminate.
  - apply (no_witness_accepted CMainParams true [] main_start [] (height_block 0) (height_cb 0) (mkTxIn COutPoint_null (push_int64 0 ++ [0]) SEQUENCE_FINAL []) [] []
      None CValidationState_new st' empty_caches c).
    + by left.
    + exact Hb.
    + rewrite Hn. lia.
    + reflexivity.
    + reflexivity.
    + reflexivity.
    + intros H. discriminate H.
    + discriminate.
    + apply empty_caches_ok.
    + exact E.
Defined.

Lemma commitment_lacks_nonce_witness : exists commitment block',
  GenerateCoinbaseCommitment (height_block 4) None regtest_consensus = Ret (commitment, block') /\
  check_commitment (with_nonce block') CValidationState_new = Continue true /\
  check_commitment block' CValidationState_new =
    Return (DoS 100 false REJECT_INVALID (str "bad-witness-nonce-size") true (str "ContextualCheckBlock : invalid witness nonce size") CValidationState_new).
Proof.
  apply (commitment_lacks_nonce (height_block 4) None regtest_consensus (height_cb 4) [] (mkTxIn COutPoint_null (push_int64 4 ++ [0]) SEQUENCE_FINAL []) []
    (mkDeployment 1 0 999999999999)).
  - reflexivity.
  - reflexivity.
  - reflexivity.
  - reflexivity.
  - reflexivity.
  - discriminate.
  - reflexivity.
Defined.
