(* ===== verification/Compressor.v ===== *)
(** * The compact formats of the coin database ([compressor.{h,cpp}], the
      serialization of [CCoins] in [coins.h] and of [CTxInUndo] in [undo.h])

    Amounts and standard scripts are stored in a shorter form, and the
    spentness of the outputs of a transaction in a bit mask.  The theorems
    show that amounts, coins and undo records are read back as they were
    written. *)

From S2P Require Import Prelude ArithUint256 StrEncodings Uint256 Amount Tx Script Serialize Coins Undo.
From stdpp Require Import list.
#[local] Open Scope Z_scope.

(** ** Amounts *)

(** The loop [while (((n % 10) == 0) && e < 9)], with [room = 9 - e]. *)
Fixpoint strip_tens (room : nat) (n e : Z) : Z * Z :=
  match room with
  | O => (n, e)
  | S room' => if n mod 10 =? 0 then strip_tens room' (n / 10) (e + 1) else (n, e)
  end.

Definition CompressAmount (n : Z) : outcome Z :=
  if n =? 0 then Ret 0
  else let '(n, e) := strip_tens 9 n 0 in
       if e <? 9
       then let d := n mod 10 in
            assert_ ((1 <=? d) && (d <=? 9));;
            let n := n / 10 in
            Ret (u64 (1 + u64 (u64 (n * 9 + d - 1) * 10) + e))
       else Ret (u64 (1 + u64 (u64 (n - 1) * 10) + 9)).

(** The loop [while (e) { n *= 10; e--; }]. *)
Fixpoint times_tens (e : nat) (n : Z) : Z :=
  match e with O => n | S e' => times_tens e' (u64 (n * 10)) end.

Definition DecompressAmount (x : Z) : Z :=
  if x =? 0 then 0
  else let x := u64 (x - 1) in
       let e := x mod 10 in
       let x := x / 10 in
       let n := if e <? 9
                then let d := x mod 9 + 1 in let x := x / 9 in u64 (x * 10 + d)
                else u64 (x + 1) in
       times_tens (Z.to_nat e) n.

(** ** Scripts *)

Definition nSpecialScripts : Z := 6.

Definition slice (a b : nat) (s : list Z) : list Z := take (b - a) (drop a s).

Definition IsToKeyID (script : CScript) : option (list Z) :=
  if size_is 25 script && (script.[0] =? OP_DUP) && (script.[1] =? OP_HASH160) && (script.[2] =? 20)
     && (script.[23] =? OP_EQUALVERIFY) && (script.[24] =? OP_CHECKSIG)
  then Some (slice 3 23 script) else None.

Definition IsToScriptID (script : CScript) : option (list Z) :=
  if size_is 23 script && (script.[0] =? OP_HASH160) && (script.[1] =? 20) && (script.[22] =? OP_EQUAL)
  then Some (slice 2 22 script) else None.

Definition GetSpecialSize (nSize : Z) : nat :=
  if (nSize =? 0) || (nSize =? 1) then 20
  else if (nSize =? 2) || (nSize =? 3) || (nSize =? 4) || (nSize =? 5) then 32
  else 0.

Section Keys.

(** [CPubKey::IsFullyValid] and [CPubKey::Decompress], on the bytes of a key
    (libsecp256k1). *)
Context (IsFullyValid : list Z -> bool) (PubKey_Decompress : list Z -> option (list Z)).

Definition IsToPubKey (script : CScript) : option (list Z) :=
  if size_is 35 script && (script.[0] =? 33) && (script.[34] =? OP_CHECKSIG)
     && ((script.[1] =? 2) || (script.[1] =? 3))
  then Some (slice 1 34 script)
  else if size_is 67 script && (script.[0] =? 65) && (script.[66] =? OP_CHECKSIG) && (script.[1] =? 4)
       then if IsFullyValid (slice 1 66 script) then Some (slice 1 66 script) else None
       else None.

(** [Compress(out)]: [out] where it returns [true]. *)
Definition Compress (script : CScript) : option (list Z) :=
  match IsToKeyID script with
  | Some keyID => Some (0 :: keyID)
  | None =>
      match IsToScriptID script with
      | Some scriptID => Some (1 :: scriptID)
      | None =>
          match IsToPubKey script with
          | Some pubkey =>
              let body := slice 1 33 pubkey in
              if (pubkey.[0] =? 2) || (pubkey.[0] =? 3) then Some (pubkey.[0] :: body)
              else if pubkey.[0] =? 4 then Some (Z.lor 4 (Z.land pubkey.[64] 1) :: body)
              else None
          | None => None
          end
      end
  end.

(** [Decompress(nSize, in)]: the script where it returns [true]; a decompressed
    key of another size is the failed assertion. *)
Definition Decompress (nSize : Z) (in_ : list Z) : outcome (option CScript) :=
  if nSize =? 0
  then Ret (Some (OP_DUP :: OP_HASH160 :: 20 :: take 20 in_ ++ [OP_EQUALVERIFY; OP_CHECKSIG]))
  else if nSize =? 1
  then Ret (Some (OP_HASH160 :: 20 :: take 20 in_ ++ [OP_EQUAL]))
  else if (nSize =? 2) || (nSize =? 3)
  then Ret (Some (33 :: nSize :: take 32 in_ ++ [OP_CHECKSIG]))
  else if (nSize =? 4) || (nSize =? 5)
  then match PubKey_Decompress (u8 (nSize - 2) :: take 32 in_) with
       | None => Ret None
       | Some pubkey => assert_ (size_is 65 pubkey);; Ret (Some (65 :: pubkey ++ [OP_CHECKSIG]))
       end
  else Ret None.

Definition ser_script (script : CScript) : outcome (list Z) :=
  match Compress script with
  | Some compr => Ret compr
  | None => n ← WriteVarInt 4 (u32 (Z.of_nat (length script) + nSpecialScripts)); Ret (n ++ script)
  end.

(** The script of a fresh output is empty before it is read. *)
Definition unser_script : reader CScript :=
  nSize ← ReadVarInt (wrapU 32);
  if nSize <? nSpecialScripts
  then vch ← read (GetSpecialSize nSize);
       match Decompress nSize vch with
       | Ret (Some script) => mret script
       | Ret None => mret []
       | Abort => throw
       end
  else let nSize := nSize - nSpecialScripts in
       if MAX_SCRIPT_SIZE <? nSize
       then _ ← read (Z.to_nat nSize); mret [OP_RETURN]
       else read (Z.to_nat nSize).

(** [CTxOutCompressor]. *)
Definition ser_txout (o : CTxOut) : outcome (list Z) :=
  nVal ← CompressAmount (u64 (nValue o));
  a ← WriteVarInt 8 nVal;
  b ← ser_script (scriptPubKey o);
  Ret (a ++ b).
Definition unser_txout : reader CTxOut :=
  nVal ← ReadVarInt (wrapU 64);
  sc ← unser_script;
  mret (mkTxOut (i64 (DecompressAmount nVal)) sc).

(** ** Coins *)

(** [i < vout.size() && !vout[i].IsNull()]. *)
Definition unspent_at (v : list CTxOut) (i : nat) : bool :=
  match v !! i with Some o => negb (CTxOut_IsNull o) | None => false end.

(** The number of iterations of [for (b = 0; 2+b*8 < vout.size(); b++)]. *)
Definition mask_bytes (v : list CTxOut) : nat := ((length v - 2 + 7) / 8)%nat.

Definition CalcMaskSize (v : list CTxOut) : nat * Z :=
  for_range 0 (mask_bytes v) (fun b '(nLastUsedByte, nNonzeroBytes) =>
    let fZero := for_range 0 8 (fun i fZero => if unspent_at v (2 + b * 8 + i) then false else fZero) true in
    if negb fZero then ((b + 1)%nat, nNonzeroBytes + 1) else (nLastUsedByte, nNonzeroBytes)) (0%nat, 0).

Definition chAvail (f : nat -> bool) : Z :=
  for_range 0 8 (fun i ch => if f i then Z.lor ch (u8 (Z.shiftl 1 (Z.of_nat i))) else ch) 0.

Fixpoint ser_outs (v : list CTxOut) : outcome (list Z) :=
  match v with
  | [] => Ret []
  | o :: v' => if negb (CTxOut_IsNull o) then (a ← ser_txout o; b ← ser_outs v'; Ret (a ++ b)) else ser_outs v'
  end.

Definition b2z (b : bool) (z : Z) : Z := if b then z else 0.

Definition ser_CCoins (c : CCoins) : outcome (list Z) :=
  let v := vout c in
  let '(nMaskSize, nMaskCode) := CalcMaskSize v in
  let fFirst := unspent_at v 0 in
  let fSecond := unspent_at v 1 in
  assert_ (fFirst || fSecond || negb (nMaskCode =? 0));;
  let nCode := u32 (8 * (nMaskCode - (if fFirst || fSecond then 0 else 1)) + b2z (fCoinBase c) 1 + b2z fFirst 2 + b2z fSecond 4) in
  a ← WriteVarInt 4 (cVersion c);
  b ← WriteVarInt 4 nCode;
  outs ← ser_outs v;
  h ← WriteVarInt 4 (cHeight c);
  Ret (a ++ b ++ map (fun b => chAvail (fun i => unspent_at v (2 + b * 8 + i))) (seq 0 nMaskSize) ++ outs ++ h).

Definition avail_bits (ch : Z) : list bool := map (fun p => negb (Z.land ch (Z.shiftl 1 (Z.of_nat p)) =? 0)) (seq 0 8).

(** [while (nMaskCode > 0)], reading one byte per iteration. *)
Fixpoint unser_mask (nMaskCode : Z) (vAvail : list bool) (s : list Z) : option (list bool * list Z) :=
  if 0 <? nMaskCode
  then match s with
       | [] => None
       | ch :: s' => unser_mask (if negb (ch =? 0) then nMaskCode - 1 else nMaskCode) (vAvail ++ avail_bits ch) s'
       end
  else Some (vAvail, s).

Fixpoint unser_outs (vAvail : list bool) : reader (list CTxOut) :=
  match vAvail with
  | [] => mret []
  | f :: r => o ← (if f : bool then unser_txout else mret CTxOut_null); v ← unser_outs r; mret (o :: v)
  end.

Definition unser_CCoins : reader CCoins :=
  nVersion ← ReadVarInt (wrapS 32);
  nCode ← ReadVarInt (wrapU 32);
  let fCoinBase := negb (Z.land nCode 1 =? 0) in
  let vAvail := [negb (Z.land nCode 2 =? 0); negb (Z.land nCode 4 =? 0)] in
  let nMaskCode := u32 (nCode / 8 + (if negb (Z.land nCode 6 =? 0) then 0 else 1)) in
  vAvail ← unser_mask nMaskCode vAvail;
  v ← unser_outs vAvail;
  nHeight ← ReadVarInt (wrapS 32);
  mret (Cleanup (mkCoins fCoinBase v nHeight nVersion)).

(** ** Undo records *)

Definition ser_CTxInUndo (u : CTxInUndo) : outcome (list Z) :=
  a ← WriteVarInt 4 (u32 (u_nHeight u * 2 + b2z (u_fCoinBase u) 1));
  b ← (if 0 <? u_nHeight u then WriteVarInt 4 (u_nVersion u) else Ret []);
  o ← ser_txout (u_txout u);
  Ret (a ++ b ++ o).
Definition unser_CTxInUndo : reader CTxInUndo :=
  nCode ← ReadVarInt (wrapU 32);
  let nHeight := nCode / 2 in
  let fCoinBase := negb (Z.land nCode 1 =? 0) in
  nVersion ← (if 0 <? nHeight then ReadVarInt (wrapS 32) else mret 0);
  o ← unser_txout;
  mret (mkUndo o fCoinBase nHeight nVersion).

End Keys.

(** ** Amounts are read back *)

Lemma strip_tens_spec room n e : 0 < n ->
  let '(n', e') := strip_tens room n e in
  0 < n' /\ e <= e' <= e + Z.of_nat room /\ n = n' * 10 ^ (e' - e) /\ (e' < e + Z.of_nat room -> n' mod 10 <> 0).
Proof.
  revert n e. induction room as [|room IH]; intros n e Hn; cbn [strip_tens].
  { rewrite Z.sub_diag. cbn. lia. }
  destruct (Z.eqb_spec (n mod 10) 0) as [E|E].
  - pose proof (Z.div_mod n 10 ltac:(lia)) as Hdm. specialize (IH (n / 10) (e + 1) ltac:(lia)).
    destruct (strip_tens room (n / 10) (e + 1)) as [n' e']. destruct IH as (? & ? & Eq & Hlt).
    split; [done|]. split; [lia|]. split; [|intros; apply Hlt; lia].
    rewrite Hdm, E, Eq. replace (e' - e) with (Z.succ (e' - (e + 1))) by lia. rewrite Z.pow_succ_r by lia. lia.
  - rewrite Z.sub_diag. cbn [Z.pow]. lia.
Qed.

Lemma times_tens_spec e n : 0 <= n -> n * 10 ^ Z.of_nat e < 2 ^ 64 -> times_tens e n = n * 10 ^ Z.of_nat e.
Proof.
  revert n. induction e as [|e IH]; intros n Hn Hb; cbn [times_tens]; [cbn; lia|].
  rewrite Nat2Z.inj_succ, Z.pow_succ_r in * by lia. assert (0 < 10 ^ Z.of_nat e) by (apply Z.pow_pos_nonneg; lia).
  rewrite (wrapU_small 64) by (unfold inU; nia). rewrite IH by nia. lia.
Qed.

Lemma DecompressAmount_parts e q d : 0 <= e < 9 -> 0 <= q -> 1 <= d <= 9 -> 9 * (10 * q + d) + 89 < 2 ^ 64 ->
  (10 * q + d) * 10 ^ e < 2 ^ 64 -> DecompressAmount (1 + (q * 9 + d - 1) * 10 + e) = (10 * q + d) * 10 ^ e.
Proof.
  intros He Hq Hd Hb Hr. unfold DecompressAmount. destruct (Z.eqb_spec (1 + (q * 9 + d - 1) * 10 + e) 0); [lia|].
  rewrite (wrapU_small 64) by (unfold inU; lia).
  replace (1 + (q * 9 + d - 1) * 10 + e - 1) with (e + (q * 9 + d - 1) * 10) by lia.
  rewrite Z_mod_plus_full, (Z.mod_small e 10), Z.div_add, (Z.div_small e 10) by lia. rewrite Z.add_0_l.
  destruct (Z.ltb_spec e 9); [|lia]. replace (q * 9 + d - 1) with (d - 1 + q * 9) by lia.
  rewrite Z_mod_plus_full, (Z.mod_small (d - 1) 9), Z.div_add, (Z.div_small (d - 1) 9) by lia.
  rewrite (wrapU_small 64) by (unfold inU; lia). rewrite times_tens_spec; rewrite ?Z2Nat.id by lia; [f_equal; lia|lia|].
  replace ((0 + q) * 10 + (d - 1 + 1)) with (10 * q + d) by lia. done.
Qed.

Lemma DecompressAmount_whole m : 1 <= m -> m * 10 + 10 < 2 ^ 64 -> m * 10 ^ 9 < 2 ^ 64 ->
  DecompressAmount (1 + (m - 1) * 10 + 9) = m * 10 ^ 9.
Proof.
  intros Hm Hb Hr. unfold DecompressAmount. destruct (Z.eqb_spec (1 + (m - 1) * 10 + 9) 0); [lia|].
  rewrite (wrapU_small 64) by (unfold inU; lia).
  replace (1 + (m - 1) * 10 + 9 - 1) with (9 + (m - 1) * 10) by lia.
  rewrite Z_mod_plus_full, Z.div_add by lia. change (9 mod 10) with 9. change (9 / 10) with 0. change (9 <? 9) with false. cbn iota.
  rewrite (wrapU_small 64) by (unfold inU; lia). rewrite times_tens_spec; change (Z.of_nat (Z.to_nat 9)) with 9; [f_equal; lia|lia|].
  replace (0 + (m - 1) + 1) with m by lia. done.
Qed.

(** The compressed amount of [n] fits 64 bits as long as [9 n] does. *)
Lemma CompressAmount_spec n : 0 <= n -> 9 * n + 89 < 2 ^ 64 ->
  exists x, CompressAmount n = Ret x /\ inU 64 x /\ DecompressAmount x = n.
Proof.
  intros Hn Hb. unfold CompressAmount. destruct (Z.eqb_spec n 0) as [->|Hne]; [by exists 0|].
  pose proof (strip_tens_spec 9 n 0 ltac:(lia)) as Hs. destruct (strip_tens 9 n 0) as [m e].
  destruct Hs as (Hm & He & En & Hmod). change (0 + Z.of_nat 9) with 9 in *. rewrite Z.sub_0_r in En.
  assert (m <= n) by (assert (0 < 10 ^ e) by (apply Z.pow_pos_nonneg; lia); nia).
  destruct (Z.ltb_spec e 9).
  - specialize (Hmod ltac:(lia)). pose proof (Z.mod_pos_bound m 10 ltac:(lia)). pose proof (Z.div_mod m 10 ltac:(lia)).
    assert (0 <= m / 10) by (apply Z.div_pos; lia).
    rewrite (proj2 (Z.leb_le 1 (m mod 10))), (proj2 (Z.leb_le (m mod 10) 9)) by lia. cbn [andb assert_ mbind outcome_bind].
    rewrite (wrapU_small 64 (m / 10 * 9 + m mod 10 - 1)) by (unfold inU; lia).
    rewrite (wrapU_small 64 (_ * 10)) by (unfold inU; lia). rewrite (wrapU_small 64) by (unfold inU; lia).
    eexists. split; [done|]. split; [unfold inU; lia|]. rewrite DecompressAmount_parts; [|lia..|]; replace (10 * (m / 10) + m mod 10) with m by lia; lia.
  - assert (e = 9) as -> by lia. rewrite (wrapU_small 64 (m - 1)) by (unfold inU; lia).
    rewrite (wrapU_small 64 (_ * 10)) by (unfold inU; lia). rewrite (wrapU_small 64) by (unfold inU; lia).
    eexists. split; [done|]. split; [unfold inU; lia|]. rewrite DecompressAmount_whole; lia.
Qed.

(** ** Scripts are read back *)

Lemma get_drop (s : list Z) i : (i < length s)%nat -> drop i s = s.[i] :: drop (S i) s.
Proof. intros Hi. apply drop_S. by apply lookup_get. Qed.

Lemma slice_length a b s : (a <= b <= length s)%nat -> length (slice a b s) = (b - a)%nat.
Proof. intros. unfold slice. rewrite length_take, length_drop. lia. Qed.

Lemma slice_drop a b s : (a <= b)%nat -> drop a s = slice a b s ++ drop b s.
Proof.
  intros. unfold slice. rewrite <- (take_drop (b - a) (drop a s)) at 1. rewrite drop_drop. do 2 f_equal. lia.
Qed.

Lemma take_slice n a b s : (b - a = n)%nat -> (a <= b <= length s)%nat -> take n (slice a b s) = slice a b s.
Proof. intros. apply take_ge. rewrite slice_length; lia. Qed.

Lemma get_slice a b s i : (a + i < b)%nat -> (slice a b s).[i] = s.[a + i].
Proof. intros. unfold get, slice. rewrite lookup_take_lt by lia. by rewrite lookup_drop. Qed.

Ltac split_andb :=
  repeat match goal with
  | H : _ && _ = true |- _ => apply andb_true_iff in H as [? ?]
  | H : size_is _ _ = true |- _ => apply Nat.eqb_eq in H
  | H : (_ =? _) = true |- _ => apply Z.eqb_eq in H
  end.

(** Write a list of known length as its elements. *)
Ltac unroll s n := match goal with |- context [drop n s] => rewrite (get_drop s n) by lia; let m := eval cbv in (S n) in change (S n) with m end.

Lemma IsToKeyID_inv s h : IsToKeyID s = Some h -> length h = 20%nat /\
  s = OP_DUP :: OP_HASH160 :: 20 :: h ++ [OP_EQUALVERIFY; OP_CHECKSIG].
Proof.
  unfold IsToKeyID. destruct (_ && _) eqn:E; [|done]. intros [= <-]. split_andb. split; [rewrite slice_length; lia|].
  rewrite <- (drop_0 s) at 1. unroll s 0%nat. unroll s 1%nat. unroll s 2%nat. rewrite (slice_drop 3 23 s) by lia.
  unroll s 23%nat. unroll s 24%nat. rewrite (drop_ge s 25) by lia. congruence.
Qed.

Lemma IsToScriptID_inv s h : IsToScriptID s = Some h -> length h = 20%nat /\
  s = OP_HASH160 :: 20 :: h ++ [OP_EQUAL].
Proof.
  unfold IsToScriptID. destruct (_ && _) eqn:E; [|done]. intros [= <-]. split_andb. split; [rewrite slice_length; lia|].
  rewrite <- (drop_0 s) at 1. unroll s 0%nat. unroll s 1%nat. rewrite (slice_drop 2 22 s) by lia.
  unroll s 22%nat. rewrite (drop_ge s 23) by lia. congruence.
Qed.

(** ** The mask of the unspent outputs *)

Definition group (v : list CTxOut) (b i : nat) : bool := unspent_at v (2 + b * 8 + i).
Definition used (v : list CTxOut) (b : nat) : bool := existsb (group v b) (seq 0 8).
Definition count_used (v : list CTxOut) (n : nat) : Z := Z.of_nat (length (List.filter (used v) (seq 0 n))).

Lemma bits8 (f : nat -> bool) :
  avail_bits (chAvail f) = map f (seq 0 8) /\ (chAvail f =? 0) = negb (existsb f (seq 0 8)).
Proof.
  unfold chAvail, for_range. cbn [seq Nat.sub fold_left map existsb].
  destruct (f 0%nat), (f 1%nat), (f 2%nat), (f 3%nat), (f 4%nat), (f 5%nat), (f 6%nat), (f 7%nat); by vm_compute.
Qed.

Lemma fZero_spec (f : nat -> bool) :
  for_range 0 8 (fun i fZero => if f i then false else fZero) true = negb (existsb f (seq 0 8)).
Proof.
  unfold for_range. cbn [seq Nat.sub fold_left existsb].
  by destruct (f 0%nat), (f 1%nat), (f 2%nat), (f 3%nat), (f 4%nat), (f 5%nat), (f 6%nat), (f 7%nat).
Qed.

Lemma count_used_S v n : count_used v (S n) = count_used v n + (if used v n then 1 else 0).
Proof.
  unfold count_used. rewrite seq_S, List.filter_app, length_app. cbn [List.filter Nat.add]. destruct (used v n); cbn; lia.
Qed.

(** The mask ends with the last byte that has a bit set. *)
Lemma CalcMaskSize_spec v : exists M, CalcMaskSize v = (M, count_used v M) /\ (M <= mask_bytes v)%nat /\
  (forall b, (M <= b < mask_bytes v)%nat -> used v b = false) /\ (forall m, M = S m -> used v m = true).
Proof.
  unfold CalcMaskSize. generalize (mask_bytes v). intros n.
  apply (for_range_ind (fun n st => exists M, st = (M, count_used v M) /\ (M <= n)%nat /\
    (forall b, (M <= b < n)%nat -> used v b = false) /\ (forall m, M = S m -> used v m = true))); [lia| |].
  - exists 0%nat. split_and!; [done|lia|lia|done].
  - intros b st _ (M & -> & HM & Hz & Hl). change (for_range 0 8 _ true) with (for_range 0 8 (fun i fZero => if group v b i then false else fZero) true). rewrite fZero_spec. fold (used v b). rewrite negb_involutive.
    destruct (used v b) eqn:Eb.
    + exists (S b). rewrite count_used_S, Eb. split_and!; [|lia|lia|by intros m [= <-]]. rewrite Nat.add_1_r. f_equal. f_equal.
      assert (forall k, (M + k <= b)%nat -> count_used v (M + k) = count_used v M) as Hk.
      { induction k as [|k IH]; intros Hk; [by rewrite Nat.add_0_r|].
        rewrite Nat.add_succ_r, count_used_S, IH, Hz by lia. lia. }
      specialize (Hk (b - M)%nat ltac:(lia)). by replace (M + (b - M))%nat with b in Hk by lia.
    + exists M. split_and!; [done|lia| |done]. intros b' Hb'. destruct (decide (b' = b)) as [->|]; [done|]. apply Hz. lia.
Qed.

Definition nonzero (x : Z) : bool := negb (x =? 0).

(** Reading a mask that ends with a byte that is not zero. *)
Lemma reads_mask bs va : (forall l x, bs = l ++ [x] -> x <> 0) ->
  reads (unser_mask (Z.of_nat (length (List.filter nonzero bs))) va) bs (va ++ concat (map avail_bits bs)).
Proof.
  revert va. induction bs as [|ch bs IH]; intros va Hlast rest; [cbn; by rewrite app_nil_r; destruct rest|].
  assert (0 < length (List.filter nonzero (ch :: bs)))%nat as Hpos.
  { destruct (exists_last (l := ch :: bs)) as (l & x & E); [done|]. rewrite E, List.filter_app, length_app. cbn [List.filter]. unfold nonzero.
    rewrite (proj2 (Z.eqb_neq x 0)); [cbn; lia|by eapply Hlast]. }
  cbn [app unser_mask]. rewrite (proj2 (Z.ltb_lt _ _)) by lia.
  replace (if negb (ch =? 0) then _ else _) with (Z.of_nat (length (List.filter nonzero bs)))
    by (change (negb (ch =? 0)) with (nonzero ch); cbn [List.filter]; destruct (nonzero ch); cbn [length]; lia).
  rewrite IH; [cbn [map concat]; by rewrite app_assoc|]. intros l x ->. by apply (Hlast (ch :: l)).
Qed.

Definition mask (v : list CTxOut) (M : nat) : list Z := map (fun b => chAvail (group v b)) (seq 0 M).

Lemma filter_mask v M : Z.of_nat (length (List.filter nonzero (mask v M))) = count_used v M.
Proof.
  unfold mask, count_used. f_equal. induction (seq 0 M) as [|b l IH]; [done|]. cbn [map List.filter]. unfold nonzero at 1.
  rewrite (proj2 (bits8 (group v b))), negb_involutive. fold (used v b). destruct (used v b); cbn [length]; by rewrite ?IH.
Qed.

Lemma reads_used v M va : (forall m, M = S m -> used v m = true) ->
  reads (unser_mask (count_used v M) va) (mask v M) (va ++ concat (map avail_bits (mask v M))).
Proof.
  intros Hlast. rewrite <- filter_mask. apply reads_mask. intros l x E. destruct M as [|m]; [by destruct l|].
  unfold mask in E. rewrite seq_S, map_app in E. apply app_inj_tail in E as [_ <-].
  apply Z.eqb_neq. rewrite (proj2 (bits8 _)). change (negb (used v m) = false). by rewrite Hlast.
Qed.

Lemma mask_bits v M : [unspent_at v 0; unspent_at v 1] ++ concat (map avail_bits (mask v M)) = map (unspent_at v) (seq 0 (2 + M * 8)).
Proof.
  induction M as [|M IH]; [done|]. unfold mask in *. rewrite seq_S, !map_app, concat_app, app_assoc, IH.
  cbn [map concat Nat.add]. rewrite app_nil_r, (proj1 (bits8 (group v M))).
  replace (S (S (S M * 8))) with ((2 + M * 8) + 8)%nat by lia. rewrite (seq_app (2 + M * 8) 8), map_app. f_equal.
  unfold group. rewrite Nat.add_0_l. cbn [seq map]. by rewrite Nat.add_0_r, !Nat.add_succ_r, !Nat.add_0_r.
Qed.

Section KeyLaws.
Context (IsFullyValid : list Z -> bool) (PubKey_Decompress : list Z -> option (list Z)).

(** A fully valid uncompressed key is recovered from the parity of its second
    coordinate and its first coordinate. *)
Definition decompress_law : Prop := forall k, length k = 65%nat -> is_bytes k -> k.[0] = 4 -> IsFullyValid k = true ->
  PubKey_Decompress ((2 + k.[64] mod 2) :: slice 1 33 k) = Some k.

Hypothesis Hkeys : decompress_law.

Lemma IsToPubKey_inv s k : IsToPubKey IsFullyValid s = Some k ->
  (length k = 33%nat /\ (k.[0] = 2 \/ k.[0] = 3) /\ s = 33 :: k ++ [OP_CHECKSIG]) \/
  (length k = 65%nat /\ k.[0] = 4 /\ IsFullyValid k = true /\ s = 65 :: k ++ [OP_CHECKSIG]).
Proof.
  unfold IsToPubKey. destruct (_ && (_ || _)) eqn:E.
  - intros [= <-]. left. split_andb. split; [rewrite slice_length; lia|]. split.
    + rewrite (get_slice 1 34 s 0) by lia. change (1 + 0)%nat with 1%nat. match goal with H : _ || _ = true |- _ => apply orb_true_iff in H as [H|H]; apply Z.eqb_eq in H; auto end.
    + rewrite <- (drop_0 s) at 1. unroll s 0%nat. rewrite (slice_drop 1 34 s) by lia. unroll s 34%nat.
      rewrite (drop_ge s 35) by lia. congruence.
  - clear E. destruct (size_is 67 s && _ && _ && _) eqn:E; [|done]. destruct (IsFullyValid (slice 1 66 s)) eqn:Ev; [|done].
    intros [= <-]. right. split_andb. split; [rewrite slice_length; lia|]. split; [by rewrite (get_slice 1 66 s 0) by lia|]. split; [done|].
    rewrite <- (drop_0 s) at 1. unroll s 0%nat. rewrite (slice_drop 1 66 s) by lia. unroll s 66%nat.
    rewrite (drop_ge s 67) by lia. congruence.
Qed.

Lemma key_split k n : length k = n -> (33 <= n)%nat -> k = k.[0] :: slice 1 33 k ++ drop 33 k.
Proof. intros Hl Hn. rewrite <- (drop_0 k) at 1. rewrite (get_drop k 0) by lia. f_equal. apply (slice_drop 1 33 k). lia. Qed.

Lemma Compress_inv s out : is_bytes s -> Compress IsFullyValid s = Some out -> exists x body, out = x :: body /\ 0 <= x <= 5 /\
  length body = GetSpecialSize x /\ Decompress PubKey_Decompress x body = Ret (Some s).
Proof.
  intros Hb. unfold Compress. destruct (IsToKeyID s) as [h|] eqn:E1.
  { intros [= <-]. apply IsToKeyID_inv in E1 as [Hl ->]. exists 0, h. split_and!; [done|lia|lia|done|]. cbn. by rewrite take_ge by lia. }
  destruct (IsToScriptID s) as [h|] eqn:E2.
  { intros [= <-]. apply IsToScriptID_inv in E2 as [Hl ->]. exists 1, h. split_and!; [done|lia|lia|done|]. cbn. by rewrite take_ge by lia. }
  destruct (IsToPubKey IsFullyValid s) as [k|] eqn:E3; [|done].
  apply IsToPubKey_inv in E3 as [(Hl & Hk & ->)|(Hl & Hk & Hv & ->)].
  - assert ((k.[0] =? 2) || (k.[0] =? 3) = true) as -> by (destruct Hk as [-> | ->]; done).
    intros [= <-]. exists k.[0], (slice 1 33 k). pose proof (key_split k 33 Hl ltac:(lia)) as Ek. rewrite drop_ge, app_nil_r in Ek by lia.
    split; [done|]. split; [lia|]. rewrite slice_length by lia.
    destruct Hk as [H0|H0]; rewrite H0 in *; (split; [done|]); cbn [Decompress Z.eqb Pos.eqb orb];
      rewrite (take_slice 32 1 33 k) by lia; by rewrite Ek at 2.
  - rewrite Hk. cbn [Z.eqb Pos.eqb orb]. intros [= <-]. change (Z.land k.[64] 1) with (Z.land k.[64] (2 ^ 1 - 1)).
    rewrite land_ones_mod by lia. change (2 ^ 1) with 2. pose proof (Z.mod_pos_bound k.[64] 2 ltac:(lia)) as Hp.
    assert (is_bytes k) as Hbk. { apply Forall_cons in Hb as [_ Hb]. by apply Forall_app in Hb as [Hb _]. }
    pose proof (Hkeys k Hl Hbk Hk Hv) as Hd.
    assert (k.[64] mod 2 = 0 \/ k.[64] mod 2 = 1) as [E|E] by lia; rewrite E in *.
    + exists 4, (slice 1 33 k). rewrite slice_length by lia. split_and!; [done|lia|lia|done|]. cbn [Decompress Z.eqb Pos.eqb orb].
      rewrite (take_slice 32 1 33 k) by lia. change (u8 (4 - 2)) with (2 + 0). rewrite Hd. unfold size_is. by rewrite Hl.
    + exists 5, (slice 1 33 k). rewrite slice_length by lia. split_and!; [done|lia|lia|done|]. cbn [Decompress Z.eqb Pos.eqb orb].
      rewrite (take_slice 32 1 33 k) by lia. change (u8 (5 - 2)) with (2 + 1). rewrite Hd. unfold size_is. by rewrite Hl.
Qed.

Lemma reads_small x : 0 <= x <= 5 -> reads (ReadVarInt (wrapU 32)) [x] x.
Proof.
  intros Hx rest. assert (x = 0 \/ x = 1 \/ x = 2 \/ x = 3 \/ x = 4 \/ x = 5) as Hc by lia. by decompose [or] Hc; subst.
Qed.

Definition wf_script (s : CScript) : Prop := is_bytes s /\ Z.of_nat (length s) <= MAX_SCRIPT_SIZE.

Lemma reads_script s : wf_script s -> exists bs, ser_script IsFullyValid s = Ret bs /\
  reads (unser_script PubKey_Decompress) bs s.
Proof.
  intros [Hb Hl]. unfold MAX_SCRIPT_SIZE in Hl. unfold ser_script. destruct (Compress IsFullyValid s) as [out|] eqn:E.
  - apply Compress_inv in E as (x & body & -> & Hx & Hlen & Hd); [|done]. exists (x :: body). split; [done|].
    change (x :: body) with ([x] ++ body). eapply reads_bind; [by apply reads_small|].
    unfold nSpecialScripts. destruct (Z.ltb_spec x 6); [|lia]. eapply reads_bind_ret; [rewrite <- Hlen; apply reads_read|]. by rewrite Hd.
  - unfold nSpecialScripts. rewrite (wrapU_small 32) by (unfold inU; lia).
    destruct (reads_VarInt_u32 (Z.of_nat (length s) + 6)) as (bs & -> & Hr); [unfold inU; lia|]. cbn [mbind outcome_bind].
    eexists. split; [done|]. eapply reads_bind; [exact Hr|]. unfold nSpecialScripts, MAX_SCRIPT_SIZE.
    destruct (Z.ltb_spec (Z.of_nat (length s) + 6) 6); [lia|]. destruct (Z.ltb_spec 10000 (Z.of_nat (length s) + 6 - 6)); [lia|].
    replace (Z.to_nat (Z.of_nat (length s) + 6 - 6)) with (length s) by lia. apply reads_read.
Qed.
(** ** Outputs are read back *)

Definition wf_out (o : CTxOut) : Prop := 0 <= nValue o <= MAX_MONEY /\ wf_script (scriptPubKey o).

Lemma reads_txout o : wf_out o -> exists bs, ser_txout IsFullyValid o = Ret bs /\
  reads (unser_txout PubKey_Decompress) bs o.
Proof.
  intros [Hv Hs]. unfold MAX_MONEY, COIN in Hv. unfold ser_txout. rewrite (wrapU_small 64) by (unfold inU; lia).
  destruct (CompressAmount_spec (nValue o)) as (x & -> & Hx & Hd); [lia..|]. cbn [mbind outcome_bind].
  destruct (reads_VarInt_u64 x Hx) as (a & -> & Ha). destruct (reads_script _ Hs) as (b & -> & Hb). cbn [mbind outcome_bind].
  eexists. split; [done|]. eapply reads_bind; [exact Ha|]. eapply reads_bind_ret; [exact Hb|].
  rewrite Hd, wrapS_small by (unfold inS; lia). by destruct o.
Qed.

(** ** Coins and undo records are read back *)

Lemma flags_spec v n : (length v <= n)%nat ->
  map (unspent_at v) (seq 0 n) = map (fun o => negb (CTxOut_IsNull o)) v ++ replicate (n - length v) false.
Proof.
  revert n. induction v as [|o v IH]; intros n Hn.
  - rewrite Nat.sub_0_r. cbn [map app]. generalize 0%nat. clear Hn. induction n as [|n IHn]; intros k; [done|].
    cbn [seq map replicate]. by rewrite IHn.
  - destruct n as [|n]; cbn [length] in Hn; [lia|]. cbn [seq map length app]. f_equal.
    rewrite <- seq_shift, map_map. exact (IH n ltac:(lia)).
Qed.

Lemma reads_nulls k : reads (unser_outs PubKey_Decompress (replicate k false)) [] (replicate k CTxOut_null).
Proof.
  induction k as [|k IH]; [apply reads_ret|]. cbn [replicate unser_outs].
  apply (reads_bind _ _ [] []  CTxOut_null); [apply reads_ret|]. by eapply reads_bind_ret.
Qed.

Lemma reads_outs v k : canonical v -> Forall (fun o => CTxOut_IsNull o = false -> wf_out o) v ->
  exists bs, ser_outs IsFullyValid v = Ret bs /\
  reads (unser_outs PubKey_Decompress (map (fun o => negb (CTxOut_IsNull o)) v ++ replicate k false)) bs
        (v ++ replicate k CTxOut_null).
Proof.
  induction v as [|o v IH]; [intros _ _; exists []; split; [done|apply reads_nulls]|].
  intros [Ho Hc]%Forall_cons [Hw Hf]%Forall_cons. destruct (IH Hc Hf) as (bs & E & Hr).
  cbn [ser_outs map app unser_outs]. destruct (CTxOut_IsNull o) eqn:En; cbn [negb].
  - rewrite E. exists bs. split; [done|]. apply (reads_bind _ _ [] bs CTxOut_null); [apply reads_ret|].
    eapply reads_bind_ret; [exact Hr|]. by rewrite (Ho eq_refl).
  - destruct (reads_txout o (Hw eq_refl)) as (a & -> & Ha). rewrite E. eexists. split; [done|].
    eapply reads_bind; [exact Ha|]. by eapply reads_bind_ret.
Qed.

End KeyLaws.

Lemma clean_unspent v : clean v -> v <> [] -> unspent_at v (length v - 1) = true.
Proof.
  intros Hc Hv. destruct (@List.exists_last CTxOut v Hv) as (l & o & ->). unfold clean in Hc. rewrite reverse_snoc in Hc.
  unfold unspent_at. rewrite length_app, Nat.add_sub, list_lookup_middle by done. by rewrite Hc.
Qed.

Lemma used_at v b i : (i < 8)%nat -> unspent_at v (2 + b * 8 + i) = true -> used v b = true.
Proof. intros Hi Hu. apply existsb_exists. exists i. split; [apply in_seq; lia|done]. Qed.

(** The mask covers the outputs, and says which are unspent. *)
Lemma mask_covers v M : clean v -> (forall b, (M <= b < mask_bytes v)%nat -> used v b = false) -> (length v <= 2 + M * 8)%nat.
Proof.
  intros Hc HM. destruct (decide (v = [])) as [->|Hv]; [cbn; lia|]. pose proof (clean_unspent v Hc Hv) as Hl.
  destruct (le_lt_dec (length v) (2 + M * 8)) as [|Hlt]; [done|].
  set (b := ((length v - 3) / 8)%nat). pose proof (Nat.div_mod_eq (length v - 3) 8) as Hd. fold b in Hd.
  pose proof (Nat.mod_upper_bound (length v - 3) 8 ltac:(lia)). set (r := ((length v - 3) mod 8)%nat) in *.
  assert (used v b = true) as Hu.
  { apply (used_at v b r); [lia|]. replace (2 + b * 8 + r)%nat with (length v - 1)%nat by lia. done. }
  rewrite HM in Hu; [done|]. unfold mask_bytes. split; [lia|]. apply Nat.div_le_lower_bound; lia.
Qed.

Lemma mask_nonempty v M : clean v -> v <> [] -> (length v <= 2 + M * 8)%nat -> (forall m, M = S m -> used v m = true) ->
  unspent_at v 0 || unspent_at v 1 = false -> 0 < count_used v M.
Proof.
  intros Hc Hv Hl HM H01. destruct M as [|m].
  - pose proof (clean_unspent v Hc Hv) as Hu. apply orb_false_iff in H01 as [H0 H1].
    assert (length v = 1 \/ length v = 2)%nat as [E|E] by (destruct v as [|? [|? []]]; cbn in *; lia); rewrite E in Hu; cbn in Hu; congruence.
  - rewrite count_used_S, HM by done. assert (0 <= count_used v m) by (unfold count_used; lia). lia.
Qed.

Lemma count_used_le v n : count_used v n <= Z.of_nat n.
Proof. induction n as [|n IH]; [done|]. rewrite count_used_S. destruct (used v n); lia. Qed.

Lemma land_low n k : 0 <= k < 8 -> Z.land n k = Z.land (n mod 8) k.
Proof.
  intros Hk. change 8 with (2 ^ 3). rewrite <- Z.land_ones, <- Z.land_assoc by lia. f_equal. rewrite Z.land_comm.
  rewrite Z.land_ones by lia. by rewrite Z.mod_small.
Qed.

(** The header code holds its three bits and the number of mask bytes. *)
Lemma code_bits q (cb f s : bool) : let n := 8 * q + b2z cb 1 + b2z f 2 + b2z s 4 in
  negb (Z.land n 1 =? 0) = cb /\ negb (Z.land n 2 =? 0) = f /\ negb (Z.land n 4 =? 0) = s /\
  negb (Z.land n 6 =? 0) = f || s /\ n / 8 = q.
Proof.
  intros n. set (r := b2z cb 1 + b2z f 2 + b2z s 4). assert (0 <= r < 8) as Hr by (subst r; destruct cb, f, s; cbn; lia).
  assert (n = r + q * 8) as En by (subst n r; lia).
  assert (n mod 8 = r) as Em by (rewrite En, Z_mod_plus_full; by apply Z.mod_small).
  rewrite !(land_low n), Em by lia. split_and!; [subst r; by destruct cb, f, s..|].
  rewrite En, Z.div_add by lia. rewrite Z.div_small by lia. lia.
Qed.

Lemma Cleanup_nulls cb v k h n : clean v -> Cleanup (mkCoins cb (v ++ replicate k CTxOut_null) h n) = mkCoins cb v h n.
Proof.
  intros Hc. rewrite <- (Cleanup_id (mkCoins cb v h n)) by done. unfold Cleanup, set_vout.
  cbn [vout fCoinBase cHeight cVersion]. f_equal. f_equal. rewrite reverse_app, reverse_replicate.
  induction k as [|k IH]; [done|]. exact IH.
Qed.

(** Coins the database may hold: some output is unspent, the spent ones at the
    end are dropped, and the unspent ones have valid amounts and scripts. *)
Definition wf_stored (c : CCoins) : Prop :=
  wf_coins c /\ IsPruned c = false /\ Forall (fun o => CTxOut_IsNull o = false -> wf_out o) (vout c) /\
  Z.of_nat (length (vout c)) < 2 ^ 31 /\ 0 <= cHeight c < 2 ^ 31 /\ 0 <= cVersion c < 2 ^ 31.

Definition wf_undo (u : CTxInUndo) : Prop :=
  wf_out (u_txout u) /\ 0 <= u_nHeight u < 2 ^ 31 /\ 0 <= u_nVersion u < 2 ^ 31 /\ (u_nHeight u = 0 -> u_nVersion u = 0).

Lemma reads_CCoins valid dec c : decompress_law valid dec -> wf_stored c ->
  exists bs, ser_CCoins valid c = Ret bs /\ reads (unser_CCoins dec) bs c.
Proof.
  intros Hk ([Hcan Hcl] & Hpr & Hout & Hlen & Hh & Hn). unfold ser_CCoins.
  destruct (CalcMaskSize_spec (vout c)) as (M & -> & HM & Hz & Hlast).
  pose proof (mask_covers (vout c) M Hcl Hz) as Hcov.
  assert (vout c <> []) as Hne by (intros E; apply (clean_pruned c Hcl) in E; congruence).
  pose proof (mask_nonempty (vout c) M Hcl Hne Hcov Hlast) as Hpos.
  pose proof (count_used_le (vout c) M) as Hcu.
  assert (Z.of_nat M * 8 <= Z.of_nat (length (vout c)) + 5) as Hmb.
  { assert (mask_bytes (vout c) * 8 <= length (vout c) - 2 + 7)%nat; [|lia].
    unfold mask_bytes. rewrite Nat.mul_comm. apply Nat.Div0.mul_div_le. }
  set (f0 := unspent_at (vout c) 0) in *. set (f1 := unspent_at (vout c) 1) in *.
  set (q := count_used (vout c) M - (if f0 || f1 then 0 else 1)).
  assert (0 <= q) as Hq by (subst q; destruct (f0 || f1); [unfold count_used|specialize (Hpos eq_refl)]; lia).
  assert ((f0 || f1) || negb (count_used (vout c) M =? 0) = true) as ->.
  { destruct (f0 || f1); [done|]. specialize (Hpos eq_refl). by rewrite (proj2 (Z.eqb_neq _ 0)) by lia. }
  cbn [assert_ mbind outcome_bind]. set (code := 8 * q + b2z (fCoinBase c) 1 + b2z f0 2 + b2z f1 4).
  assert (inU 32 code) as Hcode by (subst code q; unfold inU; destruct (fCoinBase c), f0, f1; cbn [b2z orb] in *; lia).
  rewrite (wrapU_small 32) by done. destruct (reads_VarInt_i32 _ Hn) as (a & -> & Ha).
  destruct (reads_VarInt_u32 _ Hcode) as (b & -> & Hb).
  destruct (reads_outs valid dec Hk (vout c) (2 + M * 8 - length (vout c)) Hcan Hout) as (outs & -> & Houts).
  destruct (reads_VarInt_i32 _ Hh) as (h & -> & Hhh). cbn [mbind outcome_bind]. eexists. split; [done|].
  destruct (code_bits q (fCoinBase c) f0 f1) as (B0 & B1 & B2 & B3 & B4). fold code in B0, B1, B2, B3, B4.
  eapply reads_bind; [exact Ha|]. eapply reads_bind; [exact Hb|]. rewrite B0, B1, B2, B3, B4.
  rewrite (wrapU_small 32) by (subst q; unfold inU; destruct (f0 || f1); lia).
  replace (q + (if f0 || f1 then 0 else 1)) with (count_used (vout c) M) by (subst q; lia).
  fold (mask (vout c) M). eapply reads_bind; [by apply reads_used|]. change ([f0; f1] ++ ?l) with ([unspent_at (vout c) 0; unspent_at (vout c) 1] ++ l). rewrite mask_bits, flags_spec by done. eapply reads_bind; [exact Houts|]. eapply reads_bind_ret; [exact Hhh|].
  rewrite Cleanup_nulls by done. by destruct c.
Qed.

Lemma reads_CTxInUndo valid dec u : decompress_law valid dec -> wf_undo u ->
  exists bs, ser_CTxInUndo valid u = Ret bs /\ reads (unser_CTxInUndo dec) bs u.
Proof.
  intros Hk (Ho & Hh & Hn & H0). unfold ser_CTxInUndo. set (code := u_nHeight u * 2 + b2z (u_fCoinBase u) 1).
  assert (code = b2z (u_fCoinBase u) 1 + u_nHeight u * 2) as Ec by (subst code; lia).
  assert (0 <= b2z (u_fCoinBase u) 1 < 2) as Hb by (destruct (u_fCoinBase u); cbn; lia).
  rewrite (wrapU_small 32) by (unfold inU; lia). destruct (reads_VarInt_u32 code) as (a & -> & Ha); [unfold inU; lia|].
  assert (exists b, (if 0 <? u_nHeight u then WriteVarInt 4 (u_nVersion u) else Ret []) = Ret b /\
    reads (if 0 <? u_nHeight u then ReadVarInt (wrapS 32) else mret 0) b (u_nVersion u)) as (b & -> & Hbr).
  { destruct (Z.ltb_spec 0 (u_nHeight u)); [by apply reads_VarInt_i32|]. exists []. rewrite H0 by lia. split; [done|apply reads_ret]. }
  destruct (reads_txout valid dec Hk _ Ho) as (o & -> & Hor). cbn [mbind outcome_bind]. eexists. split; [done|].
  eapply reads_bind; [exact Ha|]. rewrite Ec, Z.div_add, (Z.div_small (b2z _ _)), Z.add_0_l by lia.
  eapply reads_bind; [exact Hbr|]. eapply reads_bind_ret; [exact Hor|].
  change 1 with (2 ^ 1 - 1) at 2. rewrite land_ones_mod by lia. change (2 ^ 1) with 2. rewrite Z_mod_plus_full, Z.mod_small by lia.
  destruct u as [t cb hh vv]. by destruct cb.
Qed.

(** ** Properties *)

(** The coin database gives back what was stored.  Coins with an unspent
    output are written without failing, whatever outputs are spent, and reading
    the bytes, with others after them, gives the same coins and leaves the
    others; the same holds of an undo record.  Scripts in the special forms
    come back from their short form, given that a key is recovered from its
    compressed form. *)
Theorem coins_roundtrip valid dec : decompress_law valid dec ->
  (forall c, wf_stored c -> exists bs, ser_CCoins valid c = Ret bs /\ forall rest, unser_CCoins dec (bs ++ rest) = Some (c, rest)) /\
  (forall u, wf_undo u -> exists bs, ser_CTxInUndo valid u = Ret bs /\ forall rest, unser_CTxInUndo dec (bs ++ rest) = Some (u, rest)).
Proof. intros Hk. split; intros; [by apply reads_CCoins|by apply reads_CTxInUndo]. Qed.

Definition toy_valid (k : list Z) : bool := bool_decide (k = 4 :: replicate 64 7).
Definition toy_dec (k : list Z) : option (list Z) :=
  if bool_decide (k = 3 :: replicate 32 7) then Some (4 :: replicate 64 7) else None.

Definition stored_example : CCoins :=
  mkCoins true [CTxOut_null; CTxOut_null; mkTxOut 60000000000 (65 :: 4 :: replicate 64 7 ++ [OP_CHECKSIG]); CTxOut_null;
    mkTxOut 1 [81]] 203998 1.

Lemma toy_law : decompress_law toy_valid toy_dec.
Proof. intros k _ _ _ Hv. apply bool_decide_eq_true in Hv as ->. vm_compute. reflexivity. Qed.

Lemma stored_example_wf : wf_stored stored_example.
Proof.
  assert (Forall (fun o => CTxOut_IsNull o = false -> wf_out o) (vout stored_example)) as Hf.
  { assert (CTxOut_IsNull CTxOut_null = false -> wf_out CTxOut_null) as Hnull by discriminate.
    apply Forall_cons_2; [exact Hnull|]. apply Forall_cons_2; [exact Hnull|].
    apply Forall_cons_2; [intros _; split; [by vm_compute|]|].
    { split; [apply (bool_decide_unpack (Forall (fun x => 0 <= x < 256) _))|]; vm_compute; [done|discriminate]. }
    apply Forall_cons_2; [exact Hnull|]. apply Forall_cons_2; [|apply Forall_nil_2].
    intros _; split; [by vm_compute|]. split; [by repeat constructor|vm_compute; discriminate]. }
  split_and!; [|vm_compute; reflexivity|exact Hf|by vm_compute..].
  split; [|vm_compute; reflexivity]. apply (bool_decide_unpack (Forall (fun o => CTxOut_IsNull o = true -> o = CTxOut_null) _)).
  vm_compute. exact I.
Qed.

Lemma coins_roundtrip_witness : decompress_law toy_valid toy_dec /\ wf_stored stored_example /\
  exists bs, ser_CCoins toy_valid stored_example = Ret bs /\ forall rest, unser_CCoins toy_dec (bs ++ rest) = Some (stored_example, rest).
Proof.
  split; [exact toy_law|]. split; [exact stored_example_wf|].
  exact (proj1 (coins_roundtrip toy_valid toy_dec toy_law) stored_example stored_example_wf).
Defined.

(** Compression of amounts loses nothing in the range of money: it does not
    fail its assertion, its result is a 64-bit value, and decompression gives the
    amount back. *)
Theorem amount_compression_roundtrip n : MoneyRange n = true ->
  exists x, CompressAmount n = Ret x /\ 0 <= x < 2 ^ 64 /\ DecompressAmount x = n.
Proof.
  unfold MoneyRange. rewrite andb_true_iff, !Z.leb_le. unfold MAX_MONEY, COIN. intros Hn. apply CompressAmount_spec; lia.
Qed.

Lemma amount_compression_roundtrip_witness : MoneyRange 60000000000 = true /\
  exists x, CompressAmount 60000000000 = Ret x /\ 0 <= x < 2 ^ 64 /\ DecompressAmount x = 60000000000.
Proof. split; [done|]. apply (amount_compression_roundtrip 60000000000). reflexivity. Defined.
