(* ===== verification/MerkleBlock.v ===== *)
(** * Partial Merkle trees ([merkleblock.h], [merkleblock.cpp])

    The proof that some transactions are in a block: [CPartialMerkleTree]
    holds the hashes and flags of the part of the Merkle tree that leads to
    them.  A tree that was built, written and read gives back the transactions
    it was built for; and whatever tree is received, what it proves under the
    Merkle root of a block is in that block. *)

From S2P Require Import Prelude ArithUint256 StrEncodings Uint256 Merkle Chain Tx Script Serialize CheckTx Hashes AuxPow.
From stdpp Require Import list sets.
#[local] Open Scope Z_scope.

Record CPartialMerkleTree := mkPartial { nTransactions : Z; vBits : list bool; vHash : list uint256; fBad : bool }.

(** Positions and counters are [unsigned int]. *)
Definition CalcTreeWidth (nTransactions : Z) (height : nat) : Z :=
  Z.shiftr (u32 (nTransactions + Z.shiftl 1 (Z.of_nat height) - 1)) (Z.of_nat height).

(** [while (CalcTreeWidth(nHeight) > 1) nHeight++]. *)
Fixpoint tree_height (fuel : nat) (nTransactions : Z) (nHeight : nat) : outcome nat :=
  if 1 <? CalcTreeWidth nTransactions nHeight
  then match fuel with O => Abort | S fuel' => tree_height fuel' nTransactions (S nHeight) end
  else Ret nHeight.

(** What [TraverseAndExtract] changes: [nBitsUsed], [nHashUsed], [vMatch],
    [vnIndex] and [fBad]. *)
Record extraction := mkExtraction { nBitsUsed : nat; nHashUsed : nat; xMatch : list uint256; xIndex : list Z; xBad : bool }.
Definition set_bad (x : extraction) : extraction := mkExtraction (nBitsUsed x) (nHashUsed x) (xMatch x) (xIndex x) true.

Section Partial.
Variable Hash2 : uint256 -> uint256 -> uint256.

(** ** Building *)

Section Build.
Variable n : Z.                 (* [nTransactions] *)
Variable vTxid : list uint256.
Variable vMatch : list bool.

Fixpoint CalcHash (height : nat) (pos : Z) : outcome uint256 :=
  match height with
  | O => deref (vTxid !! Z.to_nat pos)
  | S h =>
      hl ← CalcHash h (u32 (pos * 2));
      hr ← (if u32 (pos * 2 + 1) <? CalcTreeWidth n h then CalcHash h (u32 (pos * 2 + 1)) else Ret hl);
      Ret (Hash2 hl hr)
  end.

(** The loop that computes [fParentOfMatch]; [k] iterations are left. *)
Fixpoint parent_loop (k : nat) (p : Z) (fParentOfMatch : bool) : outcome bool :=
  match k with
  | O => Ret fParentOfMatch
  | S k' => b ← deref (vMatch !! Z.to_nat p); parent_loop k' (p + 1) (fParentOfMatch || b)
  end.
Definition parent_of_match (height : nat) (pos : Z) : outcome bool :=
  let from := u32 (Z.shiftl pos (Z.of_nat height)) in
  let upto := Z.min (u32 (Z.shiftl (pos + 1) (Z.of_nat height))) n in
  parent_loop (Z.to_nat (upto - from)) from false.

(** [vBits] and [vHash]. *)
Fixpoint TraverseAndBuild (height : nat) (pos : Z) (s : list bool * list uint256) : outcome (list bool * list uint256) :=
  fParentOfMatch ← parent_of_match height pos;
  let bits := s.1 ++ [fParentOfMatch] in
  match height with
  | O => hash ← CalcHash 0 pos; Ret (bits, s.2 ++ [hash])
  | S h =>
      if negb fParentOfMatch then hash ← CalcHash (S h) pos; Ret (bits, s.2 ++ [hash])
      else s ← TraverseAndBuild h (u32 (pos * 2)) (bits, s.2);
           if u32 (pos * 2 + 1) <? CalcTreeWidth n h then TraverseAndBuild h (u32 (pos * 2 + 1)) s else Ret s
  end.
End Build.

(** The constructor from a list of transactions and a mask. *)
Definition CPartialMerkleTree_of (vTxid : list uint256) (vMatch : list bool) : outcome CPartialMerkleTree :=
  let n := u32 (Z.of_nat (length vTxid)) in
  nHeight ← tree_height 32 n 0;
  '(bits, hashes) ← TraverseAndBuild n vTxid vMatch nHeight 0 ([], []);
  Ret (mkPartial n bits hashes false).

(** ** Extracting *)

Fixpoint TraverseAndExtract (t : CPartialMerkleTree) (height : nat) (pos : Z) (x : extraction) : uint256 * extraction :=
  match vBits t !! nBitsUsed x with
  | None => (uint256_null, set_bad x)
  | Some fParentOfMatch =>
      let x := mkExtraction (S (nBitsUsed x)) (nHashUsed x) (xMatch x) (xIndex x) (xBad x) in
      let use_hash :=
        match vHash t !! nHashUsed x with
        | None => (uint256_null, set_bad x)
        | Some hash =>
            let x := mkExtraction (nBitsUsed x) (S (nHashUsed x)) (xMatch x) (xIndex x) (xBad x) in
            if (height =? 0)%nat && fParentOfMatch
            then (hash, mkExtraction (nBitsUsed x) (nHashUsed x) (xMatch x ++ [hash]) (xIndex x ++ [pos]) (xBad x))
            else (hash, x)
        end in
      match height with
      | O => use_hash
      | S h =>
          if negb fParentOfMatch then use_hash
          else let '(hl, x) := TraverseAndExtract t h (u32 (pos * 2)) x in
               if u32 (pos * 2 + 1) <? CalcTreeWidth (nTransactions t) h
               then let '(hr, x) := TraverseAndExtract t h (u32 (pos * 2 + 1)) x in
                    (Hash2 hl hr, if blob_eq hr hl then set_bad x else x)
               else (Hash2 hl hl, x)
      end
  end.

(** The root, null on failure, with [vMatch], [vnIndex] and the new [fBad]. *)
Definition ExtractMatches (t : CPartialMerkleTree) (vnIndex : list Z) : outcome (uint256 * list uint256 * list Z * bool) :=
  let refuse := Ret (uint256_null, [], vnIndex, fBad t) in
  if nTransactions t =? 0 then refuse
  else if MAX_BLOCK_BASE_SIZE / 60 <? nTransactions t then refuse
  else if nTransactions t <? Z.of_nat (length (vHash t)) then refuse
  else if (length (vBits t) <? length (vHash t))%nat then refuse
  else
    nHeight ← tree_height 32 (nTransactions t) 0;
    let '(hashMerkleRoot, x) := TraverseAndExtract t nHeight 0 (mkExtraction 0 0 [] vnIndex (fBad t)) in
    let result root := Ret (root, xMatch x, xIndex x, xBad x) in
    if xBad x then result uint256_null
    else if negb ((nBitsUsed x + 7) / 8 =? (length (vBits t) + 7) / 8)%nat then result uint256_null
    else if negb (nHashUsed x =? length (vHash t))%nat then result uint256_null
    else result hashMerkleRoot.
End Partial.

(** ** Serialization *)

(** Eight flags per byte, the first in the lowest bit. *)
Fixpoint byte_of_bits (bits : list bool) : Z :=
  match bits with [] => 0 | b :: bits' => Z.b2z b + 2 * byte_of_bits bits' end.
Fixpoint pack_bits (k : nat) (bits : list bool) : list Z :=
  match k with O => [] | S k' => byte_of_bits (take 8 bits) :: pack_bits k' (drop 8 bits) end.
Definition unpack_bits (vBytes : list Z) : list bool := concat (map (fun b => map (fun p => Z.testbit b (Z.of_nat p)) (seq 0 8)) vBytes).

Definition ser_CPartialMerkleTree (t : CPartialMerkleTree) : list Z :=
  ser_writedata32 (nTransactions t) ++ ser_vector id (vHash t) ++ ser_bytes (pack_bits ((length (vBits t) + 7) / 8) (vBits t)).
Definition unser_CPartialMerkleTree : reader CPartialMerkleTree :=
  n ← ser_readdata32; hashes ← unser_vector (read 32); vBytes ← unser_bytes; mret (mkPartial n (unpack_bits vBytes) hashes false).

(** ** [CMerkleBlock] *)

Record CMerkleBlock := mkMerkleBlock { mb_header : CBlockHeader; mb_txn : CPartialMerkleTree }.

(** The constructor from a block and a set of transactions; [vMatchedTxn] stays
    empty. *)
Definition CMerkleBlock_of (block : CBlock) (txids : list uint256) : outcome CMerkleBlock :=
  let vHashes := map GetHash (b_vtx block) in
  let vMatch := map (fun hash => existsb (blob_eq hash) txids) vHashes in
  txn ← CPartialMerkleTree_of Hash2 vHashes vMatch;
  Ret (mkMerkleBlock (b_header block) txn).
Definition ser_CMerkleBlock (fAllowWitness : bool) (b : CMerkleBlock) : outcome (list Z) :=
  h ← ser_CBlockHeader fAllowWitness (mb_header b); Ret (h ++ ser_CPartialMerkleTree (mb_txn b)).
Definition unser_CMerkleBlock (fAllowWitness : bool) : reader CMerkleBlock :=
  h ← unser_CBlockHeader fAllowWitness; t ← unser_CPartialMerkleTree; mret (mkMerkleBlock h t).

(** ** The width and the height of the tree *)

Lemma CalcTreeWidth_spec n h : 0 < n <= 2 ^ 30 -> (h <= 30)%nat -> CalcTreeWidth n h = (n + 2 ^ Z.of_nat h - 1) / 2 ^ Z.of_nat h.
Proof.
  intros Hn Hh. unfold CalcTreeWidth. rewrite Z.shiftl_1_l. assert (2 ^ Z.of_nat h <= 2 ^ 30) by (apply Z.pow_le_mono_r; lia).
  rewrite (wrapU_small 32) by (unfold inU; lia). apply Z.shiftr_div_pow2. lia.
Qed.

Lemma width_lt n h pos : 0 < n <= 2 ^ 30 -> (h <= 30)%nat -> (pos <? CalcTreeWidth n h) = (pos * 2 ^ Z.of_nat h <? n).
Proof.
  intros Hn Hh. rewrite CalcTreeWidth_spec by done. set (w := 2 ^ Z.of_nat h). assert (0 < w) by (unfold w; lia).
  pose proof (Z.div_mod (n + w - 1) w ltac:(lia)). pose proof (Z.mod_pos_bound (n + w - 1) w ltac:(lia)). set (q := (n + w - 1) / w) in *.
  destruct (Z.ltb_spec pos q), (Z.ltb_spec (pos * w) n); try done; exfalso; nia.
Qed.

Section Length.
Context (len : nat) (Hlen : (0 < len <= 2 ^ 30)%nat).

Lemma len_bound : 0 < Z.of_nat len <= 2 ^ 30.
Proof. pose proof (Zpow2_nat 30). lia. Qed.

Lemma height_bound30 : (height len <= 30)%nat.
Proof. unfold height. apply Nat.log2_up_le_pow2; [lia|]. apply Hlen. Qed.

Lemma tree_height_spec fuel h : (h <= height len)%nat -> (height len - h <= fuel)%nat -> tree_height fuel (Z.of_nat len) h = Ret (height len).
Proof.
  pose proof height_bound30 as H30. pose proof len_bound as Hb. revert h. induction fuel as [|fuel IH]; intros h Hh Hf; cbn [tree_height];
    rewrite width_lt by (done || lia); rewrite Z.mul_1_l, <- Zpow2_nat; destruct (Z.ltb_spec (Z.of_nat (2 ^ h)) (Z.of_nat len)) as [Hlt|Hge].
  - exfalso. assert (h < height len)%nat by (apply Nat.log2_up_lt_pow2; lia). lia.
  - f_equal. assert (height len <= h)%nat by (apply Nat.log2_up_le_pow2; lia). lia.
  - apply IH; [|lia]. assert (h < height len)%nat by (apply Nat.log2_up_lt_pow2; lia). lia.
  - f_equal. assert (height len <= h)%nat by (apply Nat.log2_up_le_pow2; lia). lia.
Qed.
End Length.

(** ** Trees

    What the bits and hashes describe: a leaf with its mark, a pruned
    subtree, an inner node with two children or with one that is repeated. *)

Inductive ptree :=
| PLeaf (matched : bool) (h : uint256)
| PPruned (h : uint256)
| PNode (l r : ptree)
| PHalf (l : ptree).

Fixpoint tree_bits (t : ptree) : list bool :=
  match t with PLeaf m _ => [m] | PPruned _ => [false] | PNode l r => true :: tree_bits l ++ tree_bits r | PHalf l => true :: tree_bits l end.
Fixpoint tree_hashes (t : ptree) : list uint256 :=
  match t with PLeaf _ h | PPruned h => [h] | PNode l r => tree_hashes l ++ tree_hashes r | PHalf l => tree_hashes l end.

(** The marked leaves with their positions, under a node at position [pos]. *)
Fixpoint tree_matches (pos : nat) (t : ptree) : list (uint256 * nat) :=
  match t with
  | PLeaf m h => if m then [(h, pos)] else []
  | PPruned _ => []
  | PNode l r => tree_matches (2 * pos) l ++ tree_matches (2 * pos + 1) r
  | PHalf l => tree_matches (2 * pos) l
  end.

Section Trees.
Context (Hash2 : uint256 -> uint256 -> uint256).

Fixpoint tree_root (t : ptree) : uint256 :=
  match t with
  | PLeaf _ h | PPruned h => h
  | PNode l r => Hash2 (tree_root l) (tree_root r)
  | PHalf l => Hash2 (tree_root l) (tree_root l)
  end.

(** What is hashed in computing the root. *)
Fixpoint tree_pairs (t : ptree) : list (uint256 * uint256) :=
  match t with
  | PLeaf _ _ | PPruned _ => []
  | PNode l r => (tree_root l, tree_root r) :: tree_pairs l ++ tree_pairs r
  | PHalf l => (tree_root l, tree_root l) :: tree_pairs l
  end.

(** Two equal siblings. *)
Fixpoint tree_bad (t : ptree) : bool :=
  match t with
  | PLeaf _ _ | PPruned _ => false
  | PNode l r => tree_bad l || tree_bad r || blob_eq (tree_root r) (tree_root l)
  | PHalf l => tree_bad l
  end.

Context (len : nat) (Hlen : (0 < len <= 2 ^ 30)%nat).

(** The shape that a tree over [len] leaves has below a node. *)
Fixpoint shaped (h pos : nat) (t : ptree) : Prop :=
  match h, t with
  | O, PLeaf _ _ => True
  | S _, PPruned _ => True
  | S h', PNode l r => ((2 * pos + 1) * 2 ^ h' < len)%nat /\ shaped h' (2 * pos) l /\ shaped h' (2 * pos + 1) r
  | S h', PHalf l => (len <= (2 * pos + 1) * 2 ^ h')%nat /\ shaped h' (2 * pos) l
  | _, _ => False
  end.

(** The positions of the children, and whether there is a right one. *)
Lemma child_positions h pos : (S h <= 30)%nat -> (pos * 2 ^ S h < len)%nat ->
  u32 (Z.of_nat pos * 2) = Z.of_nat (2 * pos) /\ u32 (Z.of_nat pos * 2 + 1) = Z.of_nat (2 * pos + 1) /\ (2 * pos * 2 ^ h < len)%nat /\
  (Z.of_nat (2 * pos + 1) <? CalcTreeWidth (Z.of_nat len) h) = bool_decide ((2 * pos + 1) * 2 ^ h < len)%nat.
Proof.
  intros Hh Hp. pose proof (len_bound len Hlen) as Hb. rewrite Nat.pow_succ_r' in Hp. pose proof (pow2_pos h) as H2.
  assert (Z.of_nat pos < 2 ^ 30) by nia. rewrite !(wrapU_small 32) by (unfold inU; lia). split_and!; [lia|lia|nia|].
  rewrite width_lt by (done || lia). rewrite <- Zpow2_nat. case_bool_decide; [apply Z.ltb_lt|apply Z.ltb_ge]; nia.
Qed.

Definition extracted (pos : nat) (t : ptree) (x : extraction) : extraction :=
  mkExtraction (nBitsUsed x + length (tree_bits t)) (nHashUsed x + length (tree_hashes t)) (xMatch x ++ map fst (tree_matches pos t))
    (xIndex x ++ map (fun m => Z.of_nat m.2) (tree_matches pos t)) (xBad x || tree_bad t).

Lemma extraction_eq a b c d e a' b' c' d' e' : a = a' -> b = b' -> c = c' -> d = d' -> e = e' -> mkExtraction a b c d e = mkExtraction a' b' c' d' e'.
Proof. by intros -> -> -> -> ->. Qed.

(** The traversal reads a tree whose bits and hashes come next. *)
Lemma extract_tree pt t h pos x B2 H2 : nTransactions pt = Z.of_nat len -> (h <= 30)%nat -> (pos * 2 ^ h < len)%nat -> shaped h pos t ->
  drop (nBitsUsed x) (vBits pt) = tree_bits t ++ B2 -> drop (nHashUsed x) (vHash pt) = tree_hashes t ++ H2 ->
  TraverseAndExtract Hash2 pt h (Z.of_nat pos) x = (tree_root t, extracted pos t x).
Proof.
  intros Hn. revert t pos x B2 H2. induction h as [|h IH]; intros t pos x B2 H2 Hh Hp Hs HB HH.
  - destruct t as [m hash| | |]; try done. cbn [TraverseAndExtract].
    assert (vBits pt !! nBitsUsed x = Some m) as -> by (rewrite <- (Nat.add_0_r (nBitsUsed x)), <- lookup_drop, HB; done).
    assert (vHash pt !! nHashUsed x = Some hash) as Hhash by (rewrite <- (Nat.add_0_r (nHashUsed x)), <- lookup_drop, HH; done).
    cbn [nBitsUsed nHashUsed xMatch xIndex xBad Nat.eqb andb]. rewrite Hhash. unfold extracted. cbn. rewrite orb_false_r. destruct m; cbn; (f_equal; apply extraction_eq; rewrite ?app_nil_r; (done || lia)).
  - cbn [TraverseAndExtract]. assert (forall m B, drop (nBitsUsed x) (vBits pt) = m :: B -> vBits pt !! nBitsUsed x = Some m /\ drop (S (nBitsUsed x)) (vBits pt) = B) as Hbit.
    { intros m B E. split; [by rewrite <- (Nat.add_0_r (nBitsUsed x)), <- lookup_drop, E|]. replace (S (nBitsUsed x)) with (nBitsUsed x + 1)%nat by lia.
      by rewrite <- drop_drop, E. }
    destruct (child_positions h pos Hh Hp) as (E1 & E2 & Hp1 & Hw).
    destruct t as [m hash|hash|l r|l]; try done; cbn [tree_bits tree_hashes app] in HB, HH.
    + destruct (Hbit _ _ HB) as [-> _].
      assert (vHash pt !! nHashUsed x = Some hash) as Hhash by (rewrite <- (Nat.add_0_r (nHashUsed x)), <- lookup_drop, HH; done).
      cbn [negb nBitsUsed nHashUsed xMatch xIndex xBad Nat.eqb andb]. rewrite Hhash. unfold extracted. cbn. rewrite orb_false_r.
      f_equal. apply extraction_eq; rewrite ?app_nil_r; (done || lia).
    + destruct (Hbit _ _ HB) as [-> HB']. destruct Hs as (Hr & Hsl & Hsr). cbn [negb nBitsUsed nHashUsed xMatch xIndex xBad].
      rewrite E1, E2, Hn, Hw, bool_decide_true by done. rewrite <- app_assoc in HB', HH.
      set (x1 := mkExtraction (S (nBitsUsed x)) _ _ _ _). rewrite (IH l (2 * pos)%nat x1 _ _ ltac:(lia) Hp1 Hsl HB' HH).
      rewrite (IH r (2 * pos + 1)%nat _ B2 H2 ltac:(lia) Hr Hsr).
      * unfold extracted, x1. cbn [tree_root tree_bits tree_hashes tree_matches tree_bad nBitsUsed nHashUsed xMatch xIndex xBad length].
        rewrite !length_app, !map_app, !app_assoc. unfold set_bad. cbn [nBitsUsed nHashUsed xMatch xIndex xBad].
        destruct (blob_eq (tree_root r) (tree_root l)); (f_equal; apply extraction_eq; try lia; try done);
          rewrite ?orb_true_r, ?orb_false_r, ?orb_assoc; done.
      * cbn [extracted nBitsUsed x1]. by rewrite <- drop_drop, HB', drop_app_length.
      * cbn [extracted nHashUsed x1]. by rewrite <- drop_drop, HH, drop_app_length.
    + destruct (Hbit _ _ HB) as [-> HB']. destruct Hs as (Hr & Hsl). cbn [negb nBitsUsed nHashUsed xMatch xIndex xBad].
      rewrite E1, E2, Hn, Hw, bool_decide_false by lia.
      set (x1 := mkExtraction (S (nBitsUsed x)) _ _ _ _). rewrite (IH l (2 * pos)%nat x1 _ _ ltac:(lia) Hp1 Hsl HB' HH).
      unfold extracted, x1. cbn [tree_root tree_bits tree_hashes tree_matches tree_bad nBitsUsed nHashUsed xMatch xIndex xBad length].
      f_equal. apply extraction_eq; (done || lia).
Qed.

(** [fBad] stays set. *)
Lemma extract_bad pt h pos x : xBad x = true -> xBad (TraverseAndExtract Hash2 pt h pos x).2 = true.
Proof.
  revert pos x. induction h as [|h IH]; intros pos x Hx; cbn [TraverseAndExtract]; (destruct (vBits pt !! nBitsUsed x) as [m|]; [|done]); cbn [nHashUsed].
  - destruct (vHash pt !! nHashUsed x); [|done]. by destruct m.
  - destruct m; cbn [negb].
    + match goal with |- context [TraverseAndExtract Hash2 pt h (u32 (pos * 2)) ?x0] => pose proof (IH (u32 (pos * 2)) x0 Hx) as H1; destruct (TraverseAndExtract Hash2 pt h (u32 (pos * 2)) x0) as [hl x1] end.
      destruct (_ <? _); [|done]. pose proof (IH (u32 (pos * 2 + 1)) x1 H1) as H2. destruct (TraverseAndExtract Hash2 pt h (u32 (pos * 2 + 1)) x1) as [hr x2].
      by destruct (blob_eq hr hl).
    + destruct (vHash pt !! nHashUsed x); [|done]. by cbn.
Qed.

(** A traversal that ends well has read a tree. *)
Lemma extract_parses pt h pos x r x' : nTransactions pt = Z.of_nat len -> (h <= 30)%nat -> (pos * 2 ^ h < len)%nat ->
  TraverseAndExtract Hash2 pt h (Z.of_nat pos) x = (r, x') -> xBad x' = false ->
  exists t, shaped h pos t /\ r = tree_root t /\ x' = extracted pos t x /\
    drop (nBitsUsed x) (vBits pt) = tree_bits t ++ drop (nBitsUsed x') (vBits pt) /\
    drop (nHashUsed x) (vHash pt) = tree_hashes t ++ drop (nHashUsed x') (vHash pt).
Proof.
  intros Hn. revert pos x r x'. induction h as [|h IH]; intros pos x r x' Hh Hp E Hx; cbn [TraverseAndExtract] in E;
    (destruct (vBits pt !! nBitsUsed x) as [m|] eqn:Em; [|by injection E as <- <-]); cbn [nBitsUsed nHashUsed xMatch xIndex xBad Nat.eqb andb] in E;
    apply drop_S in Em.
  - destruct (vHash pt !! nHashUsed x) as [hash|] eqn:Eh; [|by injection E as <- <-]. exists (PLeaf m hash). apply drop_S in Eh.
    unfold extracted. cbn. rewrite orb_false_r. destruct m; injection E as <- <-; split_and!; try done; apply extraction_eq; rewrite ?app_nil_r; (done || cbn; lia).
  - destruct (child_positions h pos Hh Hp) as (E1 & E2 & Hp1 & Hw). destruct m; cbn [negb] in E.
    + rewrite E1, E2, Hn, Hw in E.
      destruct (TraverseAndExtract Hash2 pt h (Z.of_nat (2 * pos)) _) as [hl x1] eqn:El. case_bool_decide as Hr.
      * destruct (TraverseAndExtract Hash2 pt h (Z.of_nat (2 * pos + 1)) x1) as [hr x2] eqn:Er. injection E as <- <-.
        assert (xBad x2 = false /\ blob_eq hr hl = false) as [Hx2 Hb] by (by destruct (blob_eq hr hl)).
        assert (xBad x1 = false) as Hx1.
        { destruct (xBad x1) eqn:Hx1; [|done]. pose proof (extract_bad pt h (Z.of_nat (2 * pos + 1)) x1 Hx1) as H. rewrite Er in H. cbn in H. congruence. }
        destruct (IH _ _ _ _ ltac:(lia) Hp1 El Hx1) as (l & Hsl & -> & Ex1 & EB1 & EH1). destruct (IH _ _ _ _ ltac:(lia) Hr Er Hx2) as (t & Hst & -> & Ex2 & EB2 & EH2).
        exists (PNode l t). rewrite Hb. cbn [nBitsUsed nHashUsed tree_bits tree_hashes] in *. split; [done|]. split; [done|].
        split; [|rewrite Em, EB1, EB2, EH1, EH2; cbn [app]; by rewrite <- !app_assoc]. rewrite Ex2, Ex1. unfold extracted.
        cbn [tree_root tree_bits tree_hashes tree_matches tree_bad nBitsUsed nHashUsed xMatch xIndex xBad length]. rewrite !length_app, !map_app, !app_assoc, Hb, orb_false_r.
        apply extraction_eq; (lia || done || by rewrite orb_assoc).
      * injection E as <- <-. destruct (IH _ _ _ _ ltac:(lia) Hp1 El Hx) as (l & Hsl & -> & Ex1 & EB1 & EH1). exists (PHalf l).
        cbn [nBitsUsed nHashUsed tree_bits tree_hashes] in *. split; [split; [lia|done]|]. split; [done|].
        split; [|by rewrite Em, EB1]. rewrite Ex1. unfold extracted. cbn [tree_root tree_bits tree_hashes tree_matches tree_bad nBitsUsed nHashUsed xMatch xIndex xBad length].
        apply extraction_eq; (lia || done).
    + destruct (vHash pt !! nHashUsed x) as [hash|] eqn:Eh; [|by injection E as <- <-]. injection E as <- <-. exists (PPruned hash). apply drop_S in Eh.
      unfold extracted. cbn. rewrite orb_false_r. split_and!; try done. apply extraction_eq; rewrite ?app_nil_r; (done || lia).
Qed.
End Trees.

(** ** Subtrees of the list of transactions *)

(** The leaves below a node. *)
Definition below_node {A} (l : list A) (h pos : nat) : list A := take (2 ^ h) (drop (pos * 2 ^ h) l).

Lemma below_halves {A} (l : list A) h pos : take (2 ^ h) (below_node l (S h) pos) = below_node l h (2 * pos) /\
  drop (2 ^ h) (below_node l (S h) pos) = below_node l h (2 * pos + 1).
Proof.
  unfold below_node. rewrite Nat.pow_succ_r'. split.
  - rewrite take_take. f_equal; [lia|]. f_equal. lia.
  - replace (2 * 2 ^ h)%nat with (2 ^ h + 2 ^ h)%nat by lia. rewrite <- take_drop_commute, drop_drop. f_equal. f_equal. lia.
Qed.

Lemma below_length {A} (l : list A) h pos : length (below_node l h pos) = Nat.min (2 ^ h) (length l - pos * 2 ^ h).
Proof. unfold below_node. by rewrite length_take, length_drop. Qed.

Lemma below_empty {A} (l : list A) h pos : (length l <= pos * 2 ^ h)%nat -> below_node l h pos = [].
Proof. intros Hl. unfold below_node. rewrite drop_ge by done. apply take_nil. Qed.

Lemma below_nonempty {A} (l : list A) h pos : (pos * 2 ^ h < length l)%nat -> exists x r, below_node l h pos = x :: r.
Proof.
  intros Hl. pose proof (below_length l h pos) as E. pose proof (pow2_pos h). destruct (below_node l h pos) as [|x r]; [cbn in E; lia|]. eauto.
Qed.

Lemma below_pos {A} (l : list A) h pos : (pos * 2 ^ h < length l)%nat -> (1 <= length (below_node l h pos))%nat.
Proof. intros Hp. rewrite below_length. pose proof (pow2_pos h). lia. Qed.

Lemma below_whole {A} (l : list A) h : (length l <= 2 ^ h)%nat -> below_node l h 0 = l.
Proof. intros Hl. unfold below_node. rewrite Nat.mul_0_l, drop_0. by apply take_ge. Qed.

(** The root of a node, from its children. *)
Lemma mroot_below (Hash2 : uint256 -> uint256 -> uint256) l h pos : (pos * 2 ^ S h < length l)%nat ->
  mroot Hash2 (S h) (below_node l (S h) pos) =
  Hash2 (mroot Hash2 h (below_node l h (2 * pos)))
    (mroot Hash2 h (below_node l h (if bool_decide ((2 * pos + 1) * 2 ^ h < length l)%nat then 2 * pos + 1 else 2 * pos))).
Proof.
  intros Hp. cbn [mroot]. destruct (below_halves l h pos) as [-> ->]. case_bool_decide as Hr.
  - by destruct (below_nonempty l h (2 * pos + 1) Hr) as (x & r & ->).
  - by rewrite below_empty by lia.
Qed.

(** ** What a received tree proves *)

(** A tree with the root of a list has, at its marked leaves, what the list
    has there. *)
Lemma matches_in_list (Hash2 : uint256 -> uint256 -> uint256) l h : forall pos t, (pos * 2 ^ h < length l)%nat -> shaped (length l) h pos t ->
  no_collision Hash2 (tree_pairs Hash2 t ++ mpairs Hash2 h (below_node l h pos)) -> tree_root Hash2 t = mroot Hash2 h (below_node l h pos) ->
  forall x p, (x, p) ∈ tree_matches pos t -> l !! p = Some x.
Proof.
  induction h as [|h IH]; intros pos t Hp Hs Hc Hr x p Hx.
  - destruct t as [m hash| | |]; try done. cbn in Hx. destruct m; [|by apply elem_of_nil in Hx]. apply list_elem_of_singleton in Hx as [= -> ->].
    cbn in Hr. rewrite Hr. unfold below_node. rewrite Nat.mul_1_r in *. cbn [Nat.pow]. destruct (drop pos l) as [|y r] eqn:E; [apply (f_equal length) in E; rewrite length_drop in E; cbn in E; lia|].
    cbn. by rewrite <- (Nat.add_0_r pos), <- lookup_drop, E.
  - destruct t as [m hash|hash|t1 t2|t1]; try done; [by apply elem_of_nil in Hx| |].
    + destruct Hs as (Hlt & Hs1 & Hs2). rewrite mroot_below, bool_decide_true in Hr by done. destruct (below_halves l h pos) as [E1 E2].
      assert (exists z r, below_node l h (2 * pos + 1) = z :: r) as (z & r & Ez) by by apply below_nonempty.
      cbn [mpairs] in Hc. rewrite E1, E2, Ez in Hc. rewrite <- Ez in Hc. cbn [tree_pairs] in Hc.
      assert ((tree_root Hash2 t1, tree_root Hash2 t2) = (mroot Hash2 h (below_node l h (2 * pos)), mroot Hash2 h (below_node l h (2 * pos + 1)))) as [= Er1 Er2].
      { apply Hc; [apply elem_of_app; left; by left|apply elem_of_app; right; by left|done]. }
      assert (2 * pos * 2 ^ h < length l)%nat as Hp1 by (rewrite Nat.pow_succ_r' in Hp; nia).
      cbn [tree_matches] in Hx. apply elem_of_app in Hx as [Hx|Hx].
      * apply (IH (2 * pos)%nat t1 Hp1 Hs1); [|done..]. revert Hc. apply no_collision_sub. set_solver.
      * apply (IH (2 * pos + 1)%nat t2 Hlt Hs2); [|done..]. revert Hc. apply no_collision_sub. set_solver.
    + destruct Hs as (Hge & Hs1). rewrite mroot_below, bool_decide_false in Hr by (done || lia). destruct (below_halves l h pos) as [E1 E2].
      cbn [mpairs] in Hc. rewrite E1, E2, below_empty in Hc by lia. cbn [tree_pairs] in Hc.
      assert ((tree_root Hash2 t1, tree_root Hash2 t1) = (mroot Hash2 h (below_node l h (2 * pos)), mroot Hash2 h (below_node l h (2 * pos)))) as [= Er1 _].
      { apply Hc; [apply elem_of_app; left; by left|apply elem_of_app; right; by left|done]. }
      apply (IH (2 * pos)%nat t1); [rewrite Nat.pow_succ_r' in Hp; nia|done| |done..]. revert Hc. apply no_collision_sub. set_solver.
Qed.

(** ** The tree that is built *)

Lemma parent_loop_spec m k : forall p b, (p + k <= length m)%nat ->
  parent_loop m k (Z.of_nat p) b = Ret (b || existsb id (take k (drop p m))).
Proof.
  induction k as [|k IH]; intros p b Hp; cbn [parent_loop]; [by rewrite take_0, orb_false_r|].
  rewrite Nat2Z.id. destruct (lookup_lt_is_Some_2 m p ltac:(lia)) as [y Hy]. rewrite Hy. cbn [deref mbind outcome_bind].
  replace (Z.of_nat p + 1) with (Z.of_nat (S p)) by lia. rewrite IH by lia. rewrite (drop_S _ _ _ Hy). cbn. by rewrite orb_assoc.
Qed.

Section Built.
Context (Hash2 : uint256 -> uint256 -> uint256) (l : list uint256) (m : list bool) (Hm : length m = length l).
Context (Hl : (0 < length l <= 2 ^ 30)%nat).
#[local] Abbreviation n := (Z.of_nat (length l)).
#[local] Abbreviation root h pos := (mroot Hash2 h (below_node l h pos)).
#[local] Abbreviation marked_below h pos := (existsb id (below_node m h pos)).

Lemma CalcHash_spec h : forall pos, (h <= 30)%nat -> (pos * 2 ^ h < length l)%nat -> CalcHash Hash2 n l h (Z.of_nat pos) = Ret (root h pos).
Proof.
  induction h as [|h IH]; intros pos Hh Hp.
  - cbn [CalcHash]. rewrite Nat2Z.id. unfold below_node. rewrite Nat.mul_1_r in *. destruct (lookup_lt_is_Some_2 l pos Hp) as [y Hy].
    by rewrite Hy, (drop_S _ _ _ Hy).
  - cbn [CalcHash]. destruct (child_positions (length l) Hl h pos Hh Hp) as (-> & -> & Hp1 & ->). rewrite mroot_below by done.
    rewrite (IH (2 * pos)%nat ltac:(lia) Hp1). cbn [mbind outcome_bind]. case_bool_decide as Hr; [|done]. by rewrite (IH (2 * pos + 1)%nat ltac:(lia) Hr).
Qed.

Lemma parent_of_match_spec h pos : (h <= 30)%nat -> (pos * 2 ^ h < length l)%nat -> parent_of_match n m h (Z.of_nat pos) = Ret (marked_below h pos).
Proof.
  intros Hh Hp. pose proof (len_bound _ Hl) as Hb. pose proof (pow2_pos h) as H0.
  assert (Z.of_nat (2 ^ h) <= 2 ^ 30) by (rewrite Zpow2_nat; apply Z.pow_le_mono_r; lia).
  unfold parent_of_match. rewrite !Z.shiftl_mul_pow2, <- !Zpow2_nat by lia. rewrite !(wrapU_small 32) by (unfold inU; nia).
  replace (Z.of_nat pos * Z.of_nat (2 ^ h)) with (Z.of_nat (pos * 2 ^ h)) by lia.
  replace (Z.to_nat _) with (Nat.min (2 ^ h) (length m - pos * 2 ^ h)) by nia.
  rewrite parent_loop_spec by lia. unfold below_node. f_equal. cbn [orb]. f_equal. by rewrite <- (length_drop m), <- take_take, (firstn_all (drop _ _)).
Qed.

(** The marked transactions with their positions, counted from [k]. *)
Fixpoint marked (k : nat) (l : list uint256) (m : list bool) : list (uint256 * nat) :=
  match l, m with x :: l', b :: m' => (if b then [(x, k)] else []) ++ marked (S k) l' m' | _, _ => [] end.

(** The part of the tree that leads to the marked leaves. *)
Fixpoint tree_of (h pos : nat) : ptree :=
  match h with
  | O => PLeaf (marked_below 0 pos) (root 0 pos)
  | S h' =>
      if negb (marked_below (S h') pos) then PPruned (root (S h') pos)
      else if bool_decide ((2 * pos + 1) * 2 ^ h' < length l)%nat then PNode (tree_of h' (2 * pos)) (tree_of h' (2 * pos + 1))
      else PHalf (tree_of h' (2 * pos))
  end.

Lemma TraverseAndBuild_spec h : forall pos s, (h <= 30)%nat -> (pos * 2 ^ h < length l)%nat ->
  TraverseAndBuild Hash2 n l m h (Z.of_nat pos) s = Ret (s.1 ++ tree_bits (tree_of h pos), s.2 ++ tree_hashes (tree_of h pos)).
Proof.
  induction h as [|h IH]; intros pos s Hh Hp; cbn [TraverseAndBuild]; rewrite parent_of_match_spec by done; cbn [mbind outcome_bind].
  - by rewrite CalcHash_spec.
  - cbn [tree_of]. destruct (marked_below (S h) pos) eqn:Em; cbn [negb]; [|by rewrite CalcHash_spec].
    destruct (child_positions (length l) Hl h pos Hh Hp) as (-> & -> & Hp1 & ->). rewrite IH by (done || lia). cbn [mbind outcome_bind].
    case_bool_decide as Hr; [rewrite IH by (done || lia)|]; cbn [tree_bits tree_hashes fst snd]; by rewrite <- ?app_assoc.
Qed.

Lemma tree_of_shaped h : forall pos, (pos * 2 ^ h < length l)%nat -> shaped (length l) h pos (tree_of h pos).
Proof.
  induction h as [|h IH]; intros pos Hp; [done|]. cbn [tree_of]. destruct (marked_below _ _); cbn [negb]; [|done]. rewrite Nat.pow_succ_r' in Hp.
  case_bool_decide as Hr; cbn [shaped]; [split; [done|]|split; [lia|]].
  - split; apply IH; [nia|done].
  - apply IH. nia.
Qed.

Lemma tree_of_root h : forall pos, (pos * 2 ^ h < length l)%nat -> tree_root Hash2 (tree_of h pos) = root h pos.
Proof.
  induction h as [|h IH]; intros pos Hp; [done|]. cbn [tree_of]. destruct (marked_below _ _); cbn [negb]; [|done]. rewrite mroot_below by done.
  rewrite Nat.pow_succ_r' in Hp. case_bool_decide as Hr; cbn [tree_root]; rewrite !IH by (done || nia); done.
Qed.

(** At most one hash per transaction, and no more hashes than flags. *)
Lemma tree_of_hashes h : forall pos, (pos * 2 ^ h < length l)%nat -> (length (tree_hashes (tree_of h pos)) <= length (below_node l h pos))%nat.
Proof.
  induction h as [|h IH]; intros pos Hp; cbn [tree_of]; [by apply below_pos|]. destruct (marked_below _ _); cbn [negb]; [|by apply below_pos].
  destruct (below_halves l h pos) as [E1 E2]. rewrite <- (take_drop (2 ^ h) (below_node l (S h) pos)), length_app, E1, E2.
  rewrite Nat.pow_succ_r' in Hp. case_bool_decide as Hr; cbn [tree_hashes]; rewrite ?length_app.
  - apply Nat.add_le_mono; apply IH; (done || nia).
  - rewrite IH by nia. lia.
Qed.

(** One flag per node, at most one node per transaction in each level. *)
Lemma tree_of_bits h : forall pos, (pos * 2 ^ h < length l)%nat -> (length (tree_bits (tree_of h pos)) <= S h * length (below_node l h pos))%nat.
Proof.
  induction h as [|h IH]; intros pos Hp; cbn [tree_of]; [pose proof (below_pos l 0 pos Hp); cbn [tree_bits length]; lia|]. pose proof (below_pos l _ _ Hp) as H1p.
  destruct (marked_below _ _); cbn [negb]; [|cbn [tree_bits length]; lia].
  destruct (below_halves l h pos) as [E1 E2]. rewrite <- (take_drop (2 ^ h) (below_node l (S h) pos)), length_app, E1, E2 in H1p |- *.
  rewrite Nat.pow_succ_r' in Hp. case_bool_decide as Hr; cbn [tree_bits length]; rewrite ?length_app.
  - pose proof (IH (2 * pos)%nat ltac:(nia)). pose proof (IH (2 * pos + 1)%nat ltac:(nia)). lia.
  - pose proof (IH (2 * pos)%nat ltac:(nia)). lia.
Qed.

Lemma marked_none (k : nat) (l' : list uint256) (m' : list bool) : existsb id m' = false -> marked k l' m' = [].
Proof.
  revert k l'. induction m' as [|b m' IH]; intros k [|x l'] Hb; try done. cbn in Hb. apply orb_false_iff in Hb as [-> Hb]. cbn. by apply IH.
Qed.

Lemma marked_split (j k : nat) (l' : list uint256) (m' : list bool) :
  length m' = length l' -> marked k l' m' = marked k (take j l') (take j m') ++ marked (k + j) (drop j l') (drop j m').
Proof.
  revert k l' m'. induction j as [|j IH]; intros k l' m' E; [by rewrite Nat.add_0_r|]. destruct l' as [|x l'], m' as [|b m']; try done.
  cbn [marked take drop]. injection E as E. rewrite (IH (S k)) by done. rewrite <- app_assoc. by replace (S k + j)%nat with (k + S j)%nat by lia.
Qed.

(** The leaves that the tree marks. *)
Lemma tree_of_matches h : forall pos, (pos * 2 ^ h < length l)%nat -> tree_matches pos (tree_of h pos) = marked (pos * 2 ^ h) (below_node l h pos) (below_node m h pos).
Proof.
  induction h as [|h IH]; intros pos Hp.
  - cbn [tree_of tree_matches]. unfold below_node. rewrite Nat.mul_1_r in *. destruct (lookup_lt_is_Some_2 l pos Hp) as [y Hy], (lookup_lt_is_Some_2 m pos ltac:(lia)) as [b Hb].
    rewrite (drop_S _ _ _ Hy), (drop_S _ _ _ Hb). cbn. by destruct b.
  - cbn [tree_of]. destruct (marked_below (S h) pos) eqn:Em; cbn [negb]; [|by rewrite marked_none].
    rewrite (marked_split (2 ^ h)) by (rewrite !below_length; lia). destruct (below_halves l h pos) as [-> ->], (below_halves m h pos) as [-> ->].
    rewrite Nat.pow_succ_r' in *. replace (pos * (2 * 2 ^ h) + 2 ^ h)%nat with ((2 * pos + 1) * 2 ^ h)%nat by lia. replace (pos * (2 * 2 ^ h))%nat with (2 * pos * 2 ^ h)%nat by lia.
    case_bool_decide as Hr; cbn [tree_matches]; [by rewrite !IH by (done || nia)|].
    rewrite IH by nia. rewrite (below_empty l h (2 * pos + 1)) by lia. by rewrite app_nil_r.
Qed.

Context (H32 : forall a b, length (Hash2 a b) = 32%nat) (Hl32 : Forall (fun x => length x = 32%nat) l).

Lemma root_length h pos : (pos * 2 ^ h < length l)%nat -> length (root h pos) = 32%nat.
Proof.
  intros Hp. destruct h; [|by rewrite mroot_below]. unfold below_node. rewrite Nat.mul_1_r in *. destruct (lookup_lt_is_Some_2 l pos Hp) as [y Hy].
  rewrite (drop_S _ _ _ Hy). cbn. by apply (Forall_lookup_1 _ _ _ _ Hl32 Hy).
Qed.

Lemma tree_of_hashes32 h : forall pos, (pos * 2 ^ h < length l)%nat -> Forall (fun x => length x = 32%nat) (tree_hashes (tree_of h pos)).
Proof.
  induction h as [|h IH]; intros pos Hp; cbn [tree_of]; [constructor; [by apply root_length|done]|].
  destruct (marked_below _ _); cbn [negb]; [|constructor; [by apply root_length|done]].
  rewrite Nat.pow_succ_r' in Hp. case_bool_decide as Hr; cbn [tree_hashes]; [apply Forall_app; split|]; apply IH; (done || nia).
Qed.

(** An unmutated list has no equal siblings. *)
Lemma tree_of_good h : forall pos, (pos * 2 ^ h < length l)%nat -> mmut Hash2 h (below_node l h pos) = false ->
  no_collision Hash2 (mpairs Hash2 h (below_node l h pos)) -> tree_bad Hash2 (tree_of h pos) = false.
Proof.
  induction h as [|h IH]; intros pos Hp Hmut Hc; [done|]. cbn [tree_of]. destruct (marked_below _ _); cbn [negb]; [|done].
  destruct (mpairs_top Hash2 h (below_node l (S h) pos) (below_pos l _ _ Hp)) as (y & Hy & _ & Hs1 & Hs2).
  rewrite mmut_S in Hmut. destruct (below_halves l h pos) as [E1 E2]. rewrite E1, E2 in *.
  apply orb_false_iff in Hmut as [[Hm1 Hm2]%orb_false_iff Hm3]. assert (2 * pos * 2 ^ h < length l)%nat as Hp1 by (rewrite Nat.pow_succ_r' in Hp; nia).
  destruct (decide ((2 * pos + 1) * 2 ^ h < length l)%nat) as [Hr|Hr]; [rewrite (bool_decide_true (_ < _)%nat) by done|rewrite (bool_decide_false (_ < _)%nat) by done]; cbn [tree_bad].
  - destruct (below_nonempty l h (2 * pos + 1) Hr) as (z & r & Ez). rewrite Ez in Hs2. rewrite <- Ez in Hs2. destruct Hs2 as [_ Hs2].
    rewrite (IH _ Hp1 Hm1), (IH _ Hr Hm2) by (by eapply no_collision_sub). cbn [orb].
    rewrite !tree_of_root by done. rewrite blob_eq_spec by (by rewrite !root_length). apply bool_decide_eq_false. intros E.
    assert (below_node l h (2 * pos + 1) = below_node l h (2 * pos)) as Eq.
    { apply (mroot_unique Hash2 h); try done; try (rewrite below_length; pose proof (pow2_pos h); lia).
      revert Hc. apply no_collision_sub. intros q [Hq|Hq]%elem_of_app; [by apply Hs2|by apply Hs1]. }
    assert (length (below_node l h (2 * pos)) = 2 ^ h)%nat as Hlen1 by (rewrite below_length; lia).
    rewrite bool_decide_true in Hm3; [|rewrite <- (take_drop (2 ^ h) (below_node l (S h) pos)), length_app, E1, E2, Eq, Hlen1, Nat.pow_succ_r'; lia].
    rewrite bool_decide_true in Hm3; done.
  - apply IH; [done..|]. by eapply no_collision_sub.
Qed.
End Built.

Lemma hashes_le_bits t : (length (tree_hashes t) <= length (tree_bits t))%nat.
Proof. induction t; cbn [tree_hashes tree_bits length]; rewrite ?length_app; lia. Qed.

(** ** The bits that are written and read *)

Lemma byte_bit bits p : Z.testbit (byte_of_bits bits) (Z.of_nat p) = default false (bits !! p).
Proof.
  revert p. induction bits as [|b bits IH]; intros p; cbn [byte_of_bits]; [by rewrite Z.bits_0|].
  rewrite Z.add_comm. destruct p as [|p]; [by rewrite Z.testbit_0_r|].
  replace (Z.of_nat (S p)) with (Z.succ (Z.of_nat p)) by lia. rewrite Z.testbit_succ_r by lia. apply IH.
Qed.

Lemma unpack_byte bits : (length bits <= 8)%nat ->
  map (fun p => Z.testbit (byte_of_bits bits) (Z.of_nat p)) (seq 0 8) = bits ++ replicate (8 - length bits) false.
Proof.
  intros Hb. rewrite (map_ext _ (fun p => default false (bits !! p)) (byte_bit bits)).
  do 9 (destruct bits as [|? bits]; [done|]). cbn in Hb. lia.
Qed.

(** Reading gives the flags back, padded to a multiple of eight. *)
Lemma unpack_pack k : forall bits, (length bits <= 8 * k < length bits + 8)%nat -> unpack_bits (pack_bits k bits) = bits ++ replicate (8 * k - length bits) false.
Proof.
  unfold unpack_bits. induction k as [|k IH]; intros bits Hb; [by destruct bits; cbn in Hb; [|lia]|]. cbn [pack_bits map concat].
  rewrite unpack_byte by (rewrite length_take; lia). rewrite length_take. destruct (decide (8 <= length bits)%nat) as [H8|H8].
  - rewrite IH by (rewrite length_drop; lia). rewrite length_drop. replace (8 - 8 `min` length bits)%nat with 0%nat by lia. cbn [replicate].
    rewrite app_nil_r, app_assoc, take_drop. do 2 f_equal. lia.
  - assert (k = 0%nat) as -> by lia. cbn [pack_bits map concat]. rewrite take_ge, app_nil_r by lia. do 2 f_equal. lia.
Qed.

Lemma pack_length k : forall bits, length (pack_bits k bits) = k.
Proof. induction k as [|k IH]; intros bits; [done|]. cbn. by rewrite IH. Qed.

Definition byte_count (k : nat) : nat := ((k + 7) / 8)%nat.

Lemma byte_count_bound k : (k <= 8 * byte_count k < k + 8)%nat.
Proof. unfold byte_count. pose proof (Nat.div_mod (k + 7) 8 ltac:(lia)). pose proof (Nat.mod_upper_bound (k + 7) 8 ltac:(lia)). lia. Qed.

(** A tree as it is read. *)
Definition padded_tree (t : CPartialMerkleTree) : CPartialMerkleTree :=
  mkPartial (nTransactions t) (vBits t ++ replicate (8 * byte_count (length (vBits t)) - length (vBits t)) false) (vHash t) false.

Lemma reads_CPartialMerkleTree t : inU 32 (nTransactions t) -> sized (vHash t) -> Forall (fun h => length h = 32%nat) (vHash t) ->
  Z.of_nat (length (vBits t)) <= MAX_SIZE -> reads unser_CPartialMerkleTree (ser_CPartialMerkleTree t) (padded_tree t).
Proof.
  intros Hn Hs Hh Hb. eapply reads_bind; [by apply reads_32|]. eapply reads_bind; [by apply reads_hashes|].
  eapply reads_bind_ret; [apply reads_bytes; unfold sized; rewrite pack_length; pose proof (byte_count_bound (length (vBits t))); unfold byte_count in *; lia|].
  by rewrite unpack_pack by apply byte_count_bound.
Qed.

(** ** Built, written, read and extracted *)

Section Whole.
Context (Hash2 : uint256 -> uint256 -> uint256) (H32 : forall a b, length (Hash2 a b) = 32%nat).
Context (l : list uint256) (m : list bool) (Hm : length m = length l) (Hl32 : Forall (fun x => length x = 32%nat) l).
Context (Hpos : (0 < length l)%nat) (Hmax : Z.of_nat (length l) <= MAX_BLOCK_BASE_SIZE / 60).
#[local] Abbreviation h := (height (length l)).
#[local] Abbreviation T := (tree_of Hash2 l m h 0).

Lemma count_bound : Z.of_nat (length l) <= 16666.
Proof. exact Hmax. Qed.

Lemma length_bound : (0 < length l <= 2 ^ 30)%nat.
Proof. pose proof count_bound. pose proof (Zpow2_nat 30). lia. Qed.

Lemma whole_root : (length l <= 2 ^ h)%nat /\ (h <= 15)%nat /\ below_node l h 0 = l /\ below_node m h 0 = m.
Proof.
  pose proof count_bound. assert (length l <= 2 ^ h)%nat by (apply Nat.log2_up_le_pow2; unfold height; lia). split; [done|]. split.
  - apply Nat.log2_up_le_pow2; [lia|]. change (2 ^ 15)%nat with (Z.to_nat 32768). lia.
  - split; apply below_whole; lia.
Qed.

Definition partial_tree : CPartialMerkleTree := mkPartial (Z.of_nat (length l)) (tree_bits T) (tree_hashes T) false.

Lemma build_spec : CPartialMerkleTree_of Hash2 l m = Ret partial_tree.
Proof.
  pose proof length_bound as Hb. pose proof count_bound. unfold CPartialMerkleTree_of. rewrite (wrapU_small 32) by (unfold inU; lia). destruct whole_root as (_ & H15 & _).
  rewrite tree_height_spec by (done || lia). cbn [mbind outcome_bind]. by rewrite (TraverseAndBuild_spec Hash2 l m Hm Hb h 0) by lia.
Qed.

Lemma partial_read : reads unser_CPartialMerkleTree (ser_CPartialMerkleTree partial_tree) (padded_tree partial_tree).
Proof.
  pose proof count_bound as Hc. destruct whole_root as (_ & H15 & El & _). pose proof (tree_of_hashes Hash2 l m Hm length_bound h 0 ltac:(lia)) as Hh.
  pose proof (tree_of_bits Hash2 l m Hm length_bound h 0 ltac:(lia)) as Hb. rewrite El in *. apply reads_CPartialMerkleTree; cbn [partial_tree nTransactions vHash vBits].
  - unfold inU. lia.
  - unfold sized, MAX_SIZE. lia.
  - apply tree_of_hashes32; try done. apply length_bound.
  - unfold MAX_SIZE. nia.
Qed.

Context (Hmut : mmut Hash2 h l = false) (Hc : no_collision Hash2 (mpairs Hash2 h l)).

Lemma extract_spec : ExtractMatches Hash2 (padded_tree partial_tree) [] =
  Ret (mroot Hash2 h l, map fst (marked 0 l m), map (fun p => Z.of_nat p.2) (marked 0 l m), false).
Proof.
  pose proof length_bound as Hb. pose proof count_bound as Hcount. destruct whole_root as (_ & H15 & El & Em).
  pose proof (tree_of_hashes Hash2 l m Hm length_bound h 0 ltac:(lia)) as Hh. pose proof (hashes_le_bits T) as Hhb. pose proof (byte_count_bound (length (tree_bits T))) as Hbc. rewrite El in Hh.
  unfold ExtractMatches. cbn [padded_tree partial_tree nTransactions vHash vBits fBad].
  destruct (Z.eqb_spec (Z.of_nat (length l)) 0); [lia|]. destruct (Z.ltb_spec (MAX_BLOCK_BASE_SIZE / 60) (Z.of_nat (length l))); [lia|].
  destruct (Z.ltb_spec (Z.of_nat (length l)) (Z.of_nat (length (tree_hashes T)))); [lia|].
  rewrite length_app, length_replicate. destruct (Nat.ltb_spec (length (tree_bits T) + (8 * byte_count (length (tree_bits T)) - length (tree_bits T))) (length (tree_hashes T))); [lia|].
  rewrite tree_height_spec by (done || lia). cbn [mbind outcome_bind].
  rewrite (extract_tree Hash2 (length l) Hb _ T h 0 _ (replicate (8 * byte_count (length (tree_bits T)) - length (tree_bits T)) false) []);
    [|done|lia|lia|apply tree_of_shaped; lia|done|by rewrite app_nil_r].
  unfold extracted. cbn [xBad xMatch xIndex nBitsUsed nHashUsed app orb Nat.add].
  rewrite (tree_of_good Hash2 l m Hm Hb H32 Hl32 h 0) by (rewrite ?El; (done || lia)).
  replace (length (tree_bits T) + (8 * byte_count (length (tree_bits T)) - length (tree_bits T)))%nat with (8 * byte_count (length (tree_bits T)))%nat by lia.
  change ((length (tree_bits T) + 7) / 8)%nat with (byte_count (length (tree_bits T))).
  replace ((8 * byte_count (length (tree_bits T)) + 7) / 8)%nat with (byte_count (length (tree_bits T))) by (apply Nat.div_unique with 7%nat; lia).
  rewrite !Nat.eqb_refl. cbn [negb]. rewrite tree_of_root, tree_of_matches by (done || lia). by rewrite El, Em.
Qed.
End Whole.

(** The transactions that a predicate picks, with their positions. *)
Lemma marked_filter (f : uint256 -> bool) l k : marked k l (map f l) = List.filter (fun p => f p.1) (zip l (seq k (length l))).
Proof. revert k. induction l as [|x l IH]; intros k; [done|]. cbn. rewrite IH. by destruct (f x). Qed.

Lemma Hash2_length a b : length (Hash2 a b) = 32%nat.
Proof. apply CHash256_length. Qed.

(** The root that a block's transactions have. *)
Lemma BlockMerkleRoot_mroot block root mut : b_vtx block <> [] -> Z.of_nat (length (b_vtx block)) <= 2 ^ 31 -> BlockMerkleRoot block = Ret (root, mut) ->
  let ids := map GetHash (b_vtx block) in root = mroot Hash2 (height (length ids)) ids /\ mut = mmut Hash2 (height (length ids)) ids.
Proof.
  intros Hne Hlen Hr ids. unfold BlockMerkleRoot in Hr. rewrite merkle_root_reference in Hr; [by injection Hr as <- <-| |by rewrite length_map].
  intros E%map_eq_nil. done.
Qed.

(** Hashes that all differ do not collide. *)
Lemma no_collision_NoDup (H2 : uint256 -> uint256 -> uint256) ps : NoDup (map (fun p => H2 p.1 p.2) ps) -> no_collision H2 ps.
Proof.
  intros Hn p q Hp Hq E. apply list_elem_of_lookup in Hp as [i Hi], Hq as [j Hj].
  assert (i = j) as ->; [|congruence]. apply (NoDup_lookup _ i j (H2 p.1 p.2) Hn); rewrite list_lookup_fmap; [by rewrite Hi|by rewrite Hj, E].
Qed.

(** C21: a Merkle block made for a set of transaction ids, written to the
    stream and read back, has the block's header and proves, under the Merkle
    root of the block, exactly the transactions whose ids are in the set,
    with their positions in the block; the transactions are not mutated and
    no two of the pairs hashed for the root collide. *)
Theorem merkle_block_roundtrip (fAllowWitness : bool) (block : CBlock) (txids : list uint256) (root : uint256) (rest : list Z)
  (Hhead : wf_header (b_header block)) (Haux : wf_aux fAllowWitness (b_header block))
  (Hids : Forall (fun tx => length (GetHash tx) = 32%nat) (b_vtx block))
  (Hne : b_vtx block <> []) (Hmax : Z.of_nat (length (b_vtx block)) <= MAX_BLOCK_BASE_SIZE / 60)
  (Hroot : BlockMerkleRoot block = Ret (root, false))
  (Hnc : no_collision Hash2 (mpairs Hash2 (height (length (b_vtx block))) (map GetHash (b_vtx block)))) :
  let ids := map GetHash (b_vtx block) in
  let picked := List.filter (fun p => existsb (blob_eq p.1) txids) (zip ids (seq 0 (length ids))) in
  exists mb bs mb', CMerkleBlock_of block txids = Ret mb /\ ser_CMerkleBlock fAllowWitness mb = Ret bs /\
    unser_CMerkleBlock fAllowWitness (bs ++ rest) = Some (mb', rest) /\ mb_header mb' = header_seen fAllowWitness (b_header block) /\
    ExtractMatches Hash2 (mb_txn mb') [] = Ret (root, map fst picked, map (fun p => Z.of_nat p.2) picked, false).
Proof.
  intros ids picked. destruct (BlockMerkleRoot_mroot block root false) as [-> Hmut]; [done|change (MAX_BLOCK_BASE_SIZE / 60) with 16666 in Hmax; lia|done|]. fold ids in Hmut |- *.
  assert (length ids = length (b_vtx block)) as Hlen by apply length_map. rewrite <- Hlen in Hmax, Hnc. fold ids in Hnc.
  assert (0 < length ids)%nat as Hpos by (rewrite Hlen; destruct (b_vtx block); [done|cbn; lia]).
  assert (Forall (fun x => length x = 32%nat) ids) as H32 by (by apply Forall_map).
  set (mask := map (fun hash => existsb (blob_eq hash) txids) ids). assert (length mask = length ids) as Hm by apply length_map.
  destruct (reads_CBlockHeader fAllowWitness _ Hhead Haux) as (hb & Eh & Rh). pose proof (partial_read Hash2 Hash2_length ids mask Hm H32 Hpos Hmax) as Rt.
  exists (mkMerkleBlock (b_header block) (partial_tree Hash2 ids mask)). eexists. exists (mkMerkleBlock (header_seen fAllowWitness (b_header block)) (padded_tree (partial_tree Hash2 ids mask))).
  split; [unfold CMerkleBlock_of; fold ids mask; by rewrite build_spec|]. split; [unfold ser_CMerkleBlock; cbn [mb_header]; by rewrite Eh|].
  split; [apply (reads_bind _ _ _ _ _ _ Rh); by eapply reads_bind_ret; [exact Rt|]|]. split; [done|].
  cbn [mb_txn]. rewrite extract_spec by (done || apply Hash2_length). unfold mask. by rewrite marked_filter.
Qed.

(** A tree from which a root is extracted is a tree of the right shape, with
    what it marks in the results. *)
Lemma ExtractMatches_tree (H2 : uint256 -> uint256 -> uint256) t len root hashes indices bad :
  (0 < len)%nat -> nTransactions t = Z.of_nat len -> ExtractMatches H2 t [] = Ret (root, hashes, indices, bad) -> root <> uint256_null ->
  exists T, shaped len (height len) 0 T /\ tree_bits T `prefix_of` vBits t /\ tree_hashes T = vHash t /\ tree_bad H2 T = false /\ root = tree_root H2 T /\
    hashes = map fst (tree_matches 0 T) /\ indices = map (fun p => Z.of_nat p.2) (tree_matches 0 T).
Proof.
  intros Hpos Hn Hx Hnull. unfold ExtractMatches in Hx. cbv zeta in Hx. destruct (nTransactions t =? 0); [congruence|].
  destruct (Z.ltb_spec (MAX_BLOCK_BASE_SIZE / 60) (nTransactions t)) as [|Hmax]; [congruence|]. change (MAX_BLOCK_BASE_SIZE / 60) with 16666 in Hmax.
  destruct (_ <? _); [congruence|]. destruct (_ <? _)%nat; [congruence|]. pose proof (Zpow2_nat 30) as H30.
  assert (0 < len <= 2 ^ 30)%nat as Hlen by lia. rewrite Hn, (tree_height_spec len Hlen 32 0) in Hx by (pose proof (height_bound30 len Hlen); lia). cbn [mbind outcome_bind] in Hx.
  destruct (TraverseAndExtract H2 t (height len) 0 _) as [r x] eqn:E. cbn beta zeta in Hx. destruct (xBad x) eqn:Eb; [congruence|].
  destruct (negb _); [congruence|]. destruct (Nat.eqb_spec (nHashUsed x) (length (vHash t))) as [Eh|]; [|cbn [negb] in Hx; congruence].
  cbn [negb] in Hx. injection Hx as <- <- <- <-.
  destruct (extract_parses H2 len Hlen t (height len) 0 _ r x Hn (height_bound30 len Hlen) ltac:(lia) E Eb) as (T & Hs & -> & Ex & EB & EH).
  cbn [nBitsUsed nHashUsed] in EB, EH. rewrite drop_0 in EB. change (drop 0 (vHash t)) with (vHash t) in EH. rewrite Eh, drop_all, app_nil_r in EH. exists T. rewrite Ex in Eb |- *. unfold extracted in *. cbn [xBad xMatch xIndex app] in *.
  apply orb_false_iff in Eb as [_ Eb]. clear Hlen H30. split; [exact Hs|]. split; [by eexists|]. by split.
Qed.

(** C20: whatever partial tree is received, if it claims the right number of
    transactions and [ExtractMatches] returns the Merkle root of a block for
    it, then it describes a tree over the block's transactions without equal
    siblings, and every hash it marks is the id of the block's transaction
    at the position it gives, unless two different pairs that were hashed
    for the tree or for the block collide. *)
Theorem merkle_proof_sound (block : CBlock) (t : CPartialMerkleTree) (root : uint256) (mut bad : bool) (hashes : list uint256) (indices : list Z)
  (Hne : b_vtx block <> []) (Hroot : BlockMerkleRoot block = Ret (root, mut)) (Hcount : nTransactions t = Z.of_nat (length (b_vtx block)))
  (Hx : ExtractMatches Hash2 t [] = Ret (root, hashes, indices, bad)) (Hnull : root <> uint256_null) :
  let ids := map GetHash (b_vtx block) in
  exists T, shaped (length ids) (height (length ids)) 0 T /\ tree_bits T `prefix_of` vBits t /\ tree_hashes T = vHash t /\ tree_bad Hash2 T = false /\
    (no_collision Hash2 (tree_pairs Hash2 T ++ mpairs Hash2 (height (length ids)) ids) ->
     Forall2 (fun hash i => exists p, i = Z.of_nat p /\ ids !! p = Some hash) hashes indices).
Proof.
  intros ids. assert (length ids = length (b_vtx block)) as Hlen by apply length_map. rewrite <- Hlen in Hcount.
  assert (0 < length ids)%nat as Hpos by (rewrite Hlen; destruct (b_vtx block); [done|cbn; lia]).
  destruct (ExtractMatches_tree Hash2 t _ _ _ _ _ Hpos Hcount Hx Hnull) as (T & Hs & HB & HH & Hb & Er & -> & ->).
  exists T. do 4 (split; [done|]). intros Hnc.
  assert (Z.of_nat (length ids) <= 16666) as Hmax.
  { unfold ExtractMatches in Hx. cbv zeta in Hx. rewrite Hcount in Hx. destruct (_ =? _); [congruence|]. by destruct (Z.ltb_spec (MAX_BLOCK_BASE_SIZE / 60) (Z.of_nat (length ids))); [congruence|]. }
  destruct (BlockMerkleRoot_mroot block root mut Hne ltac:(lia) Hroot) as [Er' _]. fold ids in Er'.
  assert (below_node ids (height (length ids)) 0 = ids) as Ew by (apply below_whole, Nat.log2_up_le_pow2; unfold height; lia).
  apply Forall2_fmap, Forall_Forall2_diag. apply Forall_forall. intros [x p] Hxp. exists p. split; [done|]. cbn.
  eapply (matches_in_list Hash2 ids (height (length ids)) 0 T); [lia|done|by rewrite Ew| |done]. rewrite Ew. congruence.
Qed.

(** The number of transactions is claimed by the proof: with a count of one,
    the Merkle root itself is extracted as a transaction of the block. *)
Theorem merkle_root_as_transaction (root : uint256) :
  ExtractMatches Hash2 (mkPartial 1 [true] [root] false) [] = Ret (root, [root], [0], false).
Proof. reflexivity. Qed.

(** ** A block of three transactions *)

Definition sample_tx (k : Z) : CTransaction := mkTransaction 1 [mkTxIn COutPoint_null [k] SEQUENCE_FINAL []] [mkTxOut 5 [81]] 0 (replicate 32 k).
Definition sample_block : CBlock := mkBlock aux_header [sample_tx 1; sample_tx 2; sample_tx 3] false.

(** A proof of the third one. *)
Definition sample_proof : CPartialMerkleTree :=
  mkPartial 3 [true; false; true; true] [Hash2 (replicate 32 1) (replicate 32 2); replicate 32 3] false.

Lemma sample_check : exists root, BlockMerkleRoot sample_block = Ret (root, false) /\ root <> uint256_null /\
  ExtractMatches Hash2 sample_proof [] = Ret (root, [replicate 32 3], [2], false).
Proof.
  assert (match BlockMerkleRoot sample_block, ExtractMatches Hash2 sample_proof [] with
    | Ret (r, false), Ret (r', hs, ix, false) => bool_decide (r' = r /\ r <> uint256_null /\ hs = [replicate 32 3] /\ ix = [2])
    | _, _ => false end = true) as H by (vm_compute; reflexivity).
  destruct (BlockMerkleRoot sample_block) as [[r []]|], (ExtractMatches Hash2 sample_proof []) as [[[[r' hs] ix] []]|]; try discriminate H.
  apply bool_decide_eq_true in H as (-> & Hn & -> & ->). by exists r.
Qed.

Lemma sample_no_collision : no_collision Hash2 (mpairs Hash2 (height 3) (map GetHash (b_vtx sample_block))).
Proof. apply no_collision_NoDup. apply (bool_decide_unpack _). vm_compute. exact I. Qed.

Lemma sample_header : wf_header aux_header.
Proof. split; [by vm_compute|reflexivity|reflexivity|by vm_compute]. Qed.

Lemma merkle_block_roundtrip_witness :
  exists root mb bs mb', BlockMerkleRoot sample_block = Ret (root, false) /\ CMerkleBlock_of sample_block [replicate 32 3; replicate 32 9] = Ret mb /\
    ser_CMerkleBlock false mb = Ret bs /\ unser_CMerkleBlock false (bs ++ [7]) = Some (mb', [7]) /\
    ExtractMatches Hash2 (mb_txn mb') [] = Ret (root, [replicate 32 3], [2], false).
Proof.
  destruct sample_check as (root & Er & _). exists root.
  destruct (merkle_block_roundtrip false sample_block [replicate 32 3; replicate 32 9] root [7]) as (mb & bs & mb' & E1 & E2 & E3 & _ & E4).
  - exact sample_header.
  - reflexivity.
  - repeat constructor.
  - discriminate.
  - discriminate.
  - exact Er.
  - exact sample_no_collision.
  - exists mb, bs, mb'. split; [exact Er|]. split; [exact E1|]. split; [exact E2|]. split; [exact E3|]. exact E4.
Defined.

Lemma merkle_proof_sound_witness :
  exists T, shaped 3 2 0 T /\ tree_bits T `prefix_of` vBits sample_proof /\ tree_hashes T = vHash sample_proof /\ tree_bad Hash2 T = false /\
    (no_collision Hash2 (tree_pairs Hash2 T ++ mpairs Hash2 2 [replicate 32 1; replicate 32 2; replicate 32 3]) ->
     Forall2 (fun hash i => exists p, i = Z.of_nat p /\ [replicate 32 1; replicate 32 2; replicate 32 3] !! p = Some hash) [replicate 32 3] [2]).
Proof.
  destruct sample_check as (root & Er & Hn & Ex).
  exact (merkle_proof_sound sample_block sample_proof root false false [replicate 32 3] [2] ltac:(discriminate) Er eq_refl Ex Hn).
Defined.
