(* ===== verification/Candidates.v ===== *)
(** * Candidates for the best chain ([validation.cpp])

    [setBlockIndexCandidates], its order, and [FindMostWorkChain], which
    takes the best candidate whose blocks are all there and not known to be
    invalid, and removes the others it meets. *)

From S2P Require Import Prelude ArithUint256 StrEncodings Uint256 Chain Params Pow Tx CheckTx AuxPow ConnectBlock Headers.
From stdpp Require Import list gmap.
#[local] Open Scope Z_scope.

(** ** Order *)

(** [CBlockIndexWorkComparator]; a pointer is an address. *)
Definition work_less (pa : ptr) (a : CBlockIndex) (pb : ptr) (b : CBlockIndex) : bool :=
  if op_gt (nChainWork a) (nChainWork b) then false
  else if op_lt (nChainWork a) (nChainWork b) then true
  else if nSequenceId a <? nSequenceId b then false
  else if nSequenceId b <? nSequenceId a then true
  else if (pa <? pb)%nat then false
  else (pb <? pa)%nat.
Definition CBlockIndexWorkComparator (m : index) (pa pb : ptr) : bool :=
  match m !! pa, m !! pb with Some a, Some b => work_less pa a pb b | _, _ => false end.

(** [*setBlockIndexCandidates.rbegin()]: the set is kept in the order of the
    comparator, so this is its greatest element. *)
Definition rbegin (m : index) (s : gset ptr) : option ptr :=
  fold_right (fun p best => match best with
                            | None => Some p
                            | Some q => if CBlockIndexWorkComparator m q p then Some p else Some q
                            end) None (elements s).

(** ** State *)

(** The globals of the file; [n_world] stands for the coins, the memory pool
    and the files. *)
Record Node (W : Type) := mkNode {
  n_tree : BlockTree;
  chainActive : list (option ptr);
  setBlockIndexCandidates : gset ptr;
  mapBlocksUnlinked : list (option ptr * ptr);
  pindexBestInvalid : option ptr;
  gFailedBlocks : list ptr;
  nBlockSequenceId : Z;
  n_world : W
}.
Arguments mkNode {W}.
Arguments n_tree {W}.
Arguments chainActive {W}.
Arguments setBlockIndexCandidates {W}.
Arguments mapBlocksUnlinked {W}.
Arguments pindexBestInvalid {W}.
Arguments gFailedBlocks {W}.
Arguments nBlockSequenceId {W}.
Arguments n_world {W}.

Section Ops.
Context {W : Type}.

Definition set_tree (t : BlockTree) (s : Node W) : Node W :=
  mkNode t (chainActive s) (setBlockIndexCandidates s) (mapBlocksUnlinked s) (pindexBestInvalid s) (gFailedBlocks s) (nBlockSequenceId s) (n_world s).
Definition set_chain (v : list (option ptr)) (s : Node W) : Node W :=
  mkNode (n_tree s) v (setBlockIndexCandidates s) (mapBlocksUnlinked s) (pindexBestInvalid s) (gFailedBlocks s) (nBlockSequenceId s) (n_world s).
Definition set_candidates (c : gset ptr) (s : Node W) : Node W :=
  mkNode (n_tree s) (chainActive s) c (mapBlocksUnlinked s) (pindexBestInvalid s) (gFailedBlocks s) (nBlockSequenceId s) (n_world s).
Definition set_unlinked (u : list (option ptr * ptr)) (s : Node W) : Node W :=
  mkNode (n_tree s) (chainActive s) (setBlockIndexCandidates s) u (pindexBestInvalid s) (gFailedBlocks s) (nBlockSequenceId s) (n_world s).
Definition set_bestInvalid (p : option ptr) (s : Node W) : Node W :=
  mkNode (n_tree s) (chainActive s) (setBlockIndexCandidates s) (mapBlocksUnlinked s) p (gFailedBlocks s) (nBlockSequenceId s) (n_world s).
Definition set_failed (l : list ptr) (s : Node W) : Node W :=
  mkNode (n_tree s) (chainActive s) (setBlockIndexCandidates s) (mapBlocksUnlinked s) (pindexBestInvalid s) l (nBlockSequenceId s) (n_world s).
Definition set_world (w : W) (s : Node W) : Node W :=
  mkNode (n_tree s) (chainActive s) (setBlockIndexCandidates s) (mapBlocksUnlinked s) (pindexBestInvalid s) (gFailedBlocks s) (nBlockSequenceId s) w.

#[local] Abbreviation idx s := (tIndex (n_tree s)).

(** An assignment to an entry that is not marked dirty. *)
Definition put_entry (p : ptr) (b : CBlockIndex) (t : BlockTree) : BlockTree :=
  {| tIndex := <[p := b]> (tIndex t); mapBlockIndex := mapBlockIndex t; pindexBestHeader := pindexBestHeader t;
     setDirtyBlockIndex := setDirtyBlockIndex t; nextPtr := nextPtr t |}.

Definition erase_candidate (p : ptr) (s : Node W) : Node W := set_candidates (setBlockIndexCandidates s ∖ {[p]}) s.

(** ** The chain with the most work *)

Definition note_invalid (pindexNew : ptr) (s : Node W) : outcome (Node W) :=
  more ← match pindexBestInvalid s with
         | None => Ret true
         | Some q => b ← deref (idx s !! pindexNew); bq ← deref (idx s !! q); Ret (op_gt (nChainWork b) (nChainWork bq))
         end;
  Ret (if (more : bool) then set_bestInvalid (Some pindexNew) s else s).

Definition block_failed (b : CBlockIndex) : bool := negb (Z.land (nStatus b) BLOCK_FAILED_MASK =? 0).
Definition block_missing (b : CBlockIndex) : bool := Z.land (nStatus b) BLOCK_HAVE_DATA =? 0.

(** [while (pindexTest && !chainActive.Contains(pindexTest))], up to the first
    block that cannot be used, with [fFailedChain] of it. *)
Fixpoint find_unusable (fuel : nat) (m : index) (vChain : list (option ptr)) (pindexTest : option ptr) : outcome (option (ptr * bool)) :=
  match pindexTest with
  | None => Ret None
  | Some p =>
      active ← Contains m vChain p;
      if (active : bool) then Ret None
      else
        b ← deref (m !! p);
        _ ← assert_ (negb (nChainTx b =? 0) || (nHeight b =? 0));
        if block_failed b || block_missing b then Ret (Some (p, block_failed b))
        else match fuel with O => Abort | S fuel' => find_unusable fuel' m vChain (pprev b) end
  end.

(** [while (pindexTest != pindexFailed)], and the removal of [pindexTest]. *)
Fixpoint remove_chain (fuel : nat) (pindexTest : ptr) (fFailedChain : bool) (pindexFailed : option ptr) (s : Node W) : outcome (Node W) :=
  if bool_decide (pindexFailed = Some pindexTest) then Ret (erase_candidate pindexTest s)
  else match fuel with
       | O => Abort
       | S fuel' =>
           p ← deref pindexFailed;
           b ← deref (idx s !! p);
           let s := if fFailedChain then set_tree (put_entry p (set_nStatus (Z.lor (nStatus b) BLOCK_FAILED_CHILD) b) (n_tree s)) s
                    else set_unlinked (mapBlocksUnlinked s ++ [(pprev b, p)]) s in
           remove_chain fuel' pindexTest fFailedChain (pprev b) (erase_candidate p s)
       end.

(** [do ... while(true)]: each iteration takes a candidate out of the set. *)
Fixpoint FindMostWorkChain_loop (fuel : nat) (s : Node W) : outcome (option ptr * Node W) :=
  match rbegin (idx s) (setBlockIndexCandidates s) with
  | None => Ret (None, s)
  | Some pindexNew =>
      b ← deref (idx s !! pindexNew);
      bad ← find_unusable (S (Z.to_nat (nHeight b))) (idx s) (chainActive s) (Some pindexNew);
      match bad with
      | None => Ret (Some pindexNew, s)
      | Some (pindexTest, fFailedChain) =>
          s ← (if fFailedChain then note_invalid pindexNew s else Ret s);
          s ← remove_chain (Z.to_nat (nHeight b)) pindexTest fFailedChain (Some pindexNew) s;
          match fuel with O => Abort | S fuel' => FindMostWorkChain_loop fuel' s end
      end
  end.
Definition FindMostWorkChain (s : Node W) : outcome (option ptr * Node W) :=
  FindMostWorkChain_loop (size (setBlockIndexCandidates s)) s.

(** The set is in the order of the comparator, so the loop removes all the
    entries that are worse than the tip. *)
Definition PruneBlockIndexCandidates (s : Node W) : outcome (Node W) :=
  tip ← deref (Tip (chainActive s));
  let s := set_candidates (filter (fun p => CBlockIndexWorkComparator (idx s) p tip = false) (setBlockIndexCandidates s)) s in
  _ ← assert_ (bool_decide (setBlockIndexCandidates s <> ∅));
  Ret s.
End Ops.

(** ** The order is strict and total *)

Definition works_ok (m : index) : Prop := forall p b, m !! p = Some b -> wf (nChainWork b).

Definition ranks_below (pa : ptr) (a : CBlockIndex) (pb : ptr) (b : CBlockIndex) : Prop :=
  eval (nChainWork a) < eval (nChainWork b) \/
  (eval (nChainWork a) = eval (nChainWork b) /\ (nSequenceId b < nSequenceId a \/ (nSequenceId a = nSequenceId b /\ (pb < pa)%nat))).

Lemma work_less_spec pa a pb b : wf (nChainWork a) -> wf (nChainWork b) -> (work_less pa a pb b = true <-> ranks_below pa a pb b).
Proof.
  intros Ha Hb. unfold work_less, ranks_below, op_gt, op_lt. rewrite CompareTo_spec by done.
  destruct (Z.compare_spec (eval (nChainWork a)) (eval (nChainWork b))); cbn [Z.ltb Z.compare]; [|split; [intros _; left; lia|done]|split; [done|lia]].
  destruct (Z.ltb_spec (nSequenceId a) (nSequenceId b)); [split; [done|lia]|]. destruct (Z.ltb_spec (nSequenceId b) (nSequenceId a)); [split; [lia|done]|].
  destruct (Nat.ltb_spec pa pb); [split; [done|lia]|]. rewrite Nat.ltb_lt. lia.
Qed.

Section Order.
Context (m : index) (Hw : works_ok m).
#[local] Abbreviation less := (CBlockIndexWorkComparator m).

Lemma less_spec pa pb a b : m !! pa = Some a -> m !! pb = Some b -> (less pa pb = true <-> ranks_below pa a pb b).
Proof. intros Ha Hb. unfold CBlockIndexWorkComparator. rewrite Ha, Hb. apply work_less_spec; eauto. Qed.

Lemma less_irrefl p : less p p = false.
Proof.
  destruct (m !! p) as [b|] eqn:E; [|unfold CBlockIndexWorkComparator; by rewrite E]. apply not_true_iff_false.
  rewrite (less_spec p p b b) by done. unfold ranks_below. lia.
Qed.

Lemma less_trans p q r : less p q = true -> less q r = true -> less p r = true.
Proof.
  destruct (m !! p) as [a|] eqn:Ea; [|unfold CBlockIndexWorkComparator; by rewrite Ea].
  destruct (m !! q) as [b|] eqn:Eb; [|unfold CBlockIndexWorkComparator; by rewrite Ea, Eb].
  destruct (m !! r) as [c|] eqn:Ec; [|unfold CBlockIndexWorkComparator; by rewrite Eb, Ec].
  rewrite (less_spec p q a b), (less_spec q r b c), (less_spec p r a c) by done. unfold ranks_below. lia.
Qed.

(** [rbegin] is in the set and nothing in the set is above it. *)
Lemma rbegin_spec s p : rbegin m s = Some p -> p ∈ s /\ forall q, q ∈ s -> less p q = false.
Proof.
  unfold rbegin. setoid_rewrite <- elem_of_elements. generalize (elements s) as l. intros l. revert p. induction l as [|x l IH]; intros p; [done|]. cbn [fold_right].
  destruct (fold_right _ None l) as [y|] eqn:Ey.
  - destruct (IH y eq_refl) as [Hy Hmax]. destruct (less y x) eqn:Eyx; intros [= <-]; (split; [set_solver|]); intros q [->|Hq]%elem_of_cons.
    + apply less_irrefl.
    + apply not_true_iff_false. intros E. apply (not_true_iff_false (less y q)); [by apply Hmax|]. by eapply less_trans.
    + done.
    + by apply Hmax.
  - intros [= <-]. split; [set_solver|]. intros q [->|Hq]%elem_of_cons; [apply less_irrefl|]. destruct l as [|z l]; [set_solver|]. exfalso.
    cbn [fold_right] in Ey. destruct (fold_right _ None l); [|done]. by destruct (less _ z).
Qed.

Lemma rbegin_None s : rbegin m s = None -> s = ∅.
Proof.
  unfold rbegin. intros E. destruct (elements s) as [|x l] eqn:El; [by apply leibniz_equiv, elements_empty_iff|].
  cbn [fold_right] in E. destruct (fold_right _ None l); [|done]. by destruct (less _ x).
Qed.
End Order.

(** ** Chains that can be used *)

(** A block that is there and not known to be invalid. *)
Definition block_good (b : CBlockIndex) : Prop := block_failed b = false /\ block_missing b = false.

Section Usable.
Context (m : index) (v : list (option ptr)).

(** All blocks down to the active chain are good. *)
Inductive usable : option ptr -> Prop :=
| usable_none : usable None
| usable_active p : in_chain m v p -> usable (Some p)
| usable_step p b : m !! p = Some b -> block_good b -> usable (pprev b) -> usable (Some p).

(** [x] is the first block that is not, on the way down from [p]. *)
Inductive blocked : ptr -> ptr -> Prop :=
| blocked_here x b : m !! x = Some b -> ~ in_chain m v x -> ~ block_good b -> blocked x x
| blocked_above p b q x : m !! p = Some b -> ~ in_chain m v p -> block_good b -> pprev b = Some q -> blocked q x -> blocked p x.

Lemma blocked_not_usable p x : blocked p x -> ~ usable (Some p).
Proof.
  induction 1 as [x b Hx Hc Hg|p b q x Hp Hc Hg Hq Hb IH]; inversion 1 as [|? Ha|? b' Hp' Hg' Hu]; subst; try done; [congruence|].
  apply IH. congruence.
Qed.

Lemma blocked_end p x : blocked p x -> exists b, m !! x = Some b /\ ~ in_chain m v x /\ ~ block_good b.
Proof. induction 1; eauto. Qed.

Context (Hm : wf_index m).

Lemma blocked_height p x b bx : blocked p x -> m !! p = Some b -> m !! x = Some bx -> 0 <= nHeight bx <= nHeight b.
Proof.
  intros Hb. revert b. induction Hb as [x c Hx Hc Hg|p c q x Hp Hc Hg Hq Hb IH]; intros b Ep Ex.
  - pose proof (wf_nonneg m Hm x bx Ex). assert (b = bx) as -> by congruence. lia.
  - assert (b = c) as -> by congruence. pose proof (wf_prev m Hm p c Hp) as Hw. rewrite Hq in Hw. destruct Hw as (bq & Ebq & Hh).
    specialize (IH bq Ebq Ex). lia.
Qed.

(** [nChainTx] is set where it is set for the parent. *)
Definition txs_linked : Prop := forall p b q bq, m !! p = Some b -> pprev b = Some q -> m !! q = Some bq -> nChainTx b <> 0 -> nChainTx bq <> 0.

Lemma find_unusable_spec (Hl : txs_linked) fuel p b : m !! p = Some b -> nChainTx b <> 0 -> nHeight b < Z.of_nat fuel ->
  exists r, find_unusable fuel m v (Some p) = Ret r /\
    match r with
    | None => usable (Some p)
    | Some (x, f) => blocked p x /\ exists bx, m !! x = Some bx /\ f = block_failed bx
    end.
Proof.
  revert p b. induction fuel as [|fuel IH]; intros p b Hp Htx Hf; [pose proof (wf_nonneg m Hm p b Hp); lia|].
  cbn [find_unusable]. rewrite (Contains_spec m v p b Hp). cbn [mbind outcome_bind]. case_bool_decide as Hc.
  { exists None. split; [done|]. apply usable_active. by exists b. }
  assert (~ in_chain m v p) as Hnc by (intros (b' & Hp' & Ha); congruence).
  rewrite Hp. cbn [deref mbind outcome_bind]. rewrite (proj2 (Z.eqb_neq _ 0) Htx). cbn [negb orb assert_ mbind outcome_bind].
  destruct (block_failed b || block_missing b) eqn:Eb.
  - eexists. split; [done|]. split; [|by exists b]. eapply blocked_here; [done..|]. intros [E1 E2]. by rewrite E1, E2 in Eb.
  - apply orb_false_iff in Eb as Hg. pose proof (wf_prev m Hm p b Hp) as Hw. destruct (pprev b) as [q|] eqn:Eq.
    + destruct Hw as (bq & Hq & Hh). destruct (IH q bq Hq) as (r & -> & Hr); [by apply (Hl p b q bq)|lia|]. exists r. split; [done|].
      destruct r as [[x f]|]; [|eapply usable_step; [done..|by rewrite Eq]].
      destruct Hr as [Hb Hx]. split; [|done]. by eapply blocked_above.
    + exists None. split; [by destruct fuel|]. eapply usable_step; [done..|]. rewrite Eq. constructor.
Qed.
End Usable.

(** ** What is marked *)

Definition mark (b : CBlockIndex) : CBlockIndex := set_nStatus (Z.lor (nStatus b) BLOCK_FAILED_CHILD) b.

Lemma mark_failed b : block_failed (mark b) = true.
Proof.
  unfold block_failed, mark. cbn [set_nStatus nStatus]. apply negb_true_iff, Z.eqb_neq. intros E.
  assert (Z.testbit (Z.land (Z.lor (nStatus b) BLOCK_FAILED_CHILD) BLOCK_FAILED_MASK) 6 = false) as H by by rewrite E.
  rewrite Z.land_spec, Z.lor_spec, orb_true_r in H. done.
Qed.

(** Blocks of [m'] that are marked although they are not in [m]: they are
    above a block that has failed. *)
Definition marks (v : list (option ptr)) (m m' : index) : Prop :=
  forall q, m' !! q = m !! q \/
    exists b x bx, m !! q = Some b /\ m' !! q = Some (mark b) /\ blocked m v q x /\ x <> q /\ m !! x = Some bx /\ block_failed bx = true.

Lemma marks_refl v m : marks v m m.
Proof. intros q. by left. Qed.

Section Marks.
Context (v : list (option ptr)) (m m' : index) (Hmk : marks v m m').

Lemma marks_lookup q b' : m' !! q = Some b' -> exists b, m !! q = Some b /\ same b b' /\ nSequenceId b' = nSequenceId b /\ nChainTx b' = nChainTx b /\ (block_good b' -> b' = b).
Proof.
  intros Hq. destruct (Hmk q) as [E|(b & x & bx & Hb & Hb' & _)].
  - exists b'. rewrite <- E. split; [done|]. split; [apply same_refl|done].
  - exists b. split; [done|]. assert (b' = mark b) as -> by congruence. split; [apply same_status|]. do 2 (split; [done|]).
    intros [Hf _]. by rewrite mark_failed in Hf.
Qed.

Lemma marks_grows : grows m m'.
Proof.
  intros q b Hq. destruct (Hmk q) as [E|(b' & x & bx & Hb & Hb' & _)]; [exists b; rewrite E; split; [done|apply same_refl]|].
  exists (mark b'). split; [done|]. assert (b' = b) as -> by congruence. apply same_status.
Qed.

Lemma marks_grows_back : grows m' m.
Proof.
  intros q b' Hq. destruct (marks_lookup q b' Hq) as (b & Hb & Hs & _). exists b. split; [done|]. destruct Hs. split; congruence.
Qed.

Lemma marks_in_chain q : in_chain m' v q <-> in_chain m v q.
Proof.
  split; intros (b & Hb & Hc).
  - destruct (marks_lookup q b Hb) as (b0 & Hb0 & Hs & _). exists b0. split; [done|]. by rewrite <- (same_height _ _ Hs).
  - destruct (marks_grows q b Hb) as (b' & Hb' & Hs). exists b'. split; [done|]. by rewrite (same_height _ _ Hs).
Qed.

Lemma marks_less p q : CBlockIndexWorkComparator m' p q = CBlockIndexWorkComparator m p q.
Proof.
  assert (forall x, match m' !! x, m !! x with
    | Some a, Some b => nChainWork a = nChainWork b /\ nSequenceId a = nSequenceId b | None, None => True | _, _ => False end) as H.
  { intros x. destruct (m' !! x) as [a|] eqn:Ea.
    - destruct (marks_lookup x a Ea) as (b & -> & Hs & Hq & _). split; [apply Hs|done].
    - destruct (m !! x) as [b|] eqn:Eb; [|done]. destruct (marks_grows x b Eb) as (? & ? & _). congruence. }
  unfold CBlockIndexWorkComparator. pose proof (H p) as Hp. pose proof (H q) as Hq.
  destruct (m' !! p) as [a|], (m !! p) as [a0|]; try done. destruct (m' !! q) as [b|], (m !! q) as [b0|]; try done.
  destruct Hp as [W1 S1], Hq as [W2 S2]. unfold work_less. by rewrite W1, W2, S1, S2.
Qed.

Lemma marks_usable p : usable m' v p <-> usable m v p.
Proof.
  split.
  - induction 1 as [|p Hc|p b Hp Hg Hu IH]; [constructor|by apply usable_active, marks_in_chain|].
    destruct (marks_lookup p b Hp) as (b0 & Hb0 & _ & _ & _ & E). specialize (E Hg) as ->. by apply (usable_step m v p b0).
  - induction 1 as [|p Hc|p b Hp Hg Hu IH]; [constructor|by apply usable_active, marks_in_chain|].
    destruct (Hmk p) as [E|(b' & x & bx & Hb' & _ & Hbl & _)]; [eapply usable_step; [by rewrite E|done..]|].
    exfalso. eapply blocked_not_usable; [exact Hbl|]. by apply (usable_step m v p b).
Qed.

(** A block that is blocked after the marks was blocked before. *)
Lemma marks_blocked p x bx' : blocked m' v p x -> m' !! x = Some bx' ->
  exists x' bx, blocked m v p x' /\ m !! x' = Some bx /\ (x <> p -> x' <> p) /\ (block_failed bx' = true -> block_failed bx = true).
Proof.
  induction 1 as [x b Hx Hc Hg|p b q x Hp Hc Hg Hq Hb IH]; intros Ex.
  - assert (b = bx') as -> by congruence. destruct (Hmk x) as [E|(b & x' & bx & Hb & Hb' & Hbl & Hne & Hx' & Hf)].
    + exists x, bx'. rewrite <- E. split; [|done]. eapply blocked_here; [by rewrite <- E| |done]. by rewrite <- marks_in_chain.
    + exists x', bx. split; [done|]. split; [done|]. done.
  - destruct (IH Ex) as (x' & bx & Hbl & Hbx & _ & Hf). exists x', bx. destruct (marks_lookup p b Hp) as (b0 & Hb0 & _ & _ & _ & E). specialize (E Hg) as <-.
    split; [eapply blocked_above; [done| |done..]; by intros Hi%marks_in_chain|]. split; [done|]. split; [|done].
    intros _ ->. destruct (blocked_end _ _ _ _ Hbl) as (? & ? & _ & ?). congruence.
Qed.
End Marks.

Lemma marks_trans v m1 m2 m3 : marks v m1 m2 -> marks v m2 m3 -> marks v m1 m3.
Proof.
  intros H12 H23 q. destruct (H23 q) as [E|(b & x & bx & Hb & Hb' & Hbl & Hne & Hx & Hf)]; [rewrite E; apply H12|]. right.
  destruct (marks_blocked v m1 m2 H12 q x bx Hbl Hx) as (x' & bx' & Hbl' & Hx' & Hne' & Hf').
  exists b, x', bx'. split; [|split; [done|]; split; [done|]; split; [auto|]; split; [done|auto]].
  destruct (marks_lookup v m1 m2 H12 q b Hb) as (b0 & Hb0 & _ & _ & _ & E). rewrite Hb0. f_equal. symmetry. apply E.
  destruct Hbl as [|]; [done|]. congruence.
Qed.

(** ** Removing a chain *)

Lemma erased (C : gset ptr) y p : y ∈ C -> y ∉ C ∖ {[p]} -> y = p.
Proof. intros H1 H2. destruct (decide (y = p)); [done|]. destruct H2. set_solver. Qed.

Lemma kept_of_erased (C D : gset ptr) p : D ⊆ C ∖ {[p]} -> (p ∉ D) /\ D ⊆ C.
Proof. set_solver. Qed.

Section Find.
Context {W : Type}.
#[local] Abbreviation idx s := (tIndex (n_tree s)).

(** The globals that [FindMostWorkChain] does not touch. *)
Definition unmoved (s s' : Node W) : Prop :=
  chainActive s' = chainActive s /\ n_world s' = n_world s /\ gFailedBlocks s' = gFailedBlocks s /\ nBlockSequenceId s' = nBlockSequenceId s /\
  mapBlockIndex (n_tree s') = mapBlockIndex (n_tree s) /\ pindexBestHeader (n_tree s') = pindexBestHeader (n_tree s) /\ nextPtr (n_tree s') = nextPtr (n_tree s).

Lemma unmoved_trans s1 s2 s3 : unmoved s1 s2 -> unmoved s2 s3 -> unmoved s1 s3.
Proof. unfold unmoved. intuition congruence. Qed.

Lemma remove_chain_spec (m : index) (v : list (option ptr)) (f : bool) p x bx : wf_index m -> blocked m v p x -> m !! x = Some bx -> (f = true -> block_failed bx = true) ->
  forall fuel (s : Node W) b, m !! p = Some b -> nHeight b - nHeight bx <= Z.of_nat fuel -> marks v m (idx s) ->
    (forall q bq, m !! q = Some bq -> nHeight bq <= nHeight b -> idx s !! q = Some bq) ->
    exists s', remove_chain fuel x f (Some p) s = Ret s' /\ unmoved s s' /\ pindexBestInvalid s' = pindexBestInvalid s /\ marks v m (idx s') /\
      (p ∉ setBlockIndexCandidates s') /\ (setBlockIndexCandidates s' ⊆ setBlockIndexCandidates s) /\
      forall y, y ∈ setBlockIndexCandidates s -> y ∉ setBlockIndexCandidates s' -> exists z, blocked m v y z.
Proof.
  intros Hm Hb Hx Hf. induction Hb as [x c Hc Hn Hg|p c q x Hp Hn Hg Hq Hb IH]; intros fuel s b Eb Hfuel Hmk Hlow.
  - exists (erase_candidate x s). split; [destruct fuel; cbn [remove_chain]; by rewrite bool_decide_true|]. split; [done|]. split; [done|]. split; [done|].
    cbn. destruct (kept_of_erased (setBlockIndexCandidates s) _ x (reflexivity _)) as [He1 He2]. split; [done|]. split; [done|].
    intros y Hy Hy'. rewrite (erased _ _ _ Hy Hy'). exists x. by apply (blocked_here m v x c).
  - assert (b = c) as -> by congruence. pose proof (wf_prev m Hm p c Hp) as Hw. rewrite Hq in Hw. destruct Hw as (bq & Ebq & Hh).
    pose proof (blocked_height m v Hm q x bq bx Hb Ebq Hx) as Hhx.
    assert (p <> x) as Hpx by (intros ->; assert (bx = c) as -> by congruence; lia).
    destruct fuel as [|fuel]; [lia|]. cbn [remove_chain]. rewrite bool_decide_false by congruence. cbn [deref mbind outcome_bind]. rewrite (Hlow p c Hp) by lia. cbn [deref mbind outcome_bind].
    set (s2 := erase_candidate p _). rewrite Hq.
    assert (idx s2 = if f then <[p := mark c]> (idx s) else idx s) as Ei by (by destruct f).
    destruct (IH Hx fuel s2 bq Ebq ltac:(lia)) as (s' & E & Hu & Hbi & Hmk' & Hnq & Hsub & Hrem).
    + rewrite Ei. destruct f; [|done]. intros y. destruct (decide (y = p)) as [->|Hne]; [|rewrite lookup_insert_ne by done; apply Hmk].
      right. exists c, x, bx. rewrite lookup_insert_eq. do 2 (split; [done|]). split; [by apply (blocked_above m v p c q x)|]. auto.
    + intros y by' Ey Hy. rewrite Ei. destruct f; [rewrite lookup_insert_ne|]; [apply Hlow; [done|lia]| |apply Hlow; [done|lia]]. intros <-. assert (by' = c) as -> by congruence. lia.
    + exists s'. split; [done|]. assert (setBlockIndexCandidates s2 = setBlockIndexCandidates s ∖ {[p]}) as Ec by (by destruct f).
      split; [eapply unmoved_trans; [|exact Hu]; by destruct f|]. split; [rewrite Hbi; by destruct f|]. split; [done|]. rewrite Ec in *.
      destruct (kept_of_erased _ _ _ Hsub) as [He1 He2]. split; [done|]. split; [done|]. intros y Hy Hy'.
      destruct (decide (y = p)) as [->|]; [exists x; by apply (blocked_above m v p c q x)|]. apply Hrem; [|done]. apply elem_of_difference. by rewrite elem_of_singleton.
Qed.

(** ** The choice *)

Record candidates_ok (s : Node W) : Prop := {
  co_index : wf_index (idx s);
  co_work : works_ok (idx s);
  co_linked : txs_linked (idx s);
  co_cand : forall p, p ∈ setBlockIndexCandidates s -> exists b, idx s !! p = Some b /\ nChainTx b <> 0;
  co_invalid : forall p, pindexBestInvalid s = Some p -> is_Some (idx s !! p)
}.

Lemma candidates_ok_marks s s' : candidates_ok s -> marks (chainActive s) (idx s) (idx s') -> setBlockIndexCandidates s' ⊆ setBlockIndexCandidates s ->
  (forall p, pindexBestInvalid s' = Some p -> is_Some (idx s !! p)) -> candidates_ok s'.
Proof.
  intros [Hi Hw Hl Hc Hb] Hmk Hsub Hbi. pose proof (marks_grows _ _ _ Hmk) as G1. pose proof (marks_grows_back _ _ _ Hmk) as G2. split.
  - by eapply wf_index_same.
  - intros p b' Hp. destruct (G2 p b' Hp) as (b & Hb' & Hs). rewrite <- (same_work _ _ Hs). by eapply Hw.
  - intros p b' q bq' Hp Eq Hq Htx. destruct (marks_lookup _ _ _ Hmk p b' Hp) as (b & Eb & Hs & _ & Et & _). destruct (marks_lookup _ _ _ Hmk q bq' Hq) as (bq & Ebq & _ & _ & Etq & _).
    rewrite Etq. apply (Hl p b q bq); [done|by rewrite <- (same_pprev _ _ Hs)|done|by rewrite <- Et].
  - intros p Hp. destruct (Hc p (Hsub p Hp)) as (b & Eb & Htx). destruct (G1 p b Eb) as (b' & Eb' & _). exists b'. split; [done|].
    destruct (marks_lookup _ _ _ Hmk p b' Eb') as (b0 & Eb0 & _ & _ & Et & _). congruence.
  - intros p Hp. destruct (Hbi p Hp) as [b Eb]. destruct (G1 p b Eb) as (b' & -> & _). eauto.
Qed.

Lemma note_invalid_spec p (s : Node W) : candidates_ok s -> is_Some (idx s !! p) ->
  exists o, note_invalid p s = Ret (set_bestInvalid o s) /\ forall q, o = Some q -> is_Some (idx s !! q).
Proof.
  intros Hs [b Hb]. unfold note_invalid. destruct (pindexBestInvalid s) as [q|] eqn:Eq.
  - destruct (co_invalid s Hs q Eq) as [bq Hq]. rewrite Hb, Hq. cbn [deref mbind outcome_bind]. destruct (op_gt _ _).
    + exists (Some p). split; [done|]. intros ? [= <-]. eauto.
    + exists (Some q). split; [rewrite <- Eq; by destruct s|]. intros ? [= <-]. eauto.
  - exists (Some p). split; [done|]. intros ? [= <-]. eauto.
Qed.

(** What [FindMostWorkChain] makes of a state. *)
Record found (s : Node W) (r : option ptr) (s' : Node W) : Prop := {
  fo_unmoved : unmoved s s';
  fo_ok : candidates_ok s';
  fo_marks : marks (chainActive s) (idx s) (idx s');
  fo_sub : setBlockIndexCandidates s' ⊆ setBlockIndexCandidates s;
  fo_kept : forall q, q ∈ setBlockIndexCandidates s -> usable (idx s) (chainActive s) (Some q) -> q ∈ setBlockIndexCandidates s';
  fo_best : match r with
            | None => setBlockIndexCandidates s' = ∅
            | Some p => p ∈ setBlockIndexCandidates s' /\ usable (idx s) (chainActive s) (Some p) /\
                forall q, q ∈ setBlockIndexCandidates s -> usable (idx s) (chainActive s) (Some q) -> CBlockIndexWorkComparator (idx s) p q = false
            end
}.

Lemma found_after s s2 r s' : candidates_ok s -> unmoved s s2 -> marks (chainActive s) (idx s) (idx s2) -> setBlockIndexCandidates s2 ⊆ setBlockIndexCandidates s ->
  (forall y, y ∈ setBlockIndexCandidates s -> y ∉ setBlockIndexCandidates s2 -> exists z, blocked (idx s) (chainActive s) y z) -> found s2 r s' -> found s r s'.
Proof.
  intros Hs Hu Hmk Hsub Hrem [Fu Fok Fm Fs Fk Fb]. pose proof Hu as (Ec & _). rewrite Ec in *.
  assert (forall q, q ∈ setBlockIndexCandidates s -> usable (idx s) (chainActive s) (Some q) -> q ∈ setBlockIndexCandidates s2) as Hin.
  { intros q Hq Huq. destruct (decide (q ∈ setBlockIndexCandidates s2)) as [|Hn]; [done|]. destruct (Hrem q Hq Hn) as [z Hz]. by destruct (blocked_not_usable _ _ _ _ Hz). }
  split; [by eapply unmoved_trans|done|by eapply marks_trans|by etransitivity| |].
  - intros q Hq Huq. apply Fk; [auto|]. by apply (marks_usable _ _ _ Hmk).
  - destruct r as [p|]; [|done]. destruct Fb as (Hp & Hup & Hbest). split; [done|]. split; [by apply (marks_usable _ _ _ Hmk)|].
    intros q Hq Huq. rewrite <- (marks_less _ _ _ Hmk). apply Hbest; [auto|]. by apply (marks_usable _ _ _ Hmk).
Qed.

Lemma FindMostWorkChain_spec fuel : forall s, candidates_ok s -> (size (setBlockIndexCandidates s) <= fuel)%nat ->
  exists r s', FindMostWorkChain_loop fuel s = Ret (r, s') /\ found s r s'.
Proof.
  induction fuel as [|fuel IH]; intros s Hs Hsize.
  { assert (setBlockIndexCandidates s = ∅) as E by (apply leibniz_equiv, size_empty_inv; lia). exists None, s. cbn [FindMostWorkChain_loop]. rewrite E. split; [done|].
    split; try done; [apply marks_refl]. }
  cbn [FindMostWorkChain_loop]. destruct (rbegin _ _) as [p|] eqn:Er.
  2:{ apply rbegin_None in Er. exists None, s. split; [done|]. split; try done; [apply marks_refl]. }
  destruct (rbegin_spec _ (co_work s Hs) _ _ Er) as [Hp Hbest]. destruct (co_cand s Hs p Hp) as (b & Hb & Htx). rewrite Hb. cbn [deref mbind outcome_bind].
  pose proof (wf_nonneg _ (co_index s Hs) p b Hb) as Hnn.
  destruct (find_unusable_spec (idx s) (chainActive s) (co_index s Hs) (co_linked s Hs) (S (Z.to_nat (nHeight b))) p b Hb Htx ltac:(lia)) as (r & -> & Hr). cbn [mbind outcome_bind].
  destruct r as [[x f]|].
  2:{ exists (Some p), s. split; [done|]. split; try done; [apply marks_refl|]. auto. }
  destruct Hr as (Hbl & bx & Hx & Ef).
  assert (exists o, (if f then note_invalid p s else Ret s) = Ret (set_bestInvalid o s) /\ forall q, o = Some q -> is_Some (idx s !! q)) as (o & -> & Ho).
  { destruct f; [by apply note_invalid_spec|]. exists (pindexBestInvalid s). split; [by destruct s|]. apply (co_invalid s Hs). }
  cbn [mbind outcome_bind]. pose proof (blocked_height _ _ (co_index s Hs) p x b bx Hbl Hb Hx).
  destruct (remove_chain_spec (idx s) (chainActive s) f p x bx (co_index s Hs) Hbl Hx ltac:(congruence) (Z.to_nat (nHeight b)) (set_bestInvalid o s) b Hb ltac:(lia))
    as (s2 & -> & Hu & Hbi & Hmk & Hnp & Hsub & Hrem); [apply marks_refl|done|]. cbn [mbind outcome_bind].
  destruct (IH s2) as (r & s' & E & Hfound).
  - eapply candidates_ok_marks; [exact Hs|exact Hmk|exact Hsub|]. intros q. rewrite Hbi. apply Ho.
  - assert (setBlockIndexCandidates s2 ⊂ setBlockIndexCandidates s) as Hlt by (split; [exact Hsub|]; intros Hback; by apply Hnp, Hback). apply subset_size in Hlt. lia.
  - exists r, s'. split; [done|]. by eapply found_after.
Qed.
End Find.

(** ** The theorem *)

(** C11: [FindMostWorkChain] always returns.  It returns the candidate that
    ranks highest among those that can be used, that is, all of whose blocks
    down to the active chain are stored and not marked as failed; it returns
    nothing only when no candidate is left.  On the way it drops only candidates
    that cannot be used, and marks only blocks above a failed one. *)
Theorem most_work_chain_found {W : Type} (s : Node W) (Hs : candidates_ok s) : exists r s', FindMostWorkChain s = Ret (r, s') /\ found s r s'.
Proof. by apply FindMostWorkChain_spec. Qed.

(** The blocks of [demo_tree] with their data; [bad] has failed. *)
Definition stored (bad : list ptr) (p : ptr) (b : CBlockIndex) : CBlockIndex :=
  let status := Z.lor BLOCK_HAVE_DATA (if bool_decide (p ∈ bad) then BLOCK_FAILED_VALID else 0) in
  mkIndex (phashBlock b) (pprev b) (pskip b) (nHeight b) (nFile b) (nDataPos b) (nUndoPos b) (nChainWork b) 1 (nHeight b + 1) status
    (nVersion b) (hashMerkleRoot b) (nTime b) (nBits b) (nNonce b) 0 (nTimeMax b).
Definition stored_tree (bad : list ptr) : BlockTree :=
  {| tIndex := map_imap (fun p b => Some (stored bad p b)) (tIndex demo_tree); mapBlockIndex := mapBlockIndex demo_tree; pindexBestHeader := pindexBestHeader demo_tree;
     setDirtyBlockIndex := setDirtyBlockIndex demo_tree; nextPtr := nextPtr demo_tree |}.
(** The block 5 is active, and the blocks that are not worse are candidates. *)
Definition stored_node {W} (bad : list ptr) (w : W) : Node W :=
  mkNode (stored_tree bad) [Some 0%nat; Some 1%nat; Some 5%nat] (list_to_set [2; 3; 4; 5]%nat) [] None [] 1 w.

Lemma stored_lookup bad p : tIndex (stored_tree bad) !! p = stored bad p <$> tIndex demo_tree !! p.
Proof. cbn. rewrite map_lookup_imap. by destruct (tIndex demo_tree !! p). Qed.

Lemma stored_back bad p b : tIndex (stored_tree bad) !! p = Some b -> exists b0, tIndex demo_tree !! p = Some b0 /\ b = stored bad p b0.
Proof. rewrite stored_lookup. destruct (tIndex demo_tree !! p) as [b0|]; [|done]. intros [= <-]. eauto. Qed.

Lemma stored_index bad : wf_index (tIndex (stored_tree bad)).
Proof.
  apply (wf_index_same (tIndex demo_tree)); [| |exact (wt_index _ demo_tree_wf)].
  - intros p b Hb. exists (stored bad p b). rewrite stored_lookup, Hb. split; [done|]. by split.
  - intros p b Hb. apply stored_back in Hb as (b0 & Hb0 & ->). exists b0. split; [done|]. by split.
Qed.

Lemma stored_ok {W} bad (w : W) : candidates_ok (stored_node bad w).
Proof.
  constructor; [exact (stored_index bad)| | | |intros p E; discriminate E].
  - intros p b Hb. apply (stored_back bad) in Hb as (b0 & Hb0 & ->). exact (proj1 (wt_work _ demo_tree_wf p b0 Hb0)).
  - intros p b q bq Hp Hq Hbq _. apply (stored_back bad) in Hbq as (b0 & Hb0 & ->). cbn [stored nChainTx]. pose proof (wf_nonneg _ (wt_index _ demo_tree_wf) q b0 Hb0). clear -H. lia.
  - intros p Hp. apply elem_of_list_to_set in Hp. change (exists b, tIndex (stored_tree bad) !! p = Some b /\ nChainTx b <> 0). rewrite stored_lookup.
    assert (exists b0, tIndex demo_tree !! p = Some b0 /\ nHeight b0 + 1 <> 0) as (b0 & -> & Hh).
    { revert p Hp. apply Forall_forall. repeat constructor; (eexists; split; [vm_compute; reflexivity|discriminate]). }
    exists (stored bad p b0). split; [reflexivity|exact Hh].
Qed.

(** The block 3 has failed: the block 4 above it is marked and dropped with it,
    and the block 2 is chosen. *)
Lemma most_work_chain_found_witness :
  (exists r s', FindMostWorkChain (stored_node [3%nat] tt) = Ret (r, s') /\ found (stored_node [3%nat] tt) r s') /\
  match FindMostWorkChain (stored_node [3%nat] tt) with
  | Ret (r, s') => r = Some 2%nat /\ setBlockIndexCandidates s' = list_to_set [2; 5]%nat /\ option_map block_failed (tIndex (n_tree s') !! 4%nat) = Some true
  | Abort => False
  end.
Proof. split; [apply most_work_chain_found, stored_ok|vm_compute; done]. Defined.
