(* ===== verification/Activate.v ===== *)
(** * Activating the best chain ([validation.cpp])

    [DisconnectTip], [ConnectTip], [ActivateBestChainStep] and
    [ActivateBestChain]: moving the active chain to the tip that
    [FindMostWorkChain] chose.  What a block does to the coins, to the memory
    pool and to the files is behind the interface [TipOps]; [TipLaws] is what
    the choice of the chain relies on, and [TipCoins] shows that [ConnectBlock]
    keeps it.  The file ends with a state in which [ActivateBestChain] does not
    return. *)

From S2P Require Import Prelude ArithUint256 StrEncodings Uint256 Chain Params Versionbits Pow Tx CheckTx Coins Undo AuxPow ConnectBlock Headers Candidates.
From stdpp Require Import list gmap.
#[local] Open Scope Z_scope.

(** [connect_coins] is [ConnectBlock] on a cache over [pcoinsTip] that is
    flushed when the block is accepted; [disconnect_coins] is the same with
    [DisconnectBlock].  A process that ends in them is an error they report.
    [FlushStateToDisk] is called with [FLUSH_STATE_IF_NEEDED], and as
    [FlushStatePeriodic] with [FLUSH_STATE_PERIODIC]. *)
Class TipOps (W : Type) := {
  ReadBlockFromDisk : W -> CBlockIndex -> option CBlock;
  connect_coins : CBlock -> CValidationState -> ptr -> BlockTree -> W -> verdict * BlockTree * W;
  disconnect_coins : CBlock -> CValidationState -> ptr -> BlockTree -> W -> verdict * W;
  FlushStateToDisk : CValidationState -> W -> verdict * W;
  mempool_connected : CBlock -> Z -> W -> W;
  mempool_disconnected : CBlock -> W -> W;
  mempool_reorg : W -> W;
  IsSnapshotChainstateActive : W -> bool;
  FlushStatePeriodic : CValidationState -> W -> verdict * W;
  MaybeStepBackgroundValidation : W -> W;
  ShutdownRequested : W -> bool
}.

Section Ops.
Context {W : Type} `{TipOps W}.
#[local] Abbreviation idx s := (tIndex (n_tree s)).

(** ** The tip *)

Definition InvalidChainFound (pindexNew : ptr) (s : Node W) : outcome (Node W) :=
  s ← note_invalid pindexNew s;
  _ ← deref (Tip (chainActive s));
  Ret s.

(** [InvalidBlockFound] with the set of candidates. *)
Definition node_InvalidBlockFound (pindex : ptr) (st : CValidationState) (s : Node W) : outcome (Node W) :=
  if negb (corruptionPossible st)
  then '(t, failed) ← InvalidBlockFound (n_tree s) (gFailedBlocks s) pindex st;
       InvalidChainFound pindex (erase_candidate pindex (set_failed failed (set_tree t s)))
  else Ret s.

(** Only the part of [UpdateTip] that moves the chain. *)
Definition UpdateTip (pindexNew : option ptr) (s : Node W) : outcome (Node W) :=
  v ← SetTip (idx s) (chainActive s) pindexNew; Ret (set_chain v s).

(** A snapshot whose block is not there yet. *)
Definition without_body (s : Node W) (b : CBlockIndex) : bool := IsSnapshotChainstateActive (n_world s) && block_missing b.

Definition DisconnectTip (st : CValidationState) (s : Node W) : outcome (verdict * Node W) :=
  pindexDelete ← deref (Tip (chainActive s));
  b ← deref (idx s !! pindexDelete);
  match ReadBlockFromDisk (n_world s) b with
  | None => Ret (if without_body s b then (false, st) else AbortNode (str "Failed to read block") st, s)
  | Some block =>
      let '((ok, st), w) := disconnect_coins block st pindexDelete (n_tree s) (n_world s) in
      if negb ok then Ret ((false, st), set_world w s)
      else
        let '((ok, st), w) := FlushStateToDisk st w in
        if negb ok then Ret ((false, st), set_world w s)
        else s ← UpdateTip (pprev b) (set_world (mempool_disconnected block w) s); Ret ((true, st), s)
  end.

(** [ConnectTip] from the point where the block is there. *)
Definition connect_tip_block (pindexNew : ptr) (block : CBlock) (st : CValidationState) (s : Node W) : outcome (verdict * Node W) :=
  let '((ok, st), t, w) := connect_coins block st pindexNew (n_tree s) (n_world s) in
  let s := set_world w (set_tree t s) in
  if negb ok
  then s ← (if state_IsInvalid st then node_InvalidBlockFound pindexNew st s else Ret s); Ret ((false, st), s)
  else
    let '((ok, st), w) := FlushStateToDisk st w in
    if negb ok then Ret ((false, st), set_world w s)
    else b ← deref (idx s !! pindexNew);
         s ← UpdateTip (Some pindexNew) (set_world (mempool_connected block (nHeight b) w) s); Ret ((true, st), s).

Definition ConnectTip (pindexNew : ptr) (pblock : option CBlock) (st : CValidationState) (s : Node W) : outcome (verdict * Node W) :=
  b ← deref (idx s !! pindexNew);
  _ ← assert_ (bool_decide (pprev b = Tip (chainActive s)));
  match (match pblock with Some block => Some block | None => ReadBlockFromDisk (n_world s) b end) with
  | None => Ret (if without_body s b then (false, st) else AbortNode (str "Failed to read block") st, s)
  | Some block => connect_tip_block pindexNew block st s
  end.

(** ** One step *)

(** How a loop of [ActivateBestChainStep] ends: it is through, the function
    returns a value, a block was found invalid, or the chain is better than
    before. *)
Inductive step_end := Through | Returns (ret : bool) | InvalidFound | Better.

(** [while (chainActive.Tip() && chainActive.Tip() != pindexFork)]; the fork
    has as many blocks above it as the loop has iterations. *)
Fixpoint disconnect_blocks (fuel : nat) (pindexFork : option ptr) (st : CValidationState) (s : Node W) : outcome (step_end * CValidationState * Node W) :=
  match Tip (chainActive s) with
  | None => Ret (Through, st, s)
  | Some tip =>
      if bool_decide (Some tip = pindexFork) then Ret (Through, st, s)
      else
        b ← deref (idx s !! tip);
        if without_body s b then Ret (Returns true, st, s)
        else
          '((ok, st), s) ← DisconnectTip st s;
          if negb ok then Ret (Returns false, st, s)
          else match fuel with O => Abort | S fuel' => disconnect_blocks fuel' pindexFork st s end
  end.

(** [vpindexToConnect]: [while (pindexIter && pindexIter->nHeight != nHeight)]. *)
Fixpoint path_down (fuel : nat) (m : index) (pindexIter : option ptr) (height : Z) : outcome (list ptr) :=
  match pindexIter with
  | None => Ret []
  | Some p =>
      b ← deref (m !! p);
      if nHeight b =? height then Ret []
      else match fuel with O => Abort | S fuel' => l ← path_down fuel' m (pprev b) height; Ret (p :: l) end
  end.

(** [BOOST_REVERSE_FOREACH]: [l] is the vector in the order of connection and
    [lowest] its last element. *)
Fixpoint connect_blocks (l : list ptr) (lowest pindexMostWork : ptr) (pblock : option CBlock) (oldWork : option base_uint)
    (st : CValidationState) (s : Node W) : outcome (step_end * CValidationState * Node W) :=
  match l with
  | [] => Ret (Through, st, s)
  | p :: l' =>
      '((ok, st), s) ← ConnectTip p (if bool_decide (p = pindexMostWork) then pblock else None) st s;
      if negb ok then
        if state_IsInvalid st
        then s ← (if negb (corruptionPossible st) then InvalidChainFound lowest s else Ret s);
             Ret (InvalidFound, CValidationState_new, s)
        else Ret (Returns false, st, s)
      else
        s ← PruneBlockIndexCandidates s;
        tip ← deref (Tip (chainActive s));
        b ← deref (idx s !! tip);
        if match oldWork with None => true | Some w => op_gt (nChainWork b) w end then Ret (Better, st, s)
        else connect_blocks l' lowest pindexMostWork pblock oldWork st s
  end.

(** [while (fContinue && nHeight != pindexMostWork->nHeight)], 32 blocks at a
    time; the height of the most-work block is not changed. *)
Fixpoint batches (fuel : nat) (height : Z) (pindexMostWork : ptr) (pblock : option CBlock) (oldWork : option base_uint)
    (st : CValidationState) (s : Node W) : outcome (step_end * CValidationState * Node W) :=
  b ← deref (idx s !! pindexMostWork);
  if height =? nHeight b then Ret (Through, st, s)
  else
    let nTargetHeight := Z.min (i32 (height + 32)) (nHeight b) in
    pindexIter ← GetAncestor (idx s) pindexMostWork nTargetHeight;
    l ← path_down (Z.to_nat (nTargetHeight - height)) (idx s) pindexIter height;
    '(e, st, s) ← connect_blocks (reverse l) (default pindexMostWork (last l)) pindexMostWork pblock oldWork st s;
    match e with
    | Through => match fuel with O => Abort | S fuel' => batches fuel' nTargetHeight pindexMostWork pblock oldWork st s end
    | _ => Ret (e, st, s)
    end.

(** The result is what is returned and [fInvalidFound]. *)
Definition ActivateBestChainStep (pindexMostWork : ptr) (pblock : option CBlock) (st : CValidationState) (s : Node W)
  : outcome (bool * bool * CValidationState * Node W) :=
  let oldTip := Tip (chainActive s) in
  oldWork ← match oldTip with None => Ret None | Some p => b ← deref (idx s !! p); Ret (Some (nChainWork b)) end;
  pindexFork ← FindFork (idx s) (chainActive s) (Some pindexMostWork);
  '(e, st, s) ← disconnect_blocks (length (chainActive s)) pindexFork st s;
  match e with
  | Returns ret => Ret (ret, false, st, s)
  | _ =>
      height ← match pindexFork with None => Ret (-1) | Some f => b ← deref (idx s !! f); Ret (nHeight b) end;
      b ← deref (idx s !! pindexMostWork);
      '(e, st, s') ← batches (Z.to_nat (nHeight b - height)) height pindexMostWork pblock oldWork st s;
      match e with
      | Returns ret => Ret (ret, false, st, s')
      | _ => let s' := if bool_decide (pindexFork = oldTip) then s' else set_world (mempool_reorg (n_world s')) s' in
             Ret (true, match e with InvalidFound => true | _ => false end, st, s')
      end
  end.

(** ** The loop *)

(** The block that was passed in, when it is the one to connect. *)
Definition block_for (pblock : option CBlock) (b : CBlockIndex) : option CBlock :=
  match pblock with Some block => if blob_eq (header_GetHash (b_header block)) (phashBlock b) then Some block else None | None => None end.

(** [do ... while (pindexNewTip != pindexMostWork)]: the function returns, or
    the loop is left. *)
Inductive activation := Done (ret : bool) | LoopLeft.
Fixpoint activate_loop (fuel : nat) (pindexMostWork : option ptr) (pblock : option CBlock) (st : CValidationState) (s : Node W)
  : outcome (activation * CValidationState * Node W) :=
  '(pindexMostWork, s) ← match pindexMostWork with None => FindMostWorkChain s | Some p => Ret (Some p, s) end;
  match pindexMostWork with
  | None => Ret (Done true, st, s)
  | Some p =>
      if bool_decide (Some p = Tip (chainActive s)) then Ret (Done true, st, s)
      else
        b ← deref (idx s !! p);
        '(ok, fInvalidFound, st, s) ← ActivateBestChainStep p (block_for pblock b) st s;
        if negb ok then Ret (Done false, st, s)
        else
          let pindexMostWork := if (fInvalidFound : bool) then None else Some p in
          if ShutdownRequested (n_world s) then Ret (LoopLeft, st, s)
          else if bool_decide (Tip (chainActive s) = pindexMostWork) then Ret (LoopLeft, st, s)
          else match fuel with O => Abort | S fuel' => activate_loop fuel' pindexMostWork pblock st s end
  end.

Definition ActivateBestChain (fuel : nat) (pblock : option CBlock) (st : CValidationState) (s : Node W) : outcome (bool * CValidationState * Node W) :=
  '(a, st, s) ← activate_loop fuel None pblock st s;
  match a with
  | Done ret => Ret (ret, st, s)
  | LoopLeft =>
      let '((ok, st), w) := FlushStatePeriodic st (n_world s) in
      if negb ok then Ret (false, st, set_world w s)
      else Ret (true, st, set_world (MaybeStepBackgroundValidation w) s)
  end.
End Ops.

(** ** Entries of the same block *)

(** Two states of an entry: only its status and its place in the files
    differ, and it is not better than it was. *)
Record akin (b b' : CBlockIndex) : Prop := {
  ak_same : same b b';
  ak_seq : nSequenceId b' = nSequenceId b;
  ak_tx : nChainTx b' = nChainTx b;
  ak_failed : block_failed b = true -> block_failed b' = true;
  ak_missing : block_missing b' = block_missing b
}.

(** [RaiseValidity] changes the level of validity only. *)
Lemma RaiseValidity_keeps u b : Z.land u BLOCK_FAILED_MASK = 0 -> Z.land u BLOCK_HAVE_DATA = 0 -> let b' := (RaiseValidity u b).1 in
  same b b' /\ nSequenceId b' = nSequenceId b /\ nChainTx b' = nChainTx b /\ nTx b' = nTx b /\ block_missing b' = block_missing b /\ block_failed b' = block_failed b.
Proof.
  intros E1 E2. unfold RaiseValidity. destruct (negb _); [by repeat split|]. destruct (_ <? _); [|by repeat split]. cbn zeta. cbn [fst].
  assert (forall y, Z.land u y = 0 -> Z.land (u32 (Z.lnot BLOCK_VALID_MASK)) y = y -> Z.land (Z.lor (Z.land (nStatus b) (u32 (Z.lnot BLOCK_VALID_MASK))) u) y = Z.land (nStatus b) y) as Hy.
  { intros y H1 H2. by rewrite Z.land_lor_distr_l, H1, Z.lor_0_r, <- Z.land_assoc, H2. }
  split; [by split|]. do 3 (split; [done|]). unfold block_missing, block_failed. cbn [set_nStatus nStatus]. by rewrite !Hy.
Qed.

Definition akin_index (m m' : index) : Prop :=
  forall q, match m !! q, m' !! q with Some b, Some b' => akin b b' | None, None => True | _, _ => False end.

(** No block fails. *)
Definition fails_same (m m' : index) : Prop := forall q b b', m !! q = Some b -> m' !! q = Some b' -> block_failed b' = block_failed b.

(** No block but [x] fails. *)
Definition fails_but (x : ptr) (m m' : index) : Prop := forall q b b', q <> x -> m !! q = Some b -> m' !! q = Some b' -> block_failed b' = block_failed b.

Lemma fails_same_refl m : fails_same m m.
Proof. intros q b b' H1 H2. congruence. Qed.

Lemma akin_refl b : akin b b.
Proof. split; [apply same_refl|done..]. Qed.

Lemma akin_index_refl m : akin_index m m.
Proof. intros q. destruct (m !! q); [apply akin_refl|done]. Qed.

Lemma akin_index_trans m1 m2 m3 : akin_index m1 m2 -> akin_index m2 m3 -> akin_index m1 m3.
Proof.
  intros H1 H2 q. specialize (H1 q). specialize (H2 q). destruct (m1 !! q), (m2 !! q), (m3 !! q); try done.
  destruct H1 as [S1 Q1 T1 F1 M1], H2 as [S2 Q2 T2 F2 M2]. split; [|congruence|congruence|auto|congruence]. destruct S1, S2. split; congruence.
Qed.

Lemma akin_insert m p b b' : m !! p = Some b -> akin b b' -> akin_index m (<[p := b']> m).
Proof.
  intros Hp Hb q. destruct (decide (q = p)) as [->|Hne]; [by rewrite Hp, lookup_insert_eq|]. rewrite lookup_insert_ne by done. apply akin_index_refl.
Qed.

Section Akin.
Context (m m' : index) (Ha : akin_index m m').

Lemma akin_lookup q b : m !! q = Some b -> exists b', m' !! q = Some b' /\ akin b b'.
Proof. intros Hq. specialize (Ha q). rewrite Hq in Ha. destruct (m' !! q); [eauto|done]. Qed.

Lemma akin_back q b' : m' !! q = Some b' -> exists b, m !! q = Some b /\ akin b b'.
Proof. intros Hq. specialize (Ha q). rewrite Hq in Ha. destruct (m !! q); [eauto|done]. Qed.

Lemma fails_same_trans m2 : fails_same m m' -> fails_same m' m2 -> fails_same m m2.
Proof. intros H1 H2 q b b2 Hb Hb2. destruct (akin_lookup q b Hb) as (b' & Hb' & _). rewrite (H2 q b' b2 Hb' Hb2). by apply (H1 q). Qed.

Lemma fails_but_same x m2 : fails_same m m' -> fails_but x m' m2 -> fails_but x m m2.
Proof. intros H1 H2 q b b2 Hne Hb Hb2. destruct (akin_lookup q b Hb) as (b' & Hb' & _). rewrite (H2 q b' b2 Hne Hb' Hb2). by apply (H1 q). Qed.

Lemma akin_grows : grows m m'.
Proof. intros q b Hq. destruct (akin_lookup q b Hq) as (b' & ? & Hb). exists b'. split; [done|apply Hb]. Qed.

Lemma akin_grows_back : grows m' m.
Proof. intros q b Hq. destruct (akin_back q b Hq) as (b' & ? & Hb). exists b'. split; [done|]. destruct Hb as [[] _ _ _ _]. split; congruence. Qed.

Lemma akin_ancestor p h : ancestor m' p h = ancestor m p h.
Proof.
  destruct (ancestor m p h) as [q|] eqn:E; [by apply (ancestor_grows _ _ akin_grows)|]. destruct (ancestor m' p h) as [q|] eqn:E'; [|done].
  by rewrite (ancestor_grows _ _ akin_grows_back _ _ _ E') in E.
Qed.

Lemma akin_wf_index : wf_index m -> wf_index m'.
Proof. apply wf_index_same; [apply akin_grows|apply akin_grows_back]. Qed.

Lemma akin_wf_chain v : wf_chain m v -> wf_chain m' v.
Proof.
  intros Hv i e Hi. destruct (Hv i e Hi) as (p & b & -> & Hp & Hh & Hprev). destruct (akin_lookup p b Hp) as (b' & Hp' & [Hs _ _ _ _]).
  exists p, b'. rewrite (same_height _ _ Hs), (same_pprev _ _ Hs). done.
Qed.

Lemma akin_less p q : CBlockIndexWorkComparator m' p q = CBlockIndexWorkComparator m p q.
Proof.
  unfold CBlockIndexWorkComparator. pose proof (Ha p) as Hp. pose proof (Ha q) as Hq.
  destruct (m !! p), (m' !! p); try done. destruct (m !! q), (m' !! q); try done. destruct Hp as [S1 Q1 _ _ _], Hq as [S2 Q2 _ _ _].
  unfold work_less. by rewrite Q1, Q2, (same_work _ _ S1), (same_work _ _ S2).
Qed.
End Akin.

(** Work adds up along a chain: a block has more than its parent. *)
Definition work_grows (m : index) : Prop := forall p b q bq, m !! p = Some b -> pprev b = Some q -> m !! q = Some bq -> eval (nChainWork bq) < eval (nChainWork b).

Lemma ancestor_work m p b h q bq : wf_index m -> work_grows m -> m !! p = Some b -> ancestor m p h = Some q -> m !! q = Some bq ->
  q = p \/ eval (nChainWork bq) < eval (nChainWork b).
Proof.
  intros Hm Hw Hp. pose proof (wf_nonneg m Hm p b Hp) as Hn. remember (Z.to_nat (nHeight b)) as n eqn:En. revert p b Hp Hn En.
  induction n as [|n IH]; intros p b Hp Hn En Ha Hq; pose proof (ancestor_range m p b h q Hp Ha) as Hr;
    (destruct (decide (h = nHeight b)) as [->|Hne]; [left; rewrite (ancestor_self m Hm p b Hp) in Ha; congruence|]); [lia|].
  pose proof (wf_prev m Hm p b Hp) as Hprev. destruct (pprev b) as [r|] eqn:Er; [|lia]. destruct Hprev as (br & Hbr & Hh).
  rewrite (ancestor_prev m Hm p r b h Hp Er) in Ha by lia. right.
  pose proof (Hw p b r br Hp Er Hbr). destruct (IH r br Hbr ltac:(lia) ltac:(lia) Ha Hq) as [->|]; [|lia]. assert (bq = br) as -> by congruence. lia.
Qed.

(** ** The chain as a stack *)

Section Stack.
Context (m : index) (Hm : wf_index m) (v : list (option ptr)) (Hv : wf_chain m v).

Lemma chain_list_eq p b v' : m !! p = Some b -> Z.of_nat (length v') = nHeight b + 1 -> (forall i, (i < length v')%nat -> v' !! i = Some (ancestor m p (Z.of_nat i))) ->
  forall w, Z.of_nat (length w) = nHeight b + 1 -> wf_chain m w -> w !! (length w - 1)%nat = Some (Some p) -> v' = w.
Proof.
  intros Hp Hl Ha w Hlw Hw Htip. apply list_eq. intros i. destruct (decide (i < length v')%nat) as [Hi|Hi].
  - rewrite Ha by done. symmetry. apply (chain_ancestor m Hm w _ p Hw Htip). lia.
  - rewrite !lookup_ge_None_2 by lia. done.
Qed.

Lemma Tip_lookup p : Tip v = Some p -> v !! (length v - 1)%nat = Some (Some p) /\ (0 < length v)%nat /\ exists b, m !! p = Some b /\ nHeight b = Z.of_nat (length v) - 1.
Proof.
  unfold Tip, Height. intros E. destruct (chain_at_Some _ _ _ E) as [Hr Hl]. replace (Z.to_nat (Z.of_nat (length v) - 1)) with (length v - 1)%nat in Hl by lia.
  split; [done|]. split; [lia|]. destruct (Hv _ _ Hl) as (q & b & [= <-] & Hp & Hh & _). exists b. split; [done|]. lia.
Qed.

Lemma Tip_None : Tip v = None -> v = [].
Proof.
  unfold Tip, Height. intros E. destruct (decide (length v = 0)%nat) as [Hz|Hz]; [by apply nil_length_inv|].
  replace (Z.of_nat (length v) - 1) with (Z.of_nat (length v - 1)) in E by lia. rewrite chain_at_nat in E.
  destruct (lookup_lt_is_Some_2 v (length v - 1) ltac:(lia)) as [e He]. rewrite He in E. destruct (Hv _ _ He) as (p & b & -> & _). done.
Qed.

Lemma wf_chain_take n : wf_chain m (take n v).
Proof.
  intros i e Hi. pose proof (lookup_lt_Some _ _ _ Hi) as Hlt. rewrite length_take in Hlt. rewrite lookup_take_lt in Hi by lia.
  destruct (Hv i e Hi) as (p & b & -> & Hp & Hh & Hprev). exists p, b. split_and!; [done..|]. intros j ->. rewrite lookup_take_lt by lia. by apply Hprev.
Qed.

Lemma SetTip_pop p b : Tip v = Some p -> m !! p = Some b -> SetTip m v (pprev b) = Ret (take (length v - 1) v).
Proof.
  intros Ht Hp. destruct (Tip_lookup p Ht) as (Hl & Hpos & b' & Hp' & Hh). assert (b' = b) as -> by congruence.
  pose proof (wf_prev m Hm p b Hp) as Hprev. destruct (pprev b) as [q|] eqn:Eq.
  - destruct Hprev as (bq & Hq & Hhq). pose proof (wf_nonneg m Hm q bq Hq). destruct (SetTip_spec m Hm v q bq Hv Hq) as (v' & -> & Hlv & Ha). f_equal.
    apply (chain_list_eq q bq v' Hq Hlv Ha); [rewrite length_take; lia|apply wf_chain_take|]. rewrite length_take, lookup_take_lt by lia.
    replace (Nat.min (length v - 1) (length v) - 1)%nat with (length v - 2)%nat by lia.
    destruct (Hv _ _ Hl) as (p' & b' & [= <-] & Hp'' & _ & Hpr). assert (b' = b) as -> by congruence. rewrite <- Eq. apply Hpr. lia.
  - cbn [SetTip]. f_equal. replace (length v - 1)%nat with 0%nat by lia. done.
Qed.

Lemma wf_chain_push p b : m !! p = Some b -> pprev b = Tip v -> wf_chain m (v ++ [Some p]).
Proof.
  intros Hp Ht i e Hi. destruct (decide (i < length v)%nat) as [Hlt|Hge].
  - rewrite lookup_app_l in Hi by done. destruct (Hv i e Hi) as (q & bq & -> & Hq & Hh & Hprev). exists q, bq. split_and!; [done..|].
    intros j ->. rewrite lookup_app_l by lia. by apply Hprev.
  - rewrite lookup_app_r in Hi by lia. destruct (i - length v)%nat as [|k] eqn:Ei; [|done]. injection Hi as <-. exists p, b. split; [done|]. split; [done|].
    pose proof (wf_prev m Hm p b Hp) as Hprev. rewrite Ht in Hprev. destruct (Tip v) as [q|] eqn:Eq.
    + destruct (Tip_lookup q Eq) as (Hl & Hpos & bq & Hq & Hh). destruct Hprev as (bq' & Hq' & Hhq). assert (bq' = bq) as -> by congruence.
      split; [lia|]. intros j ->. rewrite lookup_app_l by lia. rewrite Ht, <- Hl. f_equal. lia.
    + rewrite (Tip_None Eq) in *. cbn in *. split; [lia|]. intros j ->. lia.
Qed.

Lemma SetTip_push p b : m !! p = Some b -> pprev b = Tip v -> SetTip m v (Some p) = Ret (v ++ [Some p]).
Proof.
  intros Hp Ht. pose proof (wf_chain_push p b Hp Ht) as Hw. destruct (SetTip_spec m Hm v p b Hv Hp) as (v' & -> & Hlv & Ha). f_equal.
  assert ((v ++ [Some p]) !! length v = Some (Some p)) as Hl by (rewrite lookup_app_r, Nat.sub_diag; done).
  destruct (Hw _ _ Hl) as (p' & b' & [= <-] & Hp' & Hh & _). assert (b' = b) as -> by congruence.
  apply (chain_list_eq p b v' Hp Hlv Ha); [rewrite length_app; cbn; lia|done|]. rewrite length_app. cbn [length]. by replace (length v + 1 - 1)%nat with (length v) by lia.
Qed.
End Stack.

Lemma Tip_push v p : Tip (v ++ [Some p]) = Some p.
Proof.
  unfold Tip, Height. rewrite length_app. cbn [length]. replace (Z.of_nat (length v + 1) - 1) with (Z.of_nat (length v)) by lia.
  rewrite chain_at_nat, lookup_app_r, Nat.sub_diag by lia. done.
Qed.

(** ** What connecting a block promises *)

(** A success leaves the state valid, and a failure is an error or the fault
    of the block, not of corrupted data. *)
Definition fair (v : verdict) : Prop :=
  if v.1 then mode v.2 = MODE_VALID else state_IsInvalid v.2 = true -> corruptionPossible v.2 = false.

(** What [TipOps] promise.  [intact h block]: the block is the one with the
    hash [h] and not corrupted.  [synced w o]: the coins of [w] are those of the
    chain that ends with [o].  [accepts p] and [rejects p]: what is known of
    the block [p] when it was connected and when it was found invalid. *)
Class TipLaws (W : Type) `{TipOps W} (intact : uint256 -> CBlock -> Prop) (synced : W -> option ptr -> Prop) (accepts rejects : ptr -> Prop) := {
  read_intact w b block : ReadBlockFromDisk w b = Some block -> intact (phashBlock b) block;
  connect_akin block st p t w v t' w' : mode st = MODE_VALID -> connect_coins block st p t w = (v, t', w') -> akin_index (tIndex t) (tIndex t');
  connect_failed block st p t w v t' w' : mode st = MODE_VALID -> connect_coins block st p t w = (v, t', w') -> fails_same (tIndex t) (tIndex t');
  connect_fair block st p t w v t' w' b : mode st = MODE_VALID -> tIndex t !! p = Some b -> intact (phashBlock b) block ->
    connect_coins block st p t w = (v, t', w') -> fair v;
  connect_synced block st p t w v t' w' b : mode st = MODE_VALID -> tIndex t !! p = Some b -> intact (phashBlock b) block -> synced w (pprev b) ->
    connect_coins block st p t w = (v, t', w') ->
    if v.1 then synced w' (Some p) /\ accepts p else state_IsInvalid v.2 = true -> synced w' (pprev b) /\ rejects p;
  disconnect_fair block st p t w v w' : mode st = MODE_VALID -> disconnect_coins block st p t w = (v, w') ->
    if v.1 then mode v.2 = MODE_VALID else state_IsInvalid v.2 = false;
  disconnect_synced block st p t w v w' b : tIndex t !! p = Some b -> synced w (Some p) -> disconnect_coins block st p t w = (v, w') -> v.1 = true -> synced w' (pprev b);
  flush_fair st w v w' : mode st = MODE_VALID -> FlushStateToDisk st w = (v, w') -> if v.1 then mode v.2 = MODE_VALID else state_IsInvalid v.2 = false;
  flush_synced st w v w' o : synced w o -> FlushStateToDisk st w = (v, w') -> synced w' o;
  mempool_synced w o : synced w o -> (forall block h, synced (mempool_connected block h w) o) /\ (forall block, synced (mempool_disconnected block w) o) /\ synced (mempool_reorg w) o
}.

Section Step.
Context {W : Type} `{LW : TipLaws W intact synced accepts rejects}.
#[local] Abbreviation idx s := (tIndex (n_tree s)).

(** A computation that ends with [P]. *)
Definition ends {A} (o : outcome A) (P : A -> Prop) : Prop := match o with Ret a => P a | Abort => False end.

Lemma ends_bind {A B} (o : outcome A) (f : A -> outcome B) (P : A -> Prop) Q : ends o P -> (forall a, P a -> ends (f a) Q) -> ends (o ≫= f) Q.
Proof. destruct o as [a|]; [|done]. intros Ha Hf. by apply Hf. Qed.

Lemma ends_mono {A} (o : outcome A) (P Q : A -> Prop) : ends o P -> (forall a, P a -> Q a) -> ends o Q.
Proof. destruct o as [a|]; [|done]. cbn. auto. Qed.

Record node_ok (s : Node W) : Prop := {
  nk_cand : candidates_ok s;
  nk_work : work_grows (idx s);
  nk_chain : wf_chain (idx s) (chainActive s)
}.

Lemma node_ok_akin s s' : node_ok s -> akin_index (idx s) (idx s') -> setBlockIndexCandidates s' ⊆ setBlockIndexCandidates s ->
  (forall p, pindexBestInvalid s' = Some p -> is_Some (idx s !! p)) -> chainActive s' = chainActive s -> node_ok s'.
Proof.
  intros [[Hi Hw Hl Hc Hb] Hg Hch] Ha Hsub Hbi Hv. split; [split| |].
  - by apply (akin_wf_index _ _ Ha).
  - intros p b' Hp. destruct (akin_back _ _ Ha p b' Hp) as (b & Eb & [Hs _ _ _ _]). rewrite (same_work _ _ Hs). by eapply Hw.
  - intros p b' q bq' Hp Eq Hq Htx. destruct (akin_back _ _ Ha p b' Hp) as (b & Eb & [Hs _ Et _ _]). destruct (akin_back _ _ Ha q bq' Hq) as (bq & Ebq & [_ _ Etq _ _]).
    rewrite Etq. apply (Hl p b q bq); [done|by rewrite <- (same_pprev _ _ Hs)|done|by rewrite <- Et].
  - intros p Hp. destruct (Hc p (Hsub p Hp)) as (b & Eb & Htx). destruct (akin_lookup _ _ Ha p b Eb) as (b' & Eb' & [_ _ Et _ _]). exists b'. split; [done|congruence].
  - intros p Hp. destruct (Hbi p Hp) as [b Eb]. destruct (akin_lookup _ _ Ha p b Eb) as (b' & -> & _). eauto.
  - intros p b' q bq' Hp Eq Hq. destruct (akin_back _ _ Ha p b' Hp) as (b & Eb & [Hs _ _ _ _]). destruct (akin_back _ _ Ha q bq' Hq) as (bq & Ebq & [Hsq _ _ _ _]).
    rewrite (same_work _ _ Hs), (same_work _ _ Hsq). apply (Hg p b q bq); [done|by rewrite <- (same_pprev _ _ Hs)|done].
  - rewrite Hv. by apply (akin_wf_chain _ _ Ha).
Qed.

Lemma node_ok_chain s v : node_ok s -> wf_chain (idx s) v -> node_ok (set_chain v s).
Proof. intros [[] ? ?] Hv. by split; [split|..]. Qed.

Lemma node_ok_world s w : node_ok s -> node_ok (set_world w s).
Proof. intros [[] ? ?]. by split; [split|..]. Qed.

Lemma Tip_index s p : node_ok s -> Tip (chainActive s) = Some p -> exists b, idx s !! p = Some b /\ nHeight b = Height (chainActive s).
Proof. intros Hs Ht. destruct (Tip_lookup _ _ (nk_chain s Hs) p Ht) as (_ & _ & b & Hb & Hh). eauto. Qed.

(** The state is valid, and the coins are those of the tip. *)
Definition live (st : CValidationState) (s : Node W) : Prop := mode st = MODE_VALID /\ synced (n_world s) (Tip (chainActive s)).

(** ** Disconnecting *)

Lemma Tip_pop m v p b : wf_index m -> wf_chain m v -> Tip v = Some p -> m !! p = Some b -> Tip (take (length v - 1) v) = pprev b.
Proof.
  intros Hm Hv Ht Hp. destruct (Tip_lookup m v Hv p Ht) as (Hl & Hpos & b' & Hp' & Hh). assert (b' = b) as -> by congruence.
  pose proof (wf_prev m Hm p b Hp) as Hprev. destruct (Hv _ _ Hl) as (p' & b' & [= <-] & Hp'' & _ & Hpr). assert (b' = b) as -> by congruence.
  unfold Tip, Height. rewrite length_take. destruct (decide (length v = 1)%nat) as [E|E].
  - rewrite E. cbn. destruct (pprev b) as [q|]; [|done]. destruct Hprev as (bq & Hq & ?). pose proof (wf_nonneg m Hm q bq Hq). lia.
  - replace (Z.of_nat ((length v - 1) `min` length v) - 1) with (Z.of_nat (length v - 2)) by lia. rewrite chain_at_nat, lookup_take_lt by lia.
    by rewrite (Hpr (length v - 2)%nat) by lia.
Qed.

Lemma DisconnectTip_ends st s p b : node_ok s -> Tip (chainActive s) = Some p -> idx s !! p = Some b -> live st s ->
  ends (DisconnectTip st s) (fun r => node_ok r.2 /\ (r.1.1 = true -> live r.1.2 r.2) /\ n_tree r.2 = n_tree s /\ setBlockIndexCandidates r.2 = setBlockIndexCandidates s /\
    chainActive r.2 = if r.1.1 then take (length (chainActive s) - 1) (chainActive s) else chainActive s).
Proof.
  intros Hs Ht Hb [Hst Hsy]. unfold DisconnectTip. rewrite Ht in *. cbn [deref mbind outcome_bind]. rewrite Hb. cbn [deref mbind outcome_bind].
  destruct (ReadBlockFromDisk _ _) as [block|]; [|cbn; by destruct (without_body s b)].
  destruct (disconnect_coins _ _ _ _ _) as [[ok st1] w] eqn:Ed. pose proof (disconnect_synced _ _ _ _ _ _ _ _ Hb Hsy Ed) as Hsy1. apply (disconnect_fair _ _ _ _ _ _ _ Hst) in Ed. cbn in Ed.
  destruct ok; cbn [negb]; [|cbn; split; [by apply node_ok_world|done]]. specialize (Hsy1 eq_refl).
  destruct (FlushStateToDisk st1 w) as [[ok st2] w2] eqn:Ef. apply (flush_synced _ _ _ _ _ Hsy1) in Ef as Hsy2. apply (flush_fair _ _ _ _ Ed) in Ef. cbn in Ef.
  destruct ok; cbn [negb]; [|cbn; split; [by apply node_ok_world|done]].
  unfold UpdateTip. cbn [set_world n_tree chainActive]. pose proof (co_index _ (nk_cand _ Hs)) as Hi. pose proof (nk_chain _ Hs) as Hc.
  rewrite (SetTip_pop _ Hi _ Hc p b Ht Hb). cbn. split; [|split; [|done]].
  - apply (node_ok_chain (set_world _ s)); [by apply node_ok_world|]. by apply wf_chain_take.
  - intros _. split; [done|]. cbn. rewrite (Tip_pop _ _ p b Hi Hc Ht Hb). by apply (mempool_synced _ _ Hsy2).
Qed.

(** The fork is in the chain. *)
Definition fork_of (s : Node W) (f : option ptr) (n : nat) : Prop :=
  (n <= length (chainActive s))%nat /\ Tip (take n (chainActive s)) = f.

Lemma Tip_take m v n p : wf_index m -> wf_chain m v -> Tip (take n v) = Tip v -> Tip v = Some p -> (n <= length v)%nat -> n = length v.
Proof.
  intros Hm Hv E Ht Hn. rewrite Ht in E. destruct (Tip_lookup m v Hv p Ht) as (_ & _ & b & Hb & Hh).
  destruct (Tip_lookup m (take n v) (wf_chain_take m v Hv n) p E) as (_ & _ & b' & Hb' & Hh'). rewrite length_take in Hh'. assert (b' = b) as -> by congruence. lia.
Qed.

(** The tip is a snapshot without its block. *)
Definition stuck (s : Node W) : Prop := exists tip b, Tip (chainActive s) = Some tip /\ idx s !! tip = Some b /\ without_body s b = true.

Lemma disconnect_ends f n fuel : forall st s, node_ok s -> live st s -> fork_of s f n -> (length (chainActive s) - n <= fuel)%nat ->
  ends (disconnect_blocks fuel f st s) (fun r => node_ok r.2 /\ n_tree r.2 = n_tree s /\ setBlockIndexCandidates r.2 = setBlockIndexCandidates s /\
    match r.1.1 with
    | Through => chainActive r.2 = take n (chainActive s) /\ live r.1.2 r.2
    | Returns ret => (exists k, (n <= k)%nat /\ chainActive r.2 = take k (chainActive s)) /\ (ret = true -> stuck r.2)
    | _ => False
    end).
Proof.
  induction fuel as [|fuel IH]; intros st s Hs Hst [Hn Hf] Hfuel; cbn [disconnect_blocks]; destruct (Tip (chainActive s)) as [p|] eqn:Ht.
  2,4: cbn; rewrite (Tip_None _ _ (nk_chain _ Hs) Ht), take_nil; done.
  1: assert (n = length (chainActive s)) as -> by lia; rewrite take_ge in Hf by lia; rewrite bool_decide_true by congruence; cbn; by rewrite take_ge by lia.
  case_bool_decide as Hpf.
  { cbn. split_and!; try done. rewrite (Tip_take _ _ n p (co_index _ (nk_cand _ Hs)) (nk_chain _ Hs)); [by rewrite take_ge|congruence|done|done]. }
  destruct (Tip_index s p Hs Ht) as (b & Hb & Hh). rewrite Hb. cbn [deref mbind outcome_bind]. destruct (without_body s b) eqn:Ew.
  { cbn. split_and!; [done|done|done|by exists (length (chainActive s)); split; [|rewrite take_ge]|]. intros _. by exists p, b. }
  eapply ends_bind; [by apply (DisconnectTip_ends st s p b)|]. intros [[ok st'] s']. cbn [fst snd]. intros (Hs' & Hst' & Et & Ec & Ev).
  destruct ok; cbn [negb]; [|cbn; split_and!; [done|done|done|by exists (length (chainActive s)); split; [|rewrite take_ge]|done]].
  assert (n <> length (chainActive s)) as Hne by (intros ->; rewrite take_ge in Hf by lia; congruence).
  eapply ends_mono; [apply (IH st' s' Hs' (Hst' eq_refl))|].
  - unfold fork_of. rewrite Ev. split; [rewrite length_take; lia|]. rewrite take_take. by replace (n `min` (length (chainActive s) - 1))%nat with n by lia.
  - rewrite Ev, length_take. lia.
  - cbn. intros [[e st2] s2]. cbn. intros (? & -> & -> & Hend). split_and!; [done|done|done|]. rewrite Ev in Hend. destruct e; try done.
    + destruct Hend as [-> Hv]. split; [|done]. rewrite take_take. f_equal. lia.
    + destruct Hend as [(k & Hk & ->) Hr]. split; [|done]. rewrite take_take. exists (k `min` (length (chainActive s) - 1))%nat. split; [lia|done].
Qed.

(** ** Connecting *)

Lemma failed_valid b : block_failed (set_nStatus (Z.lor (nStatus b) BLOCK_FAILED_VALID) b) = true.
Proof.
  unfold block_failed. cbn [set_nStatus nStatus]. apply negb_true_iff, Z.eqb_neq. intros E.
  assert (Z.testbit (Z.land (Z.lor (nStatus b) BLOCK_FAILED_VALID) BLOCK_FAILED_MASK) 5 = false) as Hb by by rewrite E.
  rewrite Z.land_spec, Z.lor_spec, orb_true_r in Hb. done.
Qed.

Lemma have_data_failed b : block_missing (set_nStatus (Z.lor (nStatus b) BLOCK_FAILED_VALID) b) = block_missing b.
Proof. unfold block_missing. cbn [set_nStatus nStatus]. rewrite Z.land_lor_distr_l. change (Z.land BLOCK_FAILED_VALID BLOCK_HAVE_DATA) with 0. by rewrite Z.lor_0_r. Qed.

(** What a step keeps. *)
Record keeps (s s' : Node W) : Prop := {
  kp_ok : node_ok s';
  kp_akin : akin_index (idx s) (idx s');
  kp_cand : setBlockIndexCandidates s' ⊆ setBlockIndexCandidates s
}.

Lemma keeps_trans s1 s2 s3 : keeps s1 s2 -> keeps s2 s3 -> keeps s1 s3.
Proof. intros [_ A1 C1] [K2 A2 C2]. split; [done|by eapply akin_index_trans|by etransitivity]. Qed.

Definition failed (m : index) (p : ptr) : Prop := exists b, m !! p = Some b /\ block_failed b = true.

(** Only the block [p] was taken out of the candidates. *)
Definition only_without (p : ptr) (s s' : Node W) : Prop := failed (idx s') p /\ (p ∉ setBlockIndexCandidates s') /\ setBlockIndexCandidates s ⊆ {[p]} ∪ setBlockIndexCandidates s' /\
  fails_but p (idx s) (idx s').

(** The block [p] has failed, and nothing else has changed. *)
Definition refused (p : ptr) (s s' : Node W) : Prop := only_without p s s' /\ synced (n_world s') (Tip (chainActive s)) /\ rejects p /\ ~ in_chain (idx s') (chainActive s') p.

Lemma InvalidChainFound_spec p s : node_ok s -> is_Some (idx s !! p) -> Tip (chainActive s) <> None ->
  exists o, InvalidChainFound p s = Ret (set_bestInvalid o s) /\ node_ok (set_bestInvalid o s).
Proof.
  intros Hs Hp Ht. destruct (note_invalid_spec p s (nk_cand _ Hs) Hp) as (o & E & Ho). exists o. unfold InvalidChainFound. rewrite E. cbn [mbind outcome_bind set_bestInvalid chainActive].
  destruct (Tip (chainActive s)); [|done]. split; [done|]. apply (node_ok_akin s); [done|apply akin_index_refl|done|done|done].
Qed.

Lemma erased_back (C : gset ptr) p : C ⊆ {[p]} ∪ C ∖ {[p]}.
Proof. intros q Hq. destruct (decide (q = p)) as [->|]; set_solver. Qed.

Lemma node_InvalidBlockFound_spec p st s b : node_ok s -> idx s !! p = Some b -> Tip (chainActive s) <> None -> corruptionPossible st = false ->
  exists s', node_InvalidBlockFound p st s = Ret s' /\ keeps s s' /\ chainActive s' = chainActive s /\ n_world s' = n_world s /\ only_without p s s'.
Proof.
  intros Hs Hb Ht Ec. unfold node_InvalidBlockFound, InvalidBlockFound. rewrite Ec. cbn [negb]. rewrite Hb. cbn [deref mbind outcome_bind].
  set (b' := set_nStatus _ b). set (s1 := erase_candidate p _).
  assert (akin_index (idx s) (idx s1)) as Ha.
  { apply (akin_insert _ _ b); [done|]. split; [apply same_status|done|done|intros _; apply failed_valid|]. apply have_data_failed. }
  destruct (kept_of_erased (setBlockIndexCandidates s) _ p (reflexivity _)) as [He1 He2].
  assert (node_ok s1) as Hs1 by (apply (node_ok_akin s); [done|done|done|apply (co_invalid _ (nk_cand _ Hs))|done]).
  assert (idx s1 !! p = Some b') as Hb1 by apply lookup_insert_eq.
  destruct (InvalidChainFound_spec p s1 Hs1) as (o & -> & Ho); [by rewrite Hb1|done|]. eexists. split; [done|]. split; [done|]. split; [done|]. split; [done|].
  split; [exists b'; split; [done|]; apply failed_valid|]. split; [done|]. split; [apply erased_back|].
  intros q bq bq' Hne Hq. change (idx (set_bestInvalid o s1)) with (<[p := b']> (idx s)). rewrite lookup_insert_ne by done. congruence.
Qed.

(** A block on top of the chain is not in it. *)
Lemma not_in_chain_next m m' p b v : akin_index m m' -> wf_index m -> wf_chain m v -> m !! p = Some b -> pprev b = Tip v -> Tip v <> None -> ~ in_chain m' v p.
Proof.
  intros Ha Hm Hv Hb Hp Ht (b' & Hb' & Hc). destruct (akin_back _ _ Ha p b' Hb') as (b0 & Hb0 & Hk). assert (b0 = b) as -> by congruence.
  destruct (Tip v) as [q|] eqn:Et; [|done]. destruct (Tip_lookup m v Hv q Et) as (_ & _ & bq & Hbq & Hh). pose proof (wf_prev m Hm p b Hb) as Hw. rewrite Hp in Hw.
  destruct Hw as (bq' & Hbq' & Hh'). assert (bq' = bq) as -> by congruence. destruct (chain_at_Some _ _ _ Hc) as [Hr _]. rewrite (same_height _ _ (ak_same _ _ Hk)) in Hr. lia.
Qed.

(** How connecting the block [p] ends. *)
Definition tip_connected (p : ptr) (s : Node W) (r : verdict * Node W) : Prop :=
  keeps s r.2 /\
  if r.1.1 then chainActive r.2 = chainActive s ++ [Some p] /\ setBlockIndexCandidates r.2 = setBlockIndexCandidates s /\ live r.1.2 r.2 /\ fails_same (idx s) (idx r.2) /\ accepts p
  else chainActive r.2 = chainActive s /\ (if state_IsInvalid r.1.2 then refused p s r.2 else setBlockIndexCandidates r.2 = setBlockIndexCandidates s).

Lemma connect_tip_block_ends p block st s b : node_ok s -> idx s !! p = Some b -> pprev b = Tip (chainActive s) -> Tip (chainActive s) <> None -> live st s ->
  intact (phashBlock b) block -> ends (connect_tip_block p block st s) (tip_connected p s).
Proof.
  intros Hs Hb Hprev Ht [Hst Hsy] Hint. unfold connect_tip_block, tip_connected. destruct (connect_coins _ _ _ _ _) as [[[ok st1] t] w] eqn:Ec.
  pose proof (connect_akin _ _ _ _ _ _ _ _ Hst Ec) as Ha. pose proof (connect_failed _ _ _ _ _ _ _ _ Hst Ec) as Hff. rewrite <- Hprev in Hsy.
  pose proof (connect_synced _ _ _ _ _ _ _ _ _ Hst Hb Hint Hsy Ec) as Hsy1. rewrite Hprev in Hsy1.
  apply (connect_fair _ _ _ _ _ _ _ _ _ Hst Hb Hint) in Ec. set (s1 := set_world w (set_tree t s)).
  assert (node_ok s1) as Hs1 by (apply (node_ok_akin s); [done|done|done|apply (co_invalid _ (nk_cand _ Hs))|done]).
  destruct (akin_lookup _ _ Ha p b Hb) as (b1 & Hb1 & Hk). unfold fair in Ec. destruct ok; cbn [negb fst snd] in *.
  - destruct Hsy1 as [Hsy1 Hacc]. destruct (FlushStateToDisk st1 w) as [[ok st2] w2] eqn:Ef. apply (flush_synced _ _ _ _ _ Hsy1) in Ef as Hsy2.
    apply (flush_fair _ _ _ _ Ec) in Ef. cbn in Ef. destruct ok; cbn [negb].
    + change (idx s1 !! p) with (tIndex t !! p). rewrite Hb1. cbn [deref mbind outcome_bind]. unfold UpdateTip. change (SetTip _ _ (Some p)) with (SetTip (idx s1) (chainActive s1) (Some p)).
      assert (pprev b1 = Tip (chainActive s)) as Hp1 by (by rewrite (same_pprev _ _ (ak_same _ _ Hk))).
      pose proof (co_index _ (nk_cand _ Hs1)) as Hi. pose proof (nk_chain _ Hs1) as Hc. rewrite (SetTip_push _ Hi _ Hc p b1 Hb1 Hp1). cbn.
      split; [|split; [done|]; split; [done|]; split; [|done]].
      * split; [|done|done]. apply (node_ok_chain (set_world _ s1)); [by apply node_ok_world|]. by apply (wf_chain_push _ Hi _ Hc p b1).
      * split; [done|]. cbn. rewrite Tip_push. by apply (mempool_synced _ _ Hsy2).
    + cbn. split; [split; [by apply node_ok_world|done|done]|]. split; [done|]. by rewrite Ef.
  - destruct (state_IsInvalid st1) eqn:Ei; cbn [mbind outcome_bind].
    + specialize (Ec eq_refl). destruct (Hsy1 eq_refl) as [Hsy2 Hrej].
      destruct (node_InvalidBlockFound_spec p st1 s1 b1 Hs1 Hb1 Ht Ec) as (s2 & -> & Hk2 & Ev & Ew & Hr). cbn [mbind outcome_bind]. cbn.
      split; [eapply keeps_trans; [|exact Hk2]; by split|]. split; [done|]. rewrite Ei. destruct Hr as (? & ? & ? & Hbut).
      split; [split; [done|]; split; [done|]; split; [done|]; by apply (fails_but_same _ _ Ha)|]. rewrite Ew, Ev. split; [done|]. split; [done|].
      apply (not_in_chain_next _ _ p b1 _ (kp_akin _ _ Hk2) (co_index _ (nk_cand _ Hs1)) (nk_chain _ Hs1) Hb1); [|done]. by rewrite (same_pprev _ _ (ak_same _ _ Hk)).
    + cbn. split; [by split|]. split; [done|]. by rewrite Ei.
Qed.

Lemma ConnectTip_ends p pblock st s b : node_ok s -> idx s !! p = Some b -> pprev b = Tip (chainActive s) -> Tip (chainActive s) <> None -> live st s ->
  (forall block, pblock = Some block -> intact (phashBlock b) block) -> ends (ConnectTip p pblock st s) (tip_connected p s).
Proof.
  intros Hs Hb Hprev Ht Hl Hint. unfold ConnectTip. rewrite Hb. cbn [deref mbind outcome_bind]. rewrite bool_decide_true by done. cbn [assert_ mbind outcome_bind].
  destruct (match pblock with Some _ => _ | None => _ end) as [block|] eqn:Eb.
  { apply connect_tip_block_ends with b; try done. destruct pblock as [block'|]; [apply Hint; congruence|]. by apply (read_intact _ _ _ Eb). }
  assert (keeps s s) by (split; [done|apply akin_index_refl|done]). unfold tip_connected.
  destruct (without_body s b); cbn; (split; [done|]); (split; [done|]); unfold state_IsInvalid; [by rewrite (proj1 Hl)|done].
Qed.

(** Blocks that extend a chain one after the other. *)
Fixpoint climbs (m : index) (o : option ptr) (l : list ptr) : Prop :=
  match l with [] => True | p :: l' => (exists b, m !! p = Some b /\ pprev b = o) /\ climbs m (Some p) l' end.

Lemma climbs_akin m m' o l : akin_index m m' -> climbs m o l -> climbs m' o l.
Proof.
  intros Ha. revert o. induction l as [|p l IH]; intros o; [done|]. intros [(b & Hb & Hp) Hl]. split; [|by apply IH].
  destruct (akin_lookup _ _ Ha p b Hb) as (b' & Hb' & [Hs _ _ _ _]). exists b'. split; [done|]. by rewrite (same_pprev _ _ Hs).
Qed.

(** The way to the block with the most work. *)
Definition on_way (m : index) (target p : ptr) : Prop := exists h, ancestor m target h = Some p.

Definition on_way_above (m : index) (h0 : Z) (target p : ptr) : Prop := exists h, h0 < h /\ ancestor m target h = Some p.

Lemma on_way_akin m m' target p : akin_index m m' -> on_way m target p -> on_way m' target p.
Proof. intros Ha [h E]. exists h. by rewrite (akin_ancestor _ _ Ha). Qed.

(** A candidate is not worse than a block on the way to it, so it stays. *)
Lemma Prune_spec s target tip : node_ok s -> target ∈ setBlockIndexCandidates s -> Tip (chainActive s) = Some tip -> on_way (idx s) target tip ->
  exists C, PruneBlockIndexCandidates s = Ret (set_candidates C s) /\ keeps s (set_candidates C s) /\ target ∈ C /\
    forall q, q ∈ setBlockIndexCandidates s -> q ∈ C \/ CBlockIndexWorkComparator (idx s) q tip = true.
Proof.
  intros Hs Hc Ht [h Hw]. unfold PruneBlockIndexCandidates. rewrite Ht. cbn [deref mbind outcome_bind]. set (C := filter _ _).
  pose proof (nk_cand _ Hs) as Hok. destruct (co_cand _ Hok target Hc) as (b & Hb & _). destruct (ancestor_height _ (co_index _ Hok) _ _ _ Hw) as (bt & Hbt & _).
  assert (target ∈ C) as Hin.
  { apply elem_of_filter. split; [|done]. apply not_true_iff_false. rewrite (less_spec _ (co_work _ Hok) target tip b bt Hb Hbt). unfold ranks_below.
    destruct (ancestor_work _ target b h tip bt (co_index _ Hok) (nk_work _ Hs) Hb Hw Hbt) as [->|]; [assert (bt = b) as -> by congruence|]; lia. }
  cbn [set_candidates setBlockIndexCandidates]. rewrite bool_decide_true by (intros E; rewrite E in Hin; by apply not_elem_of_empty in Hin). cbn [assert_ mbind outcome_bind].
  assert (C ⊆ setBlockIndexCandidates s) as Hsub by (intros q [_ Hq]%elem_of_filter; done).
  exists C. split; [done|]. split; [|split; [done|]].
  - split; [|apply akin_index_refl|done]. apply (node_ok_akin s); [done|apply akin_index_refl|done|apply (co_invalid _ Hok)|done].
  - intros q Hq. destruct (CBlockIndexWorkComparator (idx s) q tip) eqn:E; [by right|left]. by apply elem_of_filter.
Qed.

(** A chain with more work than before. *)
Definition more_work (s : Node W) (oldWork : option base_uint) : Prop :=
  exists tip b, Tip (chainActive s) = Some tip /\ idx s !! tip = Some b /\ match oldWork with None => True | Some w => eval w < eval (nChainWork b) end.

(** A block was found invalid. *)
Definition banned (s : Node W) (p : ptr) : Prop := failed (idx s) p /\ (p ∉ setBlockIndexCandidates s) /\ rejects p /\ ~ in_chain (idx s) (chainActive s) p.

(** Candidates are only dropped when they have failed or are worse than a
    block of [l]. *)
Definition pruned (s : Node W) (l : list ptr) (s' : Node W) : Prop :=
  forall q, q ∈ setBlockIndexCandidates s -> q ∈ setBlockIndexCandidates s' \/ failed (idx s') q \/ exists x, x ∈ l /\ CBlockIndexWorkComparator (idx s) q x = true.

Lemma pruned_same s l s' : setBlockIndexCandidates s' = setBlockIndexCandidates s -> pruned s l s'.
Proof. intros E q Hq. left. by rewrite E. Qed.

Lemma pruned_trans s1 s2 s3 l1 l2 : akin_index (idx s1) (idx s2) -> akin_index (idx s2) (idx s3) -> pruned s1 l1 s2 -> pruned s2 l2 s3 -> pruned s1 (l1 ++ l2) s3.
Proof.
  intros A1 A2 H1 H2 q Hq. destruct (H1 q Hq) as [Hq2|[(b & Hb & Hf)|(x & Hx & Hl)]].
  - destruct (H2 q Hq2) as [|[|(x & Hx & Hl)]]; [by left|by right; left|]. right. right. exists x. rewrite elem_of_app, <- (akin_less _ _ A1). auto.
  - right. left. destruct (akin_lookup _ _ A2 q b Hb) as (b' & Hb' & Hk). exists b'. split; [done|]. by apply (ak_failed _ _ Hk).
  - right. right. exists x. rewrite elem_of_app. auto.
Qed.

(** How connecting the blocks [l] ends. *)
Definition blocks_connected (target : ptr) (l : list ptr) (oldWork : option base_uint) (s : Node W) (r : step_end * CValidationState * Node W) : Prop :=
  keeps s r.2 /\ exists l1 l2, l = l1 ++ l2 /\ chainActive r.2 = chainActive s ++ map Some l1 /\ Forall accepts l1 /\ pruned s l1 r.2 /\
    match r.1.1 with
    | Through => l2 = [] /\ target ∈ setBlockIndexCandidates r.2 /\ live r.1.2 r.2 /\ fails_same (idx s) (idx r.2)
    | Better => l1 <> [] /\ more_work r.2 oldWork /\ target ∈ setBlockIndexCandidates r.2 /\ live r.1.2 r.2 /\ fails_same (idx s) (idx r.2)
    | InvalidFound => live r.1.2 r.2 /\ exists x l3, l2 = x :: l3 /\ banned r.2 x /\ fails_but x (idx s) (idx r.2)
    | Returns ret => ret = false
    end.

Lemma connect_blocks_ends target lowest pblock oldWork l : forall st s b0, node_ok s -> live st s -> Tip (chainActive s) <> None ->
  climbs (idx s) (Tip (chainActive s)) l -> Forall (on_way (idx s) target) l -> target ∈ setBlockIndexCandidates s -> is_Some (idx s !! lowest) ->
  (forall w, oldWork = Some w -> wf w) -> idx s !! target = Some b0 -> (forall block, pblock = Some block -> intact (phashBlock b0) block) ->
  ends (connect_blocks l lowest target pblock oldWork st s) (blocks_connected target l oldWork s).
Proof.
  induction l as [|p l IH]; intros st s b0 Hs Hst Ht Hcl Hway Htarget Hlow Hold Hb0 Hint; cbn [connect_blocks].
  { cbn. split; [split; [done|apply akin_index_refl|done]|]. exists [], []. cbn. rewrite app_nil_r. pose proof (fails_same_refl (idx s)). pose proof (pruned_same s [] s eq_refl). done. }
  destruct Hcl as [(b & Hb & Hprev) Hcl]. apply Forall_cons in Hway as [Hwp Hway].
  eapply ends_bind; [apply (ConnectTip_ends p _ st s b Hs Hb Hprev Ht Hst)|].
  { case_bool_decide as Ep; [|done]. intros block E. assert (b = b0) as -> by congruence. by apply Hint. }
  intros [[ok st1] s1]. unfold tip_connected. cbn [fst snd]. intros [Hk1 H1].
  pose proof (kp_akin _ _ Hk1) as Ha1. pose proof (kp_ok _ _ Hk1) as Hs1. destruct ok; cbn [negb].
  - destruct H1 as (Ev & Ec & [Hst1 Hsy1] & Hff1 & Hacc). assert (Tip (chainActive s1) = Some p) as Ht1 by (rewrite Ev; apply Tip_push).
    destruct (Prune_spec s1 target p Hs1) as (C & -> & Hk2 & Htg2 & Hpr); [by rewrite Ec|done|by apply (on_way_akin _ _ _ _ Ha1)|]. cbn [mbind outcome_bind].
    set (s2 := set_candidates C s1) in *. change (chainActive s2) with (chainActive s1). rewrite Ht1. cbn [deref mbind outcome_bind]. change (n_tree s2) with (n_tree s1).
    destruct (akin_lookup _ _ Ha1 p b Hb) as (b1 & Hb1 & Hkb). rewrite Hb1. cbn [deref mbind outcome_bind].
    pose proof (keeps_trans _ _ _ Hk1 Hk2) as Hk12. pose proof (kp_ok _ _ Hk2) as Hs2. pose proof (kp_akin _ _ Hk12) as Ha2.
    assert (wf (nChainWork b1)) as Hwf by (apply (co_work _ (nk_cand _ Hs1) p); done).
    assert (pruned s [p] s2) as Hpr2.
    { intros q Hq. rewrite <- Ec in Hq. destruct (Hpr q Hq) as [|Hl]; [by left|right; right]. exists p. rewrite list_elem_of_singleton, <- (akin_less _ _ Ha1). done. }
    destruct (match oldWork with Some _ => _ | None => _ end) eqn:Eo.
    + cbn. split; [done|]. exists [p], l. cbn. rewrite Ev. split; [done|]. split; [done|]. split; [by constructor|]. split; [done|]. split; [done|]. split; [|done].
      exists p, b1. split; [done|]. split; [done|]. destruct oldWork as [w|]; [|done].
      unfold op_gt in Eo. rewrite CompareTo_spec in Eo by auto. destruct (Z.compare_spec (eval (nChainWork b1)) (eval w)); [done|done|lia].
    + destruct (akin_lookup _ _ Ha2 target b0 Hb0) as (b2 & Hb2 & Hkb2). eapply ends_mono; [apply (IH st1 s2 b2 Hs2)|].
      * done.
      * change (Tip (chainActive s1) <> None). by rewrite Ht1.
      * change (climbs (idx s1) (Tip (chainActive s1)) l). rewrite Ht1. by apply (climbs_akin _ _ _ _ Ha1).
      * eapply Forall_impl; [exact Hway|]. intros q. by apply on_way_akin.
      * done.
      * destruct Hlow as [bl Hbl]. destruct (akin_lookup _ _ Ha2 lowest bl Hbl) as (? & -> & _). eauto.
      * done.
      * done.
      * by rewrite (same_hash _ _ (ak_same _ _ Hkb2)).
      * intros [[e st2] s3]. unfold blocks_connected. cbn [fst snd]. intros [Hk3 (l1 & l2 & El & Ev3 & Hacc3 & Hpr3 & Hend)]. split; [by eapply keeps_trans|].
        exists (p :: l1), l2. cbn. change (chainActive s2) with (chainActive s1) in Ev3. rewrite El, Ev3, Ev, <- app_assoc. split; [done|]. split; [done|]. split; [by constructor|].
        split; [apply (pruned_trans s s2 s3 [p] l1 Ha2 (kp_akin _ _ Hk3) Hpr2 Hpr3)|].
        assert (fails_same (idx s2) (idx s3) -> fails_same (idx s) (idx s3)) as Hf3 by (by apply (fails_same_trans _ _ Ha1)).
        destruct e; try done; [destruct Hend as (? & ? & ? & ?); auto| |destruct Hend as (? & ? & ? & ? & ?); auto 6].
        destruct Hend as (? & x & l3 & ? & ? & ?). split; [done|]. exists x, l3. split; [done|]. split; [done|]. by apply (fails_but_same _ _ Ha1).
  - destruct H1 as [Ev Hinv]. destruct (state_IsInvalid st1).
    + destruct Hinv as ((Hf1 & Hn1 & Hc1 & Hbut) & Hsy1 & Hrej).
      assert (exists o, (if negb (corruptionPossible st1) then InvalidChainFound lowest s1 else Ret s1) = Ret (set_bestInvalid o s1) /\ node_ok (set_bestInvalid o s1)) as (o & -> & Ho).
      { destruct (corruptionPossible st1); cbn [negb]; [exists (pindexBestInvalid s1); by destruct s1|]. apply InvalidChainFound_spec; [done| |by rewrite Ev].
        destruct Hlow as [bl Hbl]. destruct (akin_lookup _ _ Ha1 lowest bl Hbl) as (? & -> & _). eauto. }
      cbn. destruct Hk1 as [_ A1 C1]. split; [by split|]. exists [], (p :: l). cbn. rewrite app_nil_r. split; [done|]. split; [done|]. split; [done|]. split.
      { intros q Hq. apply Hc1 in Hq as [->%elem_of_singleton|]%elem_of_union; [right; by left|by left]. }
      split; [split; [done|]; cbn; by rewrite Ev|]. exists p, l. done.
    + cbn. split; [done|]. exists [], (p :: l). cbn. rewrite app_nil_r. split; [done|]. split; [done|]. split; [done|]. split; [by apply pruned_same|done].
Qed.

(** ** Batches *)

Definition tip_of (o : option ptr) (l : list ptr) : option ptr := match last l with Some p => Some p | None => o end.

Lemma climbs_snoc m o l p b : climbs m o l -> m !! p = Some b -> pprev b = tip_of o l -> climbs m o (l ++ [p]).
Proof.
  revert o. induction l as [|q l IH]; intros o Hl Hp Ht; cbn [app climbs]; [by split; [exists b|]|]. destruct Hl as [Hq Hl]. split; [done|]. apply IH; [done|done|].
  rewrite Ht. unfold tip_of. rewrite last_cons. by destruct (last l).
Qed.

Lemma Tip_extend v l : Tip (v ++ map Some l) = tip_of (Tip v) l.
Proof.
  destruct (last l) as [p|] eqn:E; unfold tip_of; rewrite E.
  - apply last_Some in E as [l' ->]. rewrite map_app, app_assoc. apply Tip_push.
  - apply last_None in E as ->. by rewrite app_nil_r.
Qed.

Lemma path_down_spec m (Hm : wf_index m) fuel height : forall p b, m !! p = Some b -> 0 <= height <= nHeight b -> nHeight b - height <= Z.of_nat fuel ->
  exists l, path_down fuel m (Some p) height = Ret l /\ climbs m (ancestor m p height) (reverse l) /\ Forall (on_way_above m height p) l /\ tip_of (ancestor m p height) (reverse l) = Some p.
Proof.
  induction fuel as [|fuel IH]; intros p b Hp Hh Hf; cbn [path_down]; rewrite Hp; cbn [deref mbind outcome_bind]; destruct (Z.eqb_spec (nHeight b) height) as [<-|Hne]; try lia.
  1,2: exists []; rewrite (ancestor_self m Hm p b Hp); done.
  pose proof (wf_prev m Hm p b Hp) as Hprev. destruct (pprev b) as [q|] eqn:Eq; [|lia]. destruct Hprev as (bq & Hq & Hhq).
  destruct (IH q bq Hq ltac:(lia) ltac:(lia)) as (l & -> & Hcl & Hway & Htip). exists (p :: l). cbn [mbind outcome_bind]. rewrite (ancestor_prev m Hm p q b height Hp Eq) by lia.
  rewrite reverse_cons. split; [done|]. split; [apply climbs_snoc with b; [done|done|congruence]|]. split.
  - constructor; [exists (nHeight b); split; [lia|by apply ancestor_self]|]. eapply Forall_impl; [exact Hway|]. intros x (h & Hlt & Hx). exists h. split; [done|].
    pose proof (ancestor_range m q bq h x Hq Hx). by rewrite (ancestor_prev m Hm p q b h Hp Eq) by lia.
  - unfold tip_of. by rewrite last_snoc.
Qed.

(** How the batches end. *)
Definition batch_end (target : ptr) (height : Z) (oldWork : option base_uint) (s : Node W) (r : step_end * CValidationState * Node W) : Prop :=
  keeps s r.2 /\
  (exists l, chainActive r.2 = chainActive s ++ map Some l /\ Forall (on_way (idx s) target) l /\ Forall accepts l /\ pruned s l r.2 /\ (r.1.1 = Better -> l <> [])) /\
  match r.1.1 with
  | Through => Tip (chainActive r.2) = Some target /\ live r.1.2 r.2 /\ fails_same (idx s) (idx r.2)
  | Better => more_work r.2 oldWork /\ target ∈ setBlockIndexCandidates r.2 /\ live r.1.2 r.2 /\ fails_same (idx s) (idx r.2)
  | InvalidFound => live r.1.2 r.2 /\ exists x, on_way_above (idx s) height target x /\ banned r.2 x /\ fails_but x (idx s) (idx r.2)
  | Returns ret => ret = false
  end.

Lemma on_way_above_trans m (Hm : wf_index m) h0 p q r : on_way m p q -> on_way_above m h0 q r -> on_way_above m h0 p r.
Proof.
  intros [h1 E1] (h2 & Hlt & E2). exists h2. split; [done|]. destruct (m !! p) as [b|] eqn:Hp; [|by unfold ancestor in E1; rewrite Hp in E1].
  destruct (ancestor_height m Hm _ _ _ E1) as (bq & Hq & <-). pose proof (ancestor_range m q bq h2 r Hq E2).
  by rewrite (ancestor_trans m Hm p q b (nHeight bq) h2 Hp E1) by lia.
Qed.

Lemma above_on_way m h0 p x : on_way_above m h0 p x -> on_way m p x.
Proof. intros (h & _ & E). by exists h. Qed.

Lemma batches_ends target pblock oldWork fuel : forall height st s b, node_ok s -> live st s -> idx s !! target = Some b -> target ∈ setBlockIndexCandidates s ->
  0 <= height <= nHeight b -> nHeight b + 32 < 2 ^ 31 -> Tip (chainActive s) = ancestor (idx s) target height -> nHeight b - height <= Z.of_nat fuel ->
  (forall w, oldWork = Some w -> wf w) -> (forall block, pblock = Some block -> intact (phashBlock b) block) ->
  ends (batches fuel height target pblock oldWork st s) (batch_end target height oldWork s).
Proof.
  induction fuel as [|fuel IH]; intros height st s b Hs Hst Hb Htg Hh H31 Htip Hfuel Hold Hint; cbn [batches]; rewrite Hb; cbn [deref mbind outcome_bind];
    pose proof (co_index _ (nk_cand _ Hs)) as Hi; destruct (Z.eqb_spec height (nHeight b)) as [->|Hne]; try lia.
  1,2: unfold ends, batch_end; cbn [fst snd]; split; [split; [done|apply akin_index_refl|done]|]; split; [exists []; rewrite app_nil_r; pose proof (pruned_same s [] s eq_refl); by repeat split|]; rewrite Htip, (ancestor_self _ Hi target b Hb); pose proof (fails_same_refl (idx s)); done.
  rewrite (wrapS_small 32) by (unfold inS; lia). set (th := Z.min (height + 32) (nHeight b)). assert (height < th <= nHeight b) as Hth by lia.
  rewrite (GetAncestor_spec _ Hi target b th Hb). cbn [mbind outcome_bind]. destruct (ancestor_total _ Hi target b th Hb ltac:(lia)) as (p & bp & Ep & Hp & Hhp). rewrite Ep.
  destruct (path_down_spec _ Hi (Z.to_nat (th - height)) height p bp Hp ltac:(lia) ltac:(lia)) as (l & -> & Hcl & Hway & Htp). cbn [mbind outcome_bind].
  rewrite <- (ancestor_trans _ Hi target p b th height Hb Ep ltac:(lia)), <- Htip in Hcl, Htp.
  assert (Forall (on_way_above (idx s) height target) l) as Hwa by (eapply Forall_impl; [exact Hway|]; intros x; apply on_way_above_trans; [done|by exists th]).
  assert (Forall (on_way (idx s) target) l) as Hway' by (eapply Forall_impl; [exact Hwa|]; intros x; apply above_on_way).
  eapply ends_bind; [apply (connect_blocks_ends target (default target (last l)) pblock oldWork (reverse l) st s b Hs Hst)|].
  - rewrite Htip. destruct (ancestor_total _ Hi target b height Hb ltac:(lia)) as (? & ? & -> & _). done.
  - done.
  - by apply Forall_reverse.
  - done.
  - destruct (last l) as [x|] eqn:El; cbn; [|by rewrite Hb]. apply last_Some in El as [l' ->]. apply Forall_app in Hway' as [_ [[h Hx] _]%Forall_cons].
    destruct (ancestor_height _ Hi _ _ _ Hx) as (? & -> & _). eauto.
  - done.
  - done.
  - done.
  - intros [[e st1] s1]. unfold blocks_connected. cbn [fst snd]. intros [Hk1 (l1 & l2 & El & Ev & Hacc & Hpr & Hend)].
    apply Forall_reverse in Hway', Hwa. rewrite El in Hway', Hwa. apply Forall_app in Hway' as [Hw1 Hw2]. apply Forall_app in Hwa as [_ Hwa]. pose proof (kp_akin _ _ Hk1) as Ha1. destruct e as [| | |].
    + destruct Hend as (-> & Htg1 & Hst1 & Hff1). rewrite app_nil_r in El. destruct (akin_lookup _ _ Ha1 target b Hb) as (b1 & Hb1 & Hkb). pose proof (same_height _ _ (ak_same _ _ Hkb)) as Hhb.
      eapply ends_mono; [apply (IH th st1 s1 b1 (kp_ok _ _ Hk1) Hst1 Hb1 Htg1); [lia|lia| |lia|done|by rewrite (same_hash _ _ (ak_same _ _ Hkb))]|].
      * rewrite Ev, Tip_extend, <- El, Htp. by rewrite (akin_ancestor _ _ Ha1).
      * intros [[e st2] s2]. unfold batch_end. cbn [fst snd]. intros (Hk2 & (l3 & Ev2 & Hw3 & Hacc3 & Hpr3 & Hne3) & Hend). split; [by eapply keeps_trans|].
        assert (forall x, on_way (idx s1) target x -> on_way (idx s) target x) as Hback by (intros x [h E]; exists h; by rewrite <- (akin_ancestor _ _ Ha1)).
        split; [exists (l1 ++ l3); rewrite Ev2, Ev, map_app, <- app_assoc; split; [done|]; split; [apply Forall_app; split; [done|]; eapply Forall_impl; [exact Hw3|exact Hback]|]; split; [by apply Forall_app|]; split; [by apply (pruned_trans s s1 s2 l1 l3 Ha1 (kp_akin _ _ Hk2))|]|].
        { intros He [_ ->]%app_nil. by apply Hne3. }
        pose proof (fails_same_trans _ _ Ha1 (idx s2) Hff1) as Hf2. destruct e; [destruct Hend as (? & ? & ?); auto|done| |destruct Hend as (? & ? & ? & ?); auto 6].
        destruct Hend as (? & x & (h & Hlt & Hx) & Hr & Hbut). split; [done|]. exists x. split; [|split; [done|by apply (fails_but_same _ _ Ha1)]]. exists h. split; [lia|]. by rewrite <- (akin_ancestor _ _ Ha1).
    + cbn. split; [done|]. split; [exists l1; by repeat split|done].
    + cbn. split; [done|]. split; [exists l1; by repeat split|]. destruct Hend as (? & x & l3 & -> & Hr). split; [done|]. exists x. split; [|done]. by apply Forall_cons in Hwa as [? _].
    + cbn. destruct Hend as (? & ?). split; [done|]. split; [by exists l1; repeat split|done].
Qed.

(** ** The step *)

Lemma fork_found s target b p bp : node_ok s -> idx s !! target = Some b -> Tip (chainActive s) = Some p -> idx s !! p = Some bp ->
  Genesis (chainActive s) = ancestor (idx s) target 0 ->
  exists f bf, FindFork (idx s) (chainActive s) (Some target) = Ret (Some f) /\ idx s !! f = Some bf /\ 0 <= nHeight bf <= nHeight b /\
    fork_of s (Some f) (Z.to_nat (nHeight bf + 1)) /\ ancestor (idx s) target (nHeight bf) = Some f /\
    (forall x, on_way (idx s) target x -> in_chain (idx s) (chainActive s) x -> exists h, ancestor (idx s) target h = Some x /\ h <= nHeight bf).
Proof.
  intros Hs Hb Ht Hp Hgen. pose proof (co_index _ (nk_cand _ Hs)) as Hi. pose proof (wf_nonneg _ Hi target b Hb) as Hnn.
  destruct (FindFork_spec _ Hi (chainActive s) target b Hb) as (r & E & Hr). destruct (ancestor_total _ Hi target b 0 Hb ltac:(lia)) as (g & bg & Hg & Hbg & Hhg).
  assert (in_chain (idx s) (chainActive s) g) as Hgc by (exists bg; split; [done|]; rewrite Hhg; unfold Genesis in Hgen; congruence).
  destruct r as [f|]; [|by destruct (Hr 0 g Hg)]. destruct Hr as (Hfc & (h & Hfh) & Hmax). destruct (ancestor_height _ Hi _ _ _ Hfh) as (bf & Hbf & <-).
  pose proof (ancestor_range _ _ _ _ _ Hb Hfh) as Hrange. exists f, bf. split; [done|]. split; [done|]. split; [done|]. split.
  - destruct Hfc as (bf' & Hbf' & Hc). assert (bf' = bf) as -> by congruence. destruct (chain_at_Some _ _ _ Hc) as [Hlt Hl]. split; [lia|].
    unfold Tip, Height. rewrite length_take. replace (Z.of_nat (Z.to_nat (nHeight bf + 1) `min` length (chainActive s)) - 1) with (Z.of_nat (Z.to_nat (nHeight bf))) by lia.
    rewrite chain_at_nat, lookup_take_lt by lia. by rewrite Hl.
  - split; [done|]. intros x [h Hx] Hxc. exists h. split; [done|]. destruct (Hmax h x Hx Hxc) as (bq & Hbq & Hle). assert (bq = bf) as -> by congruence. done.
Qed.

(** How a step ends: the chain keeps its lower part and goes on towards the
    block; it has more work than before or ends at the block, unless a block
    on the way was refused. *)
Definition step_ends (target : ptr) (oldWork : base_uint) (s : Node W) (r : bool * bool * CValidationState * Node W) : Prop :=
  let '(ok, invalid, st', s') := r in
  keeps s s' /\
  (exists k l, (0 < k)%nat /\ chainActive s' = take k (chainActive s) ++ map Some l /\ Forall (on_way (idx s) target) l /\ Forall accepts l /\ pruned s l s') /\
  (ok = true ->
   if invalid then live st' s' /\ exists x, on_way (idx s) target x /\ ~ in_chain (idx s) (chainActive s) x /\ banned s' x /\ fails_but x (idx s) (idx s')
   else stuck s' \/
     (live st' s' /\ fails_same (idx s) (idx s') /\
      (forall x, on_way (idx s) target x -> in_chain (idx s) (chainActive s) x -> in_chain (idx s') (chainActive s') x) /\
      (Tip (chainActive s') = Some target \/
       (more_work s' (Some oldWork) /\ target ∈ setBlockIndexCandidates s' /\ exists tip, Tip (chainActive s') = Some tip /\ on_way (idx s) target tip)))).

Lemma way_kept s s' target (bf : CBlockIndex) l : keeps s s' -> chainActive s' = take (Z.to_nat (nHeight bf + 1)) (chainActive s) ++ l ->
  (forall x, on_way (idx s) target x -> in_chain (idx s) (chainActive s) x -> exists h, ancestor (idx s) target h = Some x /\ h <= nHeight bf) -> node_ok s ->
  forall x, on_way (idx s) target x -> in_chain (idx s) (chainActive s) x -> in_chain (idx s') (chainActive s') x.
Proof.
  intros Hk Ev Hfork Hs x Hx Hc. destruct (Hfork x Hx Hc) as (h & Hh & Hle). destruct Hc as (b & Hb & Hc).
  destruct (ancestor_height _ (co_index _ (nk_cand _ Hs)) _ _ _ Hh) as (b2 & Hb2 & <-). assert (b2 = b) as -> by congruence.
  destruct (akin_lookup _ _ (kp_akin _ _ Hk) x b Hb) as (b' & Hb' & Hkb). exists b'. split; [done|]. rewrite (same_height _ _ (ak_same _ _ Hkb)).
  destruct (chain_at_Some _ _ _ Hc) as [Hr Hl]. rewrite <- (Z2Nat.id (nHeight b)) by lia. rewrite chain_at_nat, Ev, lookup_app_l, lookup_take_lt by (rewrite ?length_take; lia).
  by rewrite Hl.
Qed.

Lemma step_spec s target b p bp pblock st : node_ok s -> live st s -> target ∈ setBlockIndexCandidates s -> idx s !! target = Some b ->
  Tip (chainActive s) = Some p -> idx s !! p = Some bp -> Genesis (chainActive s) = ancestor (idx s) target 0 -> nHeight b + 32 < 2 ^ 31 -> (forall block, pblock = Some block -> intact (phashBlock b) block) ->
  ends (ActivateBestChainStep target pblock st s) (step_ends target (nChainWork bp) s).
Proof.
  intros Hs Hst Htg Hb Ht Hp Hgen H31 Hint. unfold ActivateBestChainStep. rewrite Ht, Hp. cbn [deref mbind outcome_bind].
  destruct (fork_found s target b p bp Hs Hb Ht Hp Hgen) as (f & bf & -> & Hbf & Hhf & Hfork & Haf & Hhigh). cbn [mbind outcome_bind].
  set (n := Z.to_nat (nHeight bf + 1)) in *. assert (0 < n)%nat as Hn by lia. eapply ends_bind; [apply (disconnect_ends (Some f) n); [done|done|done|lia]|].
  intros [[e st1] s1]. cbn [fst snd]. intros (Hs1 & Et & Ec & Hend).
  assert (keeps s s1) as Hk1 by (split; [done|rewrite Et; apply akin_index_refl|by rewrite Ec]).
  destruct e as [|ret| |]; try done.
  2:{ destruct Hend as [(k & Hnk & Ev1) Hstuck]. cbn. split; [done|]. split; [exists k, []; rewrite app_nil_r; split; [lia|]; split; [done|]; split; [done|]; split; [done|]; by apply pruned_same|]. auto. }
  destruct Hend as [Ev1 Hst1]. rewrite Et, Hbf. cbn [deref mbind outcome_bind]. rewrite Hb. cbn [deref mbind outcome_bind].
  assert (Tip (chainActive s1) = Some f) as Htf by (rewrite Ev1; apply Hfork).
  eapply ends_bind; [apply (batches_ends target pblock (Some (nChainWork bp)) _ (nHeight bf) st1 s1 b Hs1 Hst1); rewrite ?Et, ?Ec, ?Htf; try done; [lia|]|].
  { intros w [= <-]. by apply (co_work _ (nk_cand _ Hs) p). }
  intros [[e st2] s2]. unfold batch_end. cbn [fst snd]. rewrite Et. intros (Hk2 & (l & Ev2 & Hway & Hacc & Hpr & Hl) & Hend). pose proof (keeps_trans _ _ _ Hk1 Hk2) as Hk. rewrite Ev1 in Ev2.
  assert (pruned s l s2) as Hpr2 by (unfold pruned in *; rewrite <- Et, <- Ec; exact Hpr).
  pose proof (way_kept s s2 target bf (map Some l) Hk Ev2 Hhigh Hs) as Hkept.
  set (F := fun q : Node W => if bool_decide (Some f = Some p) then q else set_world (mempool_reorg (n_world q)) q).
  assert (keeps s (F s2)) as Hk3 by (unfold F; destruct (bool_decide _); [done|]; destruct Hk; split; [by apply node_ok_world|done|done]).
  assert (chainActive (F s2) = chainActive s2 /\ n_tree (F s2) = n_tree s2 /\ setBlockIndexCandidates (F s2) = setBlockIndexCandidates s2) as (EF1 & EF2 & EF3) by (unfold F; by destruct (bool_decide _)).
  assert (live st2 s2 -> live st2 (F s2)) as HF by (intros [? Hsy]; split; [done|]; rewrite EF1; unfold F; destruct (bool_decide _); [done|]; by apply (mempool_synced _ _ Hsy)).
  assert (forall s3, chainActive s3 = chainActive s2 -> n_tree s3 = n_tree s2 -> setBlockIndexCandidates s3 = setBlockIndexCandidates s2 ->
    exists k l, (0 < k)%nat /\ chainActive s3 = take k (chainActive s) ++ map Some l /\ Forall (on_way (idx s) target) l /\ Forall accepts l /\ pruned s l s3) as Hch.
  { intros s3 E1 E2 E3. exists n, l. rewrite E1. do 4 (split; [done|]). unfold pruned. by rewrite E2, E3. }
  destruct e as [|ret| |]; unfold ends, step_ends; try fold (F s2).
  - split; [done|]. split; [by apply Hch|]. intros _. right. rewrite EF1, EF2. destruct_and?. auto.
  - split; [done|]. split; [by apply Hch|]. congruence.
  - split; [done|]. split; [by apply Hch|]. intros _. destruct Hend as (Hm & x & (h & Hlt & Hx) & Hr). split; [auto|]. exists x. split; [by exists h|]. unfold banned. rewrite EF1, EF2, EF3. split; [|done].
    intros Hc. destruct (Hhigh x (ex_intro _ h Hx) Hc) as (h' & Hx' & Hle). pose proof (co_index _ (nk_cand _ Hs)) as Hi.
    destruct (ancestor_height _ Hi _ _ _ Hx) as (bx & Hbx & <-), (ancestor_height _ Hi _ _ _ Hx') as (bx' & Hbx' & <-). assert (bx' = bx) as -> by congruence. lia.
  - split; [done|]. split; [by apply Hch|]. intros _. right. unfold more_work. rewrite EF1, EF2, EF3. destruct Hend as (Hmw & Htg2 & Hm & Hff). split; [auto|]. do 2 (split; [done|]). right. split; [done|]. split; [done|].
    destruct (last l) as [tip|] eqn:El; [|apply last_None in El as ->; by destruct (Hl eq_refl)]. exists tip. rewrite Ev2, Tip_extend. unfold tip_of. rewrite El. split; [done|].
    apply last_Some in El as [l' ->]. apply Forall_app in Hway as [_ [? _]%Forall_cons]. done.
Qed.

End Step.

(** ** Loops that do not end *)

(** A step that changes nothing is repeated: nothing in the loop asks whether
    the chain has moved. *)
Lemma loop_spins {W} `{TipOps W} p b pblock st (s : Node W) : tIndex (n_tree s) !! p = Some b -> Tip (chainActive s) <> Some p -> ShutdownRequested (n_world s) = false ->
  ActivateBestChainStep p (block_for pblock b) st s = Ret (true, false, st, s) -> forall fuel, activate_loop fuel (Some p) pblock st s = Abort.
Proof.
  intros Hb Hne Hsd Hstep. induction fuel as [|fuel IH]; cbn [activate_loop mbind outcome_bind]; rewrite bool_decide_false by congruence; rewrite Hb; cbn [deref mbind outcome_bind];
    rewrite Hstep; cbn [mbind outcome_bind negb]; rewrite Hsd; by rewrite bool_decide_false.
Qed.

(** C39: With an AssumeUTXO snapshot [ActivateBestChain] may run for ever.  When
    the active tip is a snapshot whose block has not arrived and the best usable
    candidate is not above it, [ActivateBestChainStep] refuses to leave the tip,
    reports success and leaves everything as it was, and the loop of
    [ActivateBestChain], which only ends when the tip is the block it wanted,
    asks it again; no amount of fuel is enough. *)
Theorem snapshot_fork_spins {W : Type} `{TipOps W} (pblock : option CBlock) (st : CValidationState) (s s' : Node W) (p tip : ptr) (b bt : CBlockIndex) (f : option ptr)
  (Hfind : FindMostWorkChain s = Ret (Some p, s'))
  (Hp : tIndex (n_tree s') !! p = Some b)
  (Htip : Tip (chainActive s') = Some tip) (Hbt : tIndex (n_tree s') !! tip = Some bt)
  (Hsnap : IsSnapshotChainstateActive (n_world s') = true) (Hbody : block_missing bt = true)
  (Hfork : FindFork (tIndex (n_tree s')) (chainActive s') (Some p) = Ret f) (Hne : f <> Some tip /\ p <> tip)
  (Hsd : ShutdownRequested (n_world s') = false) :
  ActivateBestChainStep p (block_for pblock b) st s' = Ret (true, false, st, s') /\
  forall fuel, ActivateBestChain fuel pblock st s = Abort.
Proof.
  destruct Hne as [Hf Hpt].
  assert (ActivateBestChainStep p (block_for pblock b) st s' = Ret (true, false, st, s')) as Hstep.
  { unfold ActivateBestChainStep. rewrite Htip, Hbt. cbn [deref mbind outcome_bind]. rewrite Hfork. cbn [mbind outcome_bind].
    destruct (length (chainActive s')); cbn [disconnect_blocks]; rewrite Htip, (bool_decide_false (Some tip = f)), Hbt by congruence; cbn [deref mbind outcome_bind]; unfold without_body; by rewrite Hsnap, Hbody. }
  split; [done|]. intros fuel. unfold ActivateBestChain. assert (activate_loop fuel None pblock st s = activate_loop fuel (Some p) pblock st s') as ->.
  { destruct fuel; cbn [activate_loop]; by rewrite Hfind. }
  by rewrite (loop_spins p b pblock st s') by (rewrite ?Htip; congruence).
Qed.

(** ** A node for the witnesses *)

(** The coins are told by the block they belong to; [invalid] breaks the
    rules. *)
Definition some_block : CBlock := mkBlock supply_header [] false.
Definition toy_ops (snapshot : bool) (invalid : ptr) : TipOps (option ptr) := {|
  ReadBlockFromDisk w b := if block_missing b then None else Some some_block;
  connect_coins block st p t w :=
    if bool_decide (p = invalid) then (DoS 100 false REJECT_INVALID (str "bad-txns-inputs-missingorspent") false [] st, t, w) else ((true, st), t, Some p);
  disconnect_coins block st p t w := ((true, st), match tIndex t !! p with Some b => pprev b | None => None end);
  FlushStateToDisk st w := ((true, st), w);
  mempool_connected block h w := w;
  mempool_disconnected block w := w;
  mempool_reorg w := w;
  IsSnapshotChainstateActive w := snapshot;
  FlushStatePeriodic st w := ((true, st), w);
  MaybeStepBackgroundValidation w := w;
  ShutdownRequested w := false
|}.

(** The block 5 is a snapshot without its block; the chain of the block 4 is
    better and forks from it at the block 1. *)
Definition without_data (p : ptr) (t : BlockTree) : BlockTree := match tIndex t !! p with Some b => put_entry p (set_nStatus 0 b) t | None => t end.
Definition snapshot_node : Node (option ptr) := set_tree (without_data 5 (stored_tree [])) (stored_node [] (Some 5%nat)).
Definition snapshot_entry (p : ptr) : CBlockIndex := default (demo_block p) (tIndex (n_tree snapshot_node) !! p).

Lemma snapshot_fork_spins_witness :
  ActivateBestChainStep (H := toy_ops true 9) 4 None CValidationState_new snapshot_node = Ret (true, false, CValidationState_new, snapshot_node) /\
  forall fuel, ActivateBestChain (H := toy_ops true 9) fuel None CValidationState_new snapshot_node = Abort.
Proof.
  apply (snapshot_fork_spins (H := toy_ops true 9) None CValidationState_new snapshot_node snapshot_node 4 5 (snapshot_entry 4) (snapshot_entry 5) (Some 1%nat));
    [vm_compute; reflexivity..|split; discriminate|reflexivity].
Defined.
