(* ===== verification/BestChain.v ===== *)
(** * The best chain is activated ([validation.cpp])

    [ActivateBestChain] returns, and leaves the chain with the most work
    active: its loop switches to the best candidate, drops the candidates that
    turn out to be invalid, and ends when there is no better one. *)

From S2P Require Import Prelude ArithUint256 StrEncodings Uint256 Chain Params Versionbits Pow Tx CheckTx Coins Undo AuxPow ConnectBlock Headers Candidates Activate.
From stdpp Require Import list gmap.
#[local] Open Scope Z_scope.

(** ** Sound chains *)

(** All blocks down to the genesis block are there, and none is known to be
    invalid. *)
Definition sound (m : index) (p : ptr) : Prop := forall h q b, ancestor m p h = Some q -> m !! q = Some b -> block_good b.

Lemma akin_good b b' : akin b b' -> block_good b' -> block_good b.
Proof. intros [_ _ _ Hf Hm] [Hf' Hm']. split; [|congruence]. destruct (block_failed b); [|done]. rewrite Hf in Hf' by done. done. Qed.

Lemma sound_akin m m' p : akin_index m m' -> sound m' p -> sound m p.
Proof.
  intros Ha Hp h q b Hq Hb. destruct (akin_lookup _ _ Ha q b Hb) as (b' & Hb' & Hk). apply (akin_good b b' Hk).
  by apply (Hp h q); [rewrite (akin_ancestor _ _ Ha)|].
Qed.

(** Soundness is kept where no block of the chain fails. *)
Lemma sound_kept m m' p : akin_index m m' -> sound m p ->
  (forall h q b b', ancestor m p h = Some q -> m !! q = Some b -> m' !! q = Some b' -> block_failed b' = block_failed b) -> sound m' p.
Proof.
  intros Ha Hp Hf h q b' Hq Hb'. rewrite (akin_ancestor _ _ Ha) in Hq. destruct (akin_back _ _ Ha q b' Hb') as (b & Hb & Hk).
  destruct (Hp h q b Hq Hb) as [G1 G2]. split; [by rewrite (Hf h q b b')|]. by rewrite (ak_missing _ _ Hk).
Qed.

Section Sound.
Context (m : index) (Hm : wf_index m).

Lemma sound_self p b : sound m p -> m !! p = Some b -> block_good b.
Proof. intros Hp Hb. apply (Hp (nHeight b) p b); [by apply ancestor_self|done]. Qed.

Lemma sound_way p q : sound m p -> on_way m p q -> sound m q.
Proof.
  intros Hp [h1 E1] h2 r b Hr Hb. destruct (m !! p) as [bp|] eqn:Ep; [|by unfold ancestor in E1; rewrite Ep in E1].
  destruct (ancestor_height m Hm _ _ _ E1) as (bq & Hq & <-). pose proof (ancestor_range m q bq h2 r Hq Hr).
  apply (Hp h2 r b); [|done]. by rewrite (ancestor_trans m Hm p q bp (nHeight bq) h2 Ep E1) by lia.
Qed.

Context (v : list (option ptr)) (Hv : wf_chain m v).

Lemma in_chain_down p h q : in_chain m v p -> ancestor m p h = Some q -> in_chain m v q.
Proof.
  intros (b & Hb & Hc) Hq. destruct (chain_at_Some _ _ _ Hc) as [Hr Hl]. destruct (ancestor_height m Hm _ _ _ Hq) as (bq & Hbq & <-).
  pose proof (ancestor_range m p b _ q Hb Hq) as Hh. pose proof (chain_ancestor m Hm v _ p Hv Hl (Z.to_nat (nHeight bq)) ltac:(lia)) as E.
  rewrite Z2Nat.id, Hq in E by lia. exists bq. split; [done|]. rewrite <- (Z2Nat.id (nHeight bq)) by lia. by rewrite chain_at_nat, E.
Qed.

Definition chain_good : Prop := forall q b, in_chain m v q -> m !! q = Some b -> block_good b.
Context (Hg : chain_good).

Lemma sound_active p : in_chain m v p -> sound m p.
Proof. intros Hp h q b Hq Hb. apply (Hg q); [by apply (in_chain_down p h)|done]. Qed.

Lemma usable_sound p b : m !! p = Some b -> (usable m v (Some p) <-> sound m p).
Proof.
  intros Hb. split.
  - intros Hu. remember (Some p) as o eqn:Eo. revert p b Hb Eo. induction Hu as [|q Hc|q c Hq Hgd Hu IH]; intros p b Hb Eo; [done| |]; injection Eo as ->; [by apply sound_active|].
    assert (c = b) as -> by congruence. intros h r br Hr Hbr. pose proof (ancestor_range m p b h r Hb Hr). destruct (decide (h = nHeight b)) as [->|Hne].
    + rewrite (ancestor_self m Hm p b Hb) in Hr. congruence.
    + pose proof (wf_prev m Hm p b Hb) as Hw. destruct (pprev b) as [q|] eqn:Eq; [|lia]. destruct Hw as (bq & Hbq & _).
      apply (IH q bq Hbq eq_refl h r); [|done]. by rewrite <- (ancestor_prev m Hm p q b h Hb Eq) by lia.
  - pose proof (wf_nonneg m Hm p b Hb) as Hn. remember (Z.to_nat (nHeight b)) as n eqn:En. revert p b Hb Hn En. induction n as [|n IH]; intros p b Hb Hn En Hs;
      (apply (usable_step m v p b Hb); [by apply (sound_self p)|]); pose proof (wf_prev m Hm p b Hb) as Hw; (destruct (pprev b) as [q|] eqn:Eq; [|constructor]); destruct Hw as (bq & Hbq & Hh);
      pose proof (wf_nonneg m Hm q bq Hbq); [lia|]. apply (IH q bq Hbq); [lia|lia|]. apply (sound_way p); [done|]. exists (nHeight bq).
    rewrite (ancestor_prev m Hm p q b _ Hb Eq) by lia. by apply ancestor_self.
Qed.
End Sound.

(** Marking is a change of the status. *)
Lemma marks_akin v m m' : marks v m m' -> akin_index m m'.
Proof.
  intros Hmk q. destruct (Hmk q) as [->|(b & x & bx & -> & -> & _)]; [apply akin_index_refl|]. split; [apply same_status|done|done|intros _; apply mark_failed|].
  unfold block_missing, mark. cbn [set_nStatus nStatus]. rewrite Z.land_lor_distr_l. change (Z.land BLOCK_FAILED_CHILD BLOCK_HAVE_DATA) with 0. by rewrite Z.lor_0_r.
Qed.

(** No block of the active chain is marked. *)
Lemma marks_chain_good v m m' : marks v m m' -> chain_good m v -> chain_good m' v.
Proof.
  intros Hmk Hg q b Hc Hb. apply (marks_in_chain _ _ _ Hmk) in Hc. destruct (Hmk q) as [E|(b0 & x & bx & _ & _ & Hbl & _)]; [apply (Hg q); [done|congruence]|].
  exfalso. by destruct Hbl.
Qed.

Lemma less_total m p q bp bq : works_ok m -> m !! p = Some bp -> m !! q = Some bq -> CBlockIndexWorkComparator m p q = false -> p = q \/ CBlockIndexWorkComparator m q p = true.
Proof.
  intros Hw Hp Hq E. apply not_true_iff_false in E. rewrite (less_spec m Hw p q bp bq) in E by done. rewrite (less_spec m Hw q p bq bp) by done.
  destruct (decide (p = q)) as [|Hne]; [by left|right]. unfold ranks_below in *. lia.
Qed.

Section Loop.
Context {W : Type} `{LW : TipLaws W intact synced accepts rejects}.
#[local] Abbreviation idx s := (tIndex (n_tree s)).
#[local] Abbreviation banned := (Activate.banned (rejects := rejects)).
#[local] Abbreviation live := (Activate.live (synced := synced)).
#[local] Abbreviation step_ends := (Activate.step_ends (synced := synced) (accepts := accepts) (rejects := rejects)).
Implicit Types (s : Node W) (st : CValidationState).

(** ** The state of the node *)

(** The chains start with the block [g]; all blocks of the active chain are
    there; heights leave room for a batch of blocks. *)
Record ready (g : ptr) (s : Node W) : Prop := {
  rd_ok : node_ok s;
  rd_good : chain_good (idx s) (chainActive s);
  rd_genesis : Genesis (chainActive s) = Some g;
  rd_from : forall q, q ∈ setBlockIndexCandidates s -> ancestor (idx s) q 0 = Some g;
  rd_high : forall p b, idx s !! p = Some b -> nHeight b + 32 < 2 ^ 31
}.

Lemma ready_tip g s : ready g s -> exists p b, Tip (chainActive s) = Some p /\ idx s !! p = Some b.
Proof.
  intros [Hok _ Hg _ _]. destruct (Tip (chainActive s)) as [p|] eqn:Et; [destruct (Tip_index s p Hok Et) as (b & Hb & _); eauto|].
  by rewrite (Tip_None _ _ (nk_chain _ Hok) Et) in Hg.
Qed.

Lemma ready_keeps g s s' : ready g s -> keeps s s' -> chain_good (idx s') (chainActive s') -> Genesis (chainActive s') = Some g -> ready g s'.
Proof.
  intros [Hok _ _ Hfrom Hhi] [Hok' Ha Hc] Hg Hgen. split; [done|done|done| |].
  - intros q Hq. rewrite (akin_ancestor _ _ Ha). by apply Hfrom, Hc.
  - intros p b' Hp. destruct (akin_back _ _ Ha p b' Hp) as (b & Hb & Hk). rewrite (same_height _ _ (ak_same _ _ Hk)). by apply (Hhi p).
Qed.

Lemma found_keeps s r s' : node_ok s -> found s r s' -> keeps s s'.
Proof.
  intros Hok [Hu Hc Hmk Hsub _ _]. pose proof (marks_akin _ _ _ Hmk) as Ha. split; [|done|done]. apply (node_ok_akin s); [done|done|done| |apply Hu].
  intros p Hp. destruct (co_invalid _ Hc p Hp) as [b' Hb']. destruct (akin_back _ _ Ha p b' Hb') as (b & -> & _). eauto.
Qed.

Lemma found_ready g s r s' : ready g s -> found s r s' -> ready g s'.
Proof.
  intros Hr Hf. apply (ready_keeps g s); [done|apply (found_keeps s r); [apply Hr|done]| |]; rewrite (proj1 (fo_unmoved _ _ _ Hf)); [|apply Hr].
  apply (marks_chain_good _ _ _ (fo_marks _ _ _ Hf)), Hr.
Qed.

(** [FindMostWorkChain] does not change which chains are sound. *)
Lemma found_sound g s r s' p : ready g s -> found s r s' -> is_Some (idx s !! p) -> (sound (idx s') p <-> sound (idx s) p).
Proof.
  intros Hr Hf [b Hb]. pose proof (marks_akin _ _ _ (fo_marks _ _ _ Hf)) as Ha. destruct (akin_lookup _ _ Ha p b Hb) as (b' & Hb' & _).
  pose proof (found_ready _ _ _ _ Hr Hf) as Hr'. destruct (rd_ok _ _ Hr) as [[Hi _ _ _ _] _ Hc], (rd_ok _ _ Hr') as [[Hi' _ _ _ _] _ Hc'].
  rewrite <- (usable_sound _ Hi' _ Hc' (rd_good _ _ Hr') p b' Hb'), <- (usable_sound _ Hi _ Hc (rd_good _ _ Hr) p b Hb).
  rewrite (proj1 (fo_unmoved _ _ _ Hf)). apply (marks_usable _ _ _ (fo_marks _ _ _ Hf)).
Qed.

(** ** A step *)

(** What a step that does not end in an error makes of the state. *)
Record stepped (target : ptr) (s s' : Node W) (l : list ptr) (x : option ptr) : Prop := {
  sp_keeps : keeps s s';
  sp_chain : exists k, (0 < k)%nat /\ chainActive s' = take k (chainActive s) ++ map Some l;
  sp_way : Forall (on_way (idx s) target) l;
  sp_accepts : Forall accepts l;
  sp_pruned : pruned s l s';
  sp_fails : forall q b b', x <> Some q -> idx s !! q = Some b -> idx s' !! q = Some b' -> block_failed b' = block_failed b;
  sp_banned : forall q, x = Some q -> on_way (idx s) target q /\ ~ in_chain (idx s) (chainActive s) q /\ banned s' q
}.

(** A block of the new chain is in the old one, or was connected. *)
Lemma stepped_in_chain target s s' l x q : stepped target s s' l x -> in_chain (idx s') (chainActive s') q -> in_chain (idx s) (chainActive s) q \/ q ∈ l.
Proof.
  intros Hsp (b' & Hb' & Hc). destruct (akin_back _ _ (kp_akin _ _ (sp_keeps _ _ _ _ _ Hsp)) q b' Hb') as (b & Hb & Hk).
  destruct (sp_chain _ _ _ _ _ Hsp) as (k & _ & Ev). destruct (chain_at_Some _ _ _ Hc) as [Hr Hl]. rewrite (same_height _ _ (ak_same _ _ Hk)) in *. rewrite Ev in Hl.
  apply lookup_app_Some in Hl as [Hl|[_ Hl]].
  - left. exists b. split; [done|]. rewrite <- (Z2Nat.id (nHeight b)) by lia. rewrite chain_at_nat.
    apply lookup_take_Some in Hl as [-> _]. done.
  - right. apply list_elem_of_lookup_2 in Hl. apply list_elem_of_fmap in Hl as (y & [= ->] & Hy). done.
Qed.

Lemma stepped_good g target s s' l x : ready g s -> sound (idx s) target -> stepped target s s' l x -> chain_good (idx s') (chainActive s').
Proof.
  intros Hr Ht Hsp q b' Hc Hb'. destruct (akin_back _ _ (kp_akin _ _ (sp_keeps _ _ _ _ _ Hsp)) q b' Hb') as (b & Hb & Hk).
  assert (block_good b) as [G1 G2].
  { destruct (stepped_in_chain _ _ _ _ _ _ Hsp Hc) as [Hq|Hq]; [by apply (rd_good _ _ Hr q)|].
    pose proof (sp_way _ _ _ _ _ Hsp) as Hw. rewrite Forall_forall in Hw. destruct (Hw q Hq) as [h Hh]. by apply (Ht h q). }
  split; [|by rewrite (ak_missing _ _ Hk)]. rewrite (sp_fails _ _ _ _ _ Hsp q b b'); [done| |done|done]. intros ->.
  by destruct (sp_banned _ _ _ _ _ Hsp q eq_refl) as (_ & _ & _ & _ & _ & Hn).
Qed.

Lemma stepped_ready g target s s' l x : ready g s -> sound (idx s) target -> stepped target s s' l x -> ready g s'.
Proof.
  intros Hr Ht Hsp. apply (ready_keeps g s); [done|apply Hsp|by apply (stepped_good g target s s' l x)|].
  destruct (sp_chain _ _ _ _ _ Hsp) as (k & Hk & ->). pose proof (rd_genesis _ _ Hr) as Hg. unfold Genesis in *. change 0 with (Z.of_nat 0) in *. rewrite chain_at_nat in *.
  destruct (chainActive s) as [|y v']; [done|]. by destruct k as [|k]; [lia|].
Qed.

Context (no_snapshot : forall w, IsSnapshotChainstateActive w = false).

Lemma step_ends_stepped target w s st' s' (inv : bool) : step_ends target w s (true, inv, st', s') ->
  exists l x, stepped target s s' l x /\ live st' s' /\
    if inv then is_Some x
    else x = None /\ (Tip (chainActive s') = Some target \/
      (more_work s' (Some w) /\ target ∈ setBlockIndexCandidates s' /\ exists tip, Tip (chainActive s') = Some tip /\ on_way (idx s) target tip)).
Proof.
  intros (Hk & (k & l & Hk0 & Ev & Hw & Hacc & Hpr) & Hend). specialize (Hend eq_refl). destruct inv.
  - destruct Hend as (Hl & x & Hx & Hnc & Hb & Hbut). exists l, (Some x). split; [|split; [done|by exists x]]. split; try done; [by exists k| |by intros ? [= <-]].
    intros q b b' Hne. apply Hbut. congruence.
  - destruct Hend as [(tip & b & _ & _ & Hs)|(Hl & Hff & _ & Ht)]; [unfold without_body in Hs; by rewrite no_snapshot in Hs|].
    exists l, None. split; [|done]. split; try done; [by exists k|]. intros q b b' _. apply Hff.
Qed.

(** ** Termination *)

(** The blocks that have not failed. *)
Definition alive (m : index) : gset ptr := dom (filter (fun kb => block_failed kb.2 = false) m).

Lemma elem_of_alive m p : p ∈ alive m <-> exists b, m !! p = Some b /\ block_failed b = false.
Proof. unfold alive. rewrite elem_of_dom. split; [intros [b [? ?]%map_lookup_filter_Some]; eauto|]. intros (b & ? & ?). exists b. by apply map_lookup_filter_Some. Qed.

Lemma alive_akin m m' : akin_index m m' -> alive m' ⊆ alive m.
Proof.
  intros Ha p. rewrite !elem_of_alive. intros (b' & Hb' & Hf). destruct (akin_back _ _ Ha p b' Hb') as (b & Hb & Hk). exists b. split; [done|].
  destruct (block_failed b) eqn:E; [|done]. by rewrite (ak_failed _ _ Hk E) in Hf.
Qed.

Lemma alive_less m m' p : akin_index m m' -> p ∈ alive m -> failed m' p -> (size (alive m') < size (alive m))%nat.
Proof.
  intros Ha Hp (b' & Hb' & Hf). apply subset_size. split; [by apply alive_akin|]. intros Hsub. apply Hsub, elem_of_alive in Hp as (b & Hb & E). congruence.
Qed.

(** ** The loop *)

Context (no_shutdown : forall w, ShutdownRequested w = false).
Context (pblock : option CBlock) (given : forall block h, pblock = Some block -> blob_eq (header_GetHash (b_header block)) h = true -> intact h block).
Context (g : ptr).

(** What is to be shown of the states between the steps, and of the block
    that was chosen. *)
Context (I : Node W -> Prop) (B : Node W -> ptr -> Prop).
Context (I_find : forall s r s', ready g s -> I s -> found s r s' -> I s' /\ forall p, r = Some p -> B s' p).
Context (I_step : forall s s' target l x, ready g s -> I s -> target ∈ setBlockIndexCandidates s -> sound (idx s) target -> stepped target s s' l x -> I s').
Context (B_keeps : forall s s' p, keeps s s' -> B s p -> B s' p).

Definition finished s : Prop := ready g s /\ I s /\ (setBlockIndexCandidates s = ∅ \/ exists p, Tip (chainActive s) = Some p /\ B s p).
Definition loop_end (r : activation * CValidationState * Node W) : Prop := match r.1.1 with Done false => True | _ => finished r.2 end.

Lemma found_live st s r s' : found s r s' -> live st s -> live st s'.
Proof. intros Hf [Hst Hsy]. destruct (fo_unmoved _ _ _ Hf) as (Ev & Ew & _). split; [done|]. by rewrite Ev, Ew. Qed.

Lemma chosen_ends n : (forall s st, ready g s -> I s -> live st s -> (size (alive (idx s)) < n)%nat -> exists fuel, ends (activate_loop fuel None pblock st s) loop_end) ->
  forall k s st p bp tip bt, ready g s -> I s -> live st s -> (size (alive (idx s)) <= n)%nat -> p ∈ setBlockIndexCandidates s -> sound (idx s) p -> B s p ->
    idx s !! p = Some bp -> Tip (chainActive s) = Some tip -> idx s !! tip = Some bt -> eval (nChainWork bp) - eval (nChainWork bt) <= Z.of_nat k ->
    exists fuel, ends (activate_loop fuel (Some p) pblock st s) loop_end.
Proof.
  intros IHn. induction k as [k IHk] using lt_wf_ind. intros s st p bp tip bt Hr HI Hl Hn Hp Hs HB Hbp Ht Hbt Hk.
  destruct (decide (p = tip)) as [->|Hne].
  { exists 0%nat. cbn [activate_loop mbind outcome_bind]. rewrite bool_decide_true by done. cbn. split; [done|]. split; [done|]. right. by exists tip. }
  pose proof (rd_ok _ _ Hr) as Hok. pose proof (co_index _ (nk_cand _ Hok)) as Hi.
  assert (ends (ActivateBestChainStep p (block_for pblock bp) st s) (step_ends p (nChainWork bt) s)) as Hstep.
  { apply (step_spec s p bp tip bt); [done|done|done|done|done|done| |by apply (rd_high _ _ Hr p)|].
    - rewrite (rd_genesis _ _ Hr). symmetry. by apply (rd_from _ _ Hr).
    - intros block E. unfold block_for in E. destruct pblock as [block'|] eqn:Ep; [|done]. destruct (blob_eq _ _) eqn:Eq; [|done]. injection E as <-. by apply given. }
  destruct (ActivateBestChainStep p (block_for pblock bp) st s) as [[[[ok inv] st'] s']|] eqn:Est; [|done]. cbn in Hstep.
  assert (forall fuel Q, (if negb ok then Q (Ret (Done false, st', s'))
      else Q (if bool_decide (Tip (chainActive s') = if inv then None else Some p) then Ret (LoopLeft, st', s')
              else match fuel with O => Abort | S fuel' => activate_loop fuel' (if inv then None else Some p) pblock st' s' end)) -> Q (activate_loop fuel (Some p) pblock st s)) as Hgo.
  { intros fuel Q HQ. destruct fuel; cbn [activate_loop mbind outcome_bind]; rewrite bool_decide_false by congruence; rewrite Hbp; cbn [deref mbind outcome_bind]; rewrite Est; cbn [mbind outcome_bind];
      destruct ok; cbn [negb] in *; try done; rewrite no_shutdown; done. }
  destruct ok; [|exists 0%nat; by apply (Hgo 0%nat (fun o => ends o loop_end))]. cbn [negb] in Hgo.
  destruct (step_ends_stepped _ _ _ _ _ _ Hstep) as (l & x & Hsp & Hl' & Hend). pose proof (stepped_ready _ _ _ _ _ _ Hr Hs Hsp) as Hr'.
  pose proof (I_step _ _ _ _ _ Hr HI Hp Hs Hsp) as HI'. pose proof (sp_keeps _ _ _ _ _ Hsp) as Hk'. pose proof (kp_akin _ _ Hk') as Ha. destruct inv.
  - destruct Hend as [y ->]. destruct (sp_banned _ _ _ _ _ Hsp y eq_refl) as ([h Hy] & _ & Hf & _). destruct (ancestor_height _ Hi _ _ _ Hy) as (by' & Hby & _).
    destruct (IHn s' st' Hr' HI' Hl') as [fuel Hfuel].
    { apply (Nat.lt_le_trans _ (size (alive (idx s)))); [|done]. apply (alive_less _ _ y Ha); [|done]. apply elem_of_alive. exists by'. split; [done|]. by apply (Hs h y). }
    exists (S fuel). apply (Hgo (S fuel) (fun o => ends o loop_end)). destruct (ready_tip _ _ Hr') as (? & ? & -> & _). done.
  - destruct Hend as [-> [Ht'|(Hmw & Hp' & tip' & Ht' & Hw)]].
    + exists 0%nat. apply (Hgo 0%nat (fun o => ends o loop_end)). rewrite bool_decide_true by done. cbn. split; [done|]. split; [done|]. right. exists p. split; [done|]. by apply (B_keeps s).
    + destruct (decide (tip' = p)) as [->|Hne'].
      { exists 0%nat. apply (Hgo 0%nat (fun o => ends o loop_end)). rewrite bool_decide_true by done. cbn. split; [done|]. split; [done|]. right. exists p. split; [done|]. by apply (B_keeps s). }
      destruct Hmw as (tip2 & b2 & Ht2 & Hb2 & Hmore). assert (tip2 = tip') as -> by congruence. destruct (akin_lookup _ _ Ha p bp Hbp) as (bp' & Hbp' & Hkp).
      assert (eval (nChainWork b2) <= eval (nChainWork bp)) as Hle.
      { destruct Hw as [h Hw]. destruct (akin_back _ _ Ha tip' b2 Hb2) as (b1 & Hb1 & Hk1). rewrite (same_work _ _ (ak_same _ _ Hk1)).
        destruct (ancestor_work _ p bp h tip' b1 Hi (nk_work _ Hok) Hbp Hw Hb1) as [->|]; [assert (b1 = bp) as -> by congruence|]; lia. }
      destruct (IHk (Z.to_nat (eval (nChainWork bp) - eval (nChainWork b2))) ltac:(lia) s' st' p bp' tip' b2) as [fuel Hfuel]; try done.
      * etransitivity; [|exact Hn]. apply subseteq_size. by apply alive_akin.
      * apply (sound_kept _ _ _ Ha Hs). intros h q b b' _. apply (sp_fails _ _ _ _ _ Hsp). done.
      * by apply (B_keeps s).
      * rewrite (same_work _ _ (ak_same _ _ Hkp)). lia.
      * exists (S fuel). apply (Hgo (S fuel) (fun o => ends o loop_end)). rewrite bool_decide_false by congruence. done.
Qed.

Lemma loop_ends n : forall s st, ready g s -> I s -> live st s -> (size (alive (idx s)) < n)%nat -> exists fuel, ends (activate_loop fuel None pblock st s) loop_end.
Proof.
  induction n as [|n IH]; intros s st Hr HI Hl Hn; [lia|]. destruct (FindMostWorkChain_spec (size (setBlockIndexCandidates s)) s (nk_cand _ (rd_ok _ _ Hr)) (le_n _)) as (r & s1 & E & Hf).
  destruct (I_find _ _ _ Hr HI Hf) as [HI1 HB1]. pose proof (found_ready _ _ _ _ Hr Hf) as Hr1. destruct r as [p|].
  - destruct (fo_best _ _ _ Hf) as (Hp & Hu & _). destruct (co_cand _ (fo_ok _ _ _ Hf) p Hp) as (bp & Hbp & _). destruct (ready_tip _ _ Hr1) as (tip & bt & Ht & Hbt).
    pose proof (marks_akin _ _ _ (fo_marks _ _ _ Hf)) as Ha. destruct (akin_back _ _ Ha p bp Hbp) as (b0 & Hb0 & _).
    assert (sound (idx s1) p) as Hs.
    { apply (found_sound _ _ _ _ _ Hr Hf); [by exists b0|]. destruct (rd_ok _ _ Hr) as [[Hi _ _ _ _] _ Hc]. by apply (usable_sound _ Hi _ Hc (rd_good _ _ Hr) p b0 Hb0). }
    destruct (chosen_ends n IH (Z.to_nat (eval (nChainWork bp) - eval (nChainWork bt))) s1 st p bp tip bt) as [fuel Hfuel]; try done.
    + by apply (found_live _ s (Some p)).
    + apply (Nat.le_trans _ (size (alive (idx s)))); [|lia]. apply subseteq_size. by apply alive_akin.
    + by apply HB1.
    + lia.
    + exists fuel. destruct fuel; cbn [activate_loop] in *; unfold FindMostWorkChain; rewrite E; done.
  - exists 0%nat. cbn [activate_loop]. unfold FindMostWorkChain. rewrite E. cbn. split; [done|]. split; [done|]. left. apply (fo_best _ _ _ Hf).
Qed.
End Loop.

(** More fuel does not change the result. *)
Lemma activate_loop_mono {W} `{TipOps W} fuel fuel' o pblock st (s : Node W) r : (fuel <= fuel')%nat -> activate_loop fuel o pblock st s = Ret r -> activate_loop fuel' o pblock st s = Ret r.
Proof.
  revert fuel' o st s. induction fuel as [|fuel IH]; intros fuel' o st s Hle; destruct fuel' as [|fuel']; try lia; [done| |]; cbn [activate_loop];
    (destruct (match o with Some _ => _ | None => _ end) as [[[p|] s1]|]; cbn [mbind outcome_bind]; [|done|done]); (destruct (bool_decide _); [done|]);
    (destruct (deref _) as [b|]; cbn [mbind outcome_bind]; [|done]); (destruct (ActivateBestChainStep _ _ _ _) as [[[[ok inv] st'] s']|]; cbn [mbind outcome_bind]; [|done]);
    (destruct (negb ok); [done|]); (destruct (ShutdownRequested _); [done|]); (destruct (bool_decide _); [done|]); [done|]. apply IH. lia.
Qed.

(** ** The best chain *)

Lemma way_tx m p b q bq : wf_index m -> txs_linked m -> m !! p = Some b -> nChainTx b <> 0 -> on_way m p q -> m !! q = Some bq -> nChainTx bq <> 0.
Proof.
  intros Hm Hl Hp Htx [h Hq] Hbq. pose proof (wf_nonneg m Hm p b Hp) as Hn. remember (Z.to_nat (nHeight b)) as n eqn:En. revert p b Hp Htx Hq Hn En.
  induction n as [|n IH]; intros p b Hp Htx Hq Hn En; pose proof (ancestor_range m p b h q Hp Hq) as Hr;
    (destruct (decide (h = nHeight b)) as [->|Hne]; [rewrite (ancestor_self m Hm p b Hp) in Hq; congruence|]); [lia|].
  pose proof (wf_prev m Hm p b Hp) as Hw. destruct (pprev b) as [r|] eqn:Er; [|lia]. destruct Hw as (br & Hbr & Hh).
  rewrite (ancestor_prev m Hm p r b h Hp Er) in Hq by lia. apply (IH r br Hbr); [by apply (Hl p b r br)|done|lia|lia].
Qed.

Lemma in_chain_at m v i x : wf_chain m v -> v !! i = Some (Some x) -> in_chain m v x.
Proof. intros Hv Hi. destruct (Hv i _ Hi) as (y & b & [= <-] & Hb & Hh & _). exists b. split; [done|]. by rewrite Hh, chain_at_nat, Hi. Qed.

Lemma in_chain_way m v x y : wf_index m -> wf_chain m v -> in_chain m v x -> Tip v = Some y -> on_way m y x.
Proof.
  intros Hm Hv (b & Hb & Hc) Ht. destruct (Tip_lookup m v Hv y Ht) as (Hl & _ & by' & Hby & Hh). destruct (chain_at_Some _ _ _ Hc) as [Hr Hx].
  exists (nHeight b). rewrite (chain_ancestor m Hm v _ y Hv Hl (Z.to_nat (nHeight b))) in Hx by lia. rewrite Z2Nat.id in Hx by lia. congruence.
Qed.

Section Best.
Context {W : Type} `{LW : TipLaws W intact synced accepts rejects}.
#[local] Abbreviation idx s := (tIndex (n_tree s)).
#[local] Abbreviation stepped := (stepped (accepts := accepts) (rejects := rejects)).
#[local] Abbreviation less s := (CBlockIndexWorkComparator (idx s)).
Implicit Types (s : Node W) (st : CValidationState).

(** A block that was connected is not found invalid: the rules do not depend
    on when a block is connected. *)
Context (consistent : forall p, accepts p -> rejects p -> False).

(** All sound chains that are not worse than [r] are candidates, and [r] is
    one whose blocks have been connected. *)
Record anchor s (r : ptr) : Prop := {
  an_cand : r ∈ setBlockIndexCandidates s;
  an_sound : sound (idx s) r;
  an_accepts : forall h q, ancestor (idx s) r h = Some q -> accepts q;
  an_full : forall q b, idx s !! q = Some b -> nChainTx b <> 0 -> sound (idx s) q -> less s q r = false -> q ∈ setBlockIndexCandidates s
}.

Definition chain_accepted s : Prop := forall q, in_chain (idx s) (chainActive s) q -> accepts q.

(** No sound chain is better than [p], whose blocks have all been received. *)
Definition unbeaten s (p : ptr) : Prop :=
  (exists b, idx s !! p = Some b /\ nChainTx b <> 0) /\ forall q b, idx s !! q = Some b -> nChainTx b <> 0 -> sound (idx s) q -> less s p q = false.

(** Chains of which no block was found invalid stay sound. *)
Definition retains s s' : Prop := forall q, sound (idx s) q -> (forall h x, ancestor (idx s) q h = Some x -> ~ rejects x) -> sound (idx s') q.

Lemma found_anchor g s r s' a : ready g s -> found s r s' -> anchor s a -> anchor s' a.
Proof.
  intros Hr Hf [Hc Hs Hacc Hfull]. pose proof (marks_akin _ _ _ (fo_marks _ _ _ Hf)) as Ha. destruct (rd_ok _ _ Hr) as [[Hi _ _ Hcand _] _ Hch].
  assert (forall q b, idx s !! q = Some b -> q ∈ setBlockIndexCandidates s -> sound (idx s) q -> q ∈ setBlockIndexCandidates s') as Hkept.
  { intros q b Hb Hq Hsq. apply (fo_kept _ _ _ Hf q Hq). by apply (usable_sound _ Hi _ Hch (rd_good _ _ Hr) q b Hb). }
  destruct (Hcand a Hc) as (b & Hb & _). split.
  - by apply (Hkept a b).
  - apply (found_sound _ _ _ _ _ Hr Hf); [by exists b|done].
  - intros h q. rewrite (akin_ancestor _ _ Ha). apply Hacc.
  - intros q b' Hb' Htx Hsq Hl. destruct (akin_back _ _ Ha q b' Hb') as (bq & Hbq & Hk). apply (found_sound _ _ _ _ _ Hr Hf) in Hsq; [|by exists bq].
    rewrite (akin_less _ _ Ha) in Hl. rewrite (ak_tx _ _ Hk) in Htx. apply (Hkept q bq); [done|by apply (Hfull q bq)|done].
Qed.

(** The chain that is chosen is the best one. *)
Lemma found_best g s p s' a : ready g s -> anchor s a -> found s (Some p) s' -> unbeaten s' p.
Proof.
  intros Hr [Hc Hs _ Hfull] Hf. split; [apply (co_cand _ (fo_ok _ _ _ Hf)), (fo_best _ _ _ Hf)|]. intros q b' Hb' Htx Hsq. pose proof (marks_akin _ _ _ (fo_marks _ _ _ Hf)) as Ha. destruct (rd_ok _ _ Hr) as [[Hi Hw _ Hcand _] _ Hch].
  destruct (akin_back _ _ Ha q b' Hb') as (bq & Hbq & Hk). apply (found_sound _ _ _ _ _ Hr Hf) in Hsq; [|by exists bq]. rewrite (ak_tx _ _ Hk) in Htx. rewrite (akin_less _ _ Ha).
  destruct (fo_best _ _ _ Hf) as (_ & _ & Hbest). destruct (Hcand a Hc) as (ba & Hba & _).
  assert (less s p a = false) as Hpa by (apply Hbest; [done|]; by apply (usable_sound _ Hi _ Hch (rd_good _ _ Hr) a ba Hba)).
  destruct (less s q a) eqn:Eqa.
  - apply not_true_iff_false. intros Epq. apply not_true_iff_false in Hpa. apply Hpa. by apply (less_trans _ Hw p q a).
  - apply Hbest; [by apply (Hfull q bq)|]. by apply (usable_sound _ Hi _ Hch (rd_good _ _ Hr) q bq Hbq).
Qed.

(** ** Steps *)

Lemma stepped_retains target s s' l x : stepped target s s' l x -> retains s s'.
Proof.
  intros Hsp q Hq Hrej. apply (sound_kept _ _ _ (kp_akin _ _ (sp_keeps _ _ _ _ _ Hsp)) Hq). intros h y b b' Hy. apply (sp_fails _ _ _ _ _ Hsp).
  intros ->. destruct (sp_banned _ _ _ _ _ Hsp y eq_refl) as (_ & _ & _ & _ & Hr & _). by apply (Hrej h y).
Qed.

Lemma stepped_accepted target s s' l x : stepped target s s' l x -> chain_accepted s -> chain_accepted s'.
Proof.
  intros Hsp Hacc q Hq. destruct (stepped_in_chain _ _ _ _ _ _ Hsp Hq) as [|Hl]; [by apply Hacc|].
  pose proof (sp_accepts _ _ _ _ _ Hsp) as Hf. rewrite Forall_forall in Hf. by apply Hf.
Qed.

(** The last block that was connected is the best of them. *)
Lemma stepped_last target s s' l x y z : stepped target s s' l x -> last l = Some y -> z ∈ l -> z = y \/ less s z y = true.
Proof.
  intros Hsp Hy Hz. pose proof (sp_keeps _ _ _ _ _ Hsp) as [[[Hi Hwk _ _ _] Hg Hch] Ha _]. destruct (sp_chain _ _ _ _ _ Hsp) as (k & _ & Ev).
  assert (Tip (chainActive s') = Some y) as Ht by (rewrite Ev, Tip_extend; unfold tip_of; by rewrite Hy).
  assert (in_chain (idx s') (chainActive s') z) as Hc.
  { apply list_elem_of_lookup_1 in Hz as [i Hi']. apply (in_chain_at _ _ (length (take k (chainActive s)) + i)); [done|]. rewrite Ev, lookup_app_r by lia.
    replace (_ + i - _)%nat with i by lia. by rewrite list_lookup_fmap, Hi'. }
  destruct (in_chain_way _ _ _ _ Hi Hch Hc Ht) as [h Hw]. destruct (Tip_lookup _ _ Hch y Ht) as (_ & _ & by' & Hby & _). destruct Hc as (bz & Hbz & _).
  rewrite <- (akin_less _ _ Ha). destruct (ancestor_work _ y by' h z bz Hi Hg Hby Hw Hbz) as [->|Hlt]; [by left|right].
  apply (less_spec _ Hwk z y bz by'); [done|done|]. by left.
Qed.

Lemma stepped_candidate target s s' l x q : stepped target s s' l x -> q ∈ setBlockIndexCandidates s -> sound (idx s') q -> (forall z, z ∈ l -> less s q z = false) ->
  q ∈ setBlockIndexCandidates s'.
Proof.
  intros Hsp Hq Hs Hl. destruct (sp_pruned _ _ _ _ _ Hsp q Hq) as [|[(b & Hb & Hf)|(z & Hz & E)]]; [done| |by rewrite Hl in E].
  destruct (sound_self _ (co_index _ (nk_cand _ (kp_ok _ _ (sp_keeps _ _ _ _ _ Hsp)))) q b Hs Hb) as [Hf' _]. congruence.
Qed.

Lemma anchor_stays target s s' l x a : works_ok (idx s) -> stepped target s s' l x -> anchor s a -> (forall z q, z ∈ l -> less s q a = false -> less s q z = false) -> anchor s' a.
Proof.
  intros Hw Hsp [Hc Hs Hacc Hfull] Hbelow. pose proof (kp_akin _ _ (sp_keeps _ _ _ _ _ Hsp)) as Ha.
  assert (sound (idx s') a) as Hs' by (apply (stepped_retains _ _ _ _ _ Hsp a Hs); intros h q Hq Hr; by apply (consistent q (Hacc h q Hq))). split.
  - apply (stepped_candidate _ _ _ _ _ _ Hsp); [done|done|]. intros z Hz. apply Hbelow; [done|]. by apply less_irrefl.
  - done.
  - intros h q. rewrite (akin_ancestor _ _ Ha). apply Hacc.
  - intros q b' Hb' Htx Hsq Hl. destruct (akin_back _ _ Ha q b' Hb') as (b & Hb & Hk). rewrite (ak_tx _ _ Hk) in Htx. rewrite (akin_less _ _ Ha) in Hl.
    apply (stepped_candidate _ _ _ _ _ _ Hsp); [|done|]; [apply (Hfull q b); [done|done| |done]; by apply (sound_akin _ _ _ Ha)|]. intros z Hz. by apply Hbelow.
Qed.

Lemma anchor_moves g target s s' l x a y : ready g s -> target ∈ setBlockIndexCandidates s -> sound (idx s) target -> stepped target s s' l x -> chain_accepted s' -> anchor s a ->
  last l = Some y -> less s y a = false -> anchor s' y.
Proof.
  intros Hr Htg Hst Hsp Hca [Hc Hs Hacc Hfull] Hy Hya. pose proof (kp_akin _ _ (sp_keeps _ _ _ _ _ Hsp)) as Ha. pose proof (stepped_ready _ _ _ _ _ _ Hr Hst Hsp) as Hr'.
  destruct (rd_ok _ _ Hr) as [[Hi Hw Hlk Hcand _] _ _]. destruct (rd_ok _ _ Hr') as [[Hi' _ _ _ _] _ Hch']. destruct (sp_chain _ _ _ _ _ Hsp) as (k & _ & Ev).
  assert (Tip (chainActive s') = Some y) as Ht by (rewrite Ev, Tip_extend; unfold tip_of; by rewrite Hy).
  assert (in_chain (idx s') (chainActive s') y) as Hyc by (destruct (Tip_lookup _ _ Hch' y Ht) as (Hl & _); by eapply in_chain_at).
  assert (sound (idx s') y) as Hsy by (by apply (sound_active _ Hi' _ Hch' (rd_good _ _ Hr'))).
  assert (on_way (idx s) target y) as Hway.
  { pose proof (sp_way _ _ _ _ _ Hsp) as Hf. apply last_Some in Hy as [l' ->]. by apply Forall_app in Hf as [_ [? _]%Forall_cons]. }
  assert (exists by', idx s !! y = Some by') as [by' Hby] by (destruct Hway as [h Hh]; destruct (ancestor_height _ Hi _ _ _ Hh) as (? & ? & _); eauto).
  destruct (Hcand target Htg) as (bt & Hbt & Htx). destruct (Hcand a Hc) as (ba & Hba & _).
  assert (forall z q, z ∈ l -> less s q y = false -> less s q z = false) as Hbelow.
  { intros z q Hz Hqy. destruct (stepped_last _ _ _ _ _ _ _ Hsp Hy Hz) as [->|Hzy]; [done|]. apply not_true_iff_false. intros E. apply not_true_iff_false in Hqy. apply Hqy. by apply (less_trans _ Hw q z y). }
  split.
  - apply (stepped_candidate _ _ _ _ _ _ Hsp); [|done|].
    + apply (Hfull y by' Hby); [by apply (way_tx (idx s) target bt y by')| |done]. by apply (sound_akin _ _ _ Ha).
    + intros z Hz. apply Hbelow; [done|]. by apply less_irrefl.
  - done.
  - intros h q Hq. apply Hca. by apply (in_chain_down (idx s') Hi' (chainActive s') Hch' y h).
  - intros q b' Hb' Htxq Hsq Hl. destruct (akin_back _ _ Ha q b' Hb') as (b & Hb & Hk). rewrite (ak_tx _ _ Hk) in Htxq. rewrite (akin_less _ _ Ha) in Hl.
    apply (stepped_candidate _ _ _ _ _ _ Hsp); [|done|]; [apply (Hfull q b); [done|done|by apply (sound_akin _ _ _ Ha)|]|].
    + apply not_true_iff_false. intros Eqa. apply not_true_iff_false in Hl. apply Hl. destruct (less_total _ y a by' ba Hw Hby Hba Hya) as [->|Hay]; [done|]. by apply (less_trans _ Hw q a y).
    + intros z Hz. by apply Hbelow.
Qed.

Lemma stepped_anchor g target s s' l x a : ready g s -> target ∈ setBlockIndexCandidates s -> sound (idx s) target -> stepped target s s' l x -> chain_accepted s' -> anchor s a ->
  exists a', anchor s' a'.
Proof.
  intros Hr Htg Hst Hsp Hca Ha. pose proof (co_work _ (nk_cand _ (rd_ok _ _ Hr))) as Hw. destruct (last l) as [y|] eqn:Hy.
  - destruct (less s y a) eqn:Eya; [exists a|exists y; by apply (anchor_moves g target s s' l x a)]. apply (anchor_stays target s s' l x); [done|done|done|].
    intros z q Hz Hqa. apply not_true_iff_false. intros E. apply not_true_iff_false in Hqa. apply Hqa. apply (less_trans _ Hw q z a); [done|].
    destruct (stepped_last _ _ _ _ _ _ _ Hsp Hy Hz) as [->|Hzy]; [done|]. by apply (less_trans _ Hw z y a).
  - apply last_None in Hy as ->. exists a. apply (anchor_stays target s s' [] x); [done|done|done|]. intros z q Hz. by apply not_elem_of_nil in Hz.
Qed.

(** ** Activation *)

(** The states between the steps. *)
Definition progressing s0 s : Prop := chain_accepted s /\ (exists a, anchor s a) /\ retains s0 s /\ akin_index (idx s0) (idx s).

Lemma retains_trans s0 s s' : akin_index (idx s0) (idx s) -> retains s0 s -> retains s s' -> retains s0 s'.
Proof. intros Ha H1 H2 q Hq Hrej. apply H2; [by apply H1|]. intros h x Hx. apply (Hrej h). by rewrite <- (akin_ancestor _ _ Ha). Qed.

Lemma progressing_find g s0 s r s' : ready g s -> progressing s0 s -> found s r s' -> progressing s0 s' /\ forall p, r = Some p -> unbeaten s' p.
Proof.
  intros Hr (Hca & [a Ha] & Hre & Hk) Hf. pose proof (marks_akin _ _ _ (fo_marks _ _ _ Hf)) as Hm. split; [|intros p ->; by apply (found_best g s p s' a)].
  split; [|split; [exists a; by apply (found_anchor g s r)|split; [|by eapply akin_index_trans]]].
  - intros q Hq. apply Hca. rewrite (proj1 (fo_unmoved _ _ _ Hf)) in Hq. by apply (marks_in_chain _ _ _ (fo_marks _ _ _ Hf)).
  - apply (retains_trans _ s); [done|done|]. intros q Hq _. destruct (idx s !! q) as [b|] eqn:Eb; [apply (found_sound _ _ _ _ _ Hr Hf); [by exists b|done]|].
    intros h x b' Hx. unfold ancestor in Hx. pose proof (Hm q) as Hmq. rewrite Eb in Hmq. by destruct (idx s' !! q).
Qed.

Lemma progressing_step g s0 s s' target l x : ready g s -> progressing s0 s -> target ∈ setBlockIndexCandidates s -> sound (idx s) target -> stepped target s s' l x -> progressing s0 s'.
Proof.
  intros Hr (Hca & [a Ha] & Hre & Hk) Htg Hst Hsp. pose proof (stepped_accepted _ _ _ _ _ Hsp Hca) as Hca'. split; [done|]. split; [by apply (stepped_anchor g target s s' l x a)|].
  split; [apply (retains_trans _ s); [done|done|by eapply stepped_retains]|]. eapply akin_index_trans; [exact Hk|]. apply Hsp.
Qed.

Lemma unbeaten_keeps s s' p : keeps s s' -> unbeaten s p -> unbeaten s' p.
Proof.
  intros [_ Ha _] [(bp & Hbp & Htp) Hp]. split; [destruct (akin_lookup _ _ Ha p bp Hbp) as (bp' & Hbp' & Hkp); exists bp'; by rewrite (ak_tx _ _ Hkp)|].
  intros q b' Hb' Htx Hq. destruct (akin_back _ _ Ha q b' Hb') as (b & Hb & Hk). rewrite (akin_less _ _ Ha). rewrite (ak_tx _ _ Hk) in Htx.
  apply (Hp q b Hb Htx). by apply (sound_akin _ _ _ Ha).
Qed.

(** The active chain of [s] is the best of the chains of [s0] whose blocks
    are all there and none of which is found invalid; all its blocks were
    connected, and the candidates are the chains that are not worse. *)
Definition most_work_active (g : ptr) s0 s : Prop :=
  ready g s /\ chain_accepted s /\ exists tip, Tip (chainActive s) = Some tip /\ anchor s tip /\
    forall q b, idx s0 !! q = Some b -> nChainTx b <> 0 -> sound (idx s0) q -> (forall h x, ancestor (idx s0) q h = Some x -> ~ rejects x) -> less s0 tip q = false.

(** The chain that is not beaten is itself a candidate. *)
Lemma anchor_unbeaten s a p : works_ok (idx s) -> anchor s a -> unbeaten s p -> sound (idx s) p -> (forall h q, ancestor (idx s) p h = Some q -> accepts q) ->
  (exists b, idx s !! a = Some b /\ nChainTx b <> 0) -> anchor s p.
Proof.
  intros Hw [Hc Hs _ Hfull] [(b & Hb & Htx) Hp] Hsp Hacc (ba & Hba & Htxa).
  assert (p ∈ setBlockIndexCandidates s) as Hpc by (apply (Hfull p b Hb Htx Hsp), (Hp a ba); done). split; [done|done|done|].
  intros q bq Hq Htq Hsq Hl. destruct (less_total _ q p bq b Hw Hq Hb Hl) as [->|E]; [done|]. rewrite (Hp q bq Hq Htq Hsq) in E. done.
Qed.

Lemma finished_active g s0 s : finished g (progressing s0) unbeaten s -> most_work_active g s0 s.
Proof.
  intros (Hr & (Hca & [a Ha] & Hre & Hk) & Hend). split; [done|]. split; [done|]. destruct Hend as [He|(p & Ht & Hb)].
  { pose proof (an_cand _ _ Ha) as Hc. rewrite He in Hc. by apply not_elem_of_empty in Hc. }
  destruct (rd_ok _ _ Hr) as [[Hi Hw _ Hcand _] _ Hch]. exists p. split; [done|].
  assert (in_chain (idx s) (chainActive s) p) as Hpc by (destruct (Tip_lookup _ _ Hch p Ht) as (Hl & _); by eapply in_chain_at). split.
  - destruct (Hcand a (an_cand _ _ Ha)) as (ba & Hba & Htxa). apply (anchor_unbeaten s a); [done|done|done|by apply (sound_active _ Hi _ Hch (rd_good _ _ Hr))| |by exists ba].
    intros h q Hq. apply Hca. by apply (in_chain_down (idx s) Hi (chainActive s) Hch p h).
  - intros q b Hq Htx Hs Hrej. destruct (akin_lookup _ _ Hk q b Hq) as (b' & Hb' & Hkb). rewrite <- (akin_less _ _ Hk). apply (proj2 Hb q b' Hb'); [by rewrite (ak_tx _ _ Hkb)|by apply Hre].
Qed.

Lemma most_work_world g s0 s w : most_work_active g s0 s -> most_work_active g s0 (set_world w s).
Proof.
  intros ([Hok Hg Hge Hfr Hh] & Hca & tip & Ht & [] & Hbest). split; [split; [by apply node_ok_world|done..]|]. split; [done|]. exists tip. split; [done|]. split; [by split|done].
Qed.

End Best.

(** ** A node that has to come back *)

(** The block 5 is active and the block 4, the best candidate, breaks the
    rules. *)
Lemma toy_laws bad : TipLaws (option ptr) (H := toy_ops false bad) (fun _ _ => True) (fun w o => w = o) (fun p => p <> bad) (fun p => p = bad).
Proof.
  constructor; cbn [toy_ops ReadBlockFromDisk connect_coins disconnect_coins FlushStateToDisk mempool_connected mempool_disconnected mempool_reorg].
  - done.
  - intros block st p t w v t' w' _. case_bool_decide; intros [= <- <- <-]; apply akin_index_refl.
  - intros block st p t w v t' w' _. case_bool_decide; intros [= <- <- <-]; apply fails_same_refl.
  - intros block st p t w v t' w' b Hst _ _. unfold fair, DoS. rewrite Hst. case_bool_decide; intros [= <- <- <-]; done.
  - intros block st p t w v t' w' b Hst _ _ ->. unfold DoS. rewrite Hst. case_bool_decide as Hp; intros [= <- <- <-]; done.
  - intros block st p t w v w' Hst [= <- <-]. done.
  - intros block st p t w v w' b Hb _ [= <- <-] _. by rewrite Hb.
  - intros st w v w' Hst [= <- <-]. done.
  - intros st w v w' o -> [= <- <-]. done.
  - done.
Qed.

Lemma stored_good p b : tIndex (stored_tree []) !! p = Some b -> block_good b.
Proof. intros Hb. apply stored_back in Hb as (b0 & _ & ->). by split. Qed.

Lemma stored_sound p : sound (tIndex (stored_tree [])) p.
Proof. intros h q b _. apply stored_good. Qed.

Lemma stored_chain : wf_chain (tIndex (stored_tree [])) [Some 0; Some 1; Some 5]%nat.
Proof.
  intros i e Hi. destruct i as [|[|[|]]]; cbn in Hi; [| | |done]; injection Hi as <-;
    (eexists _, _; split; [reflexivity|]; split; [vm_compute; reflexivity|]; split; [reflexivity|]); intros j Hj; [lia| |];
    injection Hj as <-; reflexivity.
Qed.

Lemma stored_heights p b : tIndex (stored_tree []) !! p = Some b -> nHeight b + 32 < 2 ^ 31.
Proof.
  assert (map_Forall (fun _ b => (nHeight b + 32 <? 2 ^ 31) = true) (tIndex (stored_tree []))) as Hm by (apply (bool_decide_unpack _); vm_compute; exact I).
  intros Hb. apply Z.ltb_lt. exact (Hm p b Hb).
Qed.

Lemma stored_work : work_grows (tIndex (stored_tree [])).
Proof.
  set (m := tIndex (stored_tree [])).
  assert (map_Forall (fun _ b => match pprev b ≫= (m !!.) with Some bq => eval (nChainWork bq) <? eval (nChainWork b) | None => true end = true) m) as Hm
    by (apply (bool_decide_unpack _); vm_compute; exact I).
  intros p b q bq Hp Hq Hbq. pose proof (Hm p b Hp) as Hlt. cbn beta in Hlt. rewrite Hq in Hlt. cbn [mbind option_bind] in Hlt. rewrite Hbq in Hlt. by apply Z.ltb_lt.
Qed.

Lemma stored_ready {W} (w : W) : ready 0 (stored_node [] w).
Proof.
  constructor; [constructor; [apply stored_ok|exact stored_work|exact stored_chain]| |reflexivity| |exact stored_heights].
  - intros q b _. exact (stored_good q b).
  - intros q Hq. apply elem_of_list_to_set in Hq. revert q Hq. apply Forall_forall. repeat constructor; vm_compute; reflexivity.
Qed.

Lemma stored_5 : exists b, tIndex (stored_tree []) !! 5%nat = Some b /\ nHeight b = 2.
Proof. eexists. split; [vm_compute; reflexivity|reflexivity]. Qed.

Lemma stored_anchor {W} (w : W) (accepts : ptr -> Prop) : accepts 0%nat -> accepts 1%nat -> accepts 5%nat -> anchor (accepts := accepts) (stored_node [] w) 5.
Proof.
  intros A0 A1 A5. constructor.
  - apply elem_of_list_to_set. repeat constructor.
  - apply stored_sound.
  - intros h q Hq. destruct stored_5 as (b5 & Hb5 & Hh5). pose proof (ancestor_range _ 5 b5 h q Hb5 Hq) as Hr. rewrite Hh5 in Hr. clear Hb5. assert (h = 0 \/ h = 1 \/ h = 2) as [->|[->| ->]] by lia.
    all: vm_compute in Hq; injection Hq as <-; assumption.
  - intros q b Hb _ _ Hl.
    assert (map_Forall (fun q _ => CBlockIndexWorkComparator (tIndex (stored_tree [])) q 5 || bool_decide (q ∈ [2; 3; 4; 5]%nat) = true) (tIndex (stored_tree []))) as Hm
      by (apply (bool_decide_unpack _); vm_compute; exact I).
    pose proof (Hm q b Hb) as Hq. cbn beta in Hq. change (CBlockIndexWorkComparator (tIndex (stored_tree [])) q 5 = false) in Hl. rewrite Hl in Hq. apply bool_decide_eq_true in Hq. by apply elem_of_list_to_set.
Qed.

Lemma stored_accepted {W} (w : W) (accepts : ptr -> Prop) : accepts 0%nat -> accepts 1%nat -> accepts 5%nat -> chain_accepted (accepts := accepts) (stored_node [] w).
Proof.
  intros A0 A1 A5 q (b & Hb & [Hr Hc]%chain_at_Some). cbn [stored_node chainActive] in *.
  destruct (Z.to_nat (nHeight b)) as [|[|[|]]]; cbn in Hc; [| | |done]; by injection Hc as <-.
Qed.

