(* ===== verification/TipCoins.v ===== *)
(** * The coins of the tip ([validation.cpp])

    [ConnectTip] and [DisconnectTip] run [ConnectBlock] and [DisconnectBlock]
    on a cache over [pcoinsTip] and flush it.  This is what stands behind
    [TipOps], and the file shows that it keeps [TipLaws]: whatever a block
    contains, [ConnectBlock] changes no more of the index than the status of
    the block, and a block it calls invalid is invalid by its own fault. *)

From S2P Require Import Prelude ArithUint256 StrEncodings Uint256 Chain Params Versionbits Pow Tx Interpreter CheckTx Coins Undo TxInputs AuxPow ConnectBlock Headers Candidates Activate BestChain.
From stdpp Require Import list gmap.
#[local] Open Scope Z_scope.

(** ** What the early returns report *)

Definition behaves {R A} (P : R -> Prop) (x : run R A) (Q : A -> Prop) : Prop := match x with Continue a => Q a | Return r => P r | Crash => True end.

Lemma behaves_bind {R A B} (P : R -> Prop) (x : run R A) (f : A -> run R B) Q1 Q2 : behaves P x Q1 -> (forall a, Q1 a -> behaves P (f a) Q2) -> behaves P (x ≫= f) Q2.
Proof. destruct x as [a|r|]; cbn; auto. Qed.

Lemma behaves_lift {R A} (P : R -> Prop) (o : outcome A) : behaves P (lift o) (fun a => o = Ret a).
Proof. by destruct o. Qed.

Lemma behaves_lifted {R A} (P : R -> Prop) (o : outcome A) : behaves P (lift o) (fun _ => True).
Proof. by destruct o. Qed.

Lemma behaves_mono {R A} (P : R -> Prop) (x : run R A) (Q1 Q2 : A -> Prop) : behaves P x Q1 -> (forall a, Q1 a -> Q2 a) -> behaves P x Q2.
Proof. destruct x; cbn; auto. Qed.

Lemma behaves_finish {R} (P : R -> Prop) (x : run R R) r : behaves P x P -> finish x = Ret r -> P r.
Proof. destruct x; cbn; intros Hx [= <-]; done. Qed.

Lemma DoS_fair level code reason debug st : fair (DoS level false code reason false debug st).
Proof. unfold fair, DoS. by destruct (mode st). Qed.

Lemma Invalid_fair code reason debug st : fair (Invalid false code reason debug st).
Proof. apply DoS_fair. Qed.

Lemma Abort_fair message st : fair (AbortNode message st).
Proof. done. Qed.

Create HintDb fair.
#[local] Hint Resolve DoS_fair Invalid_fair Abort_fair : fair.

(** Follows a body of checks whose state stays the same. *)
Ltac behaves_step :=
  match goal with
  | |- behaves _ (_ ≫= _) _ => eapply behaves_bind; [|intros; cbv beta in *]
  | |- behaves _ (match ?x with _ => _ end) _ => destruct x
  | |- behaves _ (lift _) _ => apply behaves_lift
  | |- behaves _ (Return _) _ => cbn [behaves fst snd]; solve [auto with fair]
  | |- behaves _ (Continue _) _ => cbn [behaves]; solve [eauto]
  end.
Ltac behaves_solve := repeat behaves_step.

Lemma check_outputs_fair vout acc st : behaves fair (check_outputs vout acc st) (fun _ => True).
Proof. revert acc. induction vout as [|o vout IH]; intros acc; cbn [check_outputs]; [done|]. behaves_solve. apply IH. Qed.

Lemma check_duplicates_fair vin s st : behaves fair (check_duplicates vin s st) (fun _ => True).
Proof. revert s. induction vin as [|i vin IH]; intros s; cbn [check_duplicates]; [done|]. behaves_solve. apply IH. Qed.

Lemma check_prevouts_fair vin st : behaves fair (check_prevouts vin st) (fun _ => True).
Proof. induction vin as [|i vin IH]; cbn [check_prevouts]; [done|]. behaves_solve. apply IH. Qed.

(** A test that may be left out. *)
Lemma behaves_if {R} (P : R -> Prop) (c : bool) (x y : run R unit) : behaves P x (fun _ => True) -> behaves P y (fun _ => True) -> behaves P (if c then x else y) (fun _ => True).
Proof. by destruct c. Qed.

Lemma behaves_skip {R A B} (P : R -> Prop) (x : run R A) (f : A -> run R B) Q : behaves P x (fun _ => True) -> (forall a, behaves P (f a) Q) -> behaves P (x ≫= f) Q.
Proof. intros Hx Hf. by apply (behaves_bind P x f (fun _ => True)). Qed.

Lemma CheckTransaction_fair tx st f v : mode st = MODE_VALID -> CheckTransaction tx st f = Ret v -> fair v.
Proof.
  intros Hst. unfold CheckTransaction. apply (behaves_finish fair). do 3 (match goal with |- behaves _ (if ?c then _ else _) _ => destruct c; [behaves_step|] end).
  apply behaves_skip; [apply check_outputs_fair|intros _]. apply behaves_skip; [apply behaves_if; [apply check_duplicates_fair|done]|intros _].
  apply behaves_skip; [apply behaves_if; [behaves_solve|apply check_prevouts_fair]|intros _]. exact Hst.
Qed.

Definition fair_of {A} (r : verdict * A) : Prop := fair r.1.

Lemma fair_of_pair {A} v (a : A) : fair v -> fair_of (v, a).
Proof. done. Qed.

#[local] Hint Resolve fair_of_pair : fair.

Section Coins.
Context {V : Type} `{CoinsViewOps V}.
Implicit Types (c : CCoinsViewCache V).

Lemma inputs_loop_fair params h vin acc st c : behaves fair_of (inputs_loop params h vin acc st c) (fun _ => True).
Proof.
  revert acc c. induction vin as [|i vin IH]; intros acc c; cbn [inputs_loop]; [done|]. destruct (AccessCoins _ c) as [o c1]. apply behaves_skip; [apply behaves_lifted|intros coins].
  apply behaves_skip; [apply behaves_if; [|done]|intros _]; [behaves_solve|]. apply behaves_skip; [apply behaves_lifted|intros out].
  destruct (_ || _); [behaves_step|apply IH].
Qed.

Lemma CheckTxInputs_fair params tx st h c r : mode st = MODE_VALID -> CheckTxInputs params tx st h c = Ret r -> fair r.1.
Proof.
  intros Hst. unfold CheckTxInputs. apply (behaves_finish fair_of). destruct (HaveInputs tx c) as [have c1]. destruct have; cbn [negb]; [|behaves_step].
  apply behaves_skip; [apply inputs_loop_fair|intros [nValueIn c2]]. apply behaves_skip; [apply behaves_lifted|intros valueOut].
  destruct (_ <? _); [behaves_step|]. destruct (_ <? 0); [behaves_step|]. destruct (negb _); [behaves_step|]. exact Hst.
Qed.
End Coins.

Lemma check_transactions_valid vtx st st' : mode st = MODE_VALID -> check_transactions vtx st = Continue st' -> mode st' = MODE_VALID.
Proof.
  revert st. induction vtx as [|tx vtx IH]; intros st Hst; cbn [check_transactions]; [by intros [= <-]|].
  destruct (CheckTransaction tx st true) as [[ok st1]|] eqn:E; [|done]. apply (CheckTransaction_fair _ _ _ _ Hst) in E. cbn [lift mbind run_bind].
  destruct ok; cbn [negb]; [|done]. by apply IH.
Qed.

(** ** The entry of the block *)

Lemma land_lor_apart n x y : Z.land x y = 0 -> Z.land (Z.lor n x) y = Z.land n y.
Proof. intros E. by rewrite Z.land_lor_distr_l, E, Z.lor_0_r. Qed.

Lemma status_akin b u x : Z.land x BLOCK_FAILED_MASK = 0 -> Z.land x BLOCK_HAVE_DATA = 0 -> akin b (set_nStatus (Z.lor (nStatus b) x) (set_nUndoPos u b)).
Proof.
  intros E1 E2. split; [by split|done|done| |]; unfold block_failed, block_missing; cbn [set_nStatus set_nUndoPos nStatus]; by rewrite land_lor_apart.
Qed.

Lemma RaiseValidity_akin b : akin b (RaiseValidity BLOCK_VALID_SCRIPTS b).1 /\ block_failed (RaiseValidity BLOCK_VALID_SCRIPTS b).1 = block_failed b.
Proof. destruct (RaiseValidity_keeps BLOCK_VALID_SCRIPTS b) as (? & ? & ? & _ & ? & Hf); [reflexivity..|]. split; [|done]. split; try done. by rewrite Hf. Qed.

Lemma akin_trans b1 b2 b3 : akin b1 b2 -> akin b2 b3 -> akin b1 b3.
Proof. intros [[] ? ? ? ?] [[] ? ? ? ?]. split; [split|..]; try congruence. auto. Qed.

(** ** [ConnectBlock] *)

Section Node.
Context {crypto : Crypto}.
Variable generateMTRandom : Z -> Z -> Z.
Variable undo_size : CBlockUndo -> Z.
Variable FindUndoPos : CValidationState -> Z -> Z -> verdict * CDiskBlockPos.
Variable UndoWriteToDisk : CBlockUndo -> CDiskBlockPos -> uint256 -> option CDiskBlockPos.
Variable WriteTxIndex : list (uint256 * CDiskTxPos) -> bool.
Variable theParams : ParamsTree.
Variable hashAssumeValid : uint256.
Variable nScriptCheckThreads : Z.
Variable fTxIndex : bool.
(** [FindUndoPos] fails only with [AbortNode] or an error that says why. *)
Hypothesis FindUndoPos_fair : forall st nFile size v pos, mode st = MODE_VALID -> FindUndoPos st nFile size = (v, pos) ->
  if v.1 then mode v.2 = MODE_VALID else state_IsInvalid v.2 = false.

Lemma CheckBlock_valid block st fPOW fRoot st' mark : mode st = MODE_VALID -> CheckBlock theParams block st fPOW fRoot = Ret ((true, st'), mark) -> mode st' = MODE_VALID.
Proof.
  intros Hst HC. unfold CheckBlock in HC. destruct (fChecked block); [by injection HC as <- <-|].
  destruct (finish _) as [v|] eqn:E; [|done]. cbn in HC. injection HC as -> _.
  apply (finish_accepts fst) in E; [|apply check_block_refuses|done]. revert E. unfold check_block_body.
  intros ([ok st1] & E1%lift_Continue & E)%bind_Continue. unfold CheckBlockHeader in E1. destruct (deref _) as [cons|]; cbn [mbind outcome_bind] in E1; [|done].
  assert (ok = true -> st1 = st) as Hsame by (destruct (if fPOW then _ else _); [unfold DoS in E1; destruct (mode st)|]; by injection E1 as <- <-).
  destruct ok; cbn [negb] in E; [|done]. rewrite (Hsame eq_refl) in E.
  apply bind_Continue in E as ([] & _ & E). apply bind_Continue in E as ([] & _ & E).
  apply bind_Continue in E as (tx0 & _ & E). destruct (IsCoinBase tx0); cbn [negb] in E; [|done].
  apply bind_Continue in E as ([] & _ & E). apply bind_Continue in E as (st2 & Htx & E). apply bind_Continue in E as (n & _ & E).
  destruct (_ <? _); [done|]. injection E as <-. by apply (check_transactions_valid _ _ _ Hst Htx).
Qed.

Section View.
Context {V : Type} `{CoinsViewOps V}.
Implicit Types (c : CCoinsViewCache V).

Lemma connect_inputs_fair t p f tx st c : behaves fair_of (connect_inputs t p f tx st c) (fun _ => True).
Proof.
  unfold connect_inputs. destruct (IsCoinBase tx); [done|]. destruct (HaveInputs tx c) as [have c1]. destruct have; cbn [negb]; [|behaves_step].
  apply behaves_skip; [apply behaves_lifted|intros [l c2]]. apply behaves_skip; [apply behaves_lifted|intros locks]. destruct (negb locks); [behaves_step|done].
Qed.

Lemma BIP30_fair vtx st c : behaves fair_of (BIP30_loop vtx st c) (fun _ => True).
Proof. revert c. induction vtx as [|tx vtx IH]; intros c; cbn [BIP30_loop]; [done|]. destruct (AccessCoins _ c) as [o c1]. destruct (match o with Some _ => _ | None => _ end); [behaves_step|apply IH]. Qed.

Lemma check_script_fair cs tx i flags store pv acc st c : behaves fair_of (check_script cs tx i flags store pv acc st c) (fun _ => True).
Proof.
  unfold check_script. apply behaves_skip; [apply behaves_lifted|intros ck]. destruct pv; [done|].
  apply behaves_skip; [apply behaves_lifted|intros [ok err]]. destruct ok; [done|]. apply behaves_skip; [apply behaves_if; [|done]|intros _; behaves_step].
  apply behaves_skip; [apply behaves_lifted|intros ck2]. apply behaves_skip; [apply behaves_lifted|intros [ok2 err2]]. destruct ok2; [behaves_step|done].
Qed.

Lemma scripts_loop_fair l tx i flags store pv acc st c : behaves fair_of (scripts_loop l tx i flags store pv acc st c) (fun _ => True).
Proof.
  revert i acc c. induction l as [|txin l IH]; intros i acc c; cbn [scripts_loop]; [done|]. destruct (AccessCoins _ c) as [o c1].
  apply behaves_skip; [apply behaves_lifted|intros coins]. apply behaves_skip; [apply check_script_fair|intros vChecks]. apply IH.
Qed.

Lemma CheckInputs_fair t tx st fs flags store pv c : mode st = MODE_VALID ->
  behaves fair_of (CheckInputs theParams t tx st fs flags store pv c) (fun r => mode r.1.2 = MODE_VALID).
Proof.
  intros Hst. unfold CheckInputs. destruct (negb _); [|exact Hst]. apply behaves_skip; [apply behaves_lifted|intros [h c1]].
  eapply behaves_bind; [apply behaves_lift|]. intros [[ok st1] c2] E. apply (CheckTxInputs_fair _ _ _ _ _ _ Hst) in E. destruct ok; cbn [negb]; [|exact E].
  apply behaves_skip; [destruct fs; [apply scripts_loop_fair|done]|intros [vChecks c3]]. exact E.
Qed.

Lemma connect_fee_fair t fs fj flags tx n st c : mode st = MODE_VALID ->
  behaves fair_of (connect_fee theParams nScriptCheckThreads t fs fj flags tx n st c) (fun r => mode r.1.2 = MODE_VALID).
Proof.
  intros Hst. unfold connect_fee. destruct (IsCoinBase tx); [exact Hst|]. apply behaves_skip; [apply behaves_lifted|intros [valueIn c1]].
  apply behaves_skip; [apply behaves_lifted|intros valueOut]. eapply behaves_bind; [by apply CheckInputs_fair|]. intros [[l st1] c2] Hl. exact Hl.
Qed.

Lemma connect_tx_fair t p h fs fj flags lf i tx pg : mode (pg_state pg) = MODE_VALID ->
  behaves fair_of (connect_tx theParams nScriptCheckThreads (V := V) t p h fs fj flags lf i tx pg) (fun pg' => mode (pg_state pg') = MODE_VALID).
Proof.
  intros Hst. unfold connect_tx. apply behaves_skip; [apply connect_inputs_fair|intros c]. apply behaves_skip; [apply behaves_lifted|intros [cost c1]].
  destruct (_ <? _); [behaves_step|]. eapply behaves_bind; [by apply connect_fee_fair|]. intros [[[n l] st1] c2] Hl. apply behaves_skip; [apply behaves_lifted|intros [undo c3]]. exact Hl.
Qed.

Lemma connect_loop_fair t p h fs fj flags lf i vtx pg : mode (pg_state pg) = MODE_VALID ->
  behaves fair_of (connect_loop theParams nScriptCheckThreads (V := V) t p h fs fj flags lf i vtx pg) (fun pg' => mode (pg_state pg') = MODE_VALID).
Proof.
  revert i pg. induction vtx as [|tx vtx IH]; intros i pg Hst; cbn [connect_loop]; [exact Hst|]. eapply behaves_bind; [by apply connect_tx_fair|]. intros pg' Hst'. by apply IH.
Qed.

Definition tree_akin (t t' : BlockTree) : Prop := akin_index (tIndex t) (tIndex t') /\ fails_same (tIndex t) (tIndex t').

Lemma tree_akin_refl t : tree_akin t t.
Proof. split; [apply akin_index_refl|apply fails_same_refl]. Qed.

Lemma write_undo_fair t p b hp undo st : tIndex t !! p = Some b -> mode st = MODE_VALID ->
  behaves fair (write_undo undo_size FindUndoPos UndoWriteToDisk t p b hp undo st) (fun r => mode r.2 = MODE_VALID /\ tree_akin t r.1).
Proof.
  intros Hb Hst. unfold write_undo. destruct (_ || _); [|split; [done|apply tree_akin_refl]].
  apply (behaves_bind _ _ _ (fun r => mode r.2 = MODE_VALID /\ akin b r.1 /\ block_failed r.1 = block_failed b)).
  - destruct (CDiskBlockPos_IsNull _); [|split; [done|]; split; [apply akin_refl|done]]. destruct (FindUndoPos _ _ _) as [[ok st1] pos] eqn:E. apply (FindUndoPos_fair _ _ _ _ _ Hst) in E. cbn [fst snd] in E.
    destruct ok; cbn [negb]; [|cbn; unfold fair; cbn; by rewrite E]. destruct (UndoWriteToDisk _ _ _) as [pos'|]; [|behaves_step]. split; [done|].
    split; [by apply (status_akin b (p_nPos pos') BLOCK_HAVE_UNDO)|]. unfold block_failed. cbn [fst set_nStatus set_nUndoPos nStatus]. by rewrite land_lor_apart.
  - intros [b1 st1] (Hst1 & Hk & Hf). cbn [fst snd] in *. destruct (RaiseValidity_akin b1) as [Hk2 Hf2]. split; [done|]. cbn [fst tIndex]. split.
    + apply (akin_insert _ _ b); [done|]. by apply (akin_trans _ b1).
    + intros q bq bq' Hq. cbn [tIndex]. destruct (decide (q = p)) as [->|Hne]; [rewrite lookup_insert_eq|rewrite lookup_insert_ne by done; congruence].
      intros [= <-]. rewrite Hf2, Hf. congruence.
Qed.

(** The verdict is fair and the index is what it was, but for the status. *)
Definition settled (t : BlockTree) (r : verdict * world (V := V)) : Prop := fair r.1 /\ tree_akin t (w_tree r.2).

Lemma settled_same t v (w : world (V := V)) : fair v -> w_tree w = t -> settled t (v, w).
Proof. intros Hv Ew. split; [done|]. cbn. rewrite Ew. apply tree_akin_refl. Qed.

Lemma in_world_settled {A} t (w : world (V := V)) (x : run (verdict * CCoinsViewCache V) A) Q : w_tree w = t -> behaves fair_of x Q -> behaves (settled t) (in_world w x) Q.
Proof. intros Ew. destruct x as [a|r|]; cbn; [done| |done]. intros Hr. by apply settled_same. Qed.

Lemma connect_end_settled block p b hp cp pg (w : world (V := V)) : tIndex (w_tree w) !! p = Some b -> mode (pg_state pg) = MODE_VALID ->
  behaves (settled (w_tree w)) (connect_end generateMTRandom undo_size FindUndoPos UndoWriteToDisk WriteTxIndex fTxIndex block p b hp cp false pg w) (settled (w_tree w)).
Proof.
  intros Hb Hst. unfold connect_end. do 3 (apply behaves_skip; [apply behaves_lifted|intros ?]). destruct (_ <? _); [by apply settled_same; [apply DoS_fair|]|].
  apply behaves_skip; [apply behaves_lifted|intros ok]. destruct ok; cbn [negb]; [|by apply settled_same; [apply DoS_fair|]]. cbn [w_tree w_view w_cache w_fChecked].
  pose proof (write_undo_fair (w_tree w) p b hp (pg_blockundo pg) (pg_state pg) Hb Hst) as Hw. destruct (write_undo _ _ _ _ _ _ _ _ _) as [[t st1]|v|]; cbn [behaves] in *; [|by apply settled_same|done].
  destruct Hw as [Hst1 Ht]. destruct (_ && _); by split.
Qed.

Lemma connect_body_settled block st p cp (w : world (V := V)) : mode st = MODE_VALID ->
  behaves (settled (w_tree w)) (connect_body generateMTRandom undo_size FindUndoPos UndoWriteToDisk WriteTxIndex theParams hashAssumeValid nScriptCheckThreads fTxIndex block st p cp false w) (settled (w_tree w)).
Proof.
  intros Hst. unfold connect_body. eapply behaves_bind; [apply behaves_lift|]. intros b Hb. apply behaves_skip; [apply behaves_lifted|intros consensus].
  eapply behaves_bind; [apply behaves_lift|]. intros [[ok st1] checked] HC. destruct ok; cbn [negb].
  2:{ apply settled_same; [|done]. unfold fair. destruct (corruptionPossible st1) eqn:Ec; [done|]. cbn. auto. }
  apply (CheckBlock_valid _ _ _ _ _ _ Hst) in HC. apply behaves_skip; [apply behaves_lifted|intros hp]. destruct (cache_GetBestBlock _) as [h c].
  do 2 (apply behaves_skip; [apply behaves_lifted|intros ?]). destruct (blob_eq _ _); [by apply settled_same|].
  do 2 (apply behaves_skip; [apply behaves_lifted|intros ?]). apply behaves_skip; [apply in_world_settled; [done|]; destruct a2; [apply BIP30_fair|done]|intros c2].
  apply behaves_skip; [apply behaves_lifted|intros [[flags lf] vcache]]. eapply behaves_bind; [apply in_world_settled; [done|]; apply connect_loop_fair; exact HC|].
  intros pg Hpg. cbv beta in *. change (w_tree w) with (w_tree (mkWorld (pg_view pg) (w_tree w) vcache checked)). destruct (tIndex (w_tree w) !! p) as [b'|] eqn:Eb; [|done]. injection Hb as ->.
  by apply (connect_end_settled block p b hp cp pg (mkWorld c2 (w_tree w) vcache checked)).
Qed.

Lemma ConnectBlock_settled block st p cp (w : world (V := V)) r : mode st = MODE_VALID ->
  ConnectBlock generateMTRandom undo_size FindUndoPos UndoWriteToDisk WriteTxIndex theParams hashAssumeValid nScriptCheckThreads fTxIndex block st p cp false w = Ret r -> settled (w_tree w) r.
Proof. intros Hst. apply behaves_finish. by apply connect_body_settled. Qed.
End View.

(** ** The operations on the tip *)

Section Tip.
Context {V : Type} `{CoinsViewOps V} {M : Type}.

(** The cache [pcoinsTip], the cache of the deployments and the memory pool. *)
Record tip_world := mkTip { pcoinsTip : CCoinsViewCache V; versionbitscache : VersionBitsCache; tw_mempool : M }.

Variable chainparams : ParamsTree.
Variable ReadBlock : CBlockIndex -> option CBlock.
Variable UndoReadFromDisk : CDiskBlockPos -> uint256 -> option CBlockUndo.
Variable FlushState FlushPeriodic : CValidationState -> tip_world -> verdict * tip_world.
Variable snapshot_active shutdown : tip_world -> bool.
Variable background : tip_world -> tip_world.
Variable pool_connected : CBlock -> Z -> M -> M.
Variable pool_disconnected : CBlock -> tip_world -> M.
Variable pool_reorg : tip_world -> M.

(** An [assert] that fails. *)
Definition process_ends (st : CValidationState) : verdict := Error (str "assertion failed") st.

(** [CCoinsViewCache view(pcoinsTip)], the block, and [view.Flush()]. *)
Definition tip_connect (block : CBlock) (st : CValidationState) (pindex : ptr) (t : BlockTree) (w : tip_world) : verdict * BlockTree * tip_world :=
  match ConnectBlock generateMTRandom undo_size FindUndoPos UndoWriteToDisk WriteTxIndex theParams hashAssumeValid nScriptCheckThreads fTxIndex
          block st pindex chainparams false (mkWorld (newCache (pcoinsTip w)) t (versionbitscache w) (fChecked block)) with
  | Abort => (process_ends st, t, w)
  | Ret ((ok, st), w') =>
      if negb ok then ((false, st), w_tree w', mkTip (base (w_view w')) (w_cache w') (tw_mempool w))
      else match Flush (w_view w') with
           | Ret (true, c) => ((true, st), w_tree w', mkTip (base c) (w_cache w') (tw_mempool w))
           | _ => (process_ends st, w_tree w', w)
           end
  end.

(** When a block cannot be disconnected the coins stay as they are. *)
Definition tip_disconnect (block : CBlock) (st : CValidationState) (pindex : ptr) (t : BlockTree) (w : tip_world) : verdict * tip_world :=
  match tIndex t !! pindex with
  | None => (process_ends st, w)
  | Some b =>
      let pos := GetUndoPos b in
      match pprev b ≫= (tIndex t !!.), CDiskBlockPos_IsNull pos with
      | None, false => (process_ends st, w)
      | prev, null =>
          let hashPrev := match prev with Some bp => phashBlock bp | None => uint256_null end in
          match DisconnectBlock (b_vtx block) (if (null : bool) then None else UndoReadFromDisk pos hashPrev) (phashBlock b) hashPrev (nHeight b) false (newCache (pcoinsTip w)) with
          | Ret (Some (true, _, c)) =>
              match Flush c with
              | Ret (true, c) => ((true, st), mkTip (base c) (versionbitscache w) (tw_mempool w))
              | _ => (process_ends st, w)
              end
          | Ret _ => ((false, st), w)
          | Abort => (process_ends st, w)
          end
      end
  end.

Definition coins_ops : TipOps tip_world := {|
  ReadBlockFromDisk w b := ReadBlock b;
  connect_coins := tip_connect;
  disconnect_coins := tip_disconnect;
  FlushStateToDisk := FlushState;
  mempool_connected block h w := mkTip (pcoinsTip w) (versionbitscache w) (pool_connected block h (tw_mempool w));
  mempool_disconnected block w := mkTip (pcoinsTip w) (versionbitscache w) (pool_disconnected block w);
  mempool_reorg w := mkTip (pcoinsTip w) (versionbitscache w) (pool_reorg w);
  IsSnapshotChainstateActive w := snapshot_active w;
  FlushStatePeriodic := FlushPeriodic;
  MaybeStepBackgroundValidation := background;
  ShutdownRequested w := shutdown w
|}.

(** ** They keep the laws *)

(** Writing the state fails only with [AbortNode]. *)
Hypothesis FlushState_fair : forall st w v w', mode st = MODE_VALID -> FlushState st w = (v, w') -> if v.1 then mode v.2 = MODE_VALID else state_IsInvalid v.2 = false.

Lemma tip_connect_settled block st p t w v t' w' : mode st = MODE_VALID -> tip_connect block st p t w = (v, t', w') -> fair v /\ tree_akin t t'.
Proof.
  intros Hst. unfold tip_connect. destruct (ConnectBlock _ _ _ _ _ _ _ _ _ _ _ _ _ _ _) as [[[ok st1] w1]|] eqn:E; [|intros [= <- <- <-]; split; [done|apply tree_akin_refl]].
  apply (ConnectBlock_settled _ _ _ _ _ _ Hst) in E as [Hf Ht]. cbn [w_tree fst snd] in *. destruct ok; cbn [negb]; [|by intros [= <- <- <-]].
  destruct (Flush (w_view w1)) as [[[] c]|]; by intros [= <- <- <-].
Qed.

Lemma tip_disconnect_fair block st p t w v w' : mode st = MODE_VALID -> tip_disconnect block st p t w = (v, w') -> if v.1 then mode v.2 = MODE_VALID else state_IsInvalid v.2 = false.
Proof.
  intros Hst. unfold tip_disconnect. assert (state_IsInvalid st = false) as Hni by (unfold state_IsInvalid; by rewrite Hst).
  destruct (tIndex t !! p) as [b|]; [|by intros [= <- <-]]. destruct (pprev b ≫= _) as [bp|], (CDiskBlockPos_IsNull _); try (by intros [= <- <-]).
  all: destruct (DisconnectBlock _ _ _ _ _ _ _) as [[[[[] ?] c]|]|]; try (by intros [= <- <-]). all: destruct (Flush c) as [[[] ?]|]; by intros [= <- <-].
Qed.

#[local] Instance coins_laws : TipLaws tip_world (H := coins_ops) (fun _ _ => True) (fun _ _ => True) (fun _ => True) (fun _ => True).
Proof.
  constructor; cbn [coins_ops ReadBlockFromDisk connect_coins disconnect_coins FlushStateToDisk]; try done.
  - intros block st p t w v t' w' Hst E. by apply (tip_connect_settled _ _ _ _ _ _ _ _ Hst E).
  - intros block st p t w v t' w' Hst E. by apply (tip_connect_settled _ _ _ _ _ _ _ _ Hst E).
  - intros block st p t w v t' w' b Hst _ _ E. by apply (tip_connect_settled _ _ _ _ _ _ _ _ Hst E).
  - intros. by destruct v as [[] ?].
  - apply tip_disconnect_fair.
Qed.

(** ** Activation over the coins *)

#[local] Abbreviation idx s := (tIndex (n_tree s)).

(** No candidate that is left and whose blocks are all good is better than
    [p]. *)
Definition tops (s : Node tip_world) (p : ptr) : Prop := forall q, q ∈ setBlockIndexCandidates s -> sound (idx s) q -> CBlockIndexWorkComparator (idx s) p q = false.

Lemma tops_found g s r s' : ready g s -> found s r s' -> forall p, r = Some p -> tops s' p.
Proof.
  intros Hr Hf p -> q Hq Hs. pose proof (marks_akin _ _ _ (fo_marks _ _ _ Hf)) as Ha. rewrite (akin_less _ _ Ha). destruct (fo_best _ _ _ Hf) as (_ & _ & Hbest).
  apply (fo_sub _ _ _ Hf) in Hq. destruct (rd_ok _ _ Hr) as [[Hi _ _ Hcand _] _ Hch]. destruct (Hcand q Hq) as (b & Hb & _).
  apply Hbest; [done|]. apply (usable_sound _ Hi _ Hch (rd_good _ _ Hr) q b Hb). by apply (found_sound _ _ _ _ _ Hr Hf); [exists b|].
Qed.

Lemma tops_keeps s s' p : keeps s s' -> tops s p -> tops s' p.
Proof. intros [_ Ha Hc] Hp q Hq Hs. rewrite (akin_less _ _ Ha). apply Hp; [by apply Hc|]. by apply (sound_akin _ _ _ Ha). Qed.

(** The tip is the best candidate. *)
Definition settled_on (g : ptr) (s : Node tip_world) : Prop :=
  ready g s /\ (setBlockIndexCandidates s = ∅ \/ exists p, Tip (chainActive s) = Some p /\ tops s p).

End Tip.
End Node.

(** A node over an empty database whose files take every write; block 4 of
    the index is the best candidate. *)
Definition tip_ops : TipOps (tip_world (V := CCoinsViewDB) (M := unit)) :=
  coins_ops (crypto := demo_crypto) (fun _ _ => 0) (fun _ => 0) (fun st _ _ => ((true, st), mkPos 0 0)) (fun _ pos _ => Some pos) (fun _ => true) CMainParams uint256_null 0 false (V := CCoinsViewDB)
    CMainParams (fun b => if block_missing b then None else Some supply_block) (fun _ _ => None) (fun st w => ((true, st), w)) (fun st w => ((true, st), w)) (fun _ => false) (fun _ => false) (fun w => w)
    (fun _ _ m => m) (fun _ w => tw_mempool w) (fun w => tw_mempool w).
Definition tip_start : tip_world (V := CCoinsViewDB) (M := unit) := mkTip supply_cache [∅; ∅; ∅] tt.

