(* ===== verification/ReceivedBlock.v ===== *)
(** * Receiving the transactions of a block ([validation.cpp])

    [ReceivedBlockTransactions]: a block whose ancestors are all there becomes
    a candidate, together with the descendants that were waiting for it in
    [mapBlocksUnlinked].  This keeps up what [ActivateBestChain] starts from:
    every chain that is complete and not worse than the tip is a candidate. *)

From S2P Require Import Prelude ArithUint256 StrEncodings Uint256 Chain Params Versionbits Pow Tx CheckTx Coins Undo AuxPow ConnectBlock Headers Candidates Activate BestChain.
From stdpp Require Import list gmap.
#[local] Open Scope Z_scope.

Definition BLOCK_OPT_WITNESS : Z := 128.

(** The assignments to [pindexNew] before the queue. *)
Definition received_entry (consensus : Params.Params) (block : CBlock) (pos : CDiskBlockPos) (b : CBlockIndex) : CBlockIndex :=
  let status := Z.lor (nStatus b) BLOCK_HAVE_DATA in
  let status := if IsWitnessEnabled (pprev b) consensus then Z.lor status BLOCK_OPT_WITNESS else status in
  (RaiseValidity BLOCK_VALID_TRANSACTIONS
     (mkIndex (phashBlock b) (pprev b) (pskip b) (nHeight b) (p_nFile pos) (p_nPos pos) 0 (nChainWork b) (u32 (Z.of_nat (length (b_vtx block)))) 0 status
        (nVersion b) (hashMerkleRoot b) (nTime b) (nBits b) (nNonce b) (nSequenceId b) (nTimeMax b))).1.

(** [pindex->nChainTx] and [pindex->nSequenceId] in the queue. *)
Definition linked_entry (prevTx sequence : Z) (b : CBlockIndex) : CBlockIndex :=
  mkIndex (phashBlock b) (pprev b) (pskip b) (nHeight b) (nFile b) (nDataPos b) (nUndoPos b) (nChainWork b) (nTx b) (u32 (prevTx + nTx b)) (nStatus b)
    (nVersion b) (hashMerkleRoot b) (nTime b) (nBits b) (nNonce b) sequence (nTimeMax b).

Section Ops.
Context {W : Type}.
#[local] Abbreviation idx s := (tIndex (n_tree s)).

Definition set_sequence (n : Z) (s : Node W) : Node W :=
  mkNode (n_tree s) (chainActive s) (setBlockIndexCandidates s) (mapBlocksUnlinked s) (pindexBestInvalid s) (gFailedBlocks s) n (n_world s).
Definition insert_candidate (p : ptr) (s : Node W) : Node W := set_candidates ({[p]} ∪ setBlockIndexCandidates s) s.

(** One round of [while (!queue.empty())]: the entry, the candidate, and the
    blocks that waited for it. *)
Definition link_block (pindex : ptr) (s : Node W) : outcome (list ptr * Node W) :=
  b ← deref (idx s !! pindex);
  prevTx ← match pprev b with None => Ret 0 | Some q => bq ← deref (idx s !! q); Ret (nChainTx bq) end;
  let s := set_tree (put_entry pindex (linked_entry prevTx (nBlockSequenceId s) b) (n_tree s)) (set_sequence (i32 (nBlockSequenceId s + 1)) s) in
  let s := if match Tip (chainActive s) with None => true | Some tip => negb (CBlockIndexWorkComparator (idx s) pindex tip) end
           then insert_candidate pindex s else s in
  let waits e := bool_decide (e.1 = Some pindex) in
  Ret (map snd (filter (fun e => waits e = true) (mapBlocksUnlinked s)), set_unlinked (filter (fun e => waits e = false) (mapBlocksUnlinked s)) s).

(** Each round takes one block out of the queue, which came from
    [mapBlocksUnlinked]. *)
Fixpoint link_queue (fuel : nat) (queue : list ptr) (s : Node W) : outcome (Node W) :=
  match queue with
  | [] => Ret s
  | pindex :: queue =>
      match fuel with
      | O => Abort
      | S fuel' => '(children, s) ← link_block pindex s; link_queue fuel' (queue ++ children) s
      end
  end.

Definition ReceivedBlockTransactions (consensus : Params.Params) (block : CBlock) (pindexNew : ptr) (pos : CDiskBlockPos) (s : Node W) : outcome (Node W) :=
  b ← deref (idx s !! pindexNew);
  let s := set_tree (set_entry pindexNew (received_entry consensus block pos b) (n_tree s)) s in
  match pprev b with
  | None => link_queue (S (length (mapBlocksUnlinked s))) [pindexNew] s
  | Some q =>
      bq ← deref (idx s !! q);
      if negb (nChainTx bq =? 0) then link_queue (S (length (mapBlocksUnlinked s))) [pindexNew] s
      else if IsValid BLOCK_VALID_TREE bq then Ret (set_unlinked (mapBlocksUnlinked s ++ [(Some q, pindexNew)]) s)
      else Ret s
  end.
End Ops.

(** ** Changing one entry *)

Lemma grows_ancestor m m' p h : grows m m' -> grows m' m -> ancestor m' p h = ancestor m p h.
Proof.
  intros G1 G2. destruct (ancestor m p h) as [q|] eqn:E; [by apply (ancestor_grows _ _ G1)|]. destruct (ancestor m' p h) as [q|] eqn:E'; [|done].
  by rewrite (ancestor_grows _ _ G2 _ _ _ E') in E.
Qed.

Lemma same_sym b b' : same b b' -> same b' b.
Proof. intros []. by split. Qed.

Section Update.
Context {W : Type} {accepts : ptr -> Prop}.
#[local] Abbreviation idx s := (tIndex (n_tree s)).
#[local] Abbreviation anchor := (anchor (accepts := accepts)).
Implicit Types (s : Node W).

(** The entry of [p], whose chain was not complete, becomes [b'], and [p] may
    become a candidate. *)
Context (g tip p : ptr) (b b' : CBlockIndex) (s s' : Node W).
Context (Hr : ready g s) (Hanchor : anchor s tip) (Htip : Tip (chainActive s) = Some tip).
Context (Hp : idx s !! p = Some b) (Htx : nChainTx b = 0) (Hsame : same b b').
Context (Hidx : idx s' = <[p := b']> (idx s)) (Hchain : chainActive s' = chainActive s) (Hinvalid : pindexBestInvalid s' = pindexBestInvalid s).
Context (Hlinked : nChainTx b' <> 0 -> forall q bq, pprev b = Some q -> idx s !! q = Some bq -> nChainTx bq <> 0).
Context (Hsub : setBlockIndexCandidates s ⊆ setBlockIndexCandidates s').
Context (Honly : forall q, q ∈ setBlockIndexCandidates s' -> q ∈ setBlockIndexCandidates s \/ (q = p /\ nChainTx b' <> 0 /\ ancestor (idx s) p 0 = Some g)).
Context (Hadded : nChainTx b' <> 0 -> CBlockIndexWorkComparator (idx s') p tip = false -> p ∈ setBlockIndexCandidates s').

Lemma update_lookup q : idx s' !! q = if decide (q = p) then Some b' else idx s !! q.
Proof using Hidx. rewrite Hidx. destruct (decide (q = p)) as [->|]; [apply lookup_insert_eq|by apply lookup_insert_ne]. Qed.

Lemma update_grows : grows (idx s) (idx s') /\ grows (idx s') (idx s).
Proof using Hidx Hp Hsame.
  split; intros q c Hq; rewrite ?update_lookup in *; destruct (decide (q = p)) as [->|]; [|eauto using same_refl| |eauto using same_refl].
  - exists b'. split; [done|]. by assert (c = b) as -> by congruence.
  - exists b. split; [done|]. assert (c = b') as -> by congruence. by apply same_sym.
Qed.

Lemma update_ancestor q h : ancestor (idx s') q h = ancestor (idx s) q h.
Proof using Hidx Hp Hsame. destruct update_grows. by apply grows_ancestor. Qed.

(** [p] is not on a complete chain. *)
Lemma update_apart q bq h x : idx s !! q = Some bq -> nChainTx bq <> 0 -> ancestor (idx s) q h = Some x -> x <> p.
Proof using Hp Hr Htx.
  intros Hq Htq Hx ->. destruct (rd_ok _ _ Hr) as [[Hi _ Hl _ _] _ _]. by apply (way_tx _ q bq p b Hi Hl Hq Htq); [exists h|..].
Qed.

Lemma update_sound q bq : idx s !! q = Some bq -> nChainTx bq <> 0 -> (sound (idx s') q <-> sound (idx s) q).
Proof using Hidx Hp Hr Hsame Htx.
  intros Hq Htq. split; intros Hs h x c Hx Hc.
  - apply (Hs h x c); [by rewrite update_ancestor|]. rewrite update_lookup, decide_False by (by apply (update_apart q bq h)). done.
  - rewrite update_ancestor in Hx. apply (Hs h x c); [done|]. rewrite update_lookup, decide_False in Hc by (by apply (update_apart q bq h)). done.
Qed.

Lemma update_in_chain q : in_chain (idx s') (chainActive s') q <-> in_chain (idx s) (chainActive s) q.
Proof using Hchain Hidx Hp Hsame.
  rewrite Hchain. destruct update_grows as [G1 G2]. split; intros (c & Hc & Hat).
  - destruct (G2 q c Hc) as (c' & Hc' & Hs). exists c'. split; [done|]. by rewrite (same_height _ _ Hs).
  - destruct (G1 q c Hc) as (c' & Hc' & Hs). exists c'. split; [done|]. by rewrite (same_height _ _ Hs).
Qed.

Lemma tip_complete : exists bt, idx s !! tip = Some bt /\ nChainTx bt <> 0.
Proof using Hanchor Hr. apply (co_cand _ (nk_cand _ (rd_ok _ _ Hr))), Hanchor. Qed.

Lemma update_candidates_ok : candidates_ok s'.
Proof using Hidx Hinvalid Hlinked Honly Hp Hr Hsame Htx.
  destruct update_grows as [G1 G2]. destruct (rd_ok _ _ Hr) as [[Hi Hw Hl Hc Hb] _ _]. split.
  - by apply (wf_index_same (idx s)).
  - intros q c Hq. destruct (G2 q c Hq) as (c' & Hc' & Hs). rewrite <- (same_work _ _ Hs). by apply (Hw q).
  - intros q c r cr Hq Hqr Hr' Ht. rewrite update_lookup in Hq, Hr'. destruct (decide (r = p)) as [->|Hne].
    + exfalso. destruct (decide (q = p)) as [->|].
      * injection Hq as <-. rewrite (same_pprev _ _ Hsame) in Hqr. pose proof (wf_prev _ Hi p b Hp) as Hw'. rewrite Hqr in Hw'. destruct Hw' as (b2 & Hb2 & Hh). assert (b2 = b) as -> by congruence. lia.
      * by apply (Hl q c p b Hq Hqr Hp Ht).
    + destruct (decide (q = p)) as [->|]; [injection Hq as <-; rewrite (same_pprev _ _ Hsame) in Hqr; by apply (Hlinked Ht r)|by apply (Hl q c r)].
  - intros q Hq. rewrite update_lookup. destruct (decide (q = p)) as [->|Hne].
    + destruct (Honly p Hq) as [Hin|(_ & Ht & _)]; [|eauto]. destruct (Hc p Hin) as (c & Hpc & Ht). congruence.
    + destruct (Honly q Hq) as [Hin|(-> & _)]; [by apply Hc|done].
  - intros q. rewrite Hinvalid. intros Hq. destruct (Hb q Hq) as [c Hqc]. destruct (G1 q c Hqc) as (? & -> & _). eauto.
Qed.

Lemma update_ready : ready g s'.
Proof using All.
  destruct update_grows as [G1 G2]. destruct (rd_ok _ _ Hr) as [[Hi _ Hl _ _] Hg Hc]. destruct tip_complete as (bt & Hbt & Htt). split; [split| | | |].
  - apply update_candidates_ok.
  - intros q c r cr Hq Hqr Hr'. destruct (G2 q c Hq) as (c0 & Hq0 & Hs), (G2 r cr Hr') as (cr0 & Hr0 & Hsr). rewrite <- (same_work _ _ Hs), <- (same_work _ _ Hsr).
    apply (Hg q c0 r cr0); [done|by rewrite (same_pprev _ _ Hs)|done].
  - rewrite Hchain. intros i e Hi'. destruct (Hc i e Hi') as (q & c & -> & Hq & Hh & Hprev). destruct (G1 q c Hq) as (c' & Hq' & Hs). exists q, c'.
    rewrite (same_height _ _ Hs), (same_pprev _ _ Hs). done.
  - intros q c Hin Hq. apply update_in_chain in Hin. rewrite update_lookup in Hq. destruct (decide (q = p)) as [->|]; [|by apply (rd_good _ _ Hr q)].
    exfalso. destruct (in_chain_way _ _ p tip Hi Hc Hin Htip) as [h Hh]. by apply (update_apart tip bt h p).
  - by rewrite Hchain, (rd_genesis _ _ Hr).
  - intros q Hq. rewrite update_ancestor. destruct (Honly q Hq) as [Hin|(-> & _ & Hg0)]; [by apply (rd_from _ _ Hr)|done].
  - intros q c Hq. destruct (G2 q c Hq) as (c' & Hq' & Hs). rewrite <- (same_height _ _ Hs). by apply (rd_high _ _ Hr q).
Qed.

Lemma update_anchor : anchor s' tip.
Proof using All.
  destruct tip_complete as (bt & Hbt & Htt). destruct Hanchor as [Hc Hs Hacc Hfull]. assert (tip <> p) as Hne by congruence. split.
  - by apply Hsub.
  - by apply (update_sound tip bt).
  - intros h q. rewrite update_ancestor. apply Hacc.
  - intros q c Hq Ht Hsq Hl. destruct (decide (q = p)) as [->|Hqp].
    + rewrite update_lookup, decide_True in Hq by done. injection Hq as <-. by apply Hadded.
    + rewrite update_lookup, decide_False in Hq by done. apply Hsub, (Hfull q c); [done|done|by apply (update_sound q c)|].
      unfold CBlockIndexWorkComparator in *. by rewrite !update_lookup, !decide_False in Hl by done.
Qed.
End Update.

(** ** The books *)

Section Books.
Context {W : Type} {accepts : ptr -> Prop}.
#[local] Abbreviation idx s := (tIndex (n_tree s)).
#[local] Abbreviation anchor := (anchor (accepts := accepts)).
Implicit Types (s : Node W).

(** The number of transactions of a block, and of the chain up to it. *)
Context (txs total : ptr -> Z).

(** A block that was received, but whose chain is not complete. *)
Definition unlinked_block (q : ptr) (b : CBlockIndex) : Prop := nChainTx b = 0 /\ nTx b = txs q /\ block_missing b = false.

(** [nChainTx] counts the transactions of complete chains; the blocks of the
    queue can be linked; those of [mapBlocksUnlinked] wait for their parent;
    and every block that is neither linked nor in the queue waits for its
    parent, unless the parent has failed. *)
Record books s (queue : list ptr) : Prop := {
  bk_chain : forall p b, idx s !! p = Some b -> nChainTx b = 0 \/ nChainTx b = total p;
  bk_total : forall p b, idx s !! p = Some b -> 1 <= total p < 2 ^ 32 /\ total p = txs p + match pprev b with Some q => total q | None => 0 end;
  bk_queue : forall q, q ∈ queue -> exists b, idx s !! q = Some b /\ unlinked_block q b /\ forall p bp, pprev b = Some p -> idx s !! p = Some bp -> nChainTx bp <> 0;
  bk_unlinked : forall o q, (o, q) ∈ mapBlocksUnlinked s -> exists b, idx s !! q = Some b /\ pprev b = o /\ unlinked_block q b;
  bk_nodup : NoDup (queue ++ map snd (mapBlocksUnlinked s));
  bk_all : forall q b, idx s !! q = Some b -> block_missing b = false -> nChainTx b = 0 ->
    q ∈ queue \/ exists p bp, pprev b = Some p /\ idx s !! p = Some bp /\ ((nChainTx bp = 0 /\ (Some p, q) ∈ mapBlocksUnlinked s) \/ block_failed bp = true)
}.

Definition rooted (g : ptr) s : Prop := forall q b, idx s !! q = Some b -> ancestor (idx s) q 0 = Some g.

(** What linking leaves alone. *)
Definition only_links s s' : Prop :=
  chainActive s' = chainActive s /\ n_world s' = n_world s /\ pindexBestInvalid s' = pindexBestInvalid s /\ gFailedBlocks s' = gFailedBlocks s /\
  setBlockIndexCandidates s ⊆ setBlockIndexCandidates s' /\
  forall q b, idx s !! q = Some b -> exists b', idx s' !! q = Some b' /\ same b b' /\ nStatus b' = nStatus b /\ nTx b' = nTx b.

Lemma only_links_refl s : only_links s s.
Proof. repeat split; try done. eauto using same_refl. Qed.

Lemma only_links_trans s1 s2 s3 : only_links s1 s2 -> only_links s2 s3 -> only_links s1 s3.
Proof.
  intros (A1 & A2 & A3 & A4 & A5 & A6) (B1 & B2 & B3 & B4 & B5 & B6). split; [congruence|]. split; [congruence|]. split; [congruence|]. split; [congruence|]. split; [by etransitivity|].
  intros q b Hq. destruct (A6 q b Hq) as (b' & Hq' & [] & ? & ?). destruct (B6 q b' Hq') as (b'' & Hq'' & [] & ? & ?). exists b''. split; [done|]. split; [split; congruence|]. split; congruence.
Qed.

(** The entries that wait for [x] and the others make up the list. *)
Lemma waits_split (x : ptr) (u : list (option ptr * ptr)) :
  let waits e := bool_decide (e.1 = Some x) in u ≡ₚ filter (fun e => waits e = true) u ++ filter (fun e => waits e = false) u.
Proof.
  cbn. induction u as [|e u IH]; [done|]. rewrite !filter_cons. destruct (bool_decide (e.1 = Some x)) eqn:E.
  - rewrite decide_True, decide_False by done. cbn. by rewrite <- IH.
  - rewrite decide_False, decide_True by done. rewrite <- Permutation_middle. by rewrite <- IH.
Qed.

Lemma linked_total s x queue b : wf_index (idx s) -> books s (x :: queue) -> idx s !! x = Some b ->
  (match pprev b with None => Ret 0 | Some q => bq ← deref (idx s !! q); Ret (nChainTx bq) end) = Ret (total x - txs x) /\ u32 (total x - txs x + nTx b) = total x.
Proof.
  intros Hi Hbk Hx. destruct (bk_queue _ _ Hbk x (list_elem_of_here _ _)) as (b0 & Hb0 & (_ & Hn & _) & Hpar). assert (b0 = b) as -> by congruence.
  destruct (bk_total _ _ Hbk x b Hx) as [Ht Hsum]. split; [|rewrite Hn; replace (total x - txs x + txs x) with (total x) by lia; apply wrapU_small; unfold inU; lia].
  pose proof (wf_prev _ Hi x b Hx) as Hw. destruct (pprev b) as [q|] eqn:Eq; [|f_equal; lia]. destruct Hw as (bq & Hq & _). rewrite Hq. cbn [deref mbind outcome_bind]. f_equal.
  destruct (bk_chain _ _ Hbk q bq Hq) as [E|E]; [by destruct (Hpar q bq eq_refl Hq)|]. lia.
Qed.

(** The books after [x] was linked. *)
Lemma link_books s s' x queue b b' : books s (x :: queue) -> idx s !! x = Some b -> same b b' -> nChainTx b' = total x -> nStatus b' = nStatus b ->
  idx s' = <[x := b']> (idx s) -> mapBlocksUnlinked s' = filter (fun e => bool_decide (e.1 = Some x) = false) (mapBlocksUnlinked s) ->
  books s' (queue ++ map snd (filter (fun e => bool_decide (e.1 = Some x) = true) (mapBlocksUnlinked s))).
Proof.
  intros Hbk Hx Hsame Htx Hst Hidx Hu. pose proof (bk_nodup _ _ Hbk) as Hnd. cbn [app] in Hnd. apply NoDup_cons in Hnd as [Hnx Hnd]. rewrite elem_of_app in Hnx.
  destruct (bk_total _ _ Hbk x b Hx) as [Ht _].
  assert (forall q, q <> x -> idx s' !! q = idx s !! q) as Hother by (intros q Hq; rewrite Hidx; by apply lookup_insert_ne).
  assert (idx s' !! x = Some b') as Hx' by (rewrite Hidx; apply lookup_insert_eq).
  assert (forall o q, (o, q) ∈ mapBlocksUnlinked s -> q <> x) as Hux by (intros o q Hq ->; apply Hnx; right; apply list_elem_of_fmap; by exists (o, x)).
  split.
  - intros p c Hp. destruct (decide (p = x)) as [->|Hne]; [right; congruence|]. rewrite Hother in Hp by done. by apply (bk_chain _ _ Hbk).
  - intros p c Hp. destruct (decide (p = x)) as [->|Hne]; [|rewrite Hother in Hp by done; by apply (bk_total _ _ Hbk)].
    assert (c = b') as -> by congruence. rewrite (same_pprev _ _ Hsame). by apply (bk_total _ _ Hbk).
  - intros q [Hq|Hq]%elem_of_app.
    + assert (q <> x) as Hne by (intros ->; apply Hnx; by left). destruct (bk_queue _ _ Hbk q ltac:(by right)) as (c & Hc & Huc & Hpar). exists c. rewrite Hother by done. split; [done|]. split; [done|].
      intros p bp Hp Hbp. destruct (decide (p = x)) as [->|Hpx]; [assert (bp = b') as -> by congruence; lia|]. rewrite Hother in Hbp by done. by apply (Hpar p).
    + apply list_elem_of_fmap in Hq as ([o q'] & -> & [Ho Hin]%list_elem_of_filter). apply bool_decide_eq_true in Ho. cbn in Ho. subst o. cbn [snd].
      destruct (bk_unlinked _ _ Hbk _ _ Hin) as (c & Hc & Hprev & Huc). exists c. rewrite Hother by (by eapply Hux). split; [done|]. split; [done|].
      intros p bp Hp Hbp. assert (p = x) as -> by congruence. assert (bp = b') as -> by congruence. lia.
  - intros o q. rewrite Hu. intros [_ Hin]%list_elem_of_filter. destruct (bk_unlinked _ _ Hbk _ _ Hin) as (c & Hc & Hprev & Huc). exists c. by rewrite Hother by (by eapply Hux).
  - rewrite Hu, <- app_assoc, <- map_app. by rewrite <- (waits_split x (mapBlocksUnlinked s)).
  - intros q c Hq Hm Hc0. destruct (decide (q = x)) as [->|Hne]; [assert (c = b') as -> by congruence; lia|]. rewrite Hother in Hq by done.
    destruct (bk_all _ _ Hbk q c Hq Hm Hc0) as [[->|Hin]%elem_of_cons|(p & bp & Hp & Hbp & Hw)]; [done|left; apply elem_of_app; by left|].
    destruct (decide (p = x)) as [->|Hpx].
    + destruct Hw as [[_ Hin]|Hf].
      * left. apply elem_of_app. right. apply list_elem_of_fmap. exists (Some x, q). split; [done|]. apply list_elem_of_filter. split; [by apply bool_decide_eq_true|done].
      * right. exists x, b'. split; [done|]. split; [done|]. right. assert (bp = b) as -> by congruence. unfold block_failed in *. by rewrite Hst.
    + right. exists p, bp. rewrite Hother by done. split; [done|]. split; [done|]. destruct Hw as [[H0 Hin]|Hf]; [left|by right]. split; [done|]. rewrite Hu. apply list_elem_of_filter. split; [|done].
      apply bool_decide_eq_false. cbn. congruence.
Qed.

(** ** Linking *)

(** What holds between the rounds. *)
Record linking (g tip : ptr) s (queue : list ptr) : Prop := {
  li_ready : ready g s;
  li_anchor : anchor s tip;
  li_tip : Tip (chainActive s) = Some tip;
  li_rooted : rooted g s;
  li_books : books s queue
}.

Lemma rooted_grows g s s' : grows (idx s) (idx s') -> grows (idx s') (idx s) -> rooted g s -> rooted g s'.
Proof. intros G1 G2 Hr q c Hq. rewrite (grows_ancestor _ _ _ _ G1 G2). destruct (G2 q c Hq) as (c' & Hq' & _). by apply (Hr q c'). Qed.

Lemma link_block_ok g tip x queue s : linking g tip s (x :: queue) ->
  exists children s', link_block x s = Ret (children, s') /\ linking g tip s' (queue ++ children) /\ only_links s s' /\
    (length (queue ++ children) + length (mapBlocksUnlinked s') = length queue + length (mapBlocksUnlinked s))%nat.
Proof.
  intros [Hr Ha Ht Hro Hbk]. destruct (rd_ok _ _ Hr) as [[Hi _ _ _ _] _ _]. destruct (bk_queue _ _ Hbk x (list_elem_of_here _ _)) as (b & Hx & (H0 & Hn & Hm) & Hpar).
  destruct (linked_total s x queue b Hi Hbk Hx) as [Eprev Etx]. destruct (bk_total _ _ Hbk x b Hx) as [Htot _]. unfold link_block. rewrite Hx. cbn [deref mbind outcome_bind]. rewrite Eprev. cbn [mbind outcome_bind].
  set (b' := linked_entry _ _ b). set (s1 := set_tree (put_entry x b' (n_tree s)) _). change (Tip (chainActive s1)) with (Tip (chainActive s)). rewrite Ht.
  set (s2 := if negb _ then insert_candidate x s1 else s1). set (s3 := set_unlinked _ s2). eexists _, s3. split; [done|].
  assert (same b b') as Hsame by (by split). assert (nChainTx b' = total x) as Hb' by exact Etx.
  assert (idx s3 = <[x := b']> (idx s)) as Hidx by (unfold s3, s2; by destruct (negb _)).
  assert (mapBlocksUnlinked s2 = mapBlocksUnlinked s) as Hu by (unfold s2; by destruct (negb _)).
  assert (chainActive s3 = chainActive s /\ n_world s3 = n_world s /\ pindexBestInvalid s3 = pindexBestInvalid s /\ gFailedBlocks s3 = gFailedBlocks s) as (Hc & Hw & Hbi & Hgf) by (unfold s3, s2; by destruct (negb _)).
  assert (setBlockIndexCandidates s ⊆ setBlockIndexCandidates s3) as Hsub by (unfold s3, s2; destruct (negb _); [exact (union_subseteq_r _ _)|done]).
  assert (forall q, q ∈ setBlockIndexCandidates s3 -> q ∈ setBlockIndexCandidates s \/ (q = x /\ nChainTx b' <> 0 /\ ancestor (idx s) x 0 = Some g)) as Honly.
  { unfold s3, s2. intros q. destruct (negb _); [|by left]. cbn [set_unlinked insert_candidate set_candidates setBlockIndexCandidates]. intros [->%elem_of_singleton|]%elem_of_union; [right|by left]. split; [done|]. split; [lia|]. by apply (Hro x b). }
  assert (CBlockIndexWorkComparator (idx s3) x tip = false -> x ∈ setBlockIndexCandidates s3) as Hadd.
  { rewrite Hidx. change (<[x := b']> (idx s)) with (idx s1). intros E. unfold s3, s2. rewrite E. cbn [negb set_unlinked insert_candidate set_candidates setBlockIndexCandidates]. by apply elem_of_union_l, elem_of_singleton_2. }
  destruct (update_grows x b b' s s3 Hx Hsame Hidx) as [G1 G2]. rewrite Hu. split; [split|split].
  - apply (update_ready (accepts := accepts) g tip x b b' s s3); auto.
  - apply (update_anchor g tip x b b' s s3); auto.
  - by rewrite Hc.
  - by apply (rooted_grows g s).
  - apply (link_books s s3 x queue b b'); try done. unfold s3. cbn [set_unlinked mapBlocksUnlinked]. by rewrite Hu.
  - split; [done|]. do 4 (split; [done|]). intros q c Hq. rewrite Hidx. destruct (decide (q = x)) as [->|Hne]; [exists b'; rewrite lookup_insert_eq; assert (c = b) as -> by congruence; done|].
    exists c. rewrite lookup_insert_ne by done. split; [done|]. split; [apply same_refl|done].
  - unfold s3. cbn [set_unlinked mapBlocksUnlinked]. rewrite Hu, length_app, length_map. pose proof (Permutation_length (waits_split x (mapBlocksUnlinked s))) as Hl. rewrite length_app in Hl. lia.
Qed.

Lemma link_queue_ok g tip fuel : forall queue s, linking g tip s queue -> (length queue + length (mapBlocksUnlinked s) <= fuel)%nat ->
  exists s', link_queue fuel queue s = Ret s' /\ linking g tip s' [] /\ only_links s s'.
Proof.
  induction fuel as [|fuel IH]; intros [|x queue] s Hl Hf; cbn [length] in Hf; try lia; [by exists s; split; [|split; [|apply only_links_refl]]..|].
  cbn [link_queue]. destruct (link_block_ok g tip x queue s Hl) as (children & s1 & -> & Hl1 & Ho1 & Hlen). cbn [mbind outcome_bind].
  destruct (IH (queue ++ children) s1 Hl1 ltac:(lia)) as (s' & E & Hl' & Ho'). exists s'. split; [done|]. split; [done|]. by eapply only_links_trans.
Qed.

(** ** Receiving *)

Lemma received_entry_spec consensus block pos b : let b' := received_entry consensus block pos b in
  same b b' /\ nChainTx b' = 0 /\ nTx b' = u32 (Z.of_nat (length (b_vtx block))) /\ block_missing b' = false /\ block_failed b' = block_failed b.
Proof.
  cbn zeta. unfold received_entry. cbn [IsWitnessEnabled]. set (b1 := mkIndex _ _ _ _ _ _ _ _ _ _ _ _ _ _ _ _ _ _).
  assert (block_missing b1 = false) as Hm.
  { unfold block_missing, b1. cbn [nStatus]. apply Z.eqb_neq. intros E. assert (Z.testbit (Z.land (Z.lor (nStatus b) BLOCK_HAVE_DATA) BLOCK_HAVE_DATA) 3 = false) as E3 by by rewrite E.
    rewrite Z.land_spec, Z.lor_spec, orb_true_r in E3. done. }
  assert (block_failed b1 = block_failed b) as Hf by (unfold block_failed, b1; cbn [nStatus]; by rewrite Z.land_lor_distr_l, Z.lor_0_r).
  destruct (RaiseValidity_keeps BLOCK_VALID_TRANSACTIONS b1) as (H1 & _ & H2 & H3 & H4 & H5); [reflexivity..|]. split; [|rewrite H2, H3, H4, H5; done]. destruct H1. split; done.
Qed.

(** Headers enter the index as valid in the tree. *)
Definition leveled s : Prop := forall p b, idx s !! p = Some b -> BLOCK_VALID_TREE <= Z.land (nStatus b) BLOCK_VALID_MASK.

Lemma invalid_failed b : BLOCK_VALID_TREE <= Z.land (nStatus b) BLOCK_VALID_MASK -> IsValid BLOCK_VALID_TREE b = false -> block_failed b = true.
Proof. unfold IsValid, block_failed. destruct (negb _); [done|]. intros Hl E%Z.leb_gt. lia. Qed.

(** The books after the transactions of [p] arrived, with [p] in the queue or
    among the blocks that wait. *)
Lemma received_books s s' p b b' queue : books s [] -> idx s !! p = Some b -> block_missing b = true -> nChainTx b = 0 -> same b b' -> unlinked_block p b' -> block_failed b' = block_failed b ->
  idx s' = <[p := b']> (idx s) ->
  (queue = [p] /\ mapBlocksUnlinked s' = mapBlocksUnlinked s /\ (forall q bq, pprev b = Some q -> idx s !! q = Some bq -> nChainTx bq <> 0)) \/
  (exists q bq, queue = [] /\ pprev b = Some q /\ q <> p /\ idx s !! q = Some bq /\
     ((nChainTx bq = 0 /\ mapBlocksUnlinked s' = mapBlocksUnlinked s ++ [(Some q, p)]) \/ (block_failed bq = true /\ mapBlocksUnlinked s' = mapBlocksUnlinked s))) ->
  (forall q, pprev b = Some q -> q <> p) -> books s' queue.
Proof.
  intros Hbk Hp Hm H0 Hsame Hub Hf Hidx Hcase Hpp. destruct Hub as (H0' & Hn' & Hm').
  assert (forall q, q <> p -> idx s' !! q = idx s !! q) as Hother by (intros q Hq; rewrite Hidx; by apply lookup_insert_ne).
  assert (idx s' !! p = Some b') as Hp' by (rewrite Hidx; apply lookup_insert_eq).
  assert (forall o q, (o, q) ∈ mapBlocksUnlinked s -> q <> p) as Hup by (intros o q Hq ->; destruct (bk_unlinked _ _ Hbk _ _ Hq) as (c & Hc & _ & _ & _ & Hmc); congruence).
  assert (forall e, e ∈ mapBlocksUnlinked s -> e ∈ mapBlocksUnlinked s') as Hsub.
  { intros e He. destruct Hcase as [(_ & -> & _)|(q & bq & _ & _ & _ & _ & [[_ ->]|[_ ->]])]; [done|apply elem_of_app; by left|done]. }
  split.
  - intros q c Hq. destruct (decide (q = p)) as [->|Hne]; [left; congruence|]. rewrite Hother in Hq by done. by apply (bk_chain _ _ Hbk).
  - intros q c Hq. destruct (decide (q = p)) as [->|Hne]; [|rewrite Hother in Hq by done; by apply (bk_total _ _ Hbk)].
    assert (c = b') as -> by congruence. rewrite (same_pprev _ _ Hsame). by apply (bk_total _ _ Hbk).
  - intros q Hq. destruct Hcase as [(-> & _ & Hl)|(? & ? & -> & _)]; [|by apply not_elem_of_nil in Hq]. apply list_elem_of_singleton in Hq as ->. exists b'. split; [done|]. split; [done|].
    intros r br Hr Hbr. rewrite (same_pprev _ _ Hsame) in Hr. rewrite Hother in Hbr by (by apply Hpp). by apply (Hl r br).
  - intros o q Hin. assert ((o, q) ∈ mapBlocksUnlinked s \/ (o = pprev b /\ q = p)) as [Hin'|[-> ->]].
    { destruct Hcase as [(_ & Hu & _)|(r & br & _ & Hr & _ & _ & [[_ Hu]|[_ Hu]])]; rewrite Hu in Hin; [by left| |by left]. apply elem_of_app in Hin as [|[= -> ->]%list_elem_of_singleton]; auto. }
    + destruct (bk_unlinked _ _ Hbk _ _ Hin') as (c & Hc & Hpc & Huc). exists c. by rewrite Hother by (by eapply Hup).
    + exists b'. rewrite (same_pprev _ _ Hsame). done.
  - pose proof (bk_nodup _ _ Hbk) as Hnd. cbn [app] in Hnd. assert (p ∉ map snd (mapBlocksUnlinked s)) as Hnp by (intros ([o q] & -> & Hin)%list_elem_of_fmap; by eapply Hup).
    destruct Hcase as [(-> & -> & _)|(q & bq & -> & _ & _ & _ & [[_ ->]|[_ ->]])]; cbn [app]; [by constructor| |done].
    rewrite map_app. cbn [map]. rewrite (Permutation_app_comm _ [snd (Some q, p)]). cbn. by constructor.
  - intros q c Hq Hmc H0c. destruct (decide (q = p)) as [->|Hne].
    + destruct Hcase as [(-> & _)|(r & br & -> & Hr & Hrp & Hbr & Hw)]; [left; by apply list_elem_of_singleton|right]. assert (c = b') as -> by congruence.
      exists r, br. rewrite (same_pprev _ _ Hsame), Hother by done. split; [done|]. split; [done|]. destruct Hw as [[? ->]|[? _]]; [left|by right]. split; [done|]. apply elem_of_app. right. by apply list_elem_of_singleton.
    + rewrite Hother in Hq by done. destruct (bk_all _ _ Hbk q c Hq Hmc H0c) as [Hin|(r & br & Hr & Hbr & Hw)]; [by apply not_elem_of_nil in Hin|right].
      destruct (decide (r = p)) as [->|Hrp].
      * exists p, b'. split; [done|]. split; [done|]. assert (br = b) as -> by congruence. destruct Hw as [[_ Hin]|?]; [left; auto|right; congruence].
      * exists r, br. rewrite Hother by done. split; [done|]. split; [done|]. destruct Hw as [[? Hin]|?]; [left; auto|by right].
Qed.

Lemma received_linking g tip s s' p b b' queue : linking g tip s [] -> idx s !! p = Some b -> nChainTx b = 0 -> same b b' -> nChainTx b' = 0 -> idx s' = <[p := b']> (idx s) ->
  chainActive s' = chainActive s -> pindexBestInvalid s' = pindexBestInvalid s -> setBlockIndexCandidates s' = setBlockIndexCandidates s -> books s' queue -> linking g tip s' queue.
Proof.
  intros [Hr Ha Ht Hro Hbk] Hp H0 Hsame H0' Hidx Hc Hbi Hcand Hbk'. destruct (update_grows p b b' s s' Hp Hsame Hidx) as [G1 G2].
  assert (forall q, q ∈ setBlockIndexCandidates s' -> q ∈ setBlockIndexCandidates s \/ (q = p /\ nChainTx b' <> 0 /\ ancestor (idx s) p 0 = Some g)) as Honly by (rewrite Hcand; auto).
  split; [|  |by rewrite Hc|by apply (rooted_grows g s)|done].
  - apply (update_ready (accepts := accepts) g tip p b b' s s'); try done. by rewrite Hcand.
  - apply (update_anchor g tip p b b' s s'); try done. by rewrite Hcand.
Qed.

(** C12: Receiving the transactions of a block keeps the set of candidates
    complete.  [ReceivedBlockTransactions] returns, and afterwards, as before,
    every chain that is complete, not marked as failed and not worse than the
    tip is a candidate, so that [ActivateBestChain] finds the best one; every
    candidate is complete; [nChainTx] is the number of transactions of the
    chain; and a stored block that is not linked waits in
    [mapBlocksUnlinked] for a parent that is not linked either, unless the
    parent has failed.  Blocks may arrive in any order, each once, and the
    transactions of a chain are fewer than [2^32]. *)
Theorem received_keeps_candidates (consensus : Params.Params) (block : CBlock) (pos : CDiskBlockPos) (g tip p : ptr) (b : CBlockIndex) (s : Node W) :
  linking g tip s [] -> leveled s -> idx s !! p = Some b -> block_missing b = true -> nChainTx b = 0 -> txs p = Z.of_nat (length (b_vtx block)) ->
  exists s' b', ReceivedBlockTransactions consensus block p pos s = Ret s' /\ linking g tip s' [] /\ chainActive s' = chainActive s /\ n_world s' = n_world s /\
    idx s' !! p = Some b' /\ same b b' /\ nTx b' = txs p /\ block_missing b' = false /\ block_failed b' = block_failed b.
Proof.
  intros Hl Hlev Hp Hm H0 Htxs. pose proof (li_ready _ _ _ _ Hl) as Hr. pose proof (li_books _ _ _ _ Hl) as Hbk. destruct (rd_ok _ _ Hr) as [[Hi _ _ _ _] _ _]. destruct (bk_total _ _ Hbk p b Hp) as [Htot Hsum].
  unfold ReceivedBlockTransactions. rewrite Hp. cbn [deref mbind outcome_bind]. destruct (received_entry_spec consensus block pos b) as (Hsame & H0' & Hn & Hm' & Hf). set (b' := received_entry _ _ _ b) in *.
  set (s1 := set_tree _ s). pose proof (wf_prev _ Hi p b Hp) as Hw.
  assert (forall q, pprev b = Some q -> q <> p /\ exists bq, idx s !! q = Some bq /\ 1 <= total q) as Hpar.
  { intros q Eq. rewrite Eq in Hw. destruct Hw as (bq & Hq & Hh). split; [intros ->; assert (bq = b) as -> by congruence; lia|]. exists bq. split; [done|]. by apply (bk_total _ _ Hbk q bq). }
  assert (nTx b' = txs p) as Hn'.
  { rewrite Hn, <- Htxs. apply wrapU_small. unfold inU. destruct (pprev b) as [q|] eqn:Eq; [destruct (Hpar q eq_refl) as (_ & bq & _ & ?)|]; lia. }
  assert (forall u queue, (queue = [p] /\ u = mapBlocksUnlinked s /\ (forall q bq, pprev b = Some q -> idx s !! q = Some bq -> nChainTx bq <> 0)) \/
    (exists q bq, queue = [] /\ pprev b = Some q /\ q <> p /\ idx s !! q = Some bq /\
       ((nChainTx bq = 0 /\ u = mapBlocksUnlinked s ++ [(Some q, p)]) \/ (block_failed bq = true /\ u = mapBlocksUnlinked s))) -> linking g tip (set_unlinked u s1) queue) as Hgo.
  { intros u queue Hcase. apply (received_linking g tip s _ p b b'); try done. apply (received_books s _ p b b'); try done. intros q Eq. by apply Hpar. }
  assert (forall u s', linking g tip s' [] -> only_links (set_unlinked u s1) s' -> exists s2 b2, Ret s' = Ret s2 /\ linking g tip s2 [] /\ chainActive s2 = chainActive s /\ n_world s2 = n_world s /\
    idx s2 !! p = Some b2 /\ same b b2 /\ nTx b2 = txs p /\ block_missing b2 = false /\ block_failed b2 = block_failed b) as Hend.
  { intros u s' Hl' (E1 & E2 & _ & _ & _ & E6). destruct (E6 p b' ltac:(apply lookup_insert_eq)) as (b2 & Hp2 & Hs2 & Hst2 & Hn2). exists s', b2. do 5 (split; [done|]).
    split; [destruct Hsame, Hs2; split; congruence|]. split; [congruence|]. unfold block_missing, block_failed in *. by rewrite Hst2. }
  assert ((forall q bq, pprev b = Some q -> idx s !! q = Some bq -> nChainTx bq <> 0) ->
    exists s', link_queue (S (length (mapBlocksUnlinked s1))) [p] s1 = Ret s' /\ linking g tip s' [] /\ only_links s1 s') as Hq.
  { intros Hlk. apply (link_queue_ok g tip); [|cbn; lia]. apply (Hgo (mapBlocksUnlinked s)). by left. }
  destruct (pprev b) as [q|] eqn:Eq; [|destruct Hq as (s' & -> & Hl' & Ho); [congruence|]; by apply (Hend (mapBlocksUnlinked s))].
  destruct (Hpar q eq_refl) as (Hqp & bq & Hbq & _). assert (idx s1 !! q = Some bq) as -> by (change (idx s1) with (<[p := b']> (idx s)); by rewrite lookup_insert_ne). cbn [deref mbind outcome_bind].
  destruct (Z.eqb_spec (nChainTx bq) 0) as [E0|E0]; cbn [negb].
  - destruct (IsValid BLOCK_VALID_TREE bq) eqn:Ev.
    + apply (Hend (mapBlocksUnlinked s1 ++ [(Some q, p)])); [|apply only_links_refl]. apply Hgo. right. exists q, bq. auto 8.
    + assert (block_failed bq = true) as Hfq by (by apply invalid_failed; [apply (Hlev q)|]).
      apply (Hend (mapBlocksUnlinked s)); [|apply only_links_refl]. apply (Hgo (mapBlocksUnlinked s)). right. exists q, bq. auto 8.
  - destruct Hq as (s' & -> & Hl' & Ho); [congruence|]. by apply (Hend (mapBlocksUnlinked s)).
Qed.
End Books.

(** ** A block that arrives late *)

(** The blocks 3 and 4 have arrived before the block 2. *)
Definition late_entry (p : ptr) (b : CBlockIndex) : CBlockIndex :=
  mkIndex (phashBlock b) (pprev b) (pskip b) (nHeight b) (nFile b) (nDataPos b) (nUndoPos b) (nChainWork b) (if bool_decide (p = 2%nat) then 0 else 1)
    (if bool_decide (p ∈ [2; 3; 4]%nat) then 0 else nHeight b + 1) (Z.lor BLOCK_VALID_TREE (if bool_decide (p = 2%nat) then 0 else BLOCK_HAVE_DATA))
    (nVersion b) (hashMerkleRoot b) (nTime b) (nBits b) (nNonce b) 0 (nTimeMax b).
Definition late_tree : BlockTree :=
  {| tIndex := map_imap (fun p b => Some (late_entry p b)) (tIndex demo_tree); mapBlockIndex := mapBlockIndex demo_tree; pindexBestHeader := pindexBestHeader demo_tree;
     setDirtyBlockIndex := setDirtyBlockIndex demo_tree; nextPtr := nextPtr demo_tree |}.
Definition late_node : Node unit :=
  mkNode late_tree [Some 0%nat; Some 1%nat; Some 5%nat] {[5%nat]} [(Some 2%nat, 3%nat); (Some 3%nat, 4%nat)] None [] 1 tt.
Definition late_total (p : ptr) : Z := nHeight (demo_block p) + 1.

Lemma late_lookup p : tIndex late_tree !! p = late_entry p <$> tIndex demo_tree !! p.
Proof. cbn. rewrite map_lookup_imap. by destruct (tIndex demo_tree !! p). Qed.

Lemma late_back p b : tIndex late_tree !! p = Some b -> exists b0, tIndex demo_tree !! p = Some b0 /\ b = late_entry p b0.
Proof. rewrite late_lookup. destruct (tIndex demo_tree !! p) as [b0|]; [|done]. intros [= <-]. eauto. Qed.

Lemma late_index : wf_index (tIndex late_tree).
Proof.
  apply (wf_index_same (tIndex demo_tree)); [| |exact (wt_index _ demo_tree_wf)].
  - intros p b Hb. exists (late_entry p b). rewrite late_lookup, Hb. split; [done|]. by split.
  - intros p b Hb. apply late_back in Hb as (b0 & Hb0 & ->). exists b0. split; [done|]. by split.
Qed.

(** A test of all entries. *)
Lemma late_forall (f : ptr -> CBlockIndex -> bool) : bool_decide (map_Forall (fun p b => f p b = true) (tIndex late_tree)) = true ->
  forall p b, tIndex late_tree !! p = Some b -> f p b = true.
Proof. intros Hf%bool_decide_eq_true p b Hb. exact (Hf p b Hb). Qed.

Ltac late_test f := let Hf := fresh "Hf" in pose proof (late_forall f ltac:(vm_compute; reflexivity)) as Hf; cbv beta in Hf.

Lemma late_chain : wf_chain (tIndex late_tree) [Some 0; Some 1; Some 5]%nat.
Proof.
  intros i e Hi. destruct i as [|[|[|]]]; cbn in Hi; [| | |done]; injection Hi as <-;
    (eexists _, _; split; [reflexivity|]; split; [vm_compute; reflexivity|]; split; [reflexivity|]); intros j Hj; [lia| |];
    injection Hj as <-; reflexivity.
Qed.

Lemma late_active i q : ([Some 0; Some 1; Some 5]%nat : list (option ptr)) !! i = Some (Some q) -> (q = 0 \/ q = 1 \/ q = 5)%nat.
Proof. destruct i as [|[|[|]]]; cbn; [| | |done]; intros [= <-]; auto. Qed.

Definition parent_of (b : CBlockIndex) : option CBlockIndex := pprev b ≫= (tIndex late_tree !!.).

Lemma late_parent p b q bq : tIndex late_tree !! p = Some b -> pprev b = Some q -> tIndex late_tree !! q = Some bq -> parent_of b = Some bq.
Proof. intros _ E Hq. unfold parent_of. rewrite E. exact Hq. Qed.

Lemma late_ready : ready 0 late_node.
Proof.
  constructor; [constructor; [constructor| |exact late_chain]| |reflexivity| |].
  - exact late_index.
  - intros p b Hb. apply late_back in Hb as (b0 & Hb0 & ->). exact (proj1 (wt_work _ demo_tree_wf p b0 Hb0)).
  - intros p b q bq Hp Hq Hbq Ht. late_test (fun (_ : ptr) b => (nChainTx b =? 0) || match parent_of b with Some bq => negb (nChainTx bq =? 0) | None => true end).
    specialize (Hf p b Hp). rewrite (late_parent p b q bq Hp Hq Hbq) in Hf. apply orb_true_iff in Hf as [E|E]; [apply Z.eqb_eq in E; destruct (Ht E)|]. apply negb_true_iff, Z.eqb_neq in E. exact E.
  - intros p Hp. change (p ∈ ({[5%nat]} : gset ptr)) in Hp. apply elem_of_singleton in Hp as ->. eexists. split; [vm_compute; reflexivity|discriminate].
  - intros p E. discriminate E.
  - intros p b q bq Hp Hq Hbq. late_test (fun (_ : ptr) b => match parent_of b with Some bq => eval (nChainWork bq) <? eval (nChainWork b) | None => true end).
    specialize (Hf p b Hp). rewrite (late_parent p b q bq Hp Hq Hbq) in Hf. apply Z.ltb_lt. exact Hf.
  - intros q b (b' & Hb' & [Hr Hc]%chain_at_Some) Hq. cbn [late_node chainActive] in Hc.
    apply late_active in Hc as Hcase.
    late_test (fun p b => bool_decide (p = 2%nat) || (negb (block_failed b) && negb (block_missing b))). specialize (Hf q b Hq). apply orb_true_iff in Hf as [->%bool_decide_eq_true|[E1 E2]%andb_true_iff]; [clear -Hcase; lia|].
    split; apply negb_true_iff; assumption.
  - intros q Hq. change (q ∈ ({[5%nat]} : gset ptr)) in Hq. apply elem_of_singleton in Hq as ->. vm_compute. reflexivity.
  - intros p b Hb. late_test (fun (_ : ptr) b => nHeight b + 32 <? 2 ^ 31). apply Z.ltb_lt. exact (Hf p b Hb).
Qed.

Lemma late_anchor : anchor (accepts := fun _ => True) late_node 5.
Proof.
  constructor; [apply elem_of_singleton; reflexivity| |intros; exact I|].
  - apply (sound_active _ late_index _ late_chain (rd_good _ _ late_ready)). apply (in_chain_at _ _ 2%nat); [exact late_chain|reflexivity].
  - intros q b Hb Ht _ Hl. late_test (fun p b => (nChainTx b =? 0) || CBlockIndexWorkComparator (tIndex late_tree) p 5 || bool_decide (p = 5%nat)).
    specialize (Hf q b Hb). change (CBlockIndexWorkComparator (tIndex late_tree) q 5 = false) in Hl. rewrite Hl, orb_false_r, orb_true_iff, Z.eqb_eq, bool_decide_eq_true in Hf.
    destruct Hf as [E|E]; [destruct (Ht E)|]. apply elem_of_singleton. exact E.
Qed.

Lemma late_books : books (fun _ => 1) late_total late_node [].
Proof.
  constructor; cbn [late_node n_tree mapBlocksUnlinked].
  - intros p b Hb. late_test (fun p b => (nChainTx b =? 0) || (nChainTx b =? late_total p)). specialize (Hf p b Hb). rewrite orb_true_iff, !Z.eqb_eq in Hf. exact Hf.
  - intros p b Hb. late_test (fun p b => (1 <=? late_total p) && (late_total p <? 2 ^ 32) && (late_total p =? 1 + match pprev b with Some q => late_total q | None => 0 end)).
    specialize (Hf p b Hb). apply andb_true_iff in Hf as [Hf Hsum%Z.eqb_eq]. apply andb_true_iff in Hf as [Hlo%Z.leb_le Hhi%Z.ltb_lt]. exact (conj (conj Hlo Hhi) Hsum).
  - intros q Hq. destruct (not_elem_of_nil _ Hq).
  - intros o q Hin. rewrite !elem_of_cons in Hin. destruct Hin as [E|[E|E]]; [| |destruct (not_elem_of_nil _ E)]; injection E as -> ->;
      (eexists; split; [vm_compute; reflexivity|]; split; [reflexivity|]; split; [reflexivity|]; split; reflexivity).
  - apply (bool_decide_unpack _). vm_compute. exact I.
  - intros q b Hb Hm H0. right.
    late_test (fun p b => block_missing b || negb (nChainTx b =? 0) || bool_decide ((p = 3 /\ pprev b = Some 2) \/ (p = 4 /\ pprev b = Some 3))%nat).
    specialize (Hf q b Hb). rewrite Hm, H0 in Hf. cbn [orb negb Z.eqb] in Hf. apply bool_decide_eq_true in Hf as [[-> E]|[-> E]];
      (eexists _, _; split; [exact E|]; split; [vm_compute; reflexivity|]; left; split; [reflexivity|]); repeat constructor.
Qed.

Lemma late_linking : linking (accepts := fun _ => True) (fun _ => 1) late_total 0 5 late_node [].
Proof.
  constructor; [exact late_ready|exact late_anchor|reflexivity| |exact late_books].
  intros q b Hb. late_test (fun p (_ : CBlockIndex) => bool_decide (ancestor (tIndex late_tree) p 0 = Some 0%nat)). exact (proj1 (bool_decide_eq_true _) (Hf q b Hb)).
Qed.

(** When the block 2 arrives it is linked together with the blocks 3 and 4; it
    has the work of the tip but came later, so only these are candidates. *)
Lemma received_keeps_candidates_witness :
  let block := mkBlock supply_header [supply_cb] false in
  (exists s' b', ReceivedBlockTransactions (main_consensus) block 2 (mkPos 0 8) late_node = Ret s' /\
     linking (accepts := fun _ => True) (fun _ => 1) late_total 0 5 s' [] /\ chainActive s' = chainActive late_node /\ n_world s' = n_world late_node /\
     tIndex (n_tree s') !! 2%nat = Some b' /\ same (late_entry 2 (demo_block 2)) b' /\ nTx b' = 1 /\ block_missing b' = false /\ block_failed b' = block_failed (late_entry 2 (demo_block 2))) /\
  match ReceivedBlockTransactions (main_consensus) block 2 (mkPos 0 8) late_node with
  | Ret s' => setBlockIndexCandidates s' = list_to_set [3; 4; 5]%nat /\ mapBlocksUnlinked s' = [] /\ nBlockSequenceId s' = 4
  | Abort => False
  end.
Proof.
  intros block. split; [|vm_compute; done].
  apply (received_keeps_candidates (fun _ => 1) late_total main_consensus block (mkPos 0 8) 0 5 2 (late_entry 2 (demo_block 2)) late_node late_linking).
  - intros p b Hb. late_test (fun (_ : ptr) b => BLOCK_VALID_TREE <=? Z.land (nStatus b) BLOCK_VALID_MASK). apply Z.leb_le. exact (Hf p b Hb).
  - vm_compute. reflexivity.
  - reflexivity.
  - reflexivity.
  - reflexivity.
Defined.
